(** * POKE443: the check-orchestration engine of [internal/state/state.go]

    A shallow embedding of the status store, the dependency resolver, the
    evaluation pass, the transition detector, the analytics aggregator, the
    event log and the config persister, followed by the properties proved
    about them. *)

From Stdlib Require Import ZArith Lia Ascii String Floats.SpecFloat.
From stdpp Require Import gmap strings list pretty sorting.

Open Scope Z_scope.

(** Pipeline application, to write a run of field assignments in source order. *)
Notation "x |> f" := (f x) (at level 45, left associativity, only parsing).

(** ** Machine integers and time *)

(** Go's [int64]: results of arithmetic are reduced to the signed 64-bit range. *)
Definition minInt64 : Z := - 2 ^ 63.
Definition maxInt64 : Z := 2 ^ 63 - 1.
Definition wrap64 (z : Z) : Z := (z + 2 ^ 63) mod 2 ^ 64 - 2 ^ 63.

(** [time.Time] as nanoseconds counted from the zero Time, so that [IsZero] is
    a comparison with 0; [time.Duration] is an [int64] count of nanoseconds. *)
Definition Time := Z.
Definition Duration := Z.

Definition IsZero (t : Time) : bool := bool_decide (t = 0).

(** [t.Sub(u)]: the difference, saturated to the range of [Duration]. *)
Definition Sub (t u : Time) : Duration :=
  if bool_decide (maxInt64 < t - u) then maxInt64
  else if bool_decide (t - u < minInt64) then minInt64
  else t - u.

(** [d.Milliseconds()]: integer division truncating towards zero. *)
Definition Milliseconds (d : Duration) : Z := Z.quot d 1000000.

(** ** package config *)

Definition CheckType := string.
Definition CheckPing : CheckType := "ping".
Definition CheckHTTP : CheckType := "http".
Definition CheckTCP : CheckType := "tcp".

Module config.

Record Check := mkCheck {
  Type_ : CheckType;
  Enabled : bool;
  URL : string;
  Expect : Z;
  Port : Z;
  ID : string;
  DependsOn : string;
  MQTTNotify : bool
}.

Record Host := mkHost {
  Name : string;
  Address : string;
  Checks : list Check;
  HealthchecksPingURL : string
}.

Record MQTTSettings := mkMQTTSettings {
  mqtt_Enabled : bool;
  Broker : string;
  Username : string;
  Password : string;
  Topic : string;
  ClientID : string
}.

Record Config := mkConfig {
  Hosts : list Host;
  Settings : MQTTSettings
}.

End config.

(** ** package state: data *)

Record CheckDataPoint := mkCheckDataPoint {
  dp_Timestamp : Time;
  dp_OK : bool;
  dp_LatencyMS : Z
}.

Record Event := mkEvent {
  ev_Timestamp : Time;
  ev_HostName : string;
  ev_CheckIdx : Z;
  ev_CheckType : CheckType;
  ev_EventType : string;
  ev_Message : string;
  ev_Duration : Duration
}.

Record CheckStatus := mkCheckStatus {
  cs_Type : CheckType;
  cs_Enabled : bool;
  cs_OK : bool;
  cs_ParentFailed : bool;
  cs_ParentID : string;
  cs_Message : string;
  cs_LatencyMS : Z;
  cs_LatencyHistory : list Z;
  cs_FullHistory : list CheckDataPoint;
  cs_CheckedAt : Time;
  cs_URL : string;
  cs_Expect : Z;
  cs_Port : Z;
  cs_ID : string;
  cs_DependsOn : string;
  cs_MQTTNotify : bool;
  cs_TotalChecks : Z;
  cs_SuccessChecks : Z;
  cs_LastDownAt : Time;
  cs_LastUpAt : Time
}.

(** The zero value of the struct, which a composite literal starts from. *)
Definition zeroCheckStatus : CheckStatus :=
  mkCheckStatus "" false false false "" "" 0 [] [] 0 "" 0 0 "" "" false 0 0 0 0.

(** Field assignments [c.F = v]. *)
Definition with_Type (v : CheckType) (c : CheckStatus) : CheckStatus :=
  let 'mkCheckStatus ty en ok pf pid msg lat lh fh at_ url ex port id dep mq tc sc lda lua := c in
  mkCheckStatus v en ok pf pid msg lat lh fh at_ url ex port id dep mq tc sc lda lua.
Definition with_Enabled (v : bool) (c : CheckStatus) : CheckStatus :=
  let 'mkCheckStatus ty en ok pf pid msg lat lh fh at_ url ex port id dep mq tc sc lda lua := c in
  mkCheckStatus ty v ok pf pid msg lat lh fh at_ url ex port id dep mq tc sc lda lua.
Definition with_OK (v : bool) (c : CheckStatus) : CheckStatus :=
  let 'mkCheckStatus ty en ok pf pid msg lat lh fh at_ url ex port id dep mq tc sc lda lua := c in
  mkCheckStatus ty en v pf pid msg lat lh fh at_ url ex port id dep mq tc sc lda lua.
Definition with_ParentFailed (v : bool) (c : CheckStatus) : CheckStatus :=
  let 'mkCheckStatus ty en ok pf pid msg lat lh fh at_ url ex port id dep mq tc sc lda lua := c in
  mkCheckStatus ty en ok v pid msg lat lh fh at_ url ex port id dep mq tc sc lda lua.
Definition with_ParentID (v : string) (c : CheckStatus) : CheckStatus :=
  let 'mkCheckStatus ty en ok pf pid msg lat lh fh at_ url ex port id dep mq tc sc lda lua := c in
  mkCheckStatus ty en ok pf v msg lat lh fh at_ url ex port id dep mq tc sc lda lua.
Definition with_Message (v : string) (c : CheckStatus) : CheckStatus :=
  let 'mkCheckStatus ty en ok pf pid msg lat lh fh at_ url ex port id dep mq tc sc lda lua := c in
  mkCheckStatus ty en ok pf pid v lat lh fh at_ url ex port id dep mq tc sc lda lua.
Definition with_LatencyMS (v : Z) (c : CheckStatus) : CheckStatus :=
  let 'mkCheckStatus ty en ok pf pid msg lat lh fh at_ url ex port id dep mq tc sc lda lua := c in
  mkCheckStatus ty en ok pf pid msg v lh fh at_ url ex port id dep mq tc sc lda lua.
Definition with_LatencyHistory (v : list Z) (c : CheckStatus) : CheckStatus :=
  let 'mkCheckStatus ty en ok pf pid msg lat lh fh at_ url ex port id dep mq tc sc lda lua := c in
  mkCheckStatus ty en ok pf pid msg lat v fh at_ url ex port id dep mq tc sc lda lua.
Definition with_FullHistory (v : list CheckDataPoint) (c : CheckStatus) : CheckStatus :=
  let 'mkCheckStatus ty en ok pf pid msg lat lh fh at_ url ex port id dep mq tc sc lda lua := c in
  mkCheckStatus ty en ok pf pid msg lat lh v at_ url ex port id dep mq tc sc lda lua.
Definition with_CheckedAt (v : Time) (c : CheckStatus) : CheckStatus :=
  let 'mkCheckStatus ty en ok pf pid msg lat lh fh at_ url ex port id dep mq tc sc lda lua := c in
  mkCheckStatus ty en ok pf pid msg lat lh fh v url ex port id dep mq tc sc lda lua.
Definition with_URL (v : string) (c : CheckStatus) : CheckStatus :=
  let 'mkCheckStatus ty en ok pf pid msg lat lh fh at_ url ex port id dep mq tc sc lda lua := c in
  mkCheckStatus ty en ok pf pid msg lat lh fh at_ v ex port id dep mq tc sc lda lua.
Definition with_Expect (v : Z) (c : CheckStatus) : CheckStatus :=
  let 'mkCheckStatus ty en ok pf pid msg lat lh fh at_ url ex port id dep mq tc sc lda lua := c in
  mkCheckStatus ty en ok pf pid msg lat lh fh at_ url v port id dep mq tc sc lda lua.
Definition with_Port (v : Z) (c : CheckStatus) : CheckStatus :=
  let 'mkCheckStatus ty en ok pf pid msg lat lh fh at_ url ex port id dep mq tc sc lda lua := c in
  mkCheckStatus ty en ok pf pid msg lat lh fh at_ url ex v id dep mq tc sc lda lua.
Definition with_ID (v : string) (c : CheckStatus) : CheckStatus :=
  let 'mkCheckStatus ty en ok pf pid msg lat lh fh at_ url ex port id dep mq tc sc lda lua := c in
  mkCheckStatus ty en ok pf pid msg lat lh fh at_ url ex port v dep mq tc sc lda lua.
Definition with_DependsOn (v : string) (c : CheckStatus) : CheckStatus :=
  let 'mkCheckStatus ty en ok pf pid msg lat lh fh at_ url ex port id dep mq tc sc lda lua := c in
  mkCheckStatus ty en ok pf pid msg lat lh fh at_ url ex port id v mq tc sc lda lua.
Definition with_MQTTNotify (v : bool) (c : CheckStatus) : CheckStatus :=
  let 'mkCheckStatus ty en ok pf pid msg lat lh fh at_ url ex port id dep mq tc sc lda lua := c in
  mkCheckStatus ty en ok pf pid msg lat lh fh at_ url ex port id dep v tc sc lda lua.
Definition with_TotalChecks (v : Z) (c : CheckStatus) : CheckStatus :=
  let 'mkCheckStatus ty en ok pf pid msg lat lh fh at_ url ex port id dep mq tc sc lda lua := c in
  mkCheckStatus ty en ok pf pid msg lat lh fh at_ url ex port id dep mq v sc lda lua.
Definition with_SuccessChecks (v : Z) (c : CheckStatus) : CheckStatus :=
  let 'mkCheckStatus ty en ok pf pid msg lat lh fh at_ url ex port id dep mq tc sc lda lua := c in
  mkCheckStatus ty en ok pf pid msg lat lh fh at_ url ex port id dep mq tc v lda lua.
Definition with_LastDownAt (v : Time) (c : CheckStatus) : CheckStatus :=
  let 'mkCheckStatus ty en ok pf pid msg lat lh fh at_ url ex port id dep mq tc sc lda lua := c in
  mkCheckStatus ty en ok pf pid msg lat lh fh at_ url ex port id dep mq tc sc v lua.
Definition with_LastUpAt (v : Time) (c : CheckStatus) : CheckStatus :=
  let 'mkCheckStatus ty en ok pf pid msg lat lh fh at_ url ex port id dep mq tc sc lda lua := c in
  mkCheckStatus ty en ok pf pid msg lat lh fh at_ url ex port id dep mq tc sc lda v.

Definition maxLatencyHistory : nat := 20.
Definition maxFullHistory : nat := 1000.
Definition maxEvents : nat := 500.

(** ** Analytics: recordDataPoint *)

Definition recordDataPoint (ts : Time) (ok : bool) (latencyMS : Z)
    (c : CheckStatus) : CheckStatus :=
  let lh := cs_LatencyHistory c ++ [latencyMS] in
  let lh := if bool_decide (maxLatencyHistory < length lh)%nat then drop 1 lh else lh in
  let fh := cs_FullHistory c ++ [mkCheckDataPoint ts ok latencyMS] in
  let fh := if bool_decide (maxFullHistory < length fh)%nat then drop 1 fh else fh in
  let c := c |> with_LatencyHistory lh |> with_FullHistory fh in
  let c := c |> with_TotalChecks (wrap64 (cs_TotalChecks c + 1)) in
  if ok then c |> with_SuccessChecks (wrap64 (cs_SuccessChecks c + 1)) else c.

(** ** The global event log *)

Definition logEvent (e : Event) (eventLog : list Event) : list Event :=
  let eventLog := eventLog ++ [e] in
  if bool_decide (maxEvents < length eventLog)%nat then drop 1 eventLog else eventLog.

(** ** Memory: slices of check statuses and pointers into them

    [HostStatus.Checks] is a slice and [checksByID] holds pointers
    [&hs.Checks[i]] into its backing array, so the backing arrays are kept in
    a store.  The capacity of a slice is the length of its backing array. *)

Record Slice := mkSlice {
  sl_arr : option nat;
  sl_len : nat
}.

Definition nilSlice : Slice := mkSlice None 0.

Record Ptr := mkPtr {
  p_arr : nat;
  p_idx : nat
}.

Definition backing (m : gmap nat (list CheckStatus)) (sl : Slice) : list CheckStatus :=
  match sl_arr sl with
  | Some a => default [] (m !! a)
  | None => []
  end.

(** The elements [sl[0], ..., sl[len-1]]. *)
Definition elems (m : gmap nat (list CheckStatus)) (sl : Slice) : list CheckStatus :=
  take (sl_len sl) (backing m sl).

(** [*p] and [*p = c]. *)
Definition load (m : gmap nat (list CheckStatus)) (p : Ptr) : option CheckStatus :=
  m !! p_arr p ≫= (.!! p_idx p).

Definition store (m : gmap nat (list CheckStatus)) (p : Ptr) (c : CheckStatus)
    : gmap nat (list CheckStatus) :=
  alter (<[p_idx p := c]>) (p_arr p) m.

(** [&sl[i]] for [i < len(sl)]. *)
Definition addr (sl : Slice) (i : nat) : option Ptr :=
  if bool_decide (i < sl_len sl)%nat then (λ a, mkPtr a i) <$> sl_arr sl else None.

(** [append(sl[:idx], sl[idx+1:]...)]: the tail is moved down one slot inside
    the same backing array; the slots from [len-1] on keep what they held. *)
Definition removeAt (m : gmap nat (list CheckStatus)) (sl : Slice) (idx : nat)
    : gmap nat (list CheckStatus) * Slice :=
  let old := backing m sl in
  let new := take idx old ++ drop (S idx) (take (sl_len sl) old)
                          ++ drop (sl_len sl - 1) old in
  match sl_arr sl with
  | Some a => (<[a := new]> m, mkSlice (Some a) (sl_len sl - 1))
  | None => (m, sl)
  end.

Record HostStatus := mkHostStatus {
  hs_Name : string;
  hs_Address : string;
  hs_Checks : Slice;
  hs_HCURL : string
}.

(** [mqttClient] records whether the pointer is non-nil; [arrays] is the store
    of backing arrays. *)
Record State := mkState {
  cfg : config.Config;
  hosts : gmap string HostStatus;
  checksByID : gmap string Ptr;
  configPath : string;
  mqttClient : bool;
  arrays : gmap nat (list CheckStatus)
}.

Definition with_cfg (v : config.Config) (s : State) : State :=
  mkState v (hosts s) (checksByID s) (configPath s) (mqttClient s) (arrays s).
Definition with_hosts (v : gmap string HostStatus) (s : State) : State :=
  mkState (cfg s) v (checksByID s) (configPath s) (mqttClient s) (arrays s).
Definition with_checksByID (v : gmap string Ptr) (s : State) : State :=
  mkState (cfg s) (hosts s) v (configPath s) (mqttClient s) (arrays s).
Definition with_arrays (v : gmap nat (list CheckStatus)) (s : State) : State :=
  mkState (cfg s) (hosts s) (checksByID s) (configPath s) (mqttClient s) v.

(** The checks of a host, as [range hs.Checks] sees them. *)
Definition checksOf (s : State) (hs : HostStatus) : list CheckStatus :=
  elems (arrays s) (hs_Checks hs).

(** ** Dependency resolution *)

Definition GetCheckByID (s : State) (id : string) : option Ptr :=
  checksByID s !! id.

(** The recursion of [IsParentOK] has no cycle guard, so the embedding counts
    the call depth: [None] when [fuel] calls do not suffice. *)
Fixpoint IsParentOK (fuel : nat) (s : State) (c : CheckStatus) : option bool :=
  match fuel with
  | O => None
  | S fuel =>
    if bool_decide (cs_DependsOn c = "") then Some true
    else match checksByID s !! cs_DependsOn c with
    | None => Some true
    | Some p =>
      parent ← load (arrays s) p;
      if negb (cs_Enabled parent) then Some true
      else if IsZero (cs_CheckedAt parent) then Some true
      else
        up ← IsParentOK fuel s parent;
        if negb up then Some false else Some (cs_OK parent)
    end
  end.

(** ** External collaborators of an evaluation pass *)

Record PingResult := mkPingResult {
  ping_OK : bool;
  ping_Latency : Duration;
  ping_Err : option string
}.

Record HTTPResult := mkHTTPResult {
  http_Code : Z;
  http_Latency : Duration;
  http_Err : option string
}.

Record TCPResult := mkTCPResult {
  tcp_Latency : Duration;
  tcp_OK : bool;
  tcp_Err : option string
}.

(** What the network answers while one check is evaluated. *)
Record Probes := mkProbes {
  PingOnce : string → PingResult;
  HTTPGet : string → HTTPResult;
  TCPCheck : string → Z → TCPResult
}.

Record StateChangeMessage := mkStateChangeMessage {
  msg_Host : string;
  msg_Address : string;
  msg_CheckType : string;
  msg_CheckURL : string;
  msg_CheckID : string;
  msg_Status : string;
  msg_LatencyMS : Z;
  msg_Message : string
}.

(** Requests sent out during a pass, in order. *)
Inductive Output :=
  | HealthchecksGet (url : string)
  | MQTTPublish (msg : StateChangeMessage).

Definition lastByte (s : string) : option ascii := last (String.list_ascii_of_string s).

(** [notifyHealthchecksFail]: [http.NewRequest] returns a nil request for a
    URL that [url.Parse] turns down, its error is dropped, and [client.Do]
    dereferences the request, so that the goroutine panics.  [parseURL] says
    which URLs [url.Parse] accepts; [None] is the panic, [HealthchecksGet url]
    the call of [client.Do] with a request for [url]. *)
Definition notifyHealthchecksFail (parseURL : string → bool) (base : string)
    : option (list Output) :=
  let url :=
    if bool_decide (base ≠ "") && negb (bool_decide (lastByte base = Some "/"%char))
    then base +:+ "/fail" else base +:+ "fail" in
  if parseURL url then Some [HealthchecksGet url] else None.

(** [notifyHealthchecksOK], with the same dropped error. *)
Definition notifyHealthchecksOK (parseURL : string → bool) (base : string)
    : option (list Output) :=
  if parseURL base then Some [HealthchecksGet base] else None.

Definition publishMQTTStateChange (mqtt : bool) (hostName address : string)
    (c : CheckStatus) (status : string) : list Output :=
  if negb mqtt then []
  else
    let url := if bool_decide (cs_Type c = CheckHTTP) then cs_URL c else "" in
    [MQTTPublish (mkStateChangeMessage hostName address (cs_Type c) url (cs_ID c)
                    status (cs_LatencyMS c) (cs_Message c))].

(** ** The evaluation pass *)

Section Evaluation.

(** The text that ["%v"] prints for [duration.Round(time.Second)]. *)
Variable roundedString : Duration → string.

(** The URLs that [url.Parse] accepts. *)
Variable parseURL : string → bool.

Definition expectOrDefault (expect : Z) : Z :=
  if bool_decide (expect = 0) then 200 else expect.

(** [case config.CheckPing]: [None] when a notifier panics, which is before
    the data point is recorded. *)
Definition probePing (now : Time) (hs : HostStatus) (net : Probes) (parentOK : bool)
    (c : CheckStatus) : option (CheckStatus * list Output) :=
  let res := PingOnce net (hs_Address hs) in
  let c := c |> with_CheckedAt now in
  let actualOK := ping_OK res in
  '(c, out) ←
    (if ping_OK res then
       let c := c |> with_OK true |> with_ParentFailed false |> with_Message "pong"
                  |> with_LatencyMS (Milliseconds (ping_Latency res)) in
       out ← (if bool_decide (hs_HCURL hs ≠ "")
              then notifyHealthchecksOK parseURL (hs_HCURL hs) else Some []);
       Some (c, out)
     else if negb parentOK then
       Some (c |> with_OK false |> with_ParentFailed true
               |> with_Message "parent check failed" |> with_LatencyMS 0,
             [])
     else
       let c := c |> with_OK false |> with_ParentFailed false
                  |> with_Message (match ping_Err res with
                                   | Some e => e
                                   | None => "no reply"
                                   end)
                  |> with_LatencyMS 0 in
       out ← (if bool_decide (hs_HCURL hs ≠ "")
              then notifyHealthchecksFail parseURL (hs_HCURL hs) else Some []);
       Some (c, out));
  Some (recordDataPoint now actualOK (cs_LatencyMS c) c, out).

Definition statusMessage (code expect : Z) : string :=
  "status " +:+ pretty code +:+ " (expect " +:+ pretty expect +:+ ")".

(** [case config.CheckHTTP] *)
Definition probeHTTP (now : Time) (hs : HostStatus) (net : Probes) (parentOK : bool)
    (c : CheckStatus) : CheckStatus * list Output :=
  let url := if bool_decide (cs_URL c = "") then "http://" +:+ hs_Address hs
             else cs_URL c in
  let res := HTTPGet net url in
  let c := c |> with_CheckedAt now in
  let actualOK :=
    match http_Err res with
    | None => bool_decide (http_Code res = expectOrDefault (cs_Expect c))
    | Some _ => false
    end in
  let c :=
    if actualOK then
      c |> with_OK true |> with_ParentFailed false
        |> with_Message (if bool_decide (cs_Expect c = 0)
                         then statusMessage (http_Code res) 200
                         else statusMessage (http_Code res) (cs_Expect c))
        |> with_LatencyMS (Milliseconds (http_Latency res))
    else if negb parentOK then
      c |> with_OK false |> with_ParentFailed true
        |> with_Message "parent check failed" |> with_LatencyMS 0
    else
      c |> with_OK false |> with_ParentFailed false
        |> with_Message (match http_Err res with
                         | Some e => e
                         | None => statusMessage (http_Code res)
                                     (expectOrDefault (cs_Expect c))
                         end)
        |> with_LatencyMS (Milliseconds (http_Latency res))
  in
  (recordDataPoint now actualOK (cs_LatencyMS c) c, []).

(** [case config.CheckTCP] *)
Definition probeTCP (now : Time) (hs : HostStatus) (net : Probes) (parentOK : bool)
    (c : CheckStatus) : CheckStatus * list Output :=
  let port := if bool_decide (cs_Port c = 0) then 80 else cs_Port c in
  let res := TCPCheck net (hs_Address hs) port in
  let c := c |> with_CheckedAt now in
  let actualOK := tcp_OK res in
  let c :=
    if tcp_OK res then
      c |> with_OK true |> with_ParentFailed false
        |> with_Message ("port " +:+ pretty port +:+ " open")
        |> with_LatencyMS (Milliseconds (tcp_Latency res))
    else if negb parentOK then
      c |> with_OK false |> with_ParentFailed true
        |> with_Message "parent check failed" |> with_LatencyMS 0
    else
      c |> with_OK false |> with_ParentFailed false
        |> with_Message (match tcp_Err res with
                         | Some e => e
                         | None => "port " +:+ pretty port +:+ " closed"
                         end)
        |> with_LatencyMS 0
  in
  (recordDataPoint now actualOK (cs_LatencyMS c) c, []).

(** [switch c.Type]: a type other than the three leaves the check as it is. *)
Definition probe (now : Time) (hs : HostStatus) (net : Probes) (parentOK : bool)
    (c : CheckStatus) : option (CheckStatus * list Output) :=
  if bool_decide (cs_Type c = CheckPing) then probePing now hs net parentOK c
  else if bool_decide (cs_Type c = CheckHTTP) then Some (probeHTTP now hs net parentOK c)
  else if bool_decide (cs_Type c = CheckTCP) then Some (probeTCP now hs net parentOK c)
  else Some (c, []).

Definition notifyMQTT (mqtt : bool) (hs : HostStatus) (c : CheckStatus)
    (status : string) : list Output :=
  if cs_MQTTNotify c && mqtt
  then publishMQTTStateChange mqtt (hs_Name hs) (hs_Address hs) c status else [].

(** "Track state changes for events": the comparison of the status before
    the probe with the status after it. *)
Definition trackStateChange (now : Time) (hs : HostStatus) (i : nat) (mqtt : bool)
    (wasOK wasChecked wasParentFailed : bool) (c : CheckStatus)
    (eventLog : list Event) : CheckStatus * list Event * list Output :=
  if wasChecked then
    if wasOK && negb (cs_OK c) && negb (cs_ParentFailed c) then
      let c := c |> with_LastDownAt now in
      (c,
       logEvent (mkEvent now (hs_Name hs) (Z.of_nat i) (cs_Type c) "down"
                   (cs_Message c) 0) eventLog,
       notifyMQTT mqtt hs c "down")
    else if negb wasOK && cs_OK c then
      let duration :=
        if negb (IsZero (cs_LastDownAt c)) then Sub now (cs_LastDownAt c) else 0 in
      let c := c |> with_LastUpAt now in
      if negb wasParentFailed then
        (c,
         logEvent (mkEvent now (hs_Name hs) (Z.of_nat i) (cs_Type c) "recovered"
                     ("Back up after " +:+ roundedString duration) duration) eventLog,
         notifyMQTT mqtt hs c "up")
      else (c, eventLog, [])
    else if wasParentFailed && negb (cs_ParentFailed c) && negb (cs_OK c) then
      let c := c |> with_LastDownAt now in
      (c,
       logEvent (mkEvent now (hs_Name hs) (Z.of_nat i) (cs_Type c) "down"
                   (cs_Message c) 0) eventLog,
       notifyMQTT mqtt hs c "down")
    else (c, eventLog, [])
  else (c, eventLog, []).

(** The body of the inner loop of [runOnce] for an enabled check, once the
    parent's health is known; [None] when a notifier panics. *)
Definition evalCheck (now : Time) (hs : HostStatus) (i : nat) (net : Probes)
    (mqtt : bool) (parentOK : bool) (c : CheckStatus) (eventLog : list Event)
    : option (CheckStatus * list Event * list Output) :=
  let wasOK := cs_OK c in
  let wasChecked := negb (IsZero (cs_CheckedAt c)) in
  let wasParentFailed := cs_ParentFailed c in
  let c := if bool_decide (cs_DependsOn c ≠ "")
           then c |> with_ParentID (cs_DependsOn c) else c in
  '(c, out1) ← probe now hs net parentOK c;
  let '(c, eventLog, out2) :=
    trackStateChange now hs i mqtt wasOK wasChecked wasParentFailed c eventLog in
  Some (c, eventLog, out1 ++ out2).

(** What a pass threads through: the store, the global event log and the
    requests sent so far. *)
Record World := mkWorld {
  w_state : State;
  w_eventLog : list Event;
  w_out : list Output
}.

(** One iteration [c := &hs.Checks[i]; ...] of the inner loop.  [None]: the
    iteration does not return, because the recursion of [IsParentOK] exceeds
    the depth allowed or because a notifier panics. *)
Definition runCheck (fuel : nat) (now : Time) (net : string → nat → Probes)
    (hs : HostStatus) (i : nat) (w : World) : option World :=
  let s := w_state w in
  p ← addr (hs_Checks hs) i;
  c ← load (arrays s) p;
  if negb (cs_Enabled c) then Some w
  else
    parentOK ← IsParentOK fuel s c;
    '(c', eventLog, out) ←
      evalCheck now hs i (net (hs_Name hs) i) (mqttClient s) parentOK c (w_eventLog w);
    Some (mkWorld (s |> with_arrays (store (arrays s) p c')) eventLog (w_out w ++ out)).

(** [for i := range hs.Checks] *)
Definition runHost (fuel : nat) (now : Time) (net : string → nat → Probes)
    (hs : HostStatus) (w : World) : option World :=
  foldl (λ ow i, ow ≫= runCheck fuel now net hs i) (Some w) (seq 0 (sl_len (hs_Checks hs))).

(** [runOnce]: [order] is the order in which [range s.hosts] yields the keys
    of the map in this pass. *)
Definition runOnce (fuel : nat) (now : Time) (net : string → nat → Probes)
    (order : list string) (w : World) : option World :=
  foldl (λ ow name,
           w ← ow;
           match hosts (w_state w) !! name with
           | Some hs => runHost fuel now net hs w
           | None => Some w
           end) (Some w) order.

End Evaluation.

(** ** Persisting the config *)

(** [filepath.Ext]: the suffix from the last dot of the last path element. *)
Fixpoint extFrom (rev : list ascii) (acc : list ascii) : list ascii :=
  match rev with
  | [] => []
  | ch :: rest =>
    if bool_decide (ch = "/"%char) then []
    else if bool_decide (ch = "."%char) then ch :: acc
    else extFrom rest (ch :: acc)
  end.

Definition Ext (path : string) : string :=
  String.string_of_list_ascii (extFrom (reverse (String.list_ascii_of_string path)) []).

(** A file holds a config in one of the two encodings. *)
Inductive FileData :=
  | YAML (c : config.Config)
  | TOML (c : config.Config).

Inductive FsOp :=
  | WriteFile (name : string)
  | Rename (oldpath newpath : string).

(** Outcome of a file operation that was asked for: [Some e] is the error. *)
Definition FsErr := FsOp → option string.

(** [hs.Checks[j].MQTTNotify] copied into the config check [j] of a host. *)
Definition syncChecks (rt : list CheckStatus) (cs : list config.Check) : list config.Check :=
  imap (λ j c,
          match rt !! j with
          | Some r => config.mkCheck (config.Type_ c) (config.Enabled c) (config.URL c)
                        (config.Expect c) (config.Port c) (config.ID c)
                        (config.DependsOn c) (cs_MQTTNotify r)
          | None => c
          end) cs.

Definition syncHost (s : State) (h : config.Host) : config.Host :=
  match hosts s !! config.Name h with
  | Some hs => config.mkHost (config.Name h) (config.Address h)
                 (syncChecks (checksOf s hs) (config.Checks h)) (hs_HCURL hs)
  | None => h
  end.

Definition with_Hosts (v : list config.Host) (c : config.Config) : config.Config :=
  config.mkConfig v (config.Settings c).

(** Write to [path.tmp], rename over [path]; if the rename fails, write [path]
    directly.  A failed operation is taken to leave the files as they were. *)
Definition writeConfig (fs : FsErr) (path : string) (b : FileData)
    (files : gmap string FileData) : option string * gmap string FileData :=
  let tmp := path +:+ ".tmp" in
  match fs (WriteFile tmp) with
  | Some err => (Some err, files)
  | None =>
    let files := <[tmp := b]> files in
    match fs (Rename tmp path) with
    | None => (None, <[path := b]> (delete tmp files))
    | Some _ =>
      match fs (WriteFile path) with
      | Some werr => (Some werr, files)
      | None => (None, <[path := b]> files)
      end
    end
  end.

Definition saveConfigLocked (fs : FsErr) (s : State) (files : gmap string FileData)
    : option string * State * gmap string FileData :=
  if bool_decide (configPath s = "") then (None, s, files)
  else
    let s := s |> with_cfg (with_Hosts (syncHost s <$> config.Hosts (cfg s)) (cfg s)) in
    let ext := Ext (configPath s) in
    if bool_decide (ext = ".yaml") || bool_decide (ext = ".yml") then
      let '(err, files) := writeConfig fs (configPath s) (YAML (cfg s)) files in
      (err, s, files)
    else if bool_decide (ext = ".toml") then
      let '(err, files) := writeConfig fs (configPath s) (TOML (cfg s)) files in
      (err, s, files)
    else (None, s, files).

(** ** The status store *)

(** The loop [for i := range s.cfg.Hosts { if Name == name { ...; break } }]. *)
Fixpoint updateHostNamed (name : string) (f : config.Host → config.Host)
    (l : list config.Host) : list config.Host :=
  match l with
  | [] => []
  | h :: l =>
    if bool_decide (config.Name h = name) then f h :: l
    else h :: updateHostNamed name f l
  end.

Fixpoint removeHostNamed (name : string) (l : list config.Host) : list config.Host :=
  match l with
  | [] => []
  | h :: l =>
    if bool_decide (config.Name h = name) then l
    else h :: removeHostNamed name l
  end.

Definition with_Checks (v : list config.Check) (h : config.Host) : config.Host :=
  config.mkHost (config.Name h) (config.Address h) v (config.HealthchecksPingURL h).

(** [rebuildCheckIndex]: [order] is the order in which the map yields its keys;
    a later check with the same ID overwrites an earlier one. *)
Definition indexHost (s : State) (hs : HostStatus) (idx : gmap string Ptr)
    : gmap string Ptr :=
  foldl (λ idx i,
           match addr (hs_Checks hs) i ≫= (λ p, pair p <$> load (arrays s) p) with
           | Some (p, c) => if bool_decide (cs_ID c ≠ "") then <[cs_ID c := p]> idx else idx
           | None => idx
           end) idx (seq 0 (sl_len (hs_Checks hs))).

Definition rebuildCheckIndex (order : list string) (s : State) : State :=
  s |> with_checksByID
         (foldl (λ idx name,
                   match hosts s !! name with
                   | Some hs => indexHost s hs idx
                   | None => idx
                   end) ∅ order).

Section Store.

(** The capacity the runtime picks when [append] outgrows an array of the
    given capacity (at least the length needed, see [append1]). *)
Variable growslice : nat → nat.

(** [append(sl, x)] *)
Definition append1 (m : gmap nat (list CheckStatus)) (sl : Slice) (x : CheckStatus)
    : gmap nat (list CheckStatus) * Slice :=
  let old := backing m sl in
  match sl_arr sl with
  | Some a =>
    if bool_decide (sl_len sl < length old)%nat
    then (<[a := <[sl_len sl := x]> old]> m, mkSlice (Some a) (S (sl_len sl)))
    else
      let a' := fresh (dom m) in
      let cap := (S (sl_len sl) `max` growslice (length old))%nat in
      (<[a' := take (sl_len sl) old ++ x :: replicate (cap - S (sl_len sl)) zeroCheckStatus]> m,
       mkSlice (Some a') (S (sl_len sl)))
  | None =>
    let a' := fresh (dom m) in
    let cap := (1 `max` growslice 0)%nat in
    (<[a' := x :: replicate (cap - 1) zeroCheckStatus]> m, mkSlice (Some a') 1)
  end.

(** The runtime status of a declared check, as [New] builds it. *)
Definition statusOfCheck (c : config.Check) : CheckStatus :=
  let cs := zeroCheckStatus |> with_Type (config.Type_ c)
              |> with_Enabled (config.Enabled c) |> with_ID (config.ID c)
              |> with_DependsOn (config.DependsOn c)
              |> with_MQTTNotify (config.MQTTNotify c) in
  let cs := if bool_decide (config.Type_ c = CheckHTTP)
            then cs |> with_URL (config.URL c) |> with_Expect (config.Expect c) else cs in
  if bool_decide (config.Type_ c = CheckTCP) then cs |> with_Port (config.Port c) else cs.

Definition appendAll (m : gmap nat (list CheckStatus)) (sl : Slice)
    (xs : list CheckStatus) : gmap nat (list CheckStatus) * Slice :=
  foldl (λ '(m, sl) x, append1 m sl x) (m, sl) xs.

Definition New (order : list string) (cfg : config.Config) : State :=
  let st := mkState cfg ∅ ∅ "" true ∅ in
  let st :=
    foldl (λ st h,
             let '(m, sl) := appendAll (arrays st) nilSlice
                               (statusOfCheck <$> config.Checks h) in
             st |> with_arrays m
                |> with_hosts (<[config.Name h :=
                                   mkHostStatus (config.Name h) (config.Address h) sl
                                     (config.HealthchecksPingURL h)]> (hosts st)))
          st (config.Hosts cfg) in
  rebuildCheckIndex order st.

(** The result of a mutating operation: the error it returns, the store and
    the files afterwards. *)
Definition Result : Type := option string * State * gmap string FileData.

Definition pingCheck : config.Check := config.mkCheck CheckPing true "" 0 0 "" "" false.

Definition AddHost (fs : FsErr) (name address hcurl : string)
    (s : State) (files : gmap string FileData) : Result :=
  match hosts s !! name with
  | Some _ => (Some "host exists", s, files)
  | None =>
    let '(m, sl) := append1 (arrays s) nilSlice
                      (zeroCheckStatus |> with_Type CheckPing |> with_Enabled true) in
    let s := s |> with_arrays m
               |> with_hosts (<[name := mkHostStatus name address sl hcurl]> (hosts s)) in
    let s := s |> with_cfg (with_Hosts (config.Hosts (cfg s) ++
                              [config.mkHost name address [pingCheck] hcurl]) (cfg s)) in
    saveConfigLocked fs s files
  end.

Definition AddHostWithoutDefaultCheck (fs : FsErr) (name address hcurl : string)
    (s : State) (files : gmap string FileData) : Result :=
  match hosts s !! name with
  | Some _ => (Some "host exists", s, files)
  | None =>
    let s := s |> with_hosts (<[name := mkHostStatus name address nilSlice hcurl]> (hosts s)) in
    let s := s |> with_cfg (with_Hosts (config.Hosts (cfg s) ++
                              [config.mkHost name address [] hcurl]) (cfg s)) in
    saveConfigLocked fs s files
  end.

Definition UpdateHost (fs : FsErr) (oldName newName address hcurl : string)
    (s : State) (files : gmap string FileData) : Result :=
  match hosts s !! oldName with
  | None => (Some "host not found", s, files)
  | Some hs =>
    if bool_decide (newName ≠ oldName) && bool_decide (is_Some (hosts s !! newName))
    then (Some "host name already exists", s, files)
    else
      let hs := mkHostStatus newName address (hs_Checks hs) hcurl in
      let s := s |> with_hosts (<[newName := hs]> (delete oldName (hosts s))) in
      let s := s |> with_cfg
                 (with_Hosts
                    (updateHostNamed oldName
                       (λ h, config.mkHost newName address (config.Checks h) hcurl)
                       (config.Hosts (cfg s))) (cfg s)) in
      saveConfigLocked fs s files
  end.

(** The common shape of [AddPingCheck], [AddHTTPCheck] and [AddTCPCheck]. *)
Definition addCheck (fs : FsErr) (order : list string) (hostName : string)
    (rt : CheckStatus) (decl : config.Check)
    (s : State) (files : gmap string FileData) : Result :=
  match hosts s !! hostName with
  | None => (Some "host not found", s, files)
  | Some hs =>
    let '(m, sl) := append1 (arrays s) (hs_Checks hs) rt in
    let hs := mkHostStatus (hs_Name hs) (hs_Address hs) sl (hs_HCURL hs) in
    let s := s |> with_arrays m |> with_hosts (<[hostName := hs]> (hosts s)) in
    let s := s |> with_cfg
               (with_Hosts
                  (updateHostNamed hostName
                     (λ h, with_Checks (config.Checks h ++ [decl]) h)
                     (config.Hosts (cfg s))) (cfg s)) in
    saveConfigLocked fs (rebuildCheckIndex order s) files
  end.

Definition AddHTTPCheck (fs : FsErr) (order : list string) (hostName url : string)
    (expect : Z) (id dependsOn : string) (mqttNotify : bool)
    (s : State) (files : gmap string FileData) : Result :=
  addCheck fs order hostName
    (zeroCheckStatus |> with_Type CheckHTTP |> with_Enabled true |> with_URL url
       |> with_Expect expect |> with_ID id |> with_DependsOn dependsOn
       |> with_MQTTNotify mqttNotify)
    (config.mkCheck CheckHTTP true url expect 0 id dependsOn mqttNotify) s files.

Definition AddPingCheck (fs : FsErr) (order : list string) (hostName : string)
    (id dependsOn : string) (mqttNotify : bool)
    (s : State) (files : gmap string FileData) : Result :=
  addCheck fs order hostName
    (zeroCheckStatus |> with_Type CheckPing |> with_Enabled true |> with_ID id
       |> with_DependsOn dependsOn |> with_MQTTNotify mqttNotify)
    (config.mkCheck CheckPing true "" 0 0 id dependsOn mqttNotify) s files.

Definition AddTCPCheck (fs : FsErr) (order : list string) (hostName : string)
    (port : Z) (id dependsOn : string) (mqttNotify : bool)
    (s : State) (files : gmap string FileData) : Result :=
  addCheck fs order hostName
    (zeroCheckStatus |> with_Type CheckTCP |> with_Enabled true |> with_Port port
       |> with_ID id |> with_DependsOn dependsOn |> with_MQTTNotify mqttNotify)
    (config.mkCheck CheckTCP true "" 0 port id dependsOn mqttNotify) s files.

End Store.

Definition DeleteHost (fs : FsErr) (name : string)
    (s : State) (files : gmap string FileData) : Result :=
  match hosts s !! name with
  | None => (Some "host not found", s, files)
  | Some _ =>
    let s := s |> with_hosts (delete name (hosts s)) in
    let s := s |> with_cfg (with_Hosts (removeHostNamed name (config.Hosts (cfg s))) (cfg s)) in
    saveConfigLocked fs s files
  end.

(** [idx < 0 || idx >= len(l)] *)
Definition badIndex (idx : Z) (len : nat) : bool :=
  bool_decide (idx < 0) || bool_decide (Z.of_nat len ≤ idx).

Definition RemoveCheck (fs : FsErr) (hostName : string) (idx : Z)
    (s : State) (files : gmap string FileData) : Result :=
  match hosts s !! hostName with
  | None => (Some "host not found", s, files)
  | Some hs =>
    if badIndex idx (sl_len (hs_Checks hs)) then (Some "bad index", s, files)
    else
      let '(m, sl) := removeAt (arrays s) (hs_Checks hs) (Z.to_nat idx) in
      let hs := mkHostStatus (hs_Name hs) (hs_Address hs) sl (hs_HCURL hs) in
      let s := s |> with_arrays m |> with_hosts (<[hostName := hs]> (hosts s)) in
      let s := s |> with_cfg
                 (with_Hosts
                    (updateHostNamed hostName
                       (λ h, if badIndex idx (length (config.Checks h)) then h
                             else with_Checks (delete (Z.to_nat idx) (config.Checks h)) h)
                       (config.Hosts (cfg s))) (cfg s)) in
      saveConfigLocked fs s files
  end.

(** [hs.Checks[idx].F = v ...] on the runtime side and the same assignments on
    the config side, as the three update operations do them: [required] is
    the type that the operation insists on, [mismatch] its error.  (The second
    "bad index" stands for a slice that leaves its backing array, which no
    slice does.) *)
Definition updateCheck (fs : FsErr) (order : list string) (hostName : string) (idx : Z)
    (required : option CheckType) (mismatch : string)
    (frt : CheckStatus → CheckStatus) (fdecl : config.Check → config.Check)
    (s : State) (files : gmap string FileData) : Result :=
  match hosts s !! hostName with
  | None => (Some "host not found", s, files)
  | Some hs =>
    if badIndex idx (sl_len (hs_Checks hs)) then (Some "bad index", s, files)
    else
      match addr (hs_Checks hs) (Z.to_nat idx) ≫= (λ p, pair p <$> load (arrays s) p) with
      | None => (Some "bad index", s, files)
      | Some (p, c) =>
        if match required with
           | Some ty => bool_decide (cs_Type c ≠ ty)
           | None => false
           end
        then (Some mismatch, s, files)
        else
          let s := s |> with_arrays (store (arrays s) p (frt c)) in
          let s := s |> with_cfg
                     (with_Hosts
                        (updateHostNamed hostName
                           (λ h, if badIndex idx (length (config.Checks h)) then h
                                 else with_Checks
                                        (alter fdecl (Z.to_nat idx) (config.Checks h)) h)
                           (config.Hosts (cfg s))) (cfg s)) in
          saveConfigLocked fs (rebuildCheckIndex order s) files
      end
  end.

Definition UpdateHTTPCheck (fs : FsErr) (order : list string) (hostName : string) (idx : Z)
    (url : string) (expect : Z) (id dependsOn : string) (mqttNotify : bool)
    (s : State) (files : gmap string FileData) : Result :=
  updateCheck fs order hostName idx (Some CheckHTTP) "not http check"
    (λ c, c |> with_URL url |> with_Expect expect |> with_ID id
            |> with_DependsOn dependsOn |> with_MQTTNotify mqttNotify)
    (λ c, config.mkCheck (config.Type_ c) (config.Enabled c) url expect (config.Port c)
            id dependsOn mqttNotify) s files.

Definition UpdateTCPCheck (fs : FsErr) (order : list string) (hostName : string) (idx : Z)
    (port : Z) (id dependsOn : string) (mqttNotify : bool)
    (s : State) (files : gmap string FileData) : Result :=
  updateCheck fs order hostName idx (Some CheckTCP) "not tcp check"
    (λ c, c |> with_Port port |> with_ID id
            |> with_DependsOn dependsOn |> with_MQTTNotify mqttNotify)
    (λ c, config.mkCheck (config.Type_ c) (config.Enabled c) (config.URL c)
            (config.Expect c) port id dependsOn mqttNotify) s files.

Definition UpdateCheckDependencies (fs : FsErr) (order : list string) (hostName : string)
    (idx : Z) (id dependsOn : string) (mqttNotify : bool)
    (s : State) (files : gmap string FileData) : Result :=
  updateCheck fs order hostName idx None ""
    (λ c, c |> with_ID id |> with_DependsOn dependsOn |> with_MQTTNotify mqttNotify)
    (λ c, config.mkCheck (config.Type_ c) (config.Enabled c) (config.URL c)
            (config.Expect c) (config.Port c) id dependsOn mqttNotify) s files.

(** [hs.Checks[i].Enabled = enabled] *)
Definition setEnabledAt (enabled : bool) (hs : HostStatus) (i : nat)
    (m : gmap nat (list CheckStatus)) : gmap nat (list CheckStatus) :=
  match addr (hs_Checks hs) i ≫= (λ p, pair p <$> load m p) with
  | Some (p, c) => store m p (c |> with_Enabled enabled)
  | None => m
  end.

Definition Toggle (hostName : string) (idx : Z) (enabled : bool) (s : State) : State :=
  match hosts s !! hostName with
  | Some hs =>
    if negb (badIndex idx (sl_len (hs_Checks hs)))
    then s |> with_arrays (setEnabledAt enabled hs (Z.to_nat idx) (arrays s))
    else s
  | None => s
  end.

Definition SetAllEnabled (order : list string) (enabled : bool) (s : State) : State :=
  s |> with_arrays
         (foldl (λ m name,
                   match hosts s !! name with
                   | Some hs => foldl (λ m i, setEnabledAt enabled hs i m) m
                                  (seq 0 (sl_len (hs_Checks hs)))
                   | None => m
                   end) (arrays s) order).

(** ** Analytics *)

(** [float64] as IEEE 754 binary64 with round-to-nearest-even. *)
Definition float64 := spec_float.
Definition f64_of_int (n : Z) : float64 := binary_normalize 53 1024 n 0 false.
Definition f64_add : float64 → float64 → float64 := SFadd 53 1024.
Definition f64_mul : float64 → float64 → float64 := SFmul 53 1024.
Definition f64_div : float64 → float64 → float64 := SFdiv 53 1024.
Definition f64_zero : float64 := S754_zero false.

(** The constants [0.95] and [100] as [float64] values. *)
Definition f64_0_95 : float64 := Eval vm_compute in f64_div (f64_of_int 95) (f64_of_int 100).
Definition f64_100 : float64 := Eval vm_compute in f64_of_int 100.

(** [int(f)]: truncation towards zero; for a value that does not fit, the
    amd64 result. *)
Definition f64_to_int (f : float64) : Z :=
  match f with
  | S754_zero _ => 0
  | S754_finite sign m e =>
    let mag := if bool_decide (0 ≤ e) then Z.pos m * 2 ^ e else Z.pos m / 2 ^ (- e) in
    let v := if sign then - mag else mag in
    if bool_decide (minInt64 ≤ v ≤ maxInt64) then v else minInt64
  | _ => minInt64
  end.

Record CheckAnalytics := mkCheckAnalytics {
  ca_Type : CheckType;
  ca_URL : string;
  ca_Enabled : bool;
  ca_OK : bool;
  ca_ParentFailed : bool;
  ca_LatencyMS : Z;
  ca_Uptime : float64;
  ca_AvgLatency : float64;
  ca_MinLatency : Z;
  ca_MaxLatency : Z;
  ca_P95Latency : Z;
  ca_TotalChecks : Z;
  ca_SuccessChecks : Z;
  ca_FailedChecks : Z;
  ca_History : list CheckDataPoint;
  ca_HeatmapData : list bool
}.

(** The running values of the loop over [c.FullHistory]. *)
Record LatencyAcc := mkLatencyAcc {
  acc_sum : Z;
  acc_count : Z;
  acc_min : Z;
  acc_max : Z;
  acc_latencies : list Z
}.

Definition latencyStep (a : LatencyAcc) (dp : CheckDataPoint) : LatencyAcc :=
  if dp_OK dp && bool_decide (0 < dp_LatencyMS dp) then
    mkLatencyAcc (wrap64 (acc_sum a + dp_LatencyMS dp)) (wrap64 (acc_count a + 1))
      (if bool_decide (dp_LatencyMS dp < acc_min a) then dp_LatencyMS dp else acc_min a)
      (if bool_decide (acc_max a < dp_LatencyMS dp) then dp_LatencyMS dp else acc_max a)
      (acc_latencies a ++ [dp_LatencyMS dp])
  else a.

(** [p95Idx], computed in floating point and clamped to the last index. *)
Definition p95Index (n : nat) : Z :=
  let p95Idx := f64_to_int (f64_mul (f64_of_int (Z.of_nat n)) f64_0_95) in
  if bool_decide (Z.of_nat n ≤ p95Idx) then Z.of_nat n - 1 else p95Idx.

Record LatencyStats := mkLatencyStats {
  ls_Avg : float64;
  ls_Min : Z;
  ls_Max : Z;
  ls_P95 : Z
}.

(** "Calculate latency stats from history" *)
Definition latencyStats (fullHistory : list CheckDataPoint) : LatencyStats :=
  match fullHistory with
  | [] => mkLatencyStats f64_zero 0 0 0
  | first :: _ =>
    let a := foldl latencyStep
               (mkLatencyAcc 0 0 (dp_LatencyMS first) (dp_LatencyMS first) []) fullHistory in
    if bool_decide (0 < acc_count a) then
      let latencies := merge_sort Z.le (acc_latencies a) in
      mkLatencyStats (f64_div (f64_of_int (acc_sum a)) (f64_of_int (acc_count a)))
        (acc_min a) (acc_max a)
        (default 0 (latencies !! Z.to_nat (p95Index (length latencies))))
    else mkLatencyStats f64_zero (acc_min a) (acc_max a) 0
  end.

Definition uptimeOf (c : CheckStatus) : float64 :=
  if bool_decide (0 < cs_TotalChecks c)
  then f64_mul (f64_div (f64_of_int (cs_SuccessChecks c)) (f64_of_int (cs_TotalChecks c)))
         f64_100
  else f64_zero.

(** The analytics of one check, as the loop body of [GetHostAnalytics] fills
    them in. *)
Definition checkAnalytics (c : CheckStatus) : CheckAnalytics :=
  let ls := latencyStats (cs_FullHistory c) in
  let heatmapSize := 60%nat in
  let startIdx := (length (cs_FullHistory c) - heatmapSize)%nat in
  mkCheckAnalytics (cs_Type c) (cs_URL c) (cs_Enabled c) (cs_OK c) (cs_ParentFailed c)
    (cs_LatencyMS c) (uptimeOf c) (ls_Avg ls) (ls_Min ls) (ls_Max ls) (ls_P95 ls)
    (cs_TotalChecks c) (cs_SuccessChecks c)
    (wrap64 (cs_TotalChecks c - cs_SuccessChecks c))
    (cs_FullHistory c)
    (dp_OK <$> drop startIdx (cs_FullHistory c)).

Record HostAnalytics := mkHostAnalytics {
  ha_Name : string;
  ha_Address : string;
  ha_Checks : list CheckAnalytics;
  ha_OverallUptime : float64;
  ha_HealthScore : Z;
  ha_HasBlockedChecks : bool
}.

Definition checkHealth (c : CheckStatus) : Z :=
  if cs_Enabled c && bool_decide (0 < cs_TotalChecks c) then f64_to_int (uptimeOf c)
  else if cs_Enabled c then 50
  else 0.

Definition GetHostAnalytics (s : State) (hostName : string) : option HostAnalytics :=
  hs ← hosts s !! hostName;
  let cs := checksOf s hs in
  let uptimeSum := foldl (λ acc c, if bool_decide (0 < cs_TotalChecks c)
                                  then f64_add acc (uptimeOf c) else acc) f64_zero cs in
  let healthSum := foldl (λ acc c, wrap64 (acc + checkHealth c)) 0 cs in
  let n := Z.of_nat (length cs) in
  Some (mkHostAnalytics (hs_Name hs) (hs_Address hs) (checkAnalytics <$> cs)
          (if bool_decide (0 < n) then f64_div uptimeSum (f64_of_int n) else f64_zero)
          (if bool_decide (0 < n) then Z.quot healthSum n else 0)
          (existsb cs_ParentFailed cs)).

(** * The read side of the store and the packages around it

    [GetEvents], [GetAggregateStats], [GetHost], [Snapshot],
    [GetAllHostAnalytics], [SetHCURL] and the MQTT settings of
    [internal/state/state.go], followed by the client of [internal/mqtt],
    [Load] of [internal/config], [escapeMarkdown] of [internal/telegram] and
    the request handlers and template helpers of the server. *)

(** ** package state: reading the event log *)

(** The zero [Event], which [make([]Event, limit)] fills its result with. *)
Definition zeroEvent : Event := mkEvent 0 "" 0 "" "" "" 0.

(** [GetEvents]: [result[i] = eventLog[len(eventLog)-1-i]] for [i < limit],
    where a [limit] that is not positive or exceeds the log stands for the
    whole log.  The index is always inside the log (see
    [GetEvents_newest_first]), so the default is never taken. *)
Definition GetEvents (limit : Z) (eventLog : list Event) : list Event :=
  let len := Z.of_nat (length eventLog) in
  let limit := if bool_decide (limit ≤ 0) || bool_decide (len < limit) then len else limit in
  (λ i : nat, default zeroEvent (eventLog !! Z.to_nat (len - 1 - Z.of_nat i)))
    <$> seq 0 (Z.to_nat limit).

(** ** package state: aggregate statistics *)

Record AggregateStats := mkAggregateStats {
  as_TotalHosts : Z;
  as_TotalChecks : Z;
  as_ChecksUp : Z;
  as_ChecksDown : Z;
  as_ChecksParentFailed : Z;
  as_ChecksDisabled : Z;
  as_ChecksUnknown : Z;
  as_OverallUptime : float64
}.

(** The running values of the two loops of [GetAggregateStats]: the counters
    of [stats] and the locals [totalUptimeSum] and [uptimeCount]. *)
Record AggregateAcc := mkAggregateAcc {
  agg_TotalChecks : Z;
  agg_ChecksUp : Z;
  agg_ChecksDown : Z;
  agg_ChecksParentFailed : Z;
  agg_ChecksDisabled : Z;
  agg_ChecksUnknown : Z;
  agg_totalUptimeSum : float64;
  agg_uptimeCount : Z
}.

(** The body of the inner loop, with its two [continue]s. *)
Definition aggregateStep (a : AggregateAcc) (c : CheckStatus) : AggregateAcc :=
  let 'mkAggregateAcc total up down blocked disabled unknown sum count := a in
  let total := wrap64 (total + 1) in
  if negb (cs_Enabled c) then
    mkAggregateAcc total up down blocked (wrap64 (disabled + 1)) unknown sum count
  else if IsZero (cs_CheckedAt c) then
    mkAggregateAcc total up down blocked disabled (wrap64 (unknown + 1)) sum count
  else
    let '(up, down, blocked) :=
      if cs_OK c then (wrap64 (up + 1), down, blocked)
      else if cs_ParentFailed c then (up, down, wrap64 (blocked + 1))
      else (up, wrap64 (down + 1), blocked) in
    if bool_decide (0 < cs_TotalChecks c) then
      mkAggregateAcc total up down blocked disabled unknown
        (f64_add sum (f64_mul (f64_div (f64_of_int (cs_SuccessChecks c))
                                       (f64_of_int (cs_TotalChecks c))) f64_100))
        (wrap64 (count + 1))
    else mkAggregateAcc total up down blocked disabled unknown sum count.

(** [GetAggregateStats]: [order] is the order in which [range s.hosts] yields
    the keys of the map. *)
Definition GetAggregateStats (order : list string) (s : State) : AggregateStats :=
  let a :=
    foldl (λ a name,
             match hosts s !! name with
             | Some hs => foldl aggregateStep a (checksOf s hs)
             | None => a
             end) (mkAggregateAcc 0 0 0 0 0 0 f64_zero 0) order in
  let 'mkAggregateAcc total up down blocked disabled unknown sum count := a in
  mkAggregateStats (Z.of_nat (size (hosts s))) total up down blocked disabled unknown
    (if bool_decide (0 < count) then f64_div sum (f64_of_int count)
     else if bool_decide (0 < up) || bool_decide (0 < down)
     then f64_mul (f64_div (f64_of_int up) (f64_of_int (wrap64 (up + down)))) f64_100
     else f64_100).

(** ** package state: copies of the hosts *)

(** A [HostStatus] whose [Checks] are a copy in an array of its own
    ([append([]CheckStatus(nil), v.Checks...)]), which nothing else refers
    to: the copy is kept by value. *)
Record HostStatusCopy := mkHostStatusCopy {
  hc_Name : string;
  hc_Address : string;
  hc_Checks : list CheckStatus;
  hc_HCURL : string
}.

Definition copyHost (s : State) (hs : HostStatus) : HostStatusCopy :=
  mkHostStatusCopy (hs_Name hs) (hs_Address hs) (checksOf s hs) (hs_HCURL hs).

Definition GetHost (s : State) (name : string) : option HostStatusCopy :=
  copyHost s <$> hosts s !! name.

(** The map [order] that [Snapshot] and [GetAllHostAnalytics] build:
    [order[h.Name] = i] for the declared hosts in turn, so that a name
    declared twice keeps its last position; [orderAt] is [order[name]], which
    is 0 for a name that is not declared. *)
Definition hostOrder (decl : list config.Host) : gmap string Z :=
  foldl (λ m ih, <[config.Name ih.2 := Z.of_nat ih.1]> m) ∅ (imap pair decl).

Definition orderAt (ord : gmap string Z) (name : string) : Z := default 0 (ord !! name).

(** [sort.SliceStable]: equal elements keep their order, which fixes the
    result; insertion from the right computes it. *)
Fixpoint insertStable {A} (less : A → A → bool) (x : A) (l : list A) : list A :=
  match l with
  | [] => [x]
  | y :: l' => if less y x then y :: insertStable less x l' else x :: l
  end.

Definition SliceStable {A} (less : A → A → bool) (l : list A) : list A :=
  foldr (insertStable less) [] l.

(** [Snapshot]: [order] is the order in which [range s.hosts] yields the
    keys. *)
Definition Snapshot (order : list string) (s : State) : list HostStatusCopy :=
  let ord := hostOrder (config.Hosts (cfg s)) in
  let out := omap (λ name, copyHost s <$> hosts s !! name) order in
  SliceStable (λ a b, bool_decide (orderAt ord (hc_Name a) < orderAt ord (hc_Name b))) out.

Section Sorting.

(** [sort.Slice], which promises a sorted rearrangement and no more: the
    order of elements that compare equal is not specified. *)
Variable sortSlice : ∀ A : Type, (A → A → bool) → list A → list A.

(** [GetAllHostAnalytics]: [order] is the order in which [range s.hosts]
    yields the keys. *)
Definition GetAllHostAnalytics (order : list string) (s : State) : list HostAnalytics :=
  let result := omap (GetHostAnalytics s) order in
  let ord := hostOrder (config.Hosts (cfg s)) in
  sortSlice HostAnalytics
    (λ a b, bool_decide (orderAt ord (ha_Name a) < orderAt ord (ha_Name b))) result.

End Sorting.

(** ** package state: the healthchecks URL of a host *)

(** [SetHCURL]: the error of [saveConfigLocked] is logged, not returned. *)
Definition SetHCURL (fs : FsErr) (hostName url : string)
    (s : State) (files : gmap string FileData) : State * gmap string FileData :=
  match hosts s !! hostName with
  | Some hs =>
    let hs := mkHostStatus (hs_Name hs) (hs_Address hs) (hs_Checks hs) url in
    let s := s |> with_hosts (<[hostName := hs]> (hosts s)) in
    let s := s |> with_cfg
               (with_Hosts
                  (updateHostNamed hostName
                     (λ h, config.mkHost (config.Name h) (config.Address h)
                             (config.Checks h) url)
                     (config.Hosts (cfg s))) (cfg s)) in
    let r := saveConfigLocked fs s files in
    (r.1.2, r.2)
  | None => (s, files)
  end.

(** ** package server: what the templates compute from a status *)

(** [calculateCheckUptime] *)
Definition calculateCheckUptime (c : CheckStatus) : float64 :=
  if bool_decide (cs_TotalChecks c = 0) then f64_100
  else f64_mul (f64_div (f64_of_int (cs_SuccessChecks c)) (f64_of_int (cs_TotalChecks c)))
         f64_100.

(** [extractHeatmapData]: the outcomes of the last 30 entries of the
    history. *)
Definition extractHeatmapData (history : list CheckDataPoint) : list bool :=
  let heatmapSize := 30%nat in
  let startIdx := (length history - heatmapSize)%nat in
  dp_OK <$> drop startIdx history.

(** ** package mqtt: the client *)

Module mqtt.

(** [client] records whether [c.client] is non-nil. *)
Record Client := mkClient {
  settings : config.MQTTSettings;
  client : bool;
  connected : bool
}.

Definition NewClient (settings : config.MQTTSettings) : Client :=
  mkClient settings false false.

(** How the broker answers within the time allowed. *)
Inductive Answer :=
  | Done
  | Timeout
  | Failed (err : string).

(** [Connect]: [dial] is the answer of the broker to a connection with the
    given settings. *)
Definition Connect (dial : config.MQTTSettings → Answer) (c : Client)
    : option string * Client :=
  if negb (config.mqtt_Enabled (settings c)) || bool_decide (config.Broker (settings c) = "")
  then (None, c)
  else
    let c := mkClient (settings c) true (connected c) in
    match dial (settings c) with
    | Timeout => (Some "MQTT connect timeout after 10s", c)
    | Failed err => (Some ("MQTT connect failed: " +:+ err), c)
    | Done => (None, mkClient (settings c) true true)
    end.

Definition Disconnect (c : Client) : Client :=
  if client c && connected c then mkClient (settings c) (client c) false else c.

Definition UpdateSettings (dial : config.MQTTSettings → Answer)
    (new : config.MQTTSettings) (c : Client) : option string * Client :=
  let oldSettings := settings c in
  let c := mkClient new (client c) (connected c) in
  if bool_decide (config.Broker oldSettings ≠ config.Broker new)
     || bool_decide (config.Username oldSettings ≠ config.Username new)
     || bool_decide (config.Password oldSettings ≠ config.Password new)
     || bool_decide (config.mqtt_Enabled oldSettings ≠ config.mqtt_Enabled new)
  then
    let c := Disconnect c in
    if config.mqtt_Enabled new then Connect dial c else (None, c)
  else (None, c).

Definition GetSettings (c : Client) : config.MQTTSettings := settings c.

End mqtt.

(** ** package state: the MQTT settings *)

Definition GetMQTTSettings (s : State) : config.MQTTSettings := config.Settings (cfg s).

(** [UpdateMQTTSettings]: the store holds the pointer to the client, so the
    client is passed beside it; [None] is the panic of a call through a nil
    pointer. *)
Definition UpdateMQTTSettings (fs : FsErr) (dial : config.MQTTSettings → mqtt.Answer)
    (settings : config.MQTTSettings) (s : State) (c : mqtt.Client)
    (files : gmap string FileData)
    : option (option string * State * mqtt.Client * gmap string FileData) :=
  let s := s |> with_cfg (config.mkConfig (config.Hosts (cfg s)) settings) in
  if negb (mqttClient s) then None
  else
    match mqtt.UpdateSettings dial settings c with
    | (Some err, c) => Some (Some err, s, c, files)
    | (None, c) =>
      let r := saveConfigLocked fs s files in
      Some (r.1.1, r.1.2, c, r.2)
    end.

(** ** package config: loading *)

Inductive Parser :=
  | ParserYAML
  | ParserTOML.

(** [Load]: [read path parser] is what reading the file and decoding it into
    a [Config] gives, an error or the config. *)
Definition Load (read : string → Parser → string + config.Config) (path : string)
    : string + config.Config :=
  let ext := Ext path in
  match (if bool_decide (ext = ".yaml") || bool_decide (ext = ".yml") then inr ParserYAML
         else if bool_decide (ext = ".toml") then inr ParserTOML
         else inl ("unsupported config extension: " +:+ ext)) with
  | inl err => inl err
  | inr parser =>
    match read path parser with
    | inl err => inl err
    | inr cfg =>
      inr (with_Hosts
             ((λ h, if bool_decide (length (config.Checks h) = 0%nat)
                    then with_Checks [pingCheck] h else h) <$> config.Hosts cfg) cfg)
    end
  end.

(** ** package telegram: escaping *)

(** [strings.ReplaceAll(s, old, new)] for an [old] that is not empty: the
    occurrences of [old] from left to right, none overlapping another; [skip]
    counts the bytes of an occurrence that are still to be passed over. *)
Fixpoint replaceFrom (old new : string) (skip : nat) (s : string) : string :=
  match s with
  | EmptyString => EmptyString
  | String ch rest =>
    match skip with
    | S k => replaceFrom old new k rest
    | O =>
      if String.prefix old s
      then new +:+ replaceFrom old new (String.length old - 1) rest
      else String ch (replaceFrom old new 0 rest)
    end
  end.

Definition ReplaceAll (s old new : string) : string := replaceFrom old new 0 s.

Definition special : list string :=
  ["_"; "*"; "["; "]"; "("; ")"; "~"; "`"; ">"; "#"; "+"; "-"; "="; "|"; "{"; "}"; "."; "!"].

(** The string of the one byte 92, the backslash. *)
Definition backslash : string := String (ascii_of_nat 92) EmptyString.

(** [escapeMarkdown] *)
Definition escapeMarkdown (s : string) : string :=
  foldl (λ result char, ReplaceAll result char (backslash +:+ char)) s special.

(** ** package server: requests that change the store *)

(** [strconv.Atoi]: the value and the error.  A string that is no decimal
    number gives 0 and a syntax error; digits that leave the range of [int]
    give the nearest bound and a range error, whatever follows them. *)
Inductive NumError :=
  | ErrSyntax
  | ErrRange.

Definition digitOf (ch : ascii) : option Z :=
  let n := Z.of_N (N_of_ascii ch) in
  if bool_decide (48 ≤ n ≤ 57) then Some (n - 48) else None.

(** The loop of [ParseUint] over the digits. *)
Fixpoint parseDigits (s : string) (n : Z) : Z + NumError :=
  match s with
  | EmptyString => inl n
  | String ch rest =>
    match digitOf ch with
    | None => inr ErrSyntax
    | Some d =>
      if bool_decide (2 ^ 64 - 1 < n * 10 + d) then inr ErrRange
      else parseDigits rest (n * 10 + d)
    end
  end.

Definition Atoi (s : string) : Z * option NumError :=
  let '(neg, digits) :=
    match s with
    | String "+" rest => (false, rest)
    | String "-" rest => (true, rest)
    | _ => (false, s)
    end in
  if bool_decide (digits = "") then (0, Some ErrSyntax)
  else
    match parseDigits digits 0 with
    | inr ErrSyntax => (0, Some ErrSyntax)
    | inr ErrRange => (if neg then minInt64 else maxInt64, Some ErrRange)
    | inl un =>
      if negb neg && bool_decide (2 ^ 63 ≤ un) then (maxInt64, Some ErrRange)
      else if neg && bool_decide (2 ^ 63 < un) then (minInt64, Some ErrRange)
      else (if neg then - un else un, None)
    end.

(** A request, as far as the handlers read it: the method and the values of
    the form. *)
Record Request := mkRequest {
  Method : string;
  Form : string → list string
}.

(** [r.FormValue(key)]: the first value, or the empty string. *)
Definition FormValue (r : Request) (key : string) : string :=
  match Form r key with
  | v :: _ => v
  | [] => ""
  end.

(** The status code of the response; the body, which the templates of the
    repository render, is left out. *)
Definition Status := Z.

Definition handleToggle (r : Request) (s : State) : Status * State :=
  if bool_decide (Method r ≠ "POST") then (405, s)
  else
    let host := FormValue r "host" in
    let idxStr := FormValue r "idx" in
    let enabled := bool_decide (FormValue r "enabled" = "true") in
    let idx := (Atoi idxStr).1 in
    (200, Toggle host idx enabled s).

Definition handleEditDelCheck (fs : FsErr) (r : Request) (s : State)
    (files : gmap string FileData) : Status * State * gmap string FileData :=
  if bool_decide (Method r ≠ "POST") then (405, s, files)
  else
    let host := FormValue r "host" in
    let idxStr := FormValue r "idx" in
    let idx := (Atoi idxStr).1 in
    match RemoveCheck fs host idx s files with
    | (Some _, s, files) => (409, s, files)
    | (None, s, files) => (200, s, files)
    end.

(** An operation whose error the handler drops: [_ = s.st.Add...Check(...)]. *)
Definition dropError (r : Result) : State * gmap string FileData := (r.1.2, r.2).

(** The body of the loop of [handleAddHost] over [checks_type]. *)
Definition addListedCheck (growslice : nat → nat) (fs : FsErr) (order : list string)
    (r : Request) (name : string) (acc : State * gmap string FileData)
    (it : nat * string) : State * gmap string FileData :=
  let '(s, files) := acc in
  let '(i, typ) := it in
  let id := match Form r "checks_id" !! i with Some v => v | None => "" end in
  let dependsOn := match Form r "checks_depends_on" !! i with Some v => v | None => "" end in
  let mqttNotify :=
    match Form r "checks_mqtt_notify" !! i with
    | Some v => bool_decide (v = "true")
    | None => false
    end in
  if bool_decide (typ = "ping") then
    dropError (AddPingCheck growslice fs order name id dependsOn mqttNotify s files)
  else if bool_decide (typ = "http") then
    let url := match Form r "checks_url" !! i with Some v => v | None => "" end in
    let expect :=
      match Form r "checks_expect" !! i with
      | Some e => match Atoi e with (v, None) => v | (_, Some _) => 200 end
      | None => 200
      end in
    dropError (AddHTTPCheck growslice fs order name url expect id dependsOn mqttNotify s files)
  else if bool_decide (typ = "tcp") then
    let port :=
      match Form r "checks_port" !! i with
      | Some e => match Atoi e with (v, None) => v | (_, Some _) => 0 end
      | None => 0
      end in
    dropError (AddTCPCheck growslice fs order name port id dependsOn mqttNotify s files)
  else (s, files).

Definition handleAddHost (growslice : nat → nat) (fs : FsErr) (order : list string)
    (r : Request) (s : State) (files : gmap string FileData)
    : Status * State * gmap string FileData :=
  if bool_decide (Method r ≠ "POST") then (405, s, files)
  else
    let name := FormValue r "name" in
    let addr := FormValue r "address" in
    let hcurl := FormValue r "hcurl" in
    if bool_decide (name = "") || bool_decide (addr = "") then (400, s, files)
    else
      match AddHostWithoutDefaultCheck fs name addr hcurl s files with
      | (Some _, s, files) => (409, s, files)
      | (None, s, files) =>
        let types := Form r "checks_type" in
        let directMqttNotify := bool_decide (FormValue r "mqtt_notify" = "true") in
        let directType := FormValue r "type" in
        let directURL := FormValue r "url" in
        let directPort := FormValue r "port" in
        let directID := FormValue r "id" in
        let directDependsOn := FormValue r "depends_on" in
        let directExpectStr := FormValue r "expect" in
        let '(s, files) :=
          if bool_decide (length types = 0%nat) then
            if bool_decide (directType = "http") then
              let expectVal :=
                if bool_decide (directExpectStr ≠ "") then
                  match Atoi directExpectStr with (v, None) => v | (_, Some _) => 200 end
                else 200 in
              dropError (AddHTTPCheck growslice fs order name directURL expectVal directID
                           directDependsOn directMqttNotify s files)
            else if bool_decide (directType = "tcp") then
              let portVal :=
                if bool_decide (directPort ≠ "") then
                  match Atoi directPort with (v, None) => v | (_, Some _) => 0 end
                else 0 in
              dropError (AddTCPCheck growslice fs order name portVal directID
                           directDependsOn directMqttNotify s files)
            else
              dropError (AddPingCheck growslice fs order name directID directDependsOn
                           directMqttNotify s files)
          else
            foldl (addListedCheck growslice fs order r name) (s, files) (imap pair types) in
        (200, s, files)
      end.

(** * Notions used by the statements *)

(** The last [n] elements of a list. *)
Definition lastN {A} (n : nat) (l : list A) : list A := drop (length l - n) l.

(** A run of recorded evaluations of one check, oldest first. *)
Definition recordAll (pts : list CheckDataPoint) (c : CheckStatus) : CheckStatus :=
  foldl (λ c p, recordDataPoint (dp_Timestamp p) (dp_OK p) (dp_LatencyMS p) c) c pts.

(** A status that no evaluation has been recorded for. *)
Definition unevaluated (c : CheckStatus) : Prop :=
  cs_LatencyHistory c = [] ∧ cs_FullHistory c = [] ∧
  cs_TotalChecks c = 0 ∧ cs_SuccessChecks c = 0.

Definition successes (pts : list CheckDataPoint) : nat :=
  length (filter (λ p, dp_OK p = true) pts).

(** The types that [runOnce] has a probe for. *)
Definition knownType (c : CheckStatus) : Prop :=
  cs_Type c = CheckPing ∨ cs_Type c = CheckHTTP ∨ cs_Type c = CheckTCP.

(** The value of the local variable [actualOK] in the three cases of the
    switch: what the probe itself found, whatever the parent's health. *)
Definition actualOK (hs : HostStatus) (net : Probes) (c : CheckStatus) : bool :=
  if bool_decide (cs_Type c = CheckPing) then ping_OK (PingOnce net (hs_Address hs))
  else if bool_decide (cs_Type c = CheckHTTP) then
    let res := HTTPGet net (if bool_decide (cs_URL c = "") then "http://" +:+ hs_Address hs
                            else cs_URL c) in
    match http_Err res with
    | None => bool_decide (http_Code res = expectOrDefault (cs_Expect c))
    | Some _ => false
    end
  else if bool_decide (cs_Type c = CheckTCP) then
    tcp_OK (TCPCheck net (hs_Address hs) (if bool_decide (cs_Port c = 0) then 80 else cs_Port c))
  else false.

(** The log with one more event at its end, the oldest event given up when
    the log was full. *)
Definition appended (e : Event) (eventLog : list Event) : list Event :=
  (if bool_decide (maxEvents ≤ length eventLog)%nat then drop 1 eventLog else eventLog)
  ++ [e].

(** The URL of a failure report: the healthchecks URL without the slash at
    its end, if it has one, followed by ["/fail"]. *)
Fixpoint stripSlash (base : string) : string :=
  match base with
  | EmptyString => EmptyString
  | String ch rest =>
    match rest with
    | EmptyString => if bool_decide (ch = "/"%char) then EmptyString else base
    | String _ _ => String ch (stripSlash rest)
    end
  end.

Definition failURL (base : string) : string := stripSlash base +:+ "/fail".

(** The evaluations in which a notifier panics: those of a ping check of a
    host with a healthchecks URL, when the report that the outcome calls for
    (none for a check blocked by its parent) has a URL that [url.Parse] turns
    down. *)
Definition notifierPanics (parseURL : string → bool) (hs : HostStatus) (net : Probes)
    (parentOK : bool) (c : CheckStatus) : bool :=
  bool_decide (cs_Type c = CheckPing) && bool_decide (hs_HCURL hs ≠ "") &&
  (if ping_OK (PingOnce net (hs_Address hs)) then negb (parseURL (hs_HCURL hs))
   else parentOK && negb (parseURL (failURL (hs_HCURL hs)))).

(** What an evaluation that completes computes: the three definitions below
    follow [probePing], [probe] and [evalCheck] with the reports taken as
    sent. *)
Definition pingDone (now : Time) (hs : HostStatus) (net : Probes) (parentOK : bool)
    (c : CheckStatus) : CheckStatus * list Output :=
  let res := PingOnce net (hs_Address hs) in
  let c := c |> with_CheckedAt now in
  let '(c, out) :=
    if ping_OK res then
      (c |> with_OK true |> with_ParentFailed false |> with_Message "pong"
         |> with_LatencyMS (Milliseconds (ping_Latency res)),
       if bool_decide (hs_HCURL hs ≠ "") then [HealthchecksGet (hs_HCURL hs)] else [])
    else if negb parentOK then
      (c |> with_OK false |> with_ParentFailed true
         |> with_Message "parent check failed" |> with_LatencyMS 0,
       [])
    else
      (c |> with_OK false |> with_ParentFailed false
         |> with_Message (match ping_Err res with Some e => e | None => "no reply" end)
         |> with_LatencyMS 0,
       if bool_decide (hs_HCURL hs ≠ "") then [HealthchecksGet (failURL (hs_HCURL hs))]
       else [])
  in
  (recordDataPoint now (ping_OK res) (cs_LatencyMS c) c, out).

Definition probeDone (now : Time) (hs : HostStatus) (net : Probes) (parentOK : bool)
    (c : CheckStatus) : CheckStatus * list Output :=
  if bool_decide (cs_Type c = CheckPing) then pingDone now hs net parentOK c
  else if bool_decide (cs_Type c = CheckHTTP) then probeHTTP now hs net parentOK c
  else if bool_decide (cs_Type c = CheckTCP) then probeTCP now hs net parentOK c
  else (c, []).

Definition evalDone (rs : Duration → string) (now : Time) (hs : HostStatus) (i : nat)
    (net : Probes) (mqtt : bool) (parentOK : bool) (c : CheckStatus)
    (eventLog : list Event) : CheckStatus * list Event * list Output :=
  let wasOK := cs_OK c in
  let wasChecked := negb (IsZero (cs_CheckedAt c)) in
  let wasParentFailed := cs_ParentFailed c in
  let c := if bool_decide (cs_DependsOn c ≠ "")
           then c |> with_ParentID (cs_DependsOn c) else c in
  let '(c, out1) := probeDone now hs net parentOK c in
  let '(c, eventLog, out2) :=
    trackStateChange rs now hs i mqtt wasOK wasChecked wasParentFailed c eventLog in
  (c, eventLog, out1 ++ out2).

(** The check that [c.DependsOn] resolves to, if any. *)
Definition parentOf (s : State) (c : CheckStatus) : option CheckStatus :=
  checksByID s !! cs_DependsOn c ≫= load (arrays s).

(** The dependency chain that starts at [c] ends after [n] parents: at a
    check without dependency, with an unresolvable one, or whose parent is
    disabled or was never evaluated. *)
Inductive ChainEnds (s : State) : nat → CheckStatus → Prop :=
  | chain_no_dependency c :
      cs_DependsOn c = "" → ChainEnds s 0 c
  | chain_unresolved c :
      GetCheckByID s (cs_DependsOn c) = None → ChainEnds s 0 c
  | chain_skipped c p parent :
      GetCheckByID s (cs_DependsOn c) = Some p → load (arrays s) p = Some parent →
      cs_Enabled parent = false ∨ IsZero (cs_CheckedAt parent) = true →
      ChainEnds s 0 c
  | chain_parent n c p parent :
      GetCheckByID s (cs_DependsOn c) = Some p → load (arrays s) p = Some parent →
      ChainEnds s n parent → ChainEnds s (S n) c.

(** ** A concrete deployment

    The scenario of the README: the check of host "Internet" carries the ID
    "internet" and the check of host "Google" depends on it. *)

Definition exampleConfig : config.Config :=
  config.mkConfig
    [config.mkHost "Internet" "8.8.8.8"
       [config.mkCheck CheckPing true "" 0 0 "internet" "" false] "";
     config.mkHost "Google" "google.com"
       [config.mkCheck CheckPing true "" 0 0 "" "internet" false] ""]
    (config.mkMQTTSettings false "" "" "" "" "").

Definition exampleOrder : list string := ["Internet"; "Google"].

(** A runtime that doubles the capacity of a slice that is full. *)
Definition doubling (cap : nat) : nat := (2 * cap)%nat.

Definition exampleState : State := New doubling exampleOrder exampleConfig.

Definition exampleWorld : World := mkWorld exampleState [] [].

Definition exampleInternet : HostStatus :=
  mkHostStatus "Internet" "8.8.8.8" (mkSlice (Some 0%nat) 1) "".

Definition exampleGoogle : HostStatus :=
  mkHostStatus "Google" "google.com" (mkSlice (Some 1%nat) 1) "".

(** A network on which nothing answers, and one on which everything does. *)
Definition allDown : string → nat → Probes :=
  λ _ _, mkProbes (λ _, mkPingResult false 0 None)
                  (λ _, mkHTTPResult 0 0 (Some "timeout"))
                  (λ _ _, mkTCPResult 0 false (Some "timeout")).

Definition allUp : string → nat → Probes :=
  λ _ _, mkProbes (λ _, mkPingResult true 12000000 None)
                  (λ _, mkHTTPResult 200 35000000 None)
                  (λ _ _, mkTCPResult 3000000 true None).

Definition noRounding : Duration → string := λ d, pretty d +:+ "ns".

(** A [url.Parse] that accepts every URL it is asked about. *)
Definition anyURL : string → bool := λ _, true.

(** A [url.Parse] that turns down the URLs that start with a colon, which
    have no protocol scheme, and accepts the others it is asked about. *)
Definition schemeURL : string → bool :=
  λ url, match url with String ":"%char _ => false | _ => true end.

(** The world after a first pass at time 100 in which every probe fails. *)
Definition exampleWorldDown : World :=
  default exampleWorld (runOnce noRounding anyURL 3 100 allDown exampleOrder exampleWorld).

(** The same world once "Internet" alone has been evaluated again at time 200
    and has answered. *)
Definition exampleWorldInternetUp : World :=
  default exampleWorldDown
    (runCheck noRounding anyURL 3 200 allUp exampleInternet 0 exampleWorldDown).

(** The status that a pointer refers to in a world. *)
Definition statusAt (w : World) (p : Ptr) : CheckStatus :=
  default zeroCheckStatus (load (arrays (w_state w)) p).

(** ** Agreement of the runtime status with the declarative config *)

(** A slice lies inside an array of the store. *)
Definition sliceOK (m : gmap nat (list CheckStatus)) (sl : Slice) : Prop :=
  match sl_arr sl with
  | Some a => ∃ l, m !! a = Some l ∧ (sl_len sl ≤ length l)%nat
  | None => sl_len sl = 0%nat
  end.

(** Every host's slice lies in the store and no two hosts share an array. *)
Definition wfStore (s : State) : Prop :=
  (∀ name hs, hosts s !! name = Some hs → sliceOK (arrays s) (hs_Checks hs)) ∧
  (∀ n1 n2 hs1 hs2 a,
     hosts s !! n1 = Some hs1 → hosts s !! n2 = Some hs2 →
     sl_arr (hs_Checks hs1) = Some a → sl_arr (hs_Checks hs2) = Some a → n1 = n2).

(** The runtime checks of every host. *)
Definition view (s : State) : gmap string (list CheckStatus) :=
  checksOf s <$> hosts s.

(** A runtime status and a declared check carry the same fields; [Enabled] is
    compared only when [withEnabled] is set, and the type-specific fields only
    for their type, which is how [New] copies them. *)
Definition checkAgrees (withEnabled : bool) (r : CheckStatus) (d : config.Check) : Prop :=
  cs_Type r = config.Type_ d ∧
  (withEnabled = true → cs_Enabled r = config.Enabled d) ∧
  cs_ID r = config.ID d ∧
  cs_DependsOn r = config.DependsOn d ∧
  cs_MQTTNotify r = config.MQTTNotify d ∧
  (cs_Type r = CheckHTTP → cs_URL r = config.URL d ∧ cs_Expect r = config.Expect d) ∧
  (cs_Type r = CheckTCP → cs_Port r = config.Port d).

(** The declared hosts are exactly the hosts of the store, once each, and
    host by host the checks correspond one to one, in order. *)
Definition agreesWith (withEnabled : bool) (v : gmap string (list CheckStatus))
    (decl : list config.Host) : Prop :=
  NoDup (config.Name <$> decl) ∧
  (∀ name, is_Some (v !! name) → name ∈ config.Name <$> decl) ∧
  Forall (λ h, ∃ cs, v !! config.Name h = Some cs ∧
                     Forall2 (checkAgrees withEnabled) cs (config.Checks h)) decl.

Definition consistent (withEnabled : bool) (s : State) : Prop :=
  wfStore s ∧ agreesWith withEnabled (view s) (config.Hosts (cfg s)).

(** The mutating operations of the store. *)
Inductive Mutation :=
  | MAddHost (name address hcurl : string)
  | MAddHostWithoutDefaultCheck (name address hcurl : string)
  | MUpdateHost (oldName newName address hcurl : string)
  | MDeleteHost (name : string)
  | MAddPingCheck (hostName id dependsOn : string) (mqttNotify : bool)
  | MAddHTTPCheck (hostName url : string) (expect : Z) (id dependsOn : string)
      (mqttNotify : bool)
  | MAddTCPCheck (hostName : string) (port : Z) (id dependsOn : string) (mqttNotify : bool)
  | MRemoveCheck (hostName : string) (idx : Z)
  | MUpdateHTTPCheck (hostName : string) (idx : Z) (url : string) (expect : Z)
      (id dependsOn : string) (mqttNotify : bool)
  | MUpdateTCPCheck (hostName : string) (idx : Z) (port : Z) (id dependsOn : string)
      (mqttNotify : bool)
  | MUpdateCheckDependencies (hostName : string) (idx : Z) (id dependsOn : string)
      (mqttNotify : bool)
  | MToggle (hostName : string) (idx : Z) (enabled : bool)
  | MSetAllEnabled (enabled : bool).

Definition applyMutation (growslice : nat → nat) (fs : FsErr) (order : list string)
    (mu : Mutation) (s : State) (files : gmap string FileData) : Result :=
  match mu with
  | MAddHost name address hcurl => AddHost growslice fs name address hcurl s files
  | MAddHostWithoutDefaultCheck name address hcurl =>
      AddHostWithoutDefaultCheck fs name address hcurl s files
  | MUpdateHost oldName newName address hcurl =>
      UpdateHost fs oldName newName address hcurl s files
  | MDeleteHost name => DeleteHost fs name s files
  | MAddPingCheck hostName id dependsOn mqttNotify =>
      AddPingCheck growslice fs order hostName id dependsOn mqttNotify s files
  | MAddHTTPCheck hostName url expect id dependsOn mqttNotify =>
      AddHTTPCheck growslice fs order hostName url expect id dependsOn mqttNotify s files
  | MAddTCPCheck hostName port id dependsOn mqttNotify =>
      AddTCPCheck growslice fs order hostName port id dependsOn mqttNotify s files
  | MRemoveCheck hostName idx => RemoveCheck fs hostName idx s files
  | MUpdateHTTPCheck hostName idx url expect id dependsOn mqttNotify =>
      UpdateHTTPCheck fs order hostName idx url expect id dependsOn mqttNotify s files
  | MUpdateTCPCheck hostName idx port id dependsOn mqttNotify =>
      UpdateTCPCheck fs order hostName idx port id dependsOn mqttNotify s files
  | MUpdateCheckDependencies hostName idx id dependsOn mqttNotify =>
      UpdateCheckDependencies fs order hostName idx id dependsOn mqttNotify s files
  | MToggle hostName idx enabled => (None, Toggle hostName idx enabled s, files)
  | MSetAllEnabled enabled => (None, SetAllEnabled order enabled s, files)
  end.

(** A run of operations, each with the outcomes of its file operations and
    the order in which it finds the hosts. *)
Definition applyAll (growslice : nat → nat) (steps : list (FsErr * list string * Mutation))
    (start : State * gmap string FileData) : State * gmap string FileData :=
  foldl (λ '(s, files) '(fs, order, mu),
           let r := applyMutation growslice fs order mu s files in (r.1.2, r.2))
        start steps.

(** The operations that change hosts or checks, as opposed to the two that
    switch checks on and off. *)
Definition structural (mu : Mutation) : bool :=
  match mu with
  | MToggle _ _ _ | MSetAllEnabled _ => false
  | _ => true
  end.

(** What [saveConfigLocked] writes for a config at a path, if anything. *)
Definition encoded (path : string) (c : config.Config) : option FileData :=
  if bool_decide (path = "") then None
  else if bool_decide (Ext path = ".yaml") || bool_decide (Ext path = ".yml")
  then Some (YAML c)
  else if bool_decide (Ext path = ".toml") then Some (TOML c)
  else None.

(** The state in which host [name] has the slice [sl] in the store [m]. *)
Definition setChecks (name : string) (hs : HostStatus) (sl : Slice)
    (m : gmap nat (list CheckStatus)) (s : State) : State :=
  s |> with_arrays m
    |> with_hosts (<[name := mkHostStatus (hs_Name hs) (hs_Address hs) sl (hs_HCURL hs)]>
                     (hosts s)).


(** What [store], [removeAt] and [append1] do to a slice [sl] of the store [m]:
    the result lies in the new store, uses the old array or one that was not
    in use, and the other arrays are as before. *)
Definition updatesSlice (m : gmap nat (list CheckStatus)) (sl : Slice)
    (m' : gmap nat (list CheckStatus)) (sl' : Slice) : Prop :=
  sliceOK m' sl' ∧
  (∀ a, sl_arr sl' = Some a → sl_arr sl = Some a ∨ m !! a = None) ∧
  (∀ a l, m !! a = Some l → sl_arr sl ≠ Some a → sl_arr sl' ≠ Some a → m' !! a = Some l).


(** What a mutating operation owes: the store and the config agree afterwards
    and, unless an error is returned, the file at the bound path holds the
    config. *)
Definition settled (b : bool) (r : Result) : Prop :=
  consistent b r.1.2 ∧
  (r.1.1 = None →
   ∀ d, encoded (configPath r.1.2) (cfg r.1.2) = Some d → r.2 !! configPath r.1.2 = Some d).


(** The assignments that an update makes keep a status and its declaration
    in step. *)
Definition keepsAgreement (b : bool) (required : option CheckType)
    (frt : CheckStatus → CheckStatus) (fdecl : config.Check → config.Check) : Prop :=
  ∀ c d, checkAgrees b c d →
         match required with Some ty => cs_Type c = ty | None => True end →
         checkAgrees b (frt c) (fdecl d).


(** The deployment with its config bound to a file. *)
Definition examplePath : string := "/etc/poke443/config.yaml".

Definition exampleStateAt : State :=
  mkState (cfg exampleState) (hosts exampleState) (checksByID exampleState) examplePath
    (mqttClient exampleState) (arrays exampleState).

(** A file system on which every operation succeeds. *)
Definition fsOK : FsErr := λ _, None.

(** Per declared host, the [expect] of its checks. *)
Definition declaredExpects (c : config.Config) : list (string * list Z) :=
  (λ h, (config.Name h, config.Expect <$> config.Checks h)) <$> config.Hosts c.

Definition persistedExpects (files : gmap string FileData) (path : string)
    : option (list (string * list Z)) :=
  match files !! path with
  | Some (YAML c) | Some (TOML c) => Some (declaredExpects c)
  | None => None
  end.

(** A host with two checks that carry IDs. *)
Definition webConfig : config.Config :=
  config.mkConfig
    [config.mkHost "web" "10.0.0.5"
       [config.mkCheck CheckPing true "" 0 0 "a" "" false;
        config.mkCheck CheckTCP true "" 0 443 "b" "" false] ""]
    (config.mkMQTTSettings false "" "" "" "" "").

Definition webState : State := New doubling ["web"] webConfig.

(** The pointer of an index entry refers to a check of a host of the store
    that carries the ID. *)
Definition liveEntry (s : State) (id : string) (p : Ptr) : Prop :=
  ∃ name hs i c,
    hosts s !! name = Some hs ∧ addr (hs_Checks hs) i = Some p ∧
    load (arrays s) p = Some c ∧ cs_ID c = id.

(** The latencies of the samples that succeeded with a positive latency. *)
Definition okLatencies (fh : list CheckDataPoint) : list Z :=
  dp_LatencyMS <$> filter (λ dp, dp_OK dp = true ∧ 0 < dp_LatencyMS dp) fh.

(** An HTTP check that answers 500 after 300ms, then 200 after 50ms. *)
Definition apiConfig : config.Config :=
  config.mkConfig
    [config.mkHost "api" "api.local"
       [config.mkCheck CheckHTTP true "http://api.local/health" 200 0 "" "" false] ""]
    (config.mkMQTTSettings false "" "" "" "" "").

Definition answering (code : Z) (latency : Duration) : string → nat → Probes :=
  λ _ _, mkProbes (λ _, mkPingResult true latency None)
                  (λ _, mkHTTPResult code latency None)
                  (λ _ _, mkTCPResult latency true None).

Definition apiWorld : option World :=
  runOnce noRounding anyURL 1 1000 (answering 500 300000000) ["api"]
    (mkWorld (New doubling ["api"] apiConfig) [] [])
  ≫= runOnce noRounding anyURL 1 2000 (answering 200 50000000) ["api"].

Definition apiAnalytics : option (list CheckAnalytics) :=
  w ← apiWorld; ha_Checks <$> GetHostAnalytics (w_state w) "api".

(** A ping that answers in less than a millisecond, then in 5ms. *)
Definition lanConfig : config.Config :=
  config.mkConfig
    [config.mkHost "lan" "192.168.1.1" [config.mkCheck CheckPing true "" 0 0 "" "" false] ""]
    (config.mkMQTTSettings false "" "" "" "" "").

Definition lanWorld : option World :=
  runOnce noRounding anyURL 1 1000 (answering 200 400000) ["lan"]
    (mkWorld (New doubling ["lan"] lanConfig) [] [])
  ≫= runOnce noRounding anyURL 1 2000 (answering 200 5000000) ["lan"].

Definition lanAnalytics : option (list CheckAnalytics) :=
  w ← lanWorld; ha_Checks <$> GetHostAnalytics (w_state w) "lan".

(** A network on which "Internet" and "Google" answer or not, as told. *)
Definition answeringHosts (internet google : bool) : string → nat → Probes :=
  λ host _,
    let up := if bool_decide (host = "Internet") then internet else google in
    mkProbes (λ _, mkPingResult up (if up then 12000000 else 0) None)
             (λ _, mkHTTPResult (if up then 200 else 0) 0
                     (if up then None else Some "timeout"))
             (λ _ _, mkTCPResult 0 up (if up then None else Some "timeout")).

(** Two passes: everything answers at time 50; nothing answers at time 100. *)
Definition scenarioWorldDown : option World :=
  runOnce noRounding anyURL 3 50 (answeringHosts true true) exampleOrder exampleWorld
  ≫= runOnce noRounding anyURL 3 100 (answeringHosts false false) exampleOrder.

(** A third pass at time 200: "Internet" answers again, "Google" still does
    not. *)
Definition scenarioWorld : option World :=
  scenarioWorldDown ≫= runOnce noRounding anyURL 3 200 (answeringHosts true false) exampleOrder.

Definition eventSummary (w : World) : list (Time * string * string) :=
  (λ e, (ev_Timestamp e, ev_HostName e, ev_EventType e)) <$> w_eventLog w.

Definition statusSummary (w : World) (p : Ptr) : option (bool * bool) :=
  (λ c, (cs_OK c, cs_ParentFailed c)) <$> load (arrays (w_state w)) p.

(** * Notions used by the further statements *)

(** ** Dependency cycles and chains *)

(** The pointers in [Q] refer to checks that are consulted as parents (they
    are enabled and were evaluated) and that depend on a check behind a
    pointer of [Q] again.  In a finite store such a set holds a dependency
    cycle. *)
Definition closedCycle (s : State) (Q : Ptr → Prop) : Prop :=
  ∀ p, Q p → ∃ c p',
    load (arrays s) p = Some c ∧ cs_Enabled c = true ∧
    IsZero (cs_CheckedAt c) = false ∧
    cs_DependsOn c ≠ "" ∧ checksByID s !! cs_DependsOn c = Some p' ∧ Q p'.

(** [c] depends on a check of [Q]. *)
Definition dependsInto (s : State) (Q : Ptr → Prop) (c : CheckStatus) : Prop :=
  cs_DependsOn c ≠ "" ∧ ∃ p', checksByID s !! cs_DependsOn c = Some p' ∧ Q p'.

(** The chain of [DependsOn] links that starts at [c] ends within [n] links,
    whatever the checks on it report: at a check without dependency or with
    one that the index does not resolve. *)
Fixpoint chainWithin (n : nat) (s : State) (c : CheckStatus) : bool :=
  bool_decide (cs_DependsOn c = "") ||
  match checksByID s !! cs_DependsOn c with
  | None => true
  | Some p =>
    match n, load (arrays s) p with
    | S n, Some parent => chainWithin n s parent
    | _, _ => false
    end
  end.

(** Every check of every host has a chain that ends within [n] links. *)
Definition chainsWithin (n : nat) (s : State) : Prop :=
  map_Forall (λ _ hs, Forall (λ c, chainWithin n s c = true) (checksOf s hs)) (hosts s).

(** The fields of a status that mirror its declaration. *)
Definition declared (c : CheckStatus)
    : CheckType * bool * string * Z * Z * string * string * bool :=
  (cs_Type c, cs_Enabled c, cs_URL c, cs_Expect c, cs_Port c, cs_ID c, cs_DependsOn c,
   cs_MQTTNotify c).

(** Two stores with the same hosts, index and config whose arrays hold, slot
    by slot, statuses with the same declared fields. *)
Definition sameDeclared (s s' : State) : Prop :=
  cfg s' = cfg s ∧ hosts s' = hosts s ∧ checksByID s' = checksByID s ∧
  configPath s' = configPath s ∧ mqttClient s' = mqttClient s ∧
  ∀ a, option_Forall2 (Forall2 (λ c c', declared c' = declared c))
         (arrays s !! a) (arrays s' !! a).

(** A check that depends on itself, and the world after it was evaluated
    once. *)
Definition loopConfig : config.Config :=
  config.mkConfig
    [config.mkHost "web" "10.0.0.5" [config.mkCheck CheckPing true "" 0 0 "a" "a" false] ""]
    (config.mkMQTTSettings false "" "" "" "" "").

Definition loopWorld : World :=
  default (mkWorld (New doubling ["web"] loopConfig) [] [])
    (runOnce noRounding anyURL 1 100 allUp ["web"] (mkWorld (New doubling ["web"] loopConfig) [] [])).

(** ** Requests to healthchecks.io *)

(** The URLs requested from healthchecks.io among the requests sent out. *)
Definition healthchecksURLs (out : list Output) : list string :=
  omap (λ o, match o with HealthchecksGet url => Some url | MQTTPublish _ => None end) out.

(** ** Counting checks *)

(** The checks that a loop over the hosts in [order] visits, in turn. *)
Definition visited (order : list string) (s : State) : list CheckStatus :=
  mjoin (omap (λ name, checksOf s <$> hosts s !! name) order).

(** How many of the checks satisfy [P]. *)
Definition countIf (P : CheckStatus → bool) (l : list CheckStatus) : Z :=
  Z.of_nat (length (filter (λ c, P c = true) l)).

(** The five states that a check is displayed in. *)
Definition isDisabled (c : CheckStatus) : bool := negb (cs_Enabled c).
Definition isUnknown (c : CheckStatus) : bool := cs_Enabled c && IsZero (cs_CheckedAt c).
Definition isEvaluated (c : CheckStatus) : bool :=
  cs_Enabled c && negb (IsZero (cs_CheckedAt c)).
Definition isUp (c : CheckStatus) : bool := isEvaluated c && cs_OK c.
Definition isBlocked (c : CheckStatus) : bool :=
  isEvaluated c && negb (cs_OK c) && cs_ParentFailed c.
Definition isDown (c : CheckStatus) : bool :=
  isEvaluated c && negb (cs_OK c) && negb (cs_ParentFailed c).

(** The integer fields of the statistics. *)
Definition counters (st : AggregateStats) : list Z :=
  [as_TotalHosts st; as_TotalChecks st; as_ChecksUp st; as_ChecksDown st;
   as_ChecksParentFailed st; as_ChecksDisabled st; as_ChecksUnknown st].

(** ** The hosts of the map *)

(** [order] is an order in which [range s.hosts] can yield the keys: every
    key once. *)
Definition enumerates (order : list string) (s : State) : Prop :=
  NoDup order ∧ ∀ name, name ∈ order ↔ is_Some (hosts s !! name).

(** Every host is filed under its own name. *)
Definition keyedByName (s : State) : Prop :=
  map_Forall (λ name hs, hs_Name hs = name) (hosts s).

(** What [sort.Slice] promises for a comparison by an integer key: a sorted
    rearrangement. *)
Definition sortsByKey (sortSlice : ∀ A : Type, (A → A → bool) → list A → list A) : Prop :=
  ∀ (A : Type) (k : A → Z) (l : list A),
    sortSlice A (λ a b, bool_decide (k a < k b)) l ≡ₚ l ∧
    StronglySorted (λ a b, k a ≤ k b) (sortSlice A (λ a b, bool_decide (k a < k b)) l).

(** ** MQTT notifications *)



(** The settings differ in a field that makes [UpdateSettings] reconnect. *)
Definition reconnects (old new : config.MQTTSettings) : Prop :=
  config.Broker old ≠ config.Broker new ∨ config.Username old ≠ config.Username new ∨
  config.Password old ≠ config.Password new ∨
  config.mqtt_Enabled old ≠ config.mqtt_Enabled new.

(** A broker that cannot be reached. *)
Definition unreachable : config.MQTTSettings → mqtt.Answer :=
  λ _, mqtt.Failed "connection refused".

(** ** A healthchecks URL that does not parse *)

(** The world once the healthchecks URL of a host has been set, as the
    settings page does through [SetHCURL]. *)
Definition withHCURL (host url : string) (w : World) : World :=
  mkWorld (SetHCURL fsOK host url (w_state w) ∅).1 (w_eventLog w) (w_out w).

(** A first pass at time 50 in which everything answers. *)
Definition scenarioWorldUp : option World :=
  runOnce noRounding anyURL 3 50 (answeringHosts true true) exampleOrder exampleWorld.

(** The status of "Google" with the healthchecks URL [":"]. *)
Definition colonGoogle : HostStatus :=
  mkHostStatus "Google" "google.com" (mkSlice (Some 1%nat) 1) ":".

(** Time, host, type and duration of the events of the log. *)
Definition eventDurations (w : World) : list (Time * string * string * Duration) :=
  (λ e, (ev_Timestamp e, ev_HostName e, ev_EventType e, ev_Duration e)) <$> w_eventLog w.

(** Of the check that a pointer refers to: the evaluations counted, the
    successes counted and the outcomes recorded. *)
Definition recorded (w : World) (p : Ptr) : option (Z * Z * list bool) :=
  (λ c, (cs_TotalChecks c, cs_SuccessChecks c, dp_OK <$> cs_FullHistory c))
    <$> load (arrays (w_state w)) p.

(** The reports of a host cannot make a notifier panic: the host has no
    healthchecks URL, or [url.Parse] accepts the URL and the URL of its
    failure report. *)
Definition urlsParse (parseURL : string → bool) (hs : HostStatus) : bool :=
  bool_decide (hs_HCURL hs = "")
  || (parseURL (hs_HCURL hs) && parseURL (failURL (hs_HCURL hs))).

Definition reportsParse (parseURL : string → bool) (s : State) : Prop :=
  map_Forall (λ _ hs, urlsParse parseURL hs = true) (hosts s).

(** ** Loading, escaping and requests *)

(** The bytes that [escapeMarkdown] is to escape. *)
Definition isSpecial (ch : ascii) : bool := bool_decide (String ch "" ∈ special).

(** Every special byte with a backslash before it, every other byte as it
    is. *)
Fixpoint escapeEach (s : string) : string :=
  match s with
  | EmptyString => EmptyString
  | String ch rest =>
    if isSpecial ch then backslash +:+ String ch (escapeEach rest)
    else String ch (escapeEach rest)
  end.

(** The check type that an entry of the form names, if it names one. *)
Definition typeNamed (typ : string) : option CheckType :=
  if bool_decide (typ = "ping") then Some CheckPing
  else if bool_decide (typ = "http") then Some CheckHTTP
  else if bool_decide (typ = "tcp") then Some CheckTCP
  else None.

(** The types of the checks that the form of a new host asks for: the ones
    listed under [checks_type], or, when none is listed, the one of the type
    selector, a ping check unless it says [http] or [tcp]. *)
Definition listedTypes (r : Request) : list CheckType :=
  match Form r "checks_type" with
  | [] => [match typeNamed (FormValue r "type") with Some t => t | None => CheckPing end]
  | types => omap typeNamed types
  end.

(** A config file that lists a host without checks. *)
Definition bareConfig : config.Config :=
  config.mkConfig [config.mkHost "db" "10.0.0.9" [] ""]
    (config.mkMQTTSettings false "" "" "" "" "").

(** The form of a new host with three listed checks, one of a type that the
    program does not have. *)
Definition exampleForm : Request :=
  mkRequest "POST"
    (λ key,
       if bool_decide (key = "name") then ["db"]
       else if bool_decide (key = "address") then ["10.0.0.9"]
       else if bool_decide (key = "checks_type") then ["ping"; "dns"; "tcp"]
       else if bool_decide (key = "checks_port") then [""; ""; "5432"]
       else []).

(** A request that names a host and nothing else. *)
Definition hostOnly (host : string) : Request :=
  mkRequest "POST" (λ key, if bool_decide (key = "host") then [host] else []).

(** * Properties *)

(** ** Rolling histories and lifetime counters *)

Ltac destruct_cs c :=
  destruct c as [cTy cEn cOK cPF cPid cMsg cLat cLH cFH cAt cURL cEx cPort cID cDep cMQ cTC cSC
                 cLDA cLUA].

Lemma wrap64_id z : minInt64 ≤ z ≤ maxInt64 → wrap64 z = z.
Proof.
  unfold wrap64, minInt64, maxInt64. intros H.
  rewrite Z.mod_small; lia.
Qed.

Lemma lastN_length {A} n (l : list A) : length (lastN n l) = (length l `min` n)%nat.
Proof. unfold lastN. rewrite length_drop. lia. Qed.

Lemma lastN_app_lastN {A} n (l l' : list A) :
  lastN n (lastN n l ++ l') = lastN n (l ++ l').
Proof.
  unfold lastN. rewrite <- drop_app_le by lia.
  rewrite drop_drop, length_drop. f_equal.
  rewrite length_app. lia.
Qed.

Lemma lastN_short {A} n (l : list A) : (length l ≤ n)%nat → lastN n l = l.
Proof. intros H. unfold lastN. replace (length l - n)%nat with 0%nat by lia. done. Qed.

(** One recorded evaluation, field by field. *)
Lemma recordDataPoint_FullHistory ts ok lat c :
  (length (cs_FullHistory c) ≤ maxFullHistory)%nat →
  cs_FullHistory (recordDataPoint ts ok lat c)
  = lastN maxFullHistory (cs_FullHistory c ++ [mkCheckDataPoint ts ok lat]).
Proof.
  intros H. destruct_cs c; simpl in *. unfold recordDataPoint, lastN. destruct ok; simpl;
    rewrite length_app; simpl; case_bool_decide;
    try (replace (length cFH + 1 - maxFullHistory)%nat with 1%nat by lia; done);
    replace (length cFH + 1 - maxFullHistory)%nat with 0%nat by lia; done.
Qed.

Lemma recordDataPoint_LatencyHistory ts ok lat c :
  (length (cs_LatencyHistory c) ≤ maxLatencyHistory)%nat →
  cs_LatencyHistory (recordDataPoint ts ok lat c)
  = lastN maxLatencyHistory (cs_LatencyHistory c ++ [lat]).
Proof.
  intros H. destruct_cs c; simpl in *. unfold recordDataPoint, lastN. destruct ok; simpl;
    rewrite length_app; simpl; case_bool_decide;
    try (replace (length cLH + 1 - maxLatencyHistory)%nat with 1%nat by lia; done);
    replace (length cLH + 1 - maxLatencyHistory)%nat with 0%nat by lia; done.
Qed.

Lemma recordDataPoint_TotalChecks ts ok lat c :
  cs_TotalChecks (recordDataPoint ts ok lat c) = wrap64 (cs_TotalChecks c + 1).
Proof. destruct c. unfold recordDataPoint. by destruct ok. Qed.

Lemma recordDataPoint_SuccessChecks ts ok lat c :
  cs_SuccessChecks (recordDataPoint ts ok lat c)
  = if ok then wrap64 (cs_SuccessChecks c + 1) else cs_SuccessChecks c.
Proof. destruct c. unfold recordDataPoint. by destruct ok. Qed.

Lemma recordAll_snoc pts p c :
  recordAll (pts ++ [p]) c
  = recordDataPoint (dp_Timestamp p) (dp_OK p) (dp_LatencyMS p) (recordAll pts c).
Proof. unfold recordAll. by rewrite foldl_app. Qed.

Lemma recordAll_FullHistory pts c :
  (length (cs_FullHistory c) ≤ maxFullHistory)%nat →
  cs_FullHistory (recordAll pts c) = lastN maxFullHistory (cs_FullHistory c ++ pts).
Proof.
  intros Hc. induction pts as [|p pts IH] using rev_ind.
  - simpl. rewrite app_nil_r. by rewrite lastN_short.
  - rewrite recordAll_snoc, recordDataPoint_FullHistory.
    + rewrite IH. destruct p. simpl. by rewrite lastN_app_lastN, app_assoc.
    + rewrite IH, lastN_length. lia.
Qed.

Lemma recordAll_LatencyHistory pts c :
  (length (cs_LatencyHistory c) ≤ maxLatencyHistory)%nat →
  cs_LatencyHistory (recordAll pts c)
  = lastN maxLatencyHistory (cs_LatencyHistory c ++ (dp_LatencyMS <$> pts)).
Proof.
  intros Hc. induction pts as [|p pts IH] using rev_ind.
  - simpl. rewrite app_nil_r. by rewrite lastN_short.
  - rewrite recordAll_snoc, recordDataPoint_LatencyHistory.
    + rewrite IH, fmap_app. simpl. by rewrite lastN_app_lastN, app_assoc.
    + rewrite IH, lastN_length. lia.
Qed.

Lemma successes_snoc pts p :
  successes (pts ++ [p]) = (successes pts + if dp_OK p then 1 else 0)%nat.
Proof.
  unfold successes. rewrite filter_app, length_app. f_equal.
  by destruct p as [t [] l].
Qed.

Lemma successes_le pts : (successes pts ≤ length pts)%nat.
Proof. apply length_filter. Qed.

Lemma successes_all pts :
  Forall (λ p, dp_OK p = true) pts → successes pts = length pts.
Proof.
  unfold successes. induction 1 as [|p pts Hp _ IH]; [done|].
  rewrite filter_cons_True by done. simpl. by rewrite IH.
Qed.

Lemma recordAll_counters pts c :
  0 ≤ cs_SuccessChecks c ≤ cs_TotalChecks c →
  cs_TotalChecks c + Z.of_nat (length pts) ≤ maxInt64 →
  cs_TotalChecks (recordAll pts c) = cs_TotalChecks c + Z.of_nat (length pts) ∧
  cs_SuccessChecks (recordAll pts c) = cs_SuccessChecks c + Z.of_nat (successes pts).
Proof.
  intros Hc. induction pts as [|p pts IH] using rev_ind; intros Hlen.
  - simpl. unfold successes. simpl. lia.
  - rewrite length_app in Hlen. simpl in Hlen.
    destruct IH as [IHt IHs]; [lia|].
    pose proof (successes_le pts) as Hle.
    rewrite recordAll_snoc, recordDataPoint_TotalChecks, recordDataPoint_SuccessChecks.
    rewrite IHt, IHs, length_app, successes_snoc. simpl.
    unfold minInt64, maxInt64 in *.
    destruct (dp_OK p); rewrite ?wrap64_id; unfold minInt64, maxInt64; lia.
Qed.


(** C4. After any number of recorded evaluations of a check that starts
    without history, [LatencyHistory] holds at most 20 entries and
    [FullHistory] at most 1000, each being exactly the most recent entries in
    order (the oldest are the ones evicted); the lifetime counters count every
    recorded evaluation and every success, whatever was evicted (up to the
    range of [int64]); after 1001 successful evaluations [FullHistory] holds
    exactly the last 1000 of them and both counters are 1001. *)
Theorem history_caps_and_lifetime_counters (c0 : CheckStatus) (pts : list CheckDataPoint) :
  unevaluated c0 →
  let c := recordAll pts c0 in
  (length (cs_LatencyHistory c) ≤ 20)%nat ∧
  (length (cs_FullHistory c) ≤ 1000)%nat ∧
  cs_LatencyHistory c = lastN 20 (dp_LatencyMS <$> pts) ∧
  cs_FullHistory c = lastN 1000 pts ∧
  (Z.of_nat (length pts) ≤ maxInt64 →
   cs_TotalChecks c = Z.of_nat (length pts) ∧
   cs_SuccessChecks c = Z.of_nat (successes pts)) ∧
  (length pts = 1001%nat → Forall (λ p, dp_OK p = true) pts →
   length (cs_FullHistory c) = 1000%nat ∧ cs_FullHistory c = drop 1 pts ∧
   cs_TotalChecks c = 1001 ∧ cs_SuccessChecks c = 1001).
Proof.
  intros (Hlh & Hfh & Htc & Hsc) c.
  assert (Hl : cs_LatencyHistory c = lastN 20 (dp_LatencyMS <$> pts)).
  { subst c. rewrite recordAll_LatencyHistory; rewrite Hlh; [done|]. simpl. lia. }
  assert (Hf : cs_FullHistory c = lastN 1000 pts).
  { subst c. rewrite recordAll_FullHistory; rewrite Hfh; [done|]. simpl. lia. }
  assert (Hcnt : Z.of_nat (length pts) ≤ maxInt64 →
                 cs_TotalChecks c = Z.of_nat (length pts) ∧
                 cs_SuccessChecks c = Z.of_nat (successes pts)).
  { intros Hn. subst c. destruct (recordAll_counters pts c0) as [Ht Hs]; [lia..|].
    rewrite Ht, Hs. lia. }
  split_and!; try done.
  - rewrite Hl, lastN_length. lia.
  - rewrite Hf, lastN_length. lia.
  - intros Hn Hall. destruct Hcnt as [Ht Hs]; [rewrite Hn; by compute|].
    rewrite Hf, Ht, Hs, lastN_length, Hn. unfold lastN. rewrite Hn.
    split_and!; try done.
    by rewrite (successes_all pts Hall), Hn.
Qed.

(** C9. In every state that recorded evaluations lead to, the counters satisfy
    [0 ≤ SuccessChecks ≤ TotalChecks]; one more recorded evaluation adds
    exactly one to [TotalChecks], and one to [SuccessChecks] exactly when the
    recorded outcome is a success, so neither counter decreases (as long as
    the count stays in the range of [int64]). *)
Theorem counters_invariant (c0 : CheckStatus) (pts : list CheckDataPoint)
    (ts : Time) (ok : bool) (latencyMS : Z) :
  unevaluated c0 →
  Z.of_nat (length pts) < maxInt64 →
  let c := recordAll pts c0 in
  let c' := recordDataPoint ts ok latencyMS c in
  0 ≤ cs_SuccessChecks c ≤ cs_TotalChecks c ∧
  cs_TotalChecks c' = cs_TotalChecks c + 1 ∧
  cs_SuccessChecks c' = cs_SuccessChecks c + (if ok then 1 else 0) ∧
  cs_TotalChecks c ≤ cs_TotalChecks c' ∧
  cs_SuccessChecks c ≤ cs_SuccessChecks c' ∧
  0 ≤ cs_SuccessChecks c' ≤ cs_TotalChecks c'.
Proof.
  intros (Hlh & Hfh & Htc & Hsc) Hn c c'.
  destruct (recordAll_counters pts c0) as [Ht Hs]; [lia..|].
  fold c in Ht, Hs. pose proof (successes_le pts) as Hle.
  assert (Ht' : cs_TotalChecks c' = cs_TotalChecks c + 1).
  { subst c'. rewrite recordDataPoint_TotalChecks, wrap64_id; [done|].
    unfold minInt64, maxInt64 in *. lia. }
  assert (Hs' : cs_SuccessChecks c' = cs_SuccessChecks c + (if ok then 1 else 0)).
  { subst c'. rewrite recordDataPoint_SuccessChecks. destruct ok; [|lia].
    rewrite wrap64_id; [done|]. unfold minInt64, maxInt64 in *. lia. }
  rewrite Ht', Hs'. destruct ok; lia.
Qed.

(** ** Dependency resolution *)

Lemma IsParentOK_no_dependency fuel s c :
  cs_DependsOn c = "" → IsParentOK (S fuel) s c = Some true.
Proof. intros H. simpl. by rewrite bool_decide_true. Qed.

Lemma IsParentOK_unresolved fuel s c :
  GetCheckByID s (cs_DependsOn c) = None → IsParentOK (S fuel) s c = Some true.
Proof.
  unfold GetCheckByID. intros H. simpl. rewrite H. by case_bool_decide.
Qed.

Lemma IsParentOK_skipped fuel s c p parent :
  GetCheckByID s (cs_DependsOn c) = Some p → load (arrays s) p = Some parent →
  cs_Enabled parent = false ∨ IsZero (cs_CheckedAt parent) = true →
  IsParentOK (S fuel) s c = Some true.
Proof.
  unfold GetCheckByID. intros Hp Hl Hskip. simpl. rewrite Hp, Hl. simpl.
  case_bool_decide; [done|].
  destruct Hskip as [->| ->]; simpl; [done|]. by destruct (cs_Enabled parent).
Qed.

Lemma IsParentOK_parent fuel s c p parent :
  cs_DependsOn c ≠ "" →
  GetCheckByID s (cs_DependsOn c) = Some p → load (arrays s) p = Some parent →
  cs_Enabled parent = true → IsZero (cs_CheckedAt parent) = false →
  IsParentOK (S fuel) s c = (λ up, cs_OK parent && up) <$> IsParentOK fuel s parent.
Proof.
  unfold GetCheckByID. intros Hdep Hp Hl Hen Hz. simpl.
  rewrite bool_decide_false by done. rewrite Hp, Hl. simpl. rewrite Hen, Hz. simpl.
  destruct (IsParentOK fuel s parent) as [[]|]; simpl; try done;
    by destruct (cs_OK parent).
Qed.

(** More fuel never changes an answer. *)
Lemma IsParentOK_mono s n : ∀ m c b,
  IsParentOK n s c = Some b → (n ≤ m)%nat → IsParentOK m s c = Some b.
Proof.
  induction n as [|n IH]; intros m c b Hn Hle; [done|].
  destruct m as [|m]; [lia|]. simpl in *.
  case_bool_decide; [done|].
  destruct (checksByID s !! cs_DependsOn c) as [p|]; [|done].
  destruct (load (arrays s) p) as [parent|]; [|done]. simpl in *.
  destruct (negb (cs_Enabled parent)); [done|].
  destruct (IsZero (cs_CheckedAt parent)); [done|].
  destruct (IsParentOK n s parent) as [up|] eqn:Hup; [|done].
  rewrite (IH m parent up Hup) by lia. done.
Qed.

(** On a chain that ends, the resolver returns. *)
Lemma IsParentOK_returns s n c :
  ChainEnds s n c → is_Some (IsParentOK (S n) s c).
Proof.
  induction 1 as [c H|c H|c p parent Hp Hl Hskip|n c p parent Hp Hl _ IH].
  - rewrite IsParentOK_no_dependency; eauto.
  - rewrite IsParentOK_unresolved; eauto.
  - erewrite IsParentOK_skipped; eauto.
  - destruct (decide (cs_DependsOn c = "")) as [Hd|Hd].
    { rewrite IsParentOK_no_dependency; eauto. }
    destruct (cs_Enabled parent) eqn:Hen;
      [|erewrite IsParentOK_skipped; eauto].
    destruct (IsZero (cs_CheckedAt parent)) eqn:Hz;
      [erewrite IsParentOK_skipped; eauto|].
    erewrite IsParentOK_parent by eauto.
    destruct IH as [up ->]. simpl. eauto.
Qed.

(** C3. [IsParentOK] returns true when [DependsOn] is empty, when the ID is
    not in the index, when the parent is disabled and when the parent was
    never evaluated; otherwise it returns [parent.OK] and the answer for the
    parent's own chain.  The answer does not depend on the call depth allowed,
    and there is one whenever the chain ends. *)
Theorem IsParentOK_resolution (s : State) (c : CheckStatus) :
  (cs_DependsOn c = "" → ∀ fuel, IsParentOK (S fuel) s c = Some true) ∧
  (GetCheckByID s (cs_DependsOn c) = None → ∀ fuel, IsParentOK (S fuel) s c = Some true) ∧
  (∀ p parent,
     GetCheckByID s (cs_DependsOn c) = Some p → load (arrays s) p = Some parent →
     (cs_Enabled parent = false → ∀ fuel, IsParentOK (S fuel) s c = Some true) ∧
     (IsZero (cs_CheckedAt parent) = true → ∀ fuel, IsParentOK (S fuel) s c = Some true) ∧
     (cs_DependsOn c ≠ "" → cs_Enabled parent = true →
      IsZero (cs_CheckedAt parent) = false →
      ∀ fuel, IsParentOK (S fuel) s c
              = (λ up, cs_OK parent && up) <$> IsParentOK fuel s parent)) ∧
  (∀ n m b, IsParentOK n s c = Some b → (n ≤ m)%nat → IsParentOK m s c = Some b) ∧
  (∀ n, ChainEnds s n c → is_Some (IsParentOK (S n) s c)).
Proof.
  split_and!.
  - intros H fuel. by apply IsParentOK_no_dependency.
  - intros H fuel. by apply IsParentOK_unresolved.
  - intros p parent Hp Hl. split_and!.
    + intros H fuel. eapply IsParentOK_skipped; eauto.
    + intros H fuel. eapply IsParentOK_skipped; eauto.
    + intros Hd Hen Hz fuel. by apply (IsParentOK_parent fuel s c p parent).
  - intros n m b. apply (IsParentOK_mono s n m c b).
  - intros n. apply IsParentOK_returns.
Qed.

(** ** One check in an evaluation pass *)

Arguments statusMessage : simpl never.
Arguments String.append : simpl never.
Arguments pretty : simpl never.
Arguments logEvent : simpl never.
Arguments notifyMQTT : simpl never.
Arguments Sub : simpl never.
Arguments IsZero : simpl never.

Lemma actualOK_ParentID v hs net c :
  actualOK hs net (with_ParentID v c) = actualOK hs net c.
Proof. by destruct_cs c. Qed.

(** Case analysis on the type of a check and on what its probe answered. *)
Ltac eval_cases c H :=
  destruct_cs c; unfold knownType in H; simpl in *;
  destruct H as [H|[H|H]]; subst;
  unfold evalDone, probeDone, actualOK in *;
  cbn [cs_Type cs_DependsOn cs_CheckedAt cs_OK cs_ParentFailed] in *;
  destruct (bool_decide (_ ≠ "")); cbn [with_ParentID cs_Type] in *;
  repeat (first [rewrite bool_decide_true in * by done
                |rewrite bool_decide_false in * by done]);
  unfold pingDone, probeHTTP, probeTCP in *; cbn [cs_URL cs_Expect cs_Port with_CheckedAt] in *.

Section EvalCheck.

Variable rs : Duration → string.
Variable parseURL : string → bool.

(** *** Evaluations that complete *)

Lemma evalDone_first_observation now hs i net mqtt parentOK c eventLog :
  IsZero (cs_CheckedAt c) = true →
  (evalDone rs now hs i net mqtt parentOK c eventLog).1.2 = eventLog.
Proof.
  intros Hz. unfold evalDone. rewrite Hz. destruct (probeDone _ _ _ _ _) as [c1 out1].
  unfold trackStateChange. done.
Qed.

Lemma evalDone_blocked now hs i net mqtt c eventLog :
  knownType c → actualOK hs net c = false →
  let r := evalDone rs now hs i net mqtt false c eventLog in
  r.1.2 = eventLog ∧ cs_OK r.1.1 = false ∧ cs_ParentFailed r.1.1 = true.
Proof.
  intros H Hfail. eval_cases c H.
  all: try (destruct (http_Err _); [|rewrite Hfail]).
  all: try rewrite Hfail.
  all: unfold trackStateChange; simpl; destruct cOK, cPF, (IsZero cAt); simpl; done.
Qed.

Lemma evalDone_down now hs i net mqtt c eventLog :
  knownType c → IsZero (cs_CheckedAt c) = false → actualOK hs net c = false →
  cs_OK c = true ∨ cs_ParentFailed c = true →
  let r := evalDone rs now hs i net mqtt true c eventLog in
  r.1.2 = logEvent (mkEvent now (hs_Name hs) (Z.of_nat i) (cs_Type c) "down"
                      (cs_Message r.1.1) 0) eventLog ∧
  cs_LastDownAt r.1.1 = now ∧ cs_OK r.1.1 = false ∧ cs_ParentFailed r.1.1 = false.
Proof.
  intros H Hz Hfail Hwas. eval_cases c H.
  all: rewrite Hz.
  all: try (destruct (http_Err _); [|rewrite Hfail]).
  all: try rewrite Hfail.
  all: unfold trackStateChange; simpl; destruct Hwas; subst; simpl; try done.
  all: destruct cOK; simpl; done.
Qed.

Lemma evalDone_recovered now hs i net mqtt parentOK c eventLog :
  knownType c → IsZero (cs_CheckedAt c) = false →
  cs_OK c = false → cs_ParentFailed c = false → actualOK hs net c = true →
  let r := evalDone rs now hs i net mqtt parentOK c eventLog in
  let duration := if IsZero (cs_LastDownAt c) then 0 else Sub now (cs_LastDownAt c) in
  r.1.2 = logEvent (mkEvent now (hs_Name hs) (Z.of_nat i) (cs_Type c) "recovered"
                      ("Back up after " +:+ rs duration) duration) eventLog ∧
  cs_LastUpAt r.1.1 = now ∧ cs_OK r.1.1 = true ∧ cs_ParentFailed r.1.1 = false.
Proof.
  intros H Hz Hok Hpf Hup. eval_cases c H.
  all: rewrite Hz.
  all: try (destruct (http_Err _); [done|rewrite Hup]).
  all: try rewrite Hup.
  all: unfold trackStateChange; simpl; destruct (IsZero cLDA); simpl; done.
Qed.

Lemma evalDone_unblocked_up now hs i net mqtt parentOK c eventLog :
  knownType c → cs_ParentFailed c = true → actualOK hs net c = true →
  let r := evalDone rs now hs i net mqtt parentOK c eventLog in
  r.1.2 = eventLog ∧ cs_OK r.1.1 = true ∧ cs_ParentFailed r.1.1 = false.
Proof.
  intros H Hpf Hup. eval_cases c H.
  all: try (destruct (http_Err _); [done|rewrite Hup]).
  all: try rewrite Hup.
  all: unfold trackStateChange; simpl; destruct (IsZero cAt), cOK; simpl; done.
Qed.

Lemma last_evict {A} (n : nat) (l : list A) (x : A) :
  (0 < n)%nat →
  last (if bool_decide (n < length (l ++ [x]))%nat then drop 1 (l ++ [x]) else l ++ [x])
  = Some x.
Proof.
  intros Hpos. case_bool_decide as Hn.
  - destruct l as [|y l]; [simpl in Hn; lia|].
    change (drop 1 ((y :: l) ++ [x])) with (l ++ [x]). apply last_snoc.
  - apply last_snoc.
Qed.

(** [logEvent] appends the event; only the oldest entry can be lost to the cap. *)
Lemma logEvent_appends e eventLog :
  last (logEvent e eventLog) = Some e ∧
  (length eventLog < maxEvents → logEvent e eventLog = eventLog ++ [e])%nat ∧
  (maxEvents ≤ length eventLog → logEvent e eventLog = drop 1 eventLog ++ [e])%nat.
Proof.
  unfold logEvent. split_and!.
  - apply last_evict. unfold maxEvents. lia.
  - intros H. rewrite bool_decide_false; [done|]. rewrite length_app. simpl. lia.
  - intros H. rewrite bool_decide_true by (rewrite length_app; simpl; lia).
    destruct eventLog; [simpl in H; unfold maxEvents in H; lia|done].
Qed.

Lemma recordDataPoint_last ts ok lat c :
  last (cs_FullHistory (recordDataPoint ts ok lat c)) = Some (mkCheckDataPoint ts ok lat).
Proof.
  destruct_cs c. unfold recordDataPoint. destruct ok; simpl; apply last_evict; unfold maxFullHistory; lia.
Qed.

(** The analytics of an evaluation: what is recorded is what the probe found. *)
Lemma evalDone_analytics now hs i net mqtt parentOK c eventLog :
  knownType c →
  let r := evalDone rs now hs i net mqtt parentOK c eventLog in
  last (cs_FullHistory r.1.1)
  = Some (mkCheckDataPoint now (actualOK hs net c) (cs_LatencyMS r.1.1)) ∧
  cs_TotalChecks r.1.1 = wrap64 (cs_TotalChecks c + 1) ∧
  cs_SuccessChecks r.1.1
  = (if actualOK hs net c then wrap64 (cs_SuccessChecks c + 1) else cs_SuccessChecks c) ∧
  (dp_OK <$> cs_FullHistory r.1.1)
  = dp_OK <$> cs_FullHistory (recordDataPoint now (actualOK hs net c) 0 c).
Proof.
  intros H. eval_cases c H.
  all: try destruct (http_Err _).
  all: try destruct (bool_decide (http_Code _ = _)).
  all: try destruct (ping_OK _).
  all: try destruct (tcp_OK _).
  all: destruct parentOK.
  all: unfold trackStateChange; simpl.
  all: destruct (IsZero cAt), cOK, cPF; simpl.
  all: rewrite ?last_evict by (unfold maxFullHistory; lia); repeat split; try done.
  all: rewrite !length_app; simpl; case_bool_decide; simpl; rewrite ?fmap_drop, !fmap_app; done.
Qed.

(** [logEvent] is [appended]. *)
Lemma logEvent_appended e eventLog : logEvent e eventLog = appended e eventLog.
Proof.
  destruct (logEvent_appends e eventLog) as (_ & Hlt & Hge). unfold appended.
  case_bool_decide; [by apply Hge|apply Hlt; lia].
Qed.

(** *** The notifiers *)

Lemma stripSlash_last (base : string) :
  base ≠ "" →
  (if bool_decide (lastByte base = Some "/"%char)
   then base = stripSlash base +:+ "/" else base = stripSlash base).
Proof.
  unfold lastByte. induction base as [|ch rest IH]; [done|]. intros _.
  destruct rest as [|ch' rest].
  - cbn [stripSlash]. simpl. destruct (decide (ch = "/"%char)) as [->|Hne].
    + rewrite !bool_decide_true by done. done.
    + rewrite (bool_decide_false (Some ch = _)) by congruence.
      by rewrite bool_decide_false.
  - specialize (IH ltac:(done)).
    change (stripSlash (String ch (String ch' rest)))
      with (String ch (stripSlash (String ch' rest))).
    change (String.list_ascii_of_string (String ch (String ch' rest)))
      with (ch :: String.list_ascii_of_string (String ch' rest)).
    change (String.list_ascii_of_string (String ch' rest))
      with (ch' :: String.list_ascii_of_string rest) in *.
    rewrite last_cons_cons.
    destruct (bool_decide (last (ch' :: String.list_ascii_of_string rest) = Some "/"%char)).
    + change (String ch (stripSlash (String ch' rest)) +:+ "/")
        with (String ch (stripSlash (String ch' rest) +:+ "/")). by rewrite <- IH.
    + by rewrite <- IH.
Qed.

Lemma string_app_assoc (a b c : string) : (a +:+ b) +:+ c = a +:+ (b +:+ c).
Proof.
  induction a as [|ch a IH]; [done|].
  change (String ch ((a +:+ b) +:+ c) = String ch (a +:+ (b +:+ c))). by rewrite IH.
Qed.

(** [notifyHealthchecksFail] asks for [failURL]. *)
Lemma notifyHealthchecksFail_failURL base :
  base ≠ "" →
  notifyHealthchecksFail parseURL base
  = if parseURL (failURL base) then Some [HealthchecksGet (failURL base)] else None.
Proof.
  intros Hne. unfold notifyHealthchecksFail, failURL.
  rewrite (bool_decide_true (base ≠ "")) by done. cbn [andb].
  pose proof (stripSlash_last base Hne) as H.
  destruct (bool_decide (lastByte base = Some "/"%char)); cbn [negb].
  - assert (E : base +:+ "fail" = stripSlash base +:+ "/fail").
    { rewrite H at 1. by rewrite string_app_assoc. }
    by rewrite E.
  - by rewrite <- H.
Qed.

(** An evaluation returns what [evalDone] computes, unless a notifier
    panics. *)
Lemma probe_done now hs net parentOK c :
  probe parseURL now hs net parentOK c
  = if notifierPanics parseURL hs net parentOK c then None
    else Some (probeDone now hs net parentOK c).
Proof.
  unfold probe, probeDone, notifierPanics.
  destruct (bool_decide (cs_Type c = CheckPing)); cbn [andb];
    [|by repeat destruct (bool_decide _)].
  unfold probePing, pingDone.
  destruct (ping_OK (PingOnce net (hs_Address hs))).
  - destruct (bool_decide (hs_HCURL hs ≠ "")); cbn [andb]; [|done].
    unfold notifyHealthchecksOK. by destruct (parseURL (hs_HCURL hs)).
  - destruct parentOK; cbn [negb andb]; [|by destruct (bool_decide _)].
    destruct (bool_decide (hs_HCURL hs ≠ "")) eqn:Hurl; cbn [andb]; [|done].
    apply bool_decide_eq_true in Hurl.
    rewrite notifyHealthchecksFail_failURL by done.
    by destruct (parseURL (failURL (hs_HCURL hs))).
Qed.

Lemma notifierPanics_ParentID v hs net parentOK c :
  notifierPanics parseURL hs net parentOK (with_ParentID v c)
  = notifierPanics parseURL hs net parentOK c.
Proof. by destruct_cs c. Qed.

Lemma evalCheck_done now hs i net mqtt parentOK c eventLog :
  evalCheck rs parseURL now hs i net mqtt parentOK c eventLog
  = if notifierPanics parseURL hs net parentOK c then None
    else Some (evalDone rs now hs i net mqtt parentOK c eventLog).
Proof.
  unfold evalCheck, evalDone. rewrite probe_done.
  assert (E : notifierPanics parseURL hs net parentOK
                (if bool_decide (cs_DependsOn c ≠ "")
                 then with_ParentID (cs_DependsOn c) c else c)
              = notifierPanics parseURL hs net parentOK c).
  { destruct (bool_decide _); [apply notifierPanics_ParentID|done]. }
  rewrite E. destruct (notifierPanics parseURL hs net parentOK c); [done|].
  cbn [mbind option_bind]. destruct (probeDone _ _ _ _ _) as [c1 out1].
  by destruct (trackStateChange _ _ _ _ _ _ _ _ _ _) as [[c2 l2] out2].
Qed.

Lemma load_store m p c c' :
  load m p = Some c → load (store m p c') p = Some c'.
Proof.
  unfold load, store. intros H. rewrite lookup_alter_eq.
  destruct (m !! p_arr p) as [l|]; [|done]. simpl in *.
  apply list_lookup_insert_eq. by eapply lookup_lt_Some.
Qed.

(** An iteration of the inner loop for an enabled check whose parent's health
    is known: it panics with the notifier, and otherwise it is [evalDone]
    with the answer of [IsParentOK], stored back through the pointer. *)
Lemma runCheck_enabled fuel now net hs i w p c parentOK :
  addr (hs_Checks hs) i = Some p →
  load (arrays (w_state w)) p = Some c →
  cs_Enabled c = true →
  IsParentOK fuel (w_state w) c = Some parentOK →
  let r := evalDone rs now hs i (net (hs_Name hs) i) (mqttClient (w_state w)) parentOK c
             (w_eventLog w) in
  runCheck rs parseURL fuel now net hs i w
  = (if notifierPanics parseURL hs (net (hs_Name hs) i) parentOK c then None
     else Some (mkWorld (w_state w |> with_arrays (store (arrays (w_state w)) p r.1.1))
                  r.1.2 (w_out w ++ r.2))) ∧
  load (store (arrays (w_state w)) p r.1.1) p = Some r.1.1.
Proof.
  intros Hp Hc Hen Hpar r. split; [|by eapply load_store].
  unfold runCheck. rewrite Hp. simpl. rewrite Hc. simpl. rewrite Hen, Hpar. simpl.
  rewrite evalCheck_done. destruct (notifierPanics _ _ _ _ _); [done|].
  subst r. simpl. by destruct (evalDone _ _ _ _ _ _ _ _ _) as [[c' l'] o'].
Qed.

(** The transitions of a check whose evaluation completes.  The first
    observation appends no event; for a check observed before whose probe
    fails, entering BLOCKED appends no event, while a failure with a healthy
    parent coming from UP or from BLOCKED appends one ["down"] event and
    stamps [LastDownAt]. *)
Lemma completed_down_and_blocked fuel now net hs i w p c parentOK :
  addr (hs_Checks hs) i = Some p →
  load (arrays (w_state w)) p = Some c →
  cs_Enabled c = true →
  IsParentOK fuel (w_state w) c = Some parentOK →
  notifierPanics parseURL hs (net (hs_Name hs) i) parentOK c = false →
  ∃ w' c',
    runCheck rs parseURL fuel now net hs i w = Some w' ∧
    load (arrays (w_state w')) p = Some c' ∧
    (IsZero (cs_CheckedAt c) = true → w_eventLog w' = w_eventLog w) ∧
    (IsZero (cs_CheckedAt c) = false → knownType c →
     actualOK hs (net (hs_Name hs) i) c = false →
     (parentOK = false →
      w_eventLog w' = w_eventLog w ∧ cs_OK c' = false ∧ cs_ParentFailed c' = true) ∧
     (parentOK = true →
      cs_OK c = true ∨ (cs_OK c = false ∧ cs_ParentFailed c = true) →
      w_eventLog w'
      = appended (mkEvent now (hs_Name hs) (Z.of_nat i) (cs_Type c) "down"
                    (cs_Message c') 0) (w_eventLog w) ∧
      cs_LastDownAt c' = now ∧ cs_OK c' = false ∧ cs_ParentFailed c' = false)).
Proof.
  intros Hp Hc Hen Hpar Hsafe.
  destruct (runCheck_enabled fuel now net hs i w p c parentOK) as [Hrun Hload]; try done.
  rewrite Hsafe in Hrun.
  eexists _, _. split; [exact Hrun|]. split; [exact Hload|]. simpl. split.
  - intros Hz. by apply evalDone_first_observation.
  - intros Hz Hty Hfail. split.
    + intros ->. by apply evalDone_blocked.
    + intros -> Hwas. rewrite <- logEvent_appended. apply evalDone_down; try done. tauto.
Qed.

(** For a check last observed genuinely DOWN whose probe now succeeds, a
    completed evaluation appends one ["recovered"] event whose duration is the
    time since [LastDownAt] (zero when it was never stamped) and stamps
    [LastUpAt]; coming from BLOCKED, the transition to UP appends no event. *)
Lemma completed_recovered fuel now net hs i w p c parentOK :
  addr (hs_Checks hs) i = Some p →
  load (arrays (w_state w)) p = Some c →
  cs_Enabled c = true →
  IsParentOK fuel (w_state w) c = Some parentOK →
  notifierPanics parseURL hs (net (hs_Name hs) i) parentOK c = false →
  knownType c →
  IsZero (cs_CheckedAt c) = false →
  actualOK hs (net (hs_Name hs) i) c = true →
  ∃ w' c',
    runCheck rs parseURL fuel now net hs i w = Some w' ∧
    load (arrays (w_state w')) p = Some c' ∧
    (cs_OK c = false → cs_ParentFailed c = false →
     let duration := if IsZero (cs_LastDownAt c) then 0 else Sub now (cs_LastDownAt c) in
     w_eventLog w'
     = appended (mkEvent now (hs_Name hs) (Z.of_nat i) (cs_Type c) "recovered"
                   ("Back up after " +:+ rs duration) duration) (w_eventLog w) ∧
     cs_LastUpAt c' = now ∧ cs_OK c' = true ∧
     (IsZero (cs_LastDownAt c) = false →
      minInt64 ≤ now - cs_LastDownAt c ≤ maxInt64 → duration = now - cs_LastDownAt c)) ∧
    (cs_ParentFailed c = true → w_eventLog w' = w_eventLog w ∧ cs_OK c' = true).
Proof.
  intros Hp Hc Hen Hpar Hsafe Hty Hz Hup.
  destruct (runCheck_enabled fuel now net hs i w p c parentOK) as [Hrun Hload]; try done.
  rewrite Hsafe in Hrun.
  eexists _, _. split; [exact Hrun|]. split; [exact Hload|]. simpl. split.
  - intros Hok Hpf.
    destruct (evalDone_recovered now hs i (net (hs_Name hs) i) (mqttClient (w_state w))
                parentOK c (w_eventLog w)) as (Hlog & Hlast & Hok' & _); try done.
    rewrite <- logEvent_appended. split_and!; try done.
    intros -> Hrange. unfold Sub.
    rewrite !bool_decide_false by lia. done.
  - intros Hpf.
    destruct (evalDone_unblocked_up now hs i (net (hs_Name hs) i) (mqttClient (w_state w))
                parentOK c (w_eventLog w)) as (Hlog & Hok' & _); done.
Qed.

(** Two completed evaluations of the same check that get the same answers
    from the network but differ in the health of the parent record the same
    outcome. *)
Lemma completed_analytics fuel1 fuel2 now net hs i w1 w2 p c parentOK1 parentOK2 :
  addr (hs_Checks hs) i = Some p →
  load (arrays (w_state w1)) p = Some c →
  load (arrays (w_state w2)) p = Some c →
  cs_Enabled c = true →
  knownType c →
  IsParentOK fuel1 (w_state w1) c = Some parentOK1 →
  IsParentOK fuel2 (w_state w2) c = Some parentOK2 →
  notifierPanics parseURL hs (net (hs_Name hs) i) parentOK1 c = false →
  notifierPanics parseURL hs (net (hs_Name hs) i) parentOK2 c = false →
  ∃ w1' w2' c1 c2,
    runCheck rs parseURL fuel1 now net hs i w1 = Some w1' ∧
    runCheck rs parseURL fuel2 now net hs i w2 = Some w2' ∧
    load (arrays (w_state w1')) p = Some c1 ∧
    load (arrays (w_state w2')) p = Some c2 ∧
    let raw := actualOK hs (net (hs_Name hs) i) c in
    dp_OK <$> last (cs_FullHistory c1) = Some raw ∧
    dp_OK <$> last (cs_FullHistory c2) = Some raw ∧
    dp_OK <$> cs_FullHistory c1 = dp_OK <$> cs_FullHistory c2 ∧
    cs_TotalChecks c1 = wrap64 (cs_TotalChecks c + 1) ∧
    cs_TotalChecks c2 = wrap64 (cs_TotalChecks c + 1) ∧
    cs_SuccessChecks c1
    = (if raw then wrap64 (cs_SuccessChecks c + 1) else cs_SuccessChecks c) ∧
    cs_SuccessChecks c2
    = (if raw then wrap64 (cs_SuccessChecks c + 1) else cs_SuccessChecks c).
Proof.
  intros Hp Hc1 Hc2 Hen Hty Hpar1 Hpar2 Hsafe1 Hsafe2.
  destruct (runCheck_enabled fuel1 now net hs i w1 p c parentOK1) as [Hrun1 Hl1]; try done.
  destruct (runCheck_enabled fuel2 now net hs i w2 p c parentOK2) as [Hrun2 Hl2]; try done.
  rewrite Hsafe1 in Hrun1. rewrite Hsafe2 in Hrun2.
  eexists _, _, _, _. split; [exact Hrun1|]. split; [exact Hrun2|].
  split; [exact Hl1|]. split; [exact Hl2|]. simpl.
  destruct (evalDone_analytics now hs i (net (hs_Name hs) i) (mqttClient (w_state w1))
              parentOK1 c (w_eventLog w1) Hty) as (Ha1 & Ht1 & Hs1 & Hh1).
  destruct (evalDone_analytics now hs i (net (hs_Name hs) i) (mqttClient (w_state w2))
              parentOK2 c (w_eventLog w2) Hty) as (Ha2 & Ht2 & Hs2 & Hh2).
  rewrite Ha1, Ha2, Hh1, Hh2. done.
Qed.

End EvalCheck.

(** ** The store and the config under mutation *)

Lemma elems_frame m m' sl :
  (∀ a, sl_arr sl = Some a → m' !! a = m !! a) → elems m' sl = elems m sl.
Proof.
  intros H. unfold elems, backing. destruct (sl_arr sl) as [a|]; [|done].
  by rewrite H.
Qed.

Lemma sliceOK_frame m m' sl :
  (∀ a, sl_arr sl = Some a → m' !! a = m !! a) → sliceOK m sl → sliceOK m' sl.
Proof.
  intros H. unfold sliceOK. destruct (sl_arr sl) as [a|]; [|done].
  by rewrite H.
Qed.

(** Replacing the slice of one host, when the other hosts' arrays are left
    alone and the new slice uses the host's old array or one that was not in
    the store. *)
Lemma setChecks_spec s name hs sl m :
  wfStore s → hosts s !! name = Some hs →
  sliceOK m sl →
  (∀ a, sl_arr sl = Some a → sl_arr (hs_Checks hs) = Some a ∨ arrays s !! a = None) →
  (∀ a l, arrays s !! a = Some l → sl_arr (hs_Checks hs) ≠ Some a →
          sl_arr sl ≠ Some a → m !! a = Some l) →
  wfStore (setChecks name hs sl m s) ∧
  view (setChecks name hs sl m s) = <[name := elems m sl]> (view s).
Proof.
  intros [Hok Hinj] Hhs Hsl Hnew Hframe.
  assert (Hother : ∀ n2 hs2 a, n2 ≠ name → hosts s !! n2 = Some hs2 →
                     sl_arr (hs_Checks hs2) = Some a → m !! a = arrays s !! a).
  { intros n2 hs2 a Hne H2 Ha.
    pose proof (Hok n2 hs2 H2) as Hok2. unfold sliceOK in Hok2. rewrite Ha in Hok2.
    destruct Hok2 as (l & Hl & _). rewrite Hl. apply Hframe; [done|..].
    - intros Heq. apply Hne. by apply (Hinj n2 name hs2 hs a).
    - intros Heq. destruct (Hnew a Heq) as [Hold|Hnone]; [|congruence].
      apply Hne. by apply (Hinj n2 name hs2 hs a). }
  split; [split|].
  - intros n2 hs2. unfold setChecks. simpl. rewrite lookup_insert.
    case_decide as Hn; [intros [= <-]; done|].
    intros H2. eapply sliceOK_frame; [|by eapply Hok].
    intros a Ha. by eapply Hother.
  - intros n1 n2 hs1 hs2 a. unfold setChecks. simpl.
    destruct (decide (n1 = name)) as [->|Hn1], (decide (n2 = name)) as [->|Hn2];
      rewrite ?lookup_insert_eq, ?lookup_insert_ne by done; try done.
    + intros [= <-] H2 Ha1 Ha2. simpl in Ha1.
      destruct (Hnew a Ha1) as [Hold|Hnone].
      * by apply (Hinj name n2 hs hs2 a).
      * pose proof (Hok n2 hs2 H2) as Hok2. unfold sliceOK in Hok2.
        rewrite Ha2 in Hok2. destruct Hok2 as (l & Hl & _). congruence.
    + intros H1 [= <-] Ha1 Ha2. simpl in Ha2.
      destruct (Hnew a Ha2) as [Hold|Hnone].
      * by apply (Hinj n1 name hs1 hs a).
      * pose proof (Hok n1 hs1 H1) as Hok1. unfold sliceOK in Hok1.
        rewrite Ha1 in Hok1. destruct Hok1 as (l & Hl & _). congruence.
    + apply Hinj.
  - apply map_eq. intros n2. unfold view, setChecks, checksOf. simpl.
    rewrite lookup_fmap, !lookup_insert. case_decide as Hn; [done|].
    rewrite lookup_fmap. destruct (hosts s !! n2) as [hs2|] eqn:H2; [|done]. simpl.
    f_equal. apply elems_frame. intros a Ha. by eapply Hother.
Qed.

Lemma store_updates m sl i p c :
  sliceOK m sl → addr sl i = Some p →
  updatesSlice m sl (store m p c) sl ∧
  elems (store m p c) sl = <[i := c]> (elems m sl).
Proof.
  unfold updatesSlice, addr, sliceOK, elems, backing, store.
  intros Hok Hp. case_bool_decide as Hi; [|done].
  destruct (sl_arr sl) as [a|]; [|done]. simpl in Hp, Hok. injection Hp as <-. simpl.
  destruct Hok as (l & Hl & Hlen). rewrite lookup_alter_eq, Hl. simpl.
  split_and!.
  - exists (<[i := c]> l). by rewrite length_insert.
  - intros a' [= <-]. by left.
  - intros a' l' Hl' Hne _. rewrite lookup_alter_ne; [done|]. congruence.
  - by rewrite take_insert_lt by lia.
Qed.

Lemma removeAt_updates m sl idx :
  sliceOK m sl → (idx < sl_len sl)%nat →
  updatesSlice m sl (removeAt m sl idx).1 (removeAt m sl idx).2 ∧
  elems (removeAt m sl idx).1 (removeAt m sl idx).2 = delete idx (elems m sl).
Proof.
  unfold updatesSlice, sliceOK, removeAt, elems, backing.
  intros Hok Hidx. destruct (sl_arr sl) as [a|] eqn:Ha; [|lia]. simpl.
  destruct Hok as (l & Hl & Hlen). rewrite Hl, lookup_insert_eq. simpl.
  split_and!.
  - eexists. split; [done|]. rewrite !length_app, length_take, !length_drop, length_take. lia.
  - intros a' [= <-]. by left.
  - intros a' l' Hl' Hne _. rewrite lookup_insert_ne; [done|]. congruence.
  - rewrite delete_take_drop, take_take.
    replace (idx `min` sl_len sl)%nat with idx by lia.
    rewrite app_assoc, take_app_le.
    + rewrite take_ge; [done|].
      rewrite length_app, length_take, length_drop, length_take. lia.
    + rewrite length_app, length_take, length_drop, length_take. lia.
Qed.

Section Append.

Variable growslice : nat → nat.

Lemma append1_updates m sl x :
  sliceOK m sl →
  updatesSlice m sl (append1 growslice m sl x).1 (append1 growslice m sl x).2 ∧
  elems (append1 growslice m sl x).1 (append1 growslice m sl x).2 = elems m sl ++ [x].
Proof.
  unfold updatesSlice, sliceOK, append1, elems, backing.
  intros Hok. destruct (sl_arr sl) as [a|] eqn:Ha.
  - destruct Hok as (l & Hl & Hlen). rewrite Hl. simpl.
    case_bool_decide as Hroom; simpl.
    + rewrite lookup_insert_eq. simpl. split_and!.
      * eexists. split; [done|]. rewrite length_insert. lia.
      * intros a' [= <-]. by left.
      * intros a' l' Hl' Hne _. rewrite lookup_insert_ne; [done|]. congruence.
      * rewrite (take_S_r _ _ x) by (by apply list_lookup_insert_eq).
        by rewrite take_insert_ge by lia.
    + rewrite lookup_insert_eq. simpl.
      assert (Hfresh : m !! fresh (dom m) = None).
      { apply not_elem_of_dom. apply is_fresh. }
      split_and!.
      * eexists. split; [done|]. rewrite length_app, length_take. simpl. lia.
      * intros a' [= <-]. by right.
      * intros a' l' Hl' _ Hne. rewrite lookup_insert_ne; [done|]. congruence.
      * rewrite (take_ge l) by lia.
        rewrite cons_middle, app_assoc. apply take_app_length'.
        rewrite length_app. simpl. lia.
  - simpl. rewrite lookup_insert_eq. simpl. rewrite Hok. simpl.
    assert (Hfresh : m !! fresh (dom m) = None).
    { apply not_elem_of_dom. apply is_fresh. }
    split_and!.
    + eexists. split; [done|]. simpl. lia.
    + intros a' [= <-]. by right.
    + intros a' l' Hl' _ Hne. rewrite lookup_insert_ne; [done|]. congruence.
    + done.
Qed.

End Append.

(** *** The declarative side *)

Lemma updateHostNamed_names name f decl :
  (∀ h, config.Name h = name → config.Name (f h) = name) →
  config.Name <$> updateHostNamed name f decl = config.Name <$> decl.
Proof.
  intros Hf. induction decl as [|h decl IH]; [done|]. cbn [updateHostNamed].
  case_bool_decide as Hn; rewrite !fmap_cons; [|by rewrite IH].
  by rewrite Hf, Hn.
Qed.

Lemma updateHostNamed_elem name f decl h' :
  NoDup (config.Name <$> decl) → h' ∈ updateHostNamed name f decl →
  (h' ∈ decl ∧ config.Name h' ≠ name) ∨
  (∃ h, h ∈ decl ∧ config.Name h = name ∧ h' = f h).
Proof.
  induction decl as [|h decl IH]; [by intros _ ?%elem_of_nil|].
  rewrite fmap_cons. intros [Hnotin Hnd]%NoDup_cons. cbn [updateHostNamed].
  case_bool_decide as Hn.
  - intros [->|Hin]%elem_of_cons.
    + right. exists h. split_and!; [left|done..].
    + left. split; [by right|]. intros Heq. apply Hnotin.
      rewrite Hn, <- Heq. by apply list_elem_of_fmap_2.
  - intros [->|Hin]%elem_of_cons.
    + left. split; [left|done].
    + destruct (IH Hnd Hin) as [[H1 H2]|(h0 & H1 & H2 & H3)].
      * left. split; [by right|done].
      * right. exists h0. split_and!; [by right|done..].
Qed.

Lemma updateHostNamed_renamed old new f decl :
  (∀ h, config.Name (f h) = new) →
  NoDup (config.Name <$> decl) →
  (new = old ∨ new ∉ config.Name <$> decl) →
  NoDup (config.Name <$> updateHostNamed old f decl) ∧
  (∀ n, n ∈ config.Name <$> updateHostNamed old f decl ↔
        (n ∈ config.Name <$> decl ∧ n ≠ old) ∨
        (n = new ∧ old ∈ config.Name <$> decl)).
Proof.
  intros Hf. induction decl as [|h decl IH].
  { intros _ _. split; [constructor|]. intros n. simpl.
    split; [by intros ?%elem_of_nil|]. by intros [[?%elem_of_nil _]|[_ ?%elem_of_nil]]. }
  rewrite fmap_cons. intros [Hnotin Hnd]%NoDup_cons Hnew. cbn [updateHostNamed].
  case_bool_decide as Hn.
  - rewrite fmap_cons, Hf. split.
    + apply NoDup_cons. split; [|done]. destruct Hnew as [Heq|Hnew].
      * congruence.
      * intros Hin. apply Hnew. by right.
    + intros n. rewrite !elem_of_cons. subst old. split.
      * intros [->|Hin]; [right; split; [done|by left]|].
        left. split; [by right|]. intros ->. done.
      * intros [[[->|Hin] Hne]|[-> _]]; [done|by right|by left].
  - assert (Hnew' : new = old ∨ new ∉ config.Name <$> decl).
    { destruct Hnew as [?|Hnew]; [by left|]. right. intros ?. apply Hnew. by right. }
    destruct (IH Hnd Hnew') as [IHnd IHel]. rewrite fmap_cons. split.
    + apply NoDup_cons. split; [|done]. rewrite IHel.
      intros [[Hin _]|[Heq Hin]]; [done|].
      destruct Hnew as [Heq'|Hnew]; [congruence|]. apply Hnew. rewrite Heq. by left.
    + intros n. rewrite !elem_of_cons, IHel. split.
      * intros [->|[[Hin Hne]|[-> Hin]]]; [left; split; [by left|done]| |].
        -- left. split; [by right|done].
        -- right. split; [done|by right].
      * intros [[[->|Hin] Hne]|[-> [Heq|Hin]]].
        -- by left.
        -- right. left. done.
        -- done.
        -- right. right. done.
Qed.

Lemma removeHostNamed_elem name decl h :
  NoDup (config.Name <$> decl) →
  h ∈ removeHostNamed name decl → h ∈ decl ∧ config.Name h ≠ name.
Proof.
  induction decl as [|h0 decl IH]; [by intros _ ?%elem_of_nil|].
  rewrite fmap_cons. intros [Hnotin Hnd]%NoDup_cons. cbn [removeHostNamed].
  case_bool_decide as Hn.
  - intros Hin. split; [by right|]. intros Heq. apply Hnotin.
    rewrite Hn, <- Heq. by apply list_elem_of_fmap_2.
  - intros [->|Hin]%elem_of_cons; [split; [left|done]|].
    destruct (IH Hnd Hin). split; [by right|done].
Qed.

Lemma removeHostNamed_names name decl :
  NoDup (config.Name <$> decl) →
  NoDup (config.Name <$> removeHostNamed name decl) ∧
  (∀ n, n ∈ config.Name <$> decl → n ≠ name →
        n ∈ config.Name <$> removeHostNamed name decl).
Proof.
  induction decl as [|h decl IH]; [done|].
  rewrite fmap_cons. intros [Hnotin Hnd]%NoDup_cons. cbn [removeHostNamed].
  destruct (IH Hnd) as [IHnd IHel].
  case_bool_decide as Hn.
  - split; [done|]. intros n [->|Hin]%elem_of_cons Hne; done.
  - rewrite fmap_cons. split.
    + apply NoDup_cons. split; [|done]. intros Hin. apply Hnotin.
      apply list_elem_of_fmap in Hin as (h' & -> & Hin).
      apply list_elem_of_fmap_2. by eapply removeHostNamed_elem.
    + intros n [->|Hin]%elem_of_cons Hne; [left|right; by apply IHel].
Qed.

(** *** Agreement under the changes that the operations make *)

Lemma agreesWith_host b v decl h :
  agreesWith b v decl → h ∈ decl →
  ∃ cs, v !! config.Name h = Some cs ∧ Forall2 (checkAgrees b) cs (config.Checks h).
Proof. intros (_ & _ & Hall) Hin. by apply (proj1 (Forall_forall _ _) Hall). Qed.

Lemma agreesWith_declared b v decl name :
  agreesWith b v decl → is_Some (v !! name) →
  ∃ h, h ∈ decl ∧ config.Name h = name.
Proof.
  intros (_ & Hdom & _) Hsome. apply Hdom in Hsome.
  apply list_elem_of_fmap in Hsome as (h & -> & Hin). eauto.
Qed.

Lemma agrees_update_checks b v decl name cs cs' f :
  agreesWith b v decl → v !! name = Some cs →
  (∀ h, config.Name (f h) = config.Name h) →
  (∀ h, Forall2 (checkAgrees b) cs (config.Checks h) →
        Forall2 (checkAgrees b) cs' (config.Checks (f h))) →
  agreesWith b (<[name := cs']> v) (updateHostNamed name f decl).
Proof.
  intros Hag Hv Hname Hf. pose proof Hag as (Hnd & Hdom & Hall).
  split_and!.
  - rewrite updateHostNamed_names; [done|]. intros h <-. apply Hname.
  - intros n. rewrite updateHostNamed_names by (intros h <-; apply Hname).
    rewrite lookup_insert. case_decide as Hn; [subst n|by apply Hdom].
    intros _. apply Hdom. by rewrite Hv.
  - apply Forall_forall. intros h' Hin.
    destruct (updateHostNamed_elem name f decl h' Hnd Hin)
      as [[Hin' Hne]|(h & Hin' & Heq & ->)].
    + rewrite lookup_insert_ne by done. by eapply agreesWith_host.
    + rewrite Hname, Heq, lookup_insert_eq. eexists. split; [done|]. apply Hf.
      destruct (agreesWith_host b v decl h Hag Hin') as (cs0 & Hcs0 & H2).
      rewrite Heq, Hv in Hcs0. by injection Hcs0 as <-.
Qed.

Lemma agrees_add_host b v decl name address hcurl cs ds :
  agreesWith b v decl → v !! name = None →
  Forall2 (checkAgrees b) cs ds →
  agreesWith b (<[name := cs]> v) (decl ++ [config.mkHost name address ds hcurl]).
Proof.
  intros Hag Hv Hcs. pose proof Hag as (Hnd & Hdom & Hall).
  assert (Hfresh : name ∉ config.Name <$> decl).
  { intros (h & -> & Hin)%list_elem_of_fmap.
    destruct (agreesWith_host b v decl h Hag Hin) as (cs0 & Hcs0 & _). congruence. }
  split_and!.
  - rewrite fmap_app. apply NoDup_app. split_and!; [done| |apply NoDup_singleton].
    intros n Hn ->%list_elem_of_singleton. done.
  - intros n. rewrite fmap_app, elem_of_app, lookup_insert.
    case_decide as Hn; [subst n; intros _; right; by left|].
    intros Hsome. left. by apply Hdom.
  - apply Forall_app. split.
    + apply Forall_forall. intros h Hin.
      rewrite lookup_insert_ne; [by eapply agreesWith_host|].
      intros ->. apply Hfresh. by apply list_elem_of_fmap_2.
    + apply Forall_singleton. simpl. rewrite lookup_insert_eq. eauto.
Qed.

Lemma agrees_delete_host b v decl name :
  agreesWith b v decl →
  agreesWith b (delete name v) (removeHostNamed name decl).
Proof.
  intros Hag. pose proof Hag as (Hnd & Hdom & Hall).
  destruct (removeHostNamed_names name decl Hnd) as [Hnd' Hel].
  split_and!; [done|..].
  - intros n. rewrite lookup_delete. case_decide as Hn; [by intros [? ?]|].
    intros Hsome. apply Hel; [by apply Hdom|done].
  - apply Forall_forall. intros h Hin.
    destruct (removeHostNamed_elem name decl h Hnd Hin) as [Hin' Hne].
    rewrite lookup_delete_ne by done. by eapply agreesWith_host.
Qed.

Lemma agrees_rename_host b v decl old new cs f :
  agreesWith b v decl → v !! old = Some cs →
  (new = old ∨ v !! new = None) →
  (∀ h, config.Name (f h) = new ∧ config.Checks (f h) = config.Checks h) →
  agreesWith b (<[new := cs]> (delete old v)) (updateHostNamed old f decl).
Proof.
  intros Hag Hv Hnew Hf. pose proof Hag as (Hnd & Hdom & Hall).
  assert (Hnew' : new = old ∨ new ∉ config.Name <$> decl).
  { destruct Hnew as [?|Hnone]; [by left|]. right.
    intros (h & -> & Hin)%list_elem_of_fmap.
    destruct (agreesWith_host b v decl h Hag Hin) as (cs0 & Hcs0 & _). congruence. }
  destruct (updateHostNamed_renamed old new f decl) as [Hnd' Hel];
    [intros h; apply Hf|done..|].
  assert (Hold : old ∈ config.Name <$> decl) by (apply Hdom; by rewrite Hv).
  split_and!; [done|..].
  - intros n. rewrite Hel, lookup_insert. case_decide as Hn; [subst n; by right|].
    rewrite lookup_delete. case_decide as Hn'; [by intros [? ?]|].
    intros Hsome. left. split; [by apply Hdom|done].
  - apply Forall_forall. intros h' Hin.
    destruct (updateHostNamed_elem old f decl h' Hnd Hin)
      as [[Hin' Hne]|(h & Hin' & Heq & ->)].
    + destruct (agreesWith_host b v decl h' Hag Hin') as (cs0 & Hcs0 & H2).
      rewrite lookup_insert_ne, lookup_delete_ne; [eauto|done|].
      intros Heq. destruct Hnew as [->|Hnone]; [done|]. congruence.
    + destruct (Hf h) as [-> ->]. rewrite lookup_insert_eq. eexists. split; [done|].
      destruct (agreesWith_host b v decl h Hag Hin') as (cs0 & Hcs0 & H2).
      rewrite Heq, Hv in Hcs0. by injection Hcs0 as <-.
Qed.

(** *** Persisting *)

Lemma syncChecks_agrees b rt ds :
  Forall2 (checkAgrees b) rt ds → Forall2 (checkAgrees b) rt (syncChecks rt ds).
Proof.
  intros H. apply Forall2_same_length_lookup. split.
  - unfold syncChecks. rewrite length_imap. by eapply Forall2_length.
  - intros j r d' Hr. unfold syncChecks. rewrite list_lookup_imap.
    destruct (ds !! j) as [d|] eqn:Hd; [|done]. simpl. rewrite Hr. intros [= <-].
    pose proof (Forall2_lookup_lr _ _ _ _ _ _ H Hr Hd) as Hrd.
    unfold checkAgrees in *. simpl. tauto.
Qed.

Lemma view_lookup s name :
  view s !! name = checksOf s <$> hosts s !! name.
Proof. unfold view. by rewrite lookup_fmap. Qed.

Lemma agrees_sync b s decl :
  agreesWith b (view s) decl → agreesWith b (view s) (syncHost s <$> decl).
Proof.
  intros Hag. pose proof Hag as (Hnd & Hdom & Hall).
  assert (Hnames : config.Name <$> (syncHost s <$> decl) = config.Name <$> decl).
  { rewrite <- list_fmap_compose. apply list_fmap_ext. intros _ h _. simpl.
    unfold syncHost. by destruct (hosts s !! config.Name h). }
  split_and!.
  - by rewrite Hnames.
  - intros n. rewrite Hnames. apply Hdom.
  - apply Forall_fmap. apply Forall_forall. intros h Hin. simpl.
    destruct (agreesWith_host b (view s) decl h Hag Hin) as (cs & Hcs & H2).
    rewrite view_lookup in Hcs. unfold syncHost.
    destruct (hosts s !! config.Name h) as [hs|] eqn:Hhs; [|done].
    simpl in *. injection Hcs as <-. rewrite view_lookup, Hhs. simpl.
    eexists. split; [done|]. by apply syncChecks_agrees.
Qed.

Lemma writeConfig_written fs path b files :
  (writeConfig fs path b files).1 = None →
  (writeConfig fs path b files).2 !! path = Some b.
Proof.
  unfold writeConfig. destruct (fs (WriteFile (path +:+ ".tmp"))); [done|].
  destruct (fs (Rename _ _)); simpl; [|by rewrite lookup_insert_eq].
  destruct (fs (WriteFile path)); simpl; [done|]. by rewrite lookup_insert_eq.
Qed.

Lemma saveConfigLocked_settled b fs s files :
  consistent b s → settled b (saveConfigLocked fs s files).
Proof.
  intros [Hwf Hag]. unfold settled, saveConfigLocked, encoded.
  case_bool_decide as Hpath; simpl.
  { split; [done|]. intros _ d. by rewrite bool_decide_true. }
  set (s' := with_cfg _ s).
  assert (Hs' : consistent b s').
  { split; [exact Hwf|]. change (view s') with (view s). subst s'. simpl.
    by apply agrees_sync. }
  change (configPath s') with (configPath s).
  destruct (bool_decide (Ext (configPath s) = ".yaml")
            || bool_decide (Ext (configPath s) = ".yml")) eqn:Hyaml.
  - pose proof (writeConfig_written fs (configPath s) (YAML (cfg s')) files) as Hw.
    destruct (writeConfig _ _ _ _) as [err files']. simpl in *.
    split; [done|]. intros -> d. rewrite bool_decide_false by done.
    rewrite Hyaml. intros [= <-]. by apply Hw.
  - destruct (bool_decide (Ext (configPath s) = ".toml")) eqn:Htoml.
    + pose proof (writeConfig_written fs (configPath s) (TOML (cfg s')) files) as Hw.
      destruct (writeConfig _ _ _ _) as [err files']. simpl in *.
      split; [done|]. intros -> d. rewrite bool_decide_false by done.
      rewrite Hyaml, Htoml. intros [= <-]. by apply Hw.
    + simpl. split; [done|]. intros _ d. rewrite bool_decide_false by done.
      by rewrite Hyaml, Htoml.
Qed.

Lemma settled_unchanged b (err : option string) s files :
  consistent b s → err ≠ None → settled b (err, s, files).
Proof. intros Hs Herr. split; [done|]. simpl. by intros ?. Qed.

(** *** The operations *)

Lemma setChecks_consistent b s name hs sl m f :
  consistent b s → hosts s !! name = Some hs →
  updatesSlice (arrays s) (hs_Checks hs) m sl →
  (∀ h, config.Name (f h) = config.Name h) →
  (∀ h, Forall2 (checkAgrees b) (checksOf s hs) (config.Checks h) →
        Forall2 (checkAgrees b) (elems m sl) (config.Checks (f h))) →
  consistent b (setChecks name hs sl m s
                  |> with_cfg (with_Hosts (updateHostNamed name f (config.Hosts (cfg s)))
                                 (cfg s))).
Proof.
  intros [Hwf Hag] Hhs (Hok & Hnew & Hframe) Hname Hf.
  destruct (setChecks_spec s name hs sl m Hwf Hhs Hok Hnew Hframe) as [Hwf' Hview].
  split; [exact Hwf'|].
  change (agreesWith b (view (setChecks name hs sl m s))
            (updateHostNamed name f (config.Hosts (cfg s)))).
  rewrite Hview. eapply agrees_update_checks; try done.
  by rewrite view_lookup, Hhs.
Qed.

Lemma wfStore_sliceOK s name hs :
  wfStore s → hosts s !! name = Some hs → sliceOK (arrays s) (hs_Checks hs).
Proof. intros [Hok _]. apply Hok. Qed.

Lemma with_Checks_Name v h : config.Name (with_Checks v h) = config.Name h.
Proof. done. Qed.

Section Adding.

Variable growslice : nat → nat.

Lemma addCheck_settled b fs order hostName rt decl s files :
  checkAgrees b rt decl →
  consistent b s →
  settled b (addCheck growslice fs order hostName rt decl s files).
Proof.
  intros Hnew Hs. unfold addCheck.
  destruct (hosts s !! hostName) as [hs|] eqn:Hhs; [|by apply settled_unchanged].
  pose proof (append1_updates growslice (arrays s) (hs_Checks hs) rt
                (wfStore_sliceOK s hostName hs (proj1 Hs) Hhs)) as [Hupd Hel].
  destruct (append1 growslice (arrays s) (hs_Checks hs) rt) as [m sl]. simpl in *.
  apply saveConfigLocked_settled.
  apply (setChecks_consistent b s hostName hs sl m
           (λ h, with_Checks (config.Checks h ++ [decl]) h)); try done.
  intros h H2. rewrite Hel. simpl. apply Forall2_app; [done|]. by constructor.
Qed.

Lemma AddHost_settled b fs name address hcurl s files :
  consistent b s → settled b (AddHost growslice fs name address hcurl s files).
Proof.
  intros [Hwf Hag]. unfold AddHost.
  destruct (hosts s !! name) as [hs|] eqn:Hhs; [by apply settled_unchanged|].
  set (rt := with_Enabled true (with_Type CheckPing zeroCheckStatus)).
  (* first the host without checks, then its first check *)
  set (hs0 := mkHostStatus name address nilSlice hcurl).
  set (s0 := s |> with_hosts (<[name := hs0]> (hosts s))).
  assert (Hwf0 : wfStore s0).
  { destruct Hwf as [Hok Hinj]. split.
    - intros n hs. subst s0. simpl. rewrite lookup_insert.
      case_decide; [by intros [= <-]|]. apply Hok.
    - intros n1 n2 hs1 hs2 a. subst s0. simpl.
      destruct (decide (n1 = name)) as [->|Hn1], (decide (n2 = name)) as [->|Hn2];
        rewrite ?lookup_insert_eq, ?lookup_insert_ne by done; try done.
      + by intros [= <-].
      + by intros _ [= <-].
      + apply Hinj. }
  assert (Hview0 : view s0 = <[name := []]> (view s)).
  { unfold view. subst s0. simpl. rewrite fmap_insert. done. }
  pose proof (append1_updates growslice (arrays s0) nilSlice rt eq_refl) as [Hupd Hel].
  change (arrays s0) with (arrays s) in *.
  destruct (append1 growslice (arrays s) nilSlice rt) as [m sl]. simpl in *.
  apply saveConfigLocked_settled.
  destruct Hupd as (Hok & Hnew & Hframe).
  destruct (setChecks_spec s0 name hs0 sl m) as [Hwf' Hview]; try done.
  { subst s0. simpl. by rewrite lookup_insert_eq. }
  assert (Heq : setChecks name hs0 sl m s0
                = s |> with_arrays m
                    |> with_hosts (<[name := mkHostStatus name address sl hcurl]> (hosts s))).
  { unfold setChecks. subst s0 hs0. simpl. unfold with_hosts, with_arrays. simpl.
    by rewrite insert_insert_eq. }
  rewrite Heq in Hwf', Hview. split; [exact Hwf'|].
  change (agreesWith b
            (view (s |> with_arrays m
                     |> with_hosts (<[name := mkHostStatus name address sl hcurl]> (hosts s))))
            (config.Hosts (cfg s) ++ [config.mkHost name address [pingCheck] hcurl])).
  rewrite Hview, Hview0, insert_insert_eq. simpl.
  apply agrees_add_host; [done|by rewrite view_lookup, Hhs|].
  rewrite Hel. constructor; [|constructor]. unfold checkAgrees. by simpl.
Qed.

End Adding.

Lemma elems_length m sl : sliceOK m sl → length (elems m sl) = sl_len sl.
Proof.
  unfold sliceOK, elems, backing. destruct (sl_arr sl) as [a|].
  - intros (l & -> & Hlen). simpl. rewrite length_take. lia.
  - intros ->. done.
Qed.

Lemma load_elems m sl i p :
  addr sl i = Some p → load m p = elems m sl !! i.
Proof.
  unfold addr, load, elems, backing. case_bool_decide as Hi; [|done].
  destruct (sl_arr sl) as [a|]; [|done]. simpl. intros [= <-]. simpl.
  rewrite lookup_take_lt by done. by destruct (m !! a).
Qed.

Lemma setChecks_same s name hs m :
  hosts s !! name = Some hs → setChecks name hs (hs_Checks hs) m s = s |> with_arrays m.
Proof.
  intros Hhs. unfold setChecks, with_hosts, with_arrays. simpl.
  destruct hs. simpl. by rewrite insert_id.
Qed.

Lemma badIndex_false idx len :
  badIndex idx len = false ↔ 0 ≤ idx ∧ (Z.to_nat idx < len)%nat.
Proof.
  unfold badIndex. rewrite orb_false_iff, !bool_decide_eq_false. lia.
Qed.

Lemma AddHostWithoutDefaultCheck_settled b fs name address hcurl s files :
  consistent b s → settled b (AddHostWithoutDefaultCheck fs name address hcurl s files).
Proof.
  intros [Hwf Hag]. unfold AddHostWithoutDefaultCheck.
  destruct (hosts s !! name) as [hs|] eqn:Hhs; [by apply settled_unchanged|].
  apply saveConfigLocked_settled. split.
  - destruct Hwf as [Hok Hinj]. split.
    + intros n hs. simpl. rewrite lookup_insert.
      case_decide; [by intros [= <-]|]. apply Hok.
    + intros n1 n2 hs1 hs2 a. simpl.
      destruct (decide (n1 = name)) as [->|Hn1], (decide (n2 = name)) as [->|Hn2];
        rewrite ?lookup_insert_eq, ?lookup_insert_ne by done; try done.
      * by intros [= <-].
      * by intros _ [= <-].
      * apply Hinj.
  - change (agreesWith b
              (view (s |> with_hosts (<[name := mkHostStatus name address nilSlice hcurl]>
                                       (hosts s))))
              (config.Hosts (cfg s) ++ [config.mkHost name address [] hcurl])).
    replace (view _) with (<[name := []]> (view s))
      by (unfold view; simpl; by rewrite fmap_insert).
    apply agrees_add_host; [done|by rewrite view_lookup, Hhs|constructor].
Qed.

Lemma DeleteHost_settled b fs name s files :
  consistent b s → settled b (DeleteHost fs name s files).
Proof.
  intros [Hwf Hag]. unfold DeleteHost.
  destruct (hosts s !! name) as [hs|] eqn:Hhs; [|by apply settled_unchanged].
  apply saveConfigLocked_settled. split.
  - destruct Hwf as [Hok Hinj]. split.
    + intros n hs'. simpl. intros [_ H]%lookup_delete_Some. by eapply Hok.
    + intros n1 n2 hs1 hs2 a. simpl.
      intros [_ H1]%lookup_delete_Some [_ H2]%lookup_delete_Some. by eapply Hinj.
  - change (agreesWith b (view (s |> with_hosts (delete name (hosts s))))
              (removeHostNamed name (config.Hosts (cfg s)))).
    replace (view _) with (delete name (view s))
      by (unfold view; simpl; by rewrite fmap_delete).
    by apply agrees_delete_host.
Qed.

Lemma UpdateHost_settled b fs oldName newName address hcurl s files :
  consistent b s → settled b (UpdateHost fs oldName newName address hcurl s files).
Proof.
  intros [Hwf Hag]. unfold UpdateHost.
  destruct (hosts s !! oldName) as [hs|] eqn:Hhs; [|by apply settled_unchanged].
  destruct (bool_decide (newName ≠ oldName) && bool_decide (is_Some (hosts s !! newName)))
    eqn:Hclash; [by apply settled_unchanged|].
  assert (Hnew : newName = oldName ∨ hosts s !! newName = None).
  { apply andb_false_iff in Hclash as [H|H].
    - left. apply bool_decide_eq_false in H. by destruct (decide (newName = oldName)).
    - right. apply bool_decide_eq_false in H. by apply eq_None_not_Some. }
  apply saveConfigLocked_settled. split.
  - destruct Hwf as [Hok Hinj].
    assert (Hlook : ∀ n hs', <[newName := mkHostStatus newName address (hs_Checks hs) hcurl]>
                               (delete oldName (hosts s)) !! n = Some hs' →
              ∃ n0 hs0, hosts s !! n0 = Some hs0 ∧ hs_Checks hs' = hs_Checks hs0 ∧
                        ((n = newName ∧ n0 = oldName) ∨
                         (n ≠ newName ∧ n0 = n ∧ n ≠ oldName))).
    { intros n hs'. rewrite lookup_insert. destruct (decide (newName = n)) as [Hn|Hn].
      - intros Heq. assert (hs' = mkHostStatus newName address (hs_Checks hs) hcurl)
          as -> by congruence.
        exists oldName, hs. split_and!; [done..|]. left. by subst.
      - intros [Hne H]%lookup_delete_Some. exists n, hs'. split_and!; [done..|].
        right. split_and!; done. }
    split.
    + intros n hs' H. simpl in H. apply Hlook in H as (n0 & hs0 & H0 & -> & _).
      by eapply Hok.
    + intros n1 n2 hs1 hs2 a H1 H2. simpl in H1, H2.
      apply Hlook in H1 as (m1 & h1 & H1 & -> & E1).
      apply Hlook in H2 as (m2 & h2 & H2 & -> & E2).
      intros Ha1 Ha2. pose proof (Hinj m1 m2 h1 h2 a H1 H2 Ha1 Ha2) as <-.
      destruct E1 as [[-> ->]|(? & -> & ?)], E2 as [[-> ?]|(? & ? & ?)]; congruence.
  - change (agreesWith b
              (view (s |> with_hosts
                           (<[newName := mkHostStatus newName address (hs_Checks hs) hcurl]>
                              (delete oldName (hosts s)))))
              (updateHostNamed oldName
                 (λ h, config.mkHost newName address (config.Checks h) hcurl)
                 (config.Hosts (cfg s)))).
    replace (view _) with (<[newName := checksOf s hs]> (delete oldName (view s)))
      by (unfold view; simpl; by rewrite fmap_insert, fmap_delete).
    apply agrees_rename_host; try done.
    + by rewrite view_lookup, Hhs.
    + destruct Hnew as [?|Hnone]; [by left|right]. by rewrite view_lookup, Hnone.
Qed.

Lemma RemoveCheck_settled b fs hostName idx s files :
  consistent b s → settled b (RemoveCheck fs hostName idx s files).
Proof.
  intros Hs. unfold RemoveCheck.
  destruct (hosts s !! hostName) as [hs|] eqn:Hhs; [|by apply settled_unchanged].
  destruct (badIndex idx (sl_len (hs_Checks hs))) eqn:Hbad; [by apply settled_unchanged|].
  apply badIndex_false in Hbad as [Hidx0 Hidx].
  pose proof (wfStore_sliceOK s hostName hs (proj1 Hs) Hhs) as Hok.
  pose proof (removeAt_updates (arrays s) (hs_Checks hs) (Z.to_nat idx) Hok Hidx)
    as [Hupd Hel].
  destruct (removeAt (arrays s) (hs_Checks hs) (Z.to_nat idx)) as [m sl]. simpl in *.
  apply saveConfigLocked_settled.
  apply (setChecks_consistent b s hostName hs sl m
           (λ h, if badIndex idx (length (config.Checks h)) then h
                 else with_Checks (delete (Z.to_nat idx) (config.Checks h)) h)); try done.
  - intros h. by destruct (badIndex _ _).
  - intros h H2. rewrite Hel.
    assert (Hlen : length (config.Checks h) = sl_len (hs_Checks hs)).
    { rewrite <- (Forall2_length _ _ _ H2). by apply elems_length. }
    rewrite (proj2 (badIndex_false idx (length (config.Checks h)))) by (rewrite Hlen; done).
    simpl. by apply Forall2_delete.
Qed.

Lemma updateCheck_settled b fs order hostName idx required mismatch frt fdecl s files :
  keepsAgreement b required frt fdecl →
  consistent b s →
  settled b (updateCheck fs order hostName idx required mismatch frt fdecl s files).
Proof.
  intros Hkeep Hs. unfold updateCheck.
  destruct (hosts s !! hostName) as [hs|] eqn:Hhs; [|by apply settled_unchanged].
  destruct (badIndex idx (sl_len (hs_Checks hs))) eqn:Hbad; [by apply settled_unchanged|].
  apply badIndex_false in Hbad as [Hidx0 Hidx].
  destruct (addr (hs_Checks hs) (Z.to_nat idx)) as [p|] eqn:Hp;
    [|by apply settled_unchanged].
  simpl. destruct (load (arrays s) p) as [c|] eqn:Hc; [|by apply settled_unchanged].
  simpl.
  destruct (match required with Some ty => bool_decide (cs_Type c ≠ ty) | None => false end)
    eqn:Hty; [by apply settled_unchanged|].
  pose proof (wfStore_sliceOK s hostName hs (proj1 Hs) Hhs) as Hok.
  pose proof (store_updates (arrays s) (hs_Checks hs) (Z.to_nat idx) p (frt c) Hok Hp)
    as [Hupd Hel].
  apply saveConfigLocked_settled.
  rewrite <- (setChecks_same s hostName hs _ Hhs).
  apply (setChecks_consistent b s hostName hs (hs_Checks hs) _
           (λ h, if badIndex idx (length (config.Checks h)) then h
                 else with_Checks (alter fdecl (Z.to_nat idx) (config.Checks h)) h));
    try done.
  - intros h. by destruct (badIndex _ _).
  - intros h H2. rewrite Hel.
    assert (Hlen : length (config.Checks h) = sl_len (hs_Checks hs)).
    { rewrite <- (Forall2_length _ _ _ H2). by apply elems_length. }
    rewrite (proj2 (badIndex_false idx (length (config.Checks h)))) by (rewrite Hlen; done).
    simpl. rewrite list_insert_alter. apply Forall2_alter; [done|].
    intros x y Hx Hy Hxy. unfold checksOf in Hx.
    rewrite <- (load_elems _ _ _ _ Hp), Hc in Hx. injection Hx as <-.
    apply Hkeep; [done|]. destruct required as [ty|]; [|done].
    apply bool_decide_eq_false in Hty. by destruct (decide (cs_Type c = ty)).
Qed.


Ltac agreement :=
  unfold checkAgrees in *; simpl in *; intuition (subst; try discriminate; done).

Lemma UpdateHTTPCheck_settled b fs order hostName idx url expect id dependsOn mqttNotify
    s files :
  consistent b s →
  settled b (UpdateHTTPCheck fs order hostName idx url expect id dependsOn mqttNotify s files).
Proof.
  apply updateCheck_settled. intros c d H Hty. destruct_cs c. destruct d. agreement.
Qed.

Lemma UpdateTCPCheck_settled b fs order hostName idx port id dependsOn mqttNotify s files :
  consistent b s →
  settled b (UpdateTCPCheck fs order hostName idx port id dependsOn mqttNotify s files).
Proof.
  apply updateCheck_settled. intros c d H Hty. destruct_cs c. destruct d. agreement.
Qed.

Lemma UpdateCheckDependencies_settled b fs order hostName idx id dependsOn mqttNotify
    s files :
  consistent b s →
  settled b (UpdateCheckDependencies fs order hostName idx id dependsOn mqttNotify s files).
Proof.
  apply updateCheck_settled. intros c d H Hty. destruct_cs c. destruct d. agreement.
Qed.

(** Switching a check on or off keeps everything but the [Enabled] flags in
    agreement. *)
Lemma setEnabledAt_consistent enabled s name hs i :
  consistent false s → hosts s !! name = Some hs →
  consistent false (s |> with_arrays (setEnabledAt enabled hs i (arrays s))).
Proof.
  intros Hs Hhs. unfold setEnabledAt.
  destruct (addr (hs_Checks hs) i) as [p|] eqn:Hp; [|by destruct s].
  simpl. destruct (load (arrays s) p) as [c|] eqn:Hc; [|by destruct s]. simpl.
  pose proof (wfStore_sliceOK s name hs (proj1 Hs) Hhs) as Hok.
  pose proof (store_updates (arrays s) (hs_Checks hs) i p (with_Enabled enabled c) Hok Hp)
    as [Hupd Hel].
  rewrite <- (setChecks_same s name hs _ Hhs).
  pose proof (setChecks_consistent false s name hs (hs_Checks hs)
                (store (arrays s) p (with_Enabled enabled c)) (λ h, h) Hs Hhs Hupd) as H.
  assert (Hid : ∀ decl, updateHostNamed name (λ h, h) decl = decl).
  { induction decl as [|h decl IH]; [done|]. simpl. case_bool_decide; [done|].
    by rewrite IH. }
  rewrite Hid in H.
  assert (Hcfg : ∀ s1, with_cfg (with_Hosts (config.Hosts (cfg s)) (cfg s)) s1
                       = with_cfg (cfg s) s1).
  { intros s1. by destruct (cfg s). }
  rewrite Hcfg in H.
  destruct H as [Hwf Hag]; [done| |].
  - intros h H2. rewrite Hel, list_insert_alter. apply Forall2_alter_l; [done|].
    intros x y Hx Hy Hxy. unfold checksOf in Hx.
    rewrite <- (load_elems _ _ _ _ Hp), Hc in Hx. injection Hx as <-.
    destruct_cs c. destruct y. agreement.
  - split; [exact Hwf|exact Hag].
Qed.

Lemma Toggle_consistent hostName idx enabled s :
  consistent false s → consistent false (Toggle hostName idx enabled s).
Proof.
  intros Hs. unfold Toggle. destruct (hosts s !! hostName) as [hs|] eqn:Hhs; [|done].
  destruct (badIndex _ _); [done|]. simpl. by eapply setEnabledAt_consistent.
Qed.

Lemma SetAllEnabled_consistent order enabled s :
  consistent false s → consistent false (SetAllEnabled order enabled s).
Proof.
  intros Hs. unfold SetAllEnabled.
  assert (Hgen : ∀ m, consistent false (s |> with_arrays m) →
            consistent false
              (s |> with_arrays
                 (foldl (λ m name,
                           match hosts s !! name with
                           | Some hs => foldl (λ m i, setEnabledAt enabled hs i m) m
                                          (seq 0 (sl_len (hs_Checks hs)))
                           | None => m
                           end) m order))).
  { induction order as [|name order IH]; intros m Hm; [done|]. simpl. apply IH.
    destruct (hosts s !! name) as [hs|] eqn:Hhs; [|done].
    generalize (seq 0 (sl_len (hs_Checks hs))). intros l. revert m Hm.
    induction l as [|i l IHl]; intros m Hm; [done|]. simpl. apply IHl.
    apply (setEnabledAt_consistent enabled (s |> with_arrays m) name hs i Hm Hhs). }
  apply Hgen. by destruct s.
Qed.

Section AddingChecks.

Variable growslice : nat → nat.

Lemma AddPingCheck_settled b fs order hostName id dependsOn mqttNotify s files :
  consistent b s →
  settled b (AddPingCheck growslice fs order hostName id dependsOn mqttNotify s files).
Proof. apply addCheck_settled. agreement. Qed.

Lemma AddHTTPCheck_settled b fs order hostName url expect id dependsOn mqttNotify s files :
  consistent b s →
  settled b (AddHTTPCheck growslice fs order hostName url expect id dependsOn mqttNotify
               s files).
Proof. apply addCheck_settled. agreement. Qed.

Lemma AddTCPCheck_settled b fs order hostName port id dependsOn mqttNotify s files :
  consistent b s →
  settled b (AddTCPCheck growslice fs order hostName port id dependsOn mqttNotify s files).
Proof. apply addCheck_settled. agreement. Qed.

End AddingChecks.

(** *** The initial state *)

Lemma statusOfCheck_agrees d : checkAgrees true (statusOfCheck d) d.
Proof.
  destruct d as [ty en url ex port id dep mq]. unfold statusOfCheck. simpl.
  destruct (bool_decide (ty = CheckHTTP)) eqn:Hhttp;
    destruct (bool_decide (ty = CheckTCP)) eqn:Htcp; simpl;
    try apply bool_decide_eq_true in Hhttp; try apply bool_decide_eq_true in Htcp;
    try apply bool_decide_eq_false in Hhttp; try apply bool_decide_eq_false in Htcp;
    agreement.
Qed.

Section Initial.

Variable growslice : nat → nat.

(** Appending to a slice that does not share an array with [m0] leaves the
    arrays of [m0] alone. *)
Lemma appendAll_fresh (m0 : gmap nat (list CheckStatus)) xs : ∀ m sl,
  sliceOK m sl →
  (∀ a, sl_arr sl = Some a → m0 !! a = None) →
  (∀ a l, m0 !! a = Some l → m !! a = Some l) →
  let r := appendAll growslice m sl xs in
  sliceOK r.1 r.2 ∧ elems r.1 r.2 = elems m sl ++ xs ∧
  (∀ a, sl_arr r.2 = Some a → m0 !! a = None) ∧
  (∀ a l, m0 !! a = Some l → r.1 !! a = Some l).
Proof.
  induction xs as [|x xs IH]; intros m sl Hok Hfresh Hsub; simpl.
  { by rewrite app_nil_r. }
  unfold appendAll in *. simpl.
  pose proof (append1_updates growslice m sl x Hok) as [(Hok1 & Hnew1 & Hframe1) Hel1].
  destruct (append1 growslice m sl x) as [m1 sl1]. simpl in *.
  destruct (IH m1 sl1) as (H1 & H2 & H3 & H4); try done.
  - intros a Ha. destruct (Hnew1 a Ha) as [Hold|Hnone]; [by apply Hfresh|].
    destruct (m0 !! a) as [l|] eqn:Hl; [|done]. apply Hsub in Hl. congruence.
  - intros a l Hl. apply Hframe1; [by apply Hsub|..].
    + intros Ha. apply Hfresh in Ha. congruence.
    + intros Ha. destruct (Hnew1 a Ha) as [Hold|Hnone].
      * apply Hfresh in Hold. congruence.
      * apply Hsub in Hl. congruence.
  - split_and!; try done. by rewrite H2, Hel1, <- app_assoc.
Qed.

Lemma addHost_spec s name address hcurl m sl :
  wfStore s → hosts s !! name = None →
  sliceOK m sl →
  (∀ a, sl_arr sl = Some a → arrays s !! a = None) →
  (∀ a l, arrays s !! a = Some l → m !! a = Some l) →
  let s' := s |> with_arrays m
              |> with_hosts (<[name := mkHostStatus name address sl hcurl]> (hosts s)) in
  wfStore s' ∧ view s' = <[name := elems m sl]> (view s).
Proof.
  intros Hwf Hhs Hok Hfresh Hsub s'.
  set (hs0 := mkHostStatus name address nilSlice hcurl).
  set (s0 := s |> with_hosts (<[name := hs0]> (hosts s))).
  assert (Hwf0 : wfStore s0).
  { destruct Hwf as [Hok0 Hinj]. split.
    - intros n hs. subst s0. simpl. rewrite lookup_insert.
      case_decide; [by intros [= <-]|]. apply Hok0.
    - intros n1 n2 hs1 hs2 a. subst s0. simpl.
      destruct (decide (n1 = name)) as [->|Hn1], (decide (n2 = name)) as [->|Hn2];
        rewrite ?lookup_insert_eq, ?lookup_insert_ne by done; try done.
      + by intros [= <-].
      + by intros _ [= <-].
      + apply Hinj. }
  assert (Hview0 : view s0 = <[name := []]> (view s)).
  { unfold view. subst s0. simpl. by rewrite fmap_insert. }
  destruct (setChecks_spec s0 name hs0 sl m) as [Hwf' Hview]; try done.
  { subst s0. simpl. by rewrite lookup_insert_eq. }
  { intros a Ha. right. by apply Hfresh. }
  { intros a l Hl _ _. by apply Hsub. }
  assert (Heq : setChecks name hs0 sl m s0 = s').
  { unfold setChecks. subst s0 hs0 s'. simpl. unfold with_hosts, with_arrays. simpl.
    by rewrite insert_insert_eq. }
  rewrite Heq in Hwf', Hview. split; [done|].
  by rewrite Hview, Hview0, insert_insert_eq.
Qed.

(** The state that [New] builds agrees with the config it was built from,
    when the config names every host once. *)
Lemma New_consistent order c :
  NoDup (config.Name <$> config.Hosts c) →
  consistent true (New growslice order c).
Proof.
  intros Hnd. unfold New.
  set (step := λ (st : State) (h : config.Host),
         let '(m, sl) := appendAll growslice (arrays st) nilSlice
                           (statusOfCheck <$> config.Checks h) in
         st |> with_arrays m
            |> with_hosts (<[config.Name h :=
                               mkHostStatus (config.Name h) (config.Address h) sl
                                 (config.HealthchecksPingURL h)]> (hosts st))).
  assert (Hgen : ∀ rest pre st,
            NoDup (config.Name <$> (pre ++ rest)) →
            wfStore st → agreesWith true (view st) pre →
            wfStore (foldl step st rest) ∧
            agreesWith true (view (foldl step st rest)) (pre ++ rest) ∧
            cfg (foldl step st rest) = cfg st).
  { induction rest as [|h rest IH]; intros pre st Hnd' Hwf Hag; simpl.
    { by rewrite app_nil_r. }
    assert (Hfresh : hosts st !! config.Name h = None).
    { destruct (hosts st !! config.Name h) as [hs|] eqn:Hhs; [|done]. exfalso.
      destruct Hag as (_ & Hdom & _).
      assert (Hin : config.Name h ∈ config.Name <$> pre).
      { apply Hdom. rewrite view_lookup, Hhs. eauto. }
      rewrite fmap_app in Hnd'. apply NoDup_app in Hnd' as (_ & Hdisj & _).
      apply (Hdisj _ Hin). rewrite fmap_cons. by left. }
    pose proof (appendAll_fresh (arrays st) (statusOfCheck <$> config.Checks h)
                  (arrays st) nilSlice eq_refl) as Happ.
    destruct Happ as (Hok & Hel & Hnew & Hsub); [done..|].
    assert (Hstep : step st h
              = st |> with_arrays (appendAll growslice (arrays st) nilSlice
                                     (statusOfCheck <$> config.Checks h)).1
                   |> with_hosts (<[config.Name h :=
                        mkHostStatus (config.Name h) (config.Address h)
                          (appendAll growslice (arrays st) nilSlice
                             (statusOfCheck <$> config.Checks h)).2
                          (config.HealthchecksPingURL h)]> (hosts st))).
    { unfold step. by destruct (appendAll _ _ _ _). }
    destruct (addHost_spec st (config.Name h) (config.Address h)
                (config.HealthchecksPingURL h) _ _ Hwf Hfresh Hok Hnew Hsub)
      as [Hwf1 Hview1].
    rewrite <- Hstep in Hwf1, Hview1.
    destruct (IH (pre ++ [h]) (step st h)) as (H1 & H2 & H3).
    - by rewrite <- app_assoc.
    - done.
    - rewrite Hview1, Hel. simpl.
      pose proof (agrees_add_host true (view st) pre (config.Name h) (config.Address h)
                    (config.HealthchecksPingURL h)
                    (statusOfCheck <$> config.Checks h) (config.Checks h) Hag) as Hadd.
      destruct h as [n a cs u]. simpl in *. apply Hadd.
      + by rewrite view_lookup, Hfresh.
      + apply Forall2_fmap_l, Forall_Forall2_diag, Forall_forall.
        intros d _. apply statusOfCheck_agrees.
    - rewrite <- app_assoc in H2. split_and!; [done..|].
      rewrite H3, Hstep. done. }
  destruct (Hgen (config.Hosts c) [] (mkState c ∅ ∅ "" true ∅)) as (H1 & H2 & H3).
  - done.
  - split; intros *; simpl; by rewrite lookup_empty.
  - split_and!; [constructor| |constructor].
    intros name. unfold view. simpl. rewrite fmap_empty, lookup_empty. by intros [? ?].
  - split; [exact H1|].
    change (agreesWith true (view (foldl step (mkState c ∅ ∅ "" true ∅) (config.Hosts c)))
              (config.Hosts (cfg (foldl step (mkState c ∅ ∅ "" true ∅) (config.Hosts c))))).
    by rewrite H3.
Qed.

End Initial.

Lemma structural_settled (growslice : nat → nat) fs order mu s files b :
  structural mu = true → consistent b s →
  settled b (applyMutation growslice fs order mu s files).
Proof.
  intros Hmu Hb. destruct mu; simpl in *; try done.
  - by apply AddHost_settled.
  - by apply AddHostWithoutDefaultCheck_settled.
  - by apply UpdateHost_settled.
  - by apply DeleteHost_settled.
  - by apply AddPingCheck_settled.
  - by apply AddHTTPCheck_settled.
  - by apply AddTCPCheck_settled.
  - by apply RemoveCheck_settled.
  - by apply UpdateHTTPCheck_settled.
  - by apply UpdateTCPCheck_settled.
  - by apply UpdateCheckDependencies_settled.
Qed.

Lemma switching_frame (growslice : nat → nat) fs order mu s files :
  structural mu = false → consistent false s →
  let r := applyMutation growslice fs order mu s files in
  consistent false r.1.2 ∧ cfg r.1.2 = cfg s ∧ r.2 = files.
Proof.
  intros Hmu Hs. destruct mu; simpl in *; try done.
  - split; [by apply Toggle_consistent|]. split; [|done].
    unfold Toggle. destruct (hosts s !! hostName); [|done]. by destruct (negb _).
  - split; [by apply SetAllEnabled_consistent|done].
Qed.

Lemma consistent_weaken s : consistent true s → consistent false s.
Proof.
  intros [Hwf (Hnd & Hdom & Hall)]. split; [done|]. split_and!; [done..|].
  eapply Forall_impl; [exact Hall|]. intros h (cs & Hcs & H2). exists cs. split; [done|].
  eapply Forall2_impl; [exact H2|]. intros c d. unfold checkAgrees. tauto.
Qed.

(** Whatever operations follow [New], the store and the config stay in step
    on everything but [Enabled], and on [Enabled] too as long as no check was
    switched on or off. *)
Lemma applyAll_consistent (growslice : nat → nat) steps : ∀ s files,
  consistent false s →
  let r := applyAll growslice steps (s, files) in
  consistent false r.1 ∧
  (consistent true s → Forall (λ step, structural step.2 = true) steps →
   consistent true r.1).
Proof.
  induction steps as [|[[fs ord] mu] steps IH]; intros s files Hs; simpl; [done|].
  unfold applyAll in *. simpl.
  destruct (structural mu) eqn:Hmu.
  - pose proof (structural_settled growslice fs ord mu s files false Hmu Hs) as [H1 _].
    destruct (IH _ (applyMutation growslice fs ord mu s files).2 H1) as [IH1 IH2].
    split; [done|]. intros Hfull [_ Hall]%Forall_cons. apply IH2; [|done].
    by apply (structural_settled growslice fs ord mu s files true Hmu).
  - destruct (switching_frame growslice fs ord mu s files Hmu Hs) as (H1 & _).
    destruct (IH _ (applyMutation growslice fs ord mu s files).2 H1) as [IH1 IH2].
    split; [done|]. intros _ [Hstr _]%Forall_cons. simpl in Hstr. congruence.
Qed.

Lemma reachable_consistent (growslice : nat → nat) order c steps :
  NoDup (config.Name <$> config.Hosts c) →
  let r := applyAll growslice steps (New growslice order c, ∅) in
  consistent false r.1 ∧
  (Forall (λ step, structural step.2 = true) steps → consistent true r.1).
Proof.
  intros Hnd r. pose proof (New_consistent growslice order c Hnd) as H0.
  destruct (applyAll_consistent growslice steps (New growslice order c) ∅
              (consistent_weaken _ H0)) as [H1 H2].
  split; [exact H1|]. intros Hall. by apply H2.
Qed.

(** C5, as the code has it.  The operations preserve the agreement of the
    runtime status with the declarative config, they do not establish it.
    When before an operation the hosts of the store are the declared hosts,
    each declared once, and host by host the checks agree with the declared
    ones on their number, order and fields other than [Enabled], the same
    holds after it.  An operation that changes hosts or checks changes both
    sides, keeps the agreement on [Enabled] as well when it held before, and,
    when it returns no error, has written the config to the bound path.
    [Toggle] and [SetAllEnabled] change the runtime [Enabled] flags only: they
    leave the config and the files untouched.  The store that [New] builds from
    a config with distinct host names agrees with it on every field, and after
    any run of operations on it the two still agree on everything but
    [Enabled], and on [Enabled] too when none of them was [Toggle] or
    [SetAllEnabled]. *)
Theorem mutations_keep_config_in_step (growslice : nat → nat) :
  (∀ (fs : FsErr) (order : list string) (mu : Mutation) (s : State)
     (files : gmap string FileData),
     consistent false s →
     let r := applyMutation growslice fs order mu s files in
     consistent false r.1.2 ∧
     (structural mu = true →
      (consistent true s → consistent true r.1.2) ∧
      (r.1.1 = None →
       ∀ d, encoded (configPath r.1.2) (cfg r.1.2) = Some d →
            r.2 !! configPath r.1.2 = Some d)) ∧
     (structural mu = false → cfg r.1.2 = cfg s ∧ r.2 = files)) ∧
  (∀ (order : list string) (c : config.Config)
     (steps : list (FsErr * list string * Mutation)),
     NoDup (config.Name <$> config.Hosts c) →
     consistent true (New growslice order c) ∧
     let r := applyAll growslice steps (New growslice order c, ∅) in
     consistent false r.1 ∧
     (Forall (λ step, structural step.2 = true) steps → consistent true r.1)).
Proof.
  split.
  - intros fs order mu s files Hs r. subst r. destruct (structural mu) eqn:Hmu.
    + destruct (structural_settled growslice fs order mu s files false Hmu Hs)
        as [Hafter Hwritten].
      split_and!; [exact Hafter| |done].
      intros _. split; [|exact Hwritten].
      intros Hfull. by apply (structural_settled growslice fs order mu s files true Hmu).
    + destruct (switching_frame growslice fs order mu s files Hmu Hs)
        as (Hafter & Hcfg & Hf).
      split_and!; [exact Hafter|done|]. by intros _.
  - intros order c steps Hnd. split; [by apply New_consistent|].
    by apply reachable_consistent.
Qed.

(** ** The operations on the concrete deployment *)

Lemma exampleState_consistent : consistent true exampleState.
Proof.
  apply New_consistent. refine (bool_decide_unpack _ _). vm_compute. exact I.
Qed.

Lemma exampleStateAt_consistent : consistent true exampleStateAt.
Proof. exact exampleState_consistent. Qed.

(** C5 fails as stated: after [Toggle] the runtime flag and the declared one
    differ, and nothing was written; an [AddHost] that follows and returns no
    error writes the config and leaves the two sides apart as they were. *)
Lemma toggle_leaves_config_behind :
  let r := applyMutation doubling fsOK exampleOrder (MToggle "Internet" 0 false)
             exampleStateAt ∅ in
  let r' := applyMutation doubling fsOK exampleOrder (MAddHost "db" "10.0.0.9" "")
              r.1.2 r.2 in
  consistent true exampleStateAt ∧ ¬ consistent true r.1.2 ∧ r.2 !! examplePath = None ∧
  r'.1.1 = None ∧ is_Some (r'.2 !! examplePath) ∧
  (λ cs : list CheckStatus, cs_Enabled <$> cs) <$> view r'.1.2 !! "Internet" = Some [false] ∧
  (λ h, (config.Name h, config.Enabled <$> config.Checks h)) <$> config.Hosts (cfg r'.1.2)
  = [("Internet", [true]); ("Google", [true]); ("db", [true])] ∧
  ¬ consistent true r'.1.2.
Proof.
  split; [exact exampleStateAt_consistent|]. split_and!.
  - intros [_ (_ & _ & Hall)].
    apply Forall_cons in Hall as [(cs & Hcs & H2) _].
    vm_compute in Hcs. injection Hcs as <-.
    apply Forall2_cons in H2 as [(_ & Hen & _) _].
    specialize (Hen eq_refl). vm_compute in Hen. discriminate.
  - done.
  - vm_compute. reflexivity.
  - vm_compute. eauto.
  - vm_compute. reflexivity.
  - vm_compute. reflexivity.
  - intros [_ (_ & _ & Hall)].
    assert (E : config.Hosts
                  (cfg (applyMutation doubling fsOK exampleOrder
                          (MAddHost "db" "10.0.0.9" "")
                          (applyMutation doubling fsOK exampleOrder
                             (MToggle "Internet" 0 false) exampleStateAt ∅).1.2
                          (applyMutation doubling fsOK exampleOrder
                             (MToggle "Internet" 0 false) exampleStateAt ∅).2).1.2)
                = [config.mkHost "Internet" "8.8.8.8"
                     [config.mkCheck CheckPing true "" 0 0 "internet" "" false] "";
                   config.mkHost "Google" "google.com"
                     [config.mkCheck CheckPing true "" 0 0 "" "internet" false] "";
                   config.mkHost "db" "10.0.0.9" [pingCheck] ""])
      by (vm_compute; reflexivity).
    rewrite E in Hall.
    apply Forall_cons in Hall as [(cs & Hcs & H2) _].
    vm_compute in Hcs. injection Hcs as <-.
    apply Forall2_cons in H2 as [(_ & Hen & _) _].
    specialize (Hen eq_refl). vm_compute in Hen. discriminate.
Qed.

Lemma mutations_keep_config_in_step_witness :
  consistent false
    (applyMutation doubling fsOK exampleOrder (MRemoveCheck "Google" 0)
       exampleStateAt ∅).1.2 ∧
  consistent false
    (applyAll doubling [(fsOK, exampleOrder, MToggle "Internet" 0 false);
                        (fsOK, exampleOrder, MAddHost "db" "10.0.0.9" "")]
       (New doubling exampleOrder exampleConfig, ∅)).1.
Proof.
  split.
  - apply (proj1 (mutations_keep_config_in_step doubling) fsOK exampleOrder
             (MRemoveCheck "Google" 0) exampleStateAt ∅).
    apply consistent_weaken. exact exampleStateAt_consistent.
  - apply (proj2 (mutations_keep_config_in_step doubling) exampleOrder exampleConfig).
    refine (bool_decide_unpack _ _). vm_compute. exact I.
Defined.

(** ** Adding an HTTP check without an expected status *)

Lemma syncChecks_expects rt ds :
  config.Expect <$> syncChecks rt ds = config.Expect <$> ds.
Proof.
  apply list_eq. intros j. unfold syncChecks.
  rewrite !list_lookup_fmap, list_lookup_imap.
  destruct (ds !! j) as [d|]; [|done]. simpl. by destruct (rt !! j).
Qed.

Lemma saveConfigLocked_frame fs s files :
  let s' := (saveConfigLocked fs s files).1.2 in
  hosts s' = hosts s ∧ arrays s' = arrays s ∧ checksByID s' = checksByID s ∧
  configPath s' = configPath s ∧ declaredExpects (cfg s') = declaredExpects (cfg s).
Proof.
  unfold saveConfigLocked. case_bool_decide; [done|].
  assert (Hexp : declaredExpects (with_Hosts (syncHost s <$> config.Hosts (cfg s)) (cfg s))
                 = declaredExpects (cfg s)).
  { unfold declaredExpects. simpl. rewrite <- list_fmap_compose.
    apply list_fmap_ext. intros _ h _. simpl. unfold syncHost.
    destruct (hosts s !! config.Name h); [|done]. simpl. by rewrite syncChecks_expects. }
  destruct (_ || _); [|destruct (bool_decide _)]; try destruct (writeConfig _ _ _ _);
    simpl; by rewrite ?Hexp.
Qed.

Lemma updateHostNamed_first name f decl :
  name ∈ config.Name <$> decl →
  ∃ h0, h0 ∈ decl ∧ config.Name h0 = name ∧ f h0 ∈ updateHostNamed name f decl.
Proof.
  induction decl as [|h decl IH]; [by intros ?%elem_of_nil|].
  rewrite fmap_cons. cbn [updateHostNamed]. case_bool_decide as Hn.
  - intros _. exists h. split_and!; [left|done|left].
  - intros [Heq|Hin]%elem_of_cons; [congruence|].
    destruct (IH Hin) as (h0 & H1 & H2 & H3). exists h0. split_and!; [by right|done|by right].
Qed.

Lemma encoded_image path c d :
  encoded path c = Some d → d = YAML c ∨ d = TOML c.
Proof.
  unfold encoded. repeat case_bool_decide; simpl; intros [= <-]; eauto.
Qed.

Section AddingResult.

Variable growslice : nat → nat.

Lemma addCheck_result fs order hostName rt decl s files hs :
  wfStore s → hosts s !! hostName = Some hs →
  let r := addCheck growslice fs order hostName rt decl s files in
  view r.1.2 = <[hostName := checksOf s hs ++ [rt]]> (view s) ∧
  declaredExpects (cfg r.1.2)
  = declaredExpects
      (with_Hosts (updateHostNamed hostName
                     (λ h, with_Checks (config.Checks h ++ [decl]) h)
                     (config.Hosts (cfg s))) (cfg s)).
Proof.
  intros Hwf Hhs. unfold addCheck. rewrite Hhs.
  pose proof (append1_updates growslice (arrays s) (hs_Checks hs) rt
                (wfStore_sliceOK s hostName hs Hwf Hhs)) as [(Hok & Hnew & Hframe) Hel].
  destruct (append1 growslice (arrays s) (hs_Checks hs) rt) as [m sl]. simpl in *.
  destruct (setChecks_spec s hostName hs sl m Hwf Hhs Hok Hnew Hframe) as [_ Hview].
  match goal with |- context [saveConfigLocked fs ?s1 files] =>
    destruct (saveConfigLocked_frame fs s1 files) as (Hh & Ha & _ & _ & Hexp) end.
  simpl in *. split; [|exact Hexp].
  change (checksOf s hs) with (elems (arrays s) (hs_Checks hs)).
  rewrite <- Hel, <- Hview. unfold view, checksOf. by rewrite Hh, Ha.
Qed.

End AddingResult.

Lemma evalDone_OK rs now hs i net mqtt parentOK c eventLog :
  knownType c →
  cs_OK (evalDone rs now hs i net mqtt parentOK c eventLog).1.1 = actualOK hs net c.
Proof.
  intros H. eval_cases c H.
  all: try destruct (http_Err _).
  all: try destruct (bool_decide (http_Code _ = _)).
  all: try destruct (ping_OK _).
  all: try destruct (tcp_OK _).
  all: destruct parentOK.
  all: unfold trackStateChange; simpl.
  all: destruct (IsZero cAt), cOK, cPF; simpl; done.
Qed.

(** C8, as the code has it.  [AddHTTPCheck] with [expect = 0] appends a check
    that is evaluated against status 200, while the value kept in the store,
    declared in the config and written to the file is 0. *)
Theorem AddHTTPCheck_expect_unset (growslice : nat → nat) (fs : FsErr)
    (order : list string) (hostName url id dependsOn : string) (mqttNotify : bool)
    (s : State) (files : gmap string FileData) (hs : HostStatus) :
  consistent false s →
  hosts s !! hostName = Some hs →
  let r := AddHTTPCheck growslice fs order hostName url 0 id dependsOn mqttNotify s files in
  ∃ c expects,
    view r.1.2 !! hostName = Some (checksOf s hs ++ [c]) ∧
    cs_Type c = CheckHTTP ∧ cs_Enabled c = true ∧ cs_Expect c = 0 ∧
    (∀ rs parseURL now host i net mqtt parentOK eventLog,
       let res := HTTPGet net (if bool_decide (url = "") then "http://" +:+ hs_Address host
                               else url) in
       (λ r, cs_OK r.1.1) <$> evalCheck rs parseURL now host i net mqtt parentOK c eventLog
       = Some match http_Err res with
              | None => bool_decide (http_Code res = 200)
              | Some _ => false
              end) ∧
    (hostName, expects) ∈ declaredExpects (cfg s) ∧
    (hostName, expects ++ [0]) ∈ declaredExpects (cfg r.1.2) ∧
    (r.1.1 = None → is_Some (encoded (configPath r.1.2) (cfg r.1.2)) →
     persistedExpects r.2 (configPath r.1.2) = Some (declaredExpects (cfg r.1.2))).
Proof.
  intros Hs Hhs r.
  set (c := zeroCheckStatus |> with_Type CheckHTTP |> with_Enabled true |> with_URL url
              |> with_Expect 0 |> with_ID id |> with_DependsOn dependsOn
              |> with_MQTTNotify mqttNotify).
  destruct (addCheck_result growslice fs order hostName c
              (config.mkCheck CheckHTTP true url 0 0 id dependsOn mqttNotify) s files hs
              (proj1 Hs) Hhs) as [Hview Hexp].
  assert (Hr : r = addCheck growslice fs order hostName c
                     (config.mkCheck CheckHTTP true url 0 0 id dependsOn mqttNotify) s files)
    by done.
  rewrite <- Hr in Hview, Hexp.
  assert (Hname : hostName ∈ config.Name <$> config.Hosts (cfg s)).
  { destruct Hs as [_ (_ & Hdom & _)]. apply Hdom. rewrite view_lookup, Hhs. eauto. }
  destruct (updateHostNamed_first hostName
              (λ h, with_Checks (config.Checks h
                       ++ [config.mkCheck CheckHTTP true url 0 0 id dependsOn mqttNotify]) h)
              (config.Hosts (cfg s)) Hname) as (h0 & Hin0 & Hn0 & Hin1).
  exists c, (config.Expect <$> config.Checks h0). split_and!; try done.
  - by rewrite Hview, lookup_insert_eq.
  - intros rs parseURL now host i net mqtt parentOK eventLog res.
    rewrite evalCheck_done.
    replace (notifierPanics parseURL host net parentOK c) with false by done.
    cbn [fmap option_fmap option_map].
    rewrite evalDone_OK by (right; left; done). subst res. done.
  - unfold declaredExpects. rewrite <- Hn0.
    by apply (list_elem_of_fmap_2 (λ h, (config.Name h, config.Expect <$> config.Checks h))).
  - rewrite Hexp. unfold declaredExpects. simpl.
    apply (list_elem_of_fmap_2 (λ h, (config.Name h, config.Expect <$> config.Checks h)))
      in Hin1.
    simpl in Hin1. by rewrite fmap_app, Hn0 in Hin1.
  - intros Herr [d Hd].
    pose proof (AddHTTPCheck_settled growslice false fs order hostName url 0 id dependsOn
                  mqttNotify s files Hs) as [_ Hwritten].
    fold r in Hwritten. specialize (Hwritten Herr d Hd).
    unfold persistedExpects. rewrite Hwritten.
    by destruct (encoded_image _ _ _ Hd) as [-> | ->].
Qed.

Lemma AddHTTPCheck_expect_unset_witness :
  persistedExpects
    (AddHTTPCheck doubling fsOK exampleOrder "Internet" "http://example.com/" 0 "" "" false
       exampleStateAt ∅).2 examplePath
  = Some [("Internet", [0; 0]); ("Google", [0])].
Proof.
  destruct (AddHTTPCheck_expect_unset doubling fsOK exampleOrder "Internet"
              "http://example.com/" "" "" false exampleStateAt ∅ exampleInternet)
    as (c & expects & _ & _ & _ & _ & _ & _ & _ & Hfile).
  - apply consistent_weaken. exact exampleStateAt_consistent.
  - vm_compute. reflexivity.
  - vm_compute. reflexivity.
Defined.

(** C8 fails as stated: the file holds [expect = 0], not 200, for the added
    check. *)
Lemma AddHTTPCheck_persists_zero :
  let r := AddHTTPCheck doubling fsOK exampleOrder "Internet" "http://example.com/" 0
             "" "" false exampleStateAt ∅ in
  r.1.1 = None ∧
  persistedExpects r.2 examplePath = Some [("Internet", [0; 0]); ("Google", [0])] ∧
  persistedExpects r.2 examplePath ≠ Some [("Internet", [0; 200]); ("Google", [0])].
Proof. vm_compute. split_and!; [done..|]. discriminate. Qed.

(** ** Removal and the ID index *)

Lemma RemoveCheck_frame fs hostName idx s files hs :
  hosts s !! hostName = Some hs →
  badIndex idx (sl_len (hs_Checks hs)) = false →
  let r := RemoveCheck fs hostName idx s files in
  checksByID r.1.2 = checksByID s ∧
  arrays r.1.2 = (removeAt (arrays s) (hs_Checks hs) (Z.to_nat idx)).1 ∧
  hosts r.1.2
  = <[hostName := mkHostStatus (hs_Name hs) (hs_Address hs)
                    (removeAt (arrays s) (hs_Checks hs) (Z.to_nat idx)).2 (hs_HCURL hs)]>
      (hosts s).
Proof.
  intros Hhs Hbad. unfold RemoveCheck. rewrite Hhs, Hbad.
  destruct (removeAt (arrays s) (hs_Checks hs) (Z.to_nat idx)) as [m sl].
  match goal with |- context [saveConfigLocked fs ?s1 files] =>
    destruct (saveConfigLocked_frame fs s1 files) as (Hh & Ha & Hi & _) end.
  simpl in *. by rewrite Hh, Ha, Hi.
Qed.

Lemma DeleteHost_frame fs name s files hs :
  hosts s !! name = Some hs →
  let r := DeleteHost fs name s files in
  checksByID r.1.2 = checksByID s ∧ arrays r.1.2 = arrays s ∧
  hosts r.1.2 = delete name (hosts s).
Proof.
  intros Hhs. unfold DeleteHost. rewrite Hhs.
  match goal with |- context [saveConfigLocked fs ?s1 files] =>
    destruct (saveConfigLocked_frame fs s1 files) as (Hh & Ha & Hi & _) end.
  simpl in *. by rewrite Hh, Ha, Hi.
Qed.

(** The slot of the removed check afterwards: its old content if it was the
    last slot in use, else the content of the next slot. *)
Lemma removeAt_slot m sl i p :
  sliceOK m sl → addr sl i = Some p →
  load (removeAt m sl i).1 p
  = if bool_decide (S i = sl_len sl) then elems m sl !! i else elems m sl !! S i.
Proof.
  unfold sliceOK, addr, removeAt, load, elems, backing.
  intros Hok Hp. case_bool_decide as Hi; [|done].
  destruct (sl_arr sl) as [a|]; [|done]. simpl in *. injection Hp as <-. simpl.
  destruct Hok as (l & Hl & Hlen). rewrite Hl, lookup_insert_eq. simpl.
  rewrite lookup_app_r by (rewrite length_take; lia).
  rewrite length_take. replace (i - i `min` length l)%nat with 0%nat by lia.
  case_bool_decide as Hlast.
  - rewrite (drop_ge (take (sl_len sl) l)) by (rewrite length_take; lia). simpl.
    rewrite lookup_drop, lookup_take_lt by lia. f_equal. lia.
  - rewrite lookup_app_l by (rewrite length_drop, length_take; lia).
    rewrite lookup_drop. f_equal. lia.
Qed.

Lemma IsParentOK_ext s1 s2 fuel : ∀ c,
  checksByID s1 = checksByID s2 → arrays s1 = arrays s2 →
  IsParentOK fuel s1 c = IsParentOK fuel s2 c.
Proof.
  induction fuel as [|fuel IH]; intros c Hi Ha; [done|]. simpl.
  rewrite Hi, Ha. case_bool_decide; [done|].
  destruct (checksByID s2 !! cs_DependsOn c) as [p|]; [|done].
  destruct (load (arrays s2) p) as [parent|]; [|done]. simpl.
  by rewrite (IH parent Hi Ha).
Qed.

(** Every entry of a rebuilt index is live. *)
Lemma indexHost_live s name hs (idx : gmap string Ptr) :
  hosts s !! name = Some hs →
  (∀ k q, idx !! k = Some q → liveEntry s k q) →
  ∀ k q, indexHost s hs idx !! k = Some q → liveEntry s k q.
Proof.
  intros Hhs. unfold indexHost. generalize (seq 0 (sl_len (hs_Checks hs))).
  intros l. revert idx. induction l as [|i l IH]; intros idx Hidx k q; [apply Hidx|].
  simpl. apply IH.
  destruct (addr (hs_Checks hs) i) as [q0|] eqn:Hq; [|done]. simpl.
  destruct (load (arrays s) q0) as [c|] eqn:Hc; [|done]. simpl.
  case_bool_decide; [|done].
  intros k2 q2. rewrite lookup_insert. case_decide as Hid; [|apply Hidx].
  intros [= <-]. exists name, hs, i, c. by subst.
Qed.

Lemma rebuildCheckIndex_live order s k q :
  GetCheckByID (rebuildCheckIndex order s) k = Some q → liveEntry s k q.
Proof.
  unfold GetCheckByID, rebuildCheckIndex. simpl.
  generalize (∅ : gmap string Ptr) (lookup_empty (M:=gmap string) (A:=Ptr)).
  intros idx Hempty.
  assert (Hidx : ∀ k1 q1, idx !! k1 = Some q1 → liveEntry s k1 q1).
  { intros k1 q1. by rewrite Hempty. }
  clear Hempty. revert idx Hidx k q.
  induction order as [|name order IH]; intros idx Hidx k q; [apply Hidx|].
  simpl. apply IH. destruct (hosts s !! name) as [hs|] eqn:Hhs; [|done].
  by eapply indexHost_live.
Qed.

(** C10, as the code has it.  [RemoveCheck] and [DeleteHost] leave the index
    as it was: the ID of the removed check still resolves to the same pointer
    and dependency resolution through that ID reads the slot it points at.
    After [DeleteHost] the slot holds the removed check's status.  After
    [RemoveCheck] it does so only when the removed check was the last of its
    host; otherwise it holds the status of the check that followed.  Once an
    operation rebuilds the index, every entry refers to a check that a host
    of the store still has. *)
Theorem removal_leaves_index_stale (fs : FsErr) (hostName : string) (idx : Z) (s : State)
    (files : gmap string FileData) (hs : HostStatus) (p : Ptr) (c : CheckStatus)
    (id : string) :
  wfStore s →
  hosts s !! hostName = Some hs →
  0 ≤ idx →
  addr (hs_Checks hs) (Z.to_nat idx) = Some p →
  load (arrays s) p = Some c →
  GetCheckByID s id = Some p →
  let r := RemoveCheck fs hostName idx s files in
  let d := DeleteHost fs hostName s files in
  GetCheckByID r.1.2 id = Some p ∧
  load (arrays r.1.2) p
  = (if bool_decide (S (Z.to_nat idx) = sl_len (hs_Checks hs)) then Some c
     else checksOf s hs !! S (Z.to_nat idx)) ∧
  (∀ child, cs_DependsOn child = id → parentOf r.1.2 child = load (arrays r.1.2) p) ∧
  GetCheckByID d.1.2 id = Some p ∧
  load (arrays d.1.2) p = Some c ∧
  hosts d.1.2 !! hostName = None ∧
  (∀ child, cs_DependsOn child = id → parentOf d.1.2 child = Some c) ∧
  (∀ child fuel, IsParentOK fuel d.1.2 child = IsParentOK fuel s child) ∧
  (∀ order id' p',
     (GetCheckByID (rebuildCheckIndex order r.1.2) id' = Some p' → liveEntry r.1.2 id' p') ∧
     (GetCheckByID (rebuildCheckIndex order d.1.2) id' = Some p' → liveEntry d.1.2 id' p')).
Proof.
  intros Hwf Hhs Hidx Hp Hc Hid r d.
  assert (Hbad : badIndex idx (sl_len (hs_Checks hs)) = false).
  { apply badIndex_false. split; [done|]. unfold addr in Hp. by case_bool_decide. }
  destruct (RemoveCheck_frame fs hostName idx s files hs Hhs Hbad) as (Hri & Hra & _).
  destruct (DeleteHost_frame fs hostName s files hs Hhs) as (Hdi & Hda & Hdh).
  fold r in Hri, Hra. fold d in Hdi, Hda, Hdh.
  assert (Hslot : load (arrays r.1.2) p
          = (if bool_decide (S (Z.to_nat idx) = sl_len (hs_Checks hs)) then Some c
             else checksOf s hs !! S (Z.to_nat idx))).
  { rewrite Hra, (removeAt_slot _ _ _ _ (wfStore_sliceOK s hostName hs Hwf Hhs) Hp).
    case_bool_decide; [|done]. by rewrite <- (load_elems _ _ _ _ Hp). }
  unfold GetCheckByID, parentOf in *. split_and!.
  - by rewrite Hri.
  - exact Hslot.
  - intros child ->. by rewrite Hri, Hid.
  - by rewrite Hdi.
  - by rewrite Hda.
  - rewrite Hdh. apply lookup_delete_eq.
  - intros child ->. rewrite Hdi, Hid. simpl. by rewrite Hda.
  - intros child fuel. by apply IsParentOK_ext.
  - intros order id' p'. split; apply rebuildCheckIndex_live.
Qed.

Lemma removal_leaves_index_stale_witness :
  cs_ID <$> (GetCheckByID (RemoveCheck fsOK "web" 1 webState ∅).1.2 "b"
               ≫= load (arrays (RemoveCheck fsOK "web" 1 webState ∅).1.2))
  = Some "b".
Proof.
  destruct (removal_leaves_index_stale fsOK "web" 1 webState ∅
              (mkHostStatus "web" "10.0.0.5" (mkSlice (Some 1%nat) 2) "") (mkPtr 1 1)
              (statusOfCheck (config.mkCheck CheckTCP true "" 0 443 "b" "" false)) "b")
    as (Hi & Hl & _).
  - apply (New_consistent doubling ["web"] webConfig).
    refine (bool_decide_unpack _ _). vm_compute. exact I.
  - vm_compute. reflexivity.
  - lia.
  - vm_compute. reflexivity.
  - vm_compute. reflexivity.
  - vm_compute. reflexivity.
  - rewrite Hi. simpl. rewrite Hl. vm_compute. reflexivity.
Defined.

(** C10 fails as stated: after removing the first check, its ID resolves to
    the status of the check that followed it. *)
Lemma removed_id_resolves_to_next_check :
  let r := RemoveCheck fsOK "web" 0 webState ∅ in
  cs_ID <$> (GetCheckByID webState "a" ≫= load (arrays webState)) = Some "a" ∧
  r.1.1 = None ∧
  cs_ID <$> (GetCheckByID r.1.2 "a" ≫= load (arrays r.1.2)) = Some "b" ∧
  (GetCheckByID r.1.2 "a" ≫= load (arrays r.1.2))
  ≠ (GetCheckByID webState "a" ≫= load (arrays webState)).
Proof. vm_compute. split_and!; [done..|]. discriminate. Qed.

(** ** Latency statistics *)

Lemma wrap64_add x y : wrap64 (wrap64 x + y) = wrap64 (x + y).
Proof.
  unfold wrap64. f_equal.
  replace ((x + 2 ^ 63) mod 2 ^ 64 - 2 ^ 63 + y + 2 ^ 63)
    with ((x + 2 ^ 63) mod 2 ^ 64 + y) by lia.
  rewrite Zplus_mod_idemp_l. f_equal. lia.
Qed.

Lemma wrap64_idem z : wrap64 (wrap64 z) = wrap64 z.
Proof.
  transitivity (wrap64 (wrap64 z + 0)); [f_equal; lia|].
  rewrite wrap64_add. f_equal. lia.
Qed.

Lemma okLatencies_snoc fh dp :
  okLatencies (fh ++ [dp])
  = okLatencies fh ++ (if dp_OK dp && bool_decide (0 < dp_LatencyMS dp)
                       then [dp_LatencyMS dp] else []).
Proof.
  unfold okLatencies. rewrite filter_app, fmap_app. f_equal.
  destruct dp as [t ok lat]. cbn [dp_OK dp_LatencyMS]. destruct ok; cbn [andb].
  - case_bool_decide.
    + by rewrite filter_cons_True.
    + rewrite filter_cons_False; [done|]. cbn [dp_OK dp_LatencyMS]. intros [_ ?]. done.
  - rewrite filter_cons_False; [done|]. cbn [dp_OK]. by intros [? _].
Qed.

(** The loop over the history: which samples enter the sum, the count, the
    list to be sorted and the running extremes. *)
Lemma latencyStep_fold fh : ∀ a,
  let r := foldl latencyStep a fh in
  acc_latencies r = acc_latencies a ++ okLatencies fh ∧
  acc_min r = foldl Z.min (acc_min a) (okLatencies fh) ∧
  acc_max r = foldl Z.max (acc_max a) (okLatencies fh) ∧
  wrap64 (acc_sum r) = wrap64 (foldl Z.add (acc_sum a) (okLatencies fh)) ∧
  wrap64 (acc_count r) = wrap64 (acc_count a + Z.of_nat (length (okLatencies fh))).
Proof.
  induction fh as [|dp fh IH] using rev_ind; intros a; simpl.
  { rewrite app_nil_r. split_and!; try done. f_equal. lia. }
  rewrite foldl_app. simpl. destruct (IH a) as (Hl & Hmin & Hmax & Hsum & Hcnt).
  rewrite okLatencies_snoc. unfold latencyStep at 1 3 5 7 9.
  destruct (dp_OK dp && bool_decide (0 < dp_LatencyMS dp)); simpl.
  - rewrite !foldl_app. simpl. rewrite Hl, Hmin, Hmax, length_app. simpl.
    split_and!.
    + by rewrite app_assoc.
    + case_bool_decide; lia.
    + case_bool_decide; lia.
    + rewrite wrap64_idem, <- (wrap64_add (acc_sum _)), Hsum, wrap64_add. done.
    + rewrite wrap64_idem, <- (wrap64_add (acc_count _)), Hcnt, wrap64_add. f_equal. lia.
  - rewrite !app_nil_r. done.
Qed.

Lemma wrap64_range z : minInt64 ≤ wrap64 z ≤ maxInt64.
Proof.
  unfold wrap64, minInt64, maxInt64.
  pose proof (Z.mod_pos_bound (z + 2 ^ 63) (2 ^ 64)). lia.
Qed.

Lemma latencyStep_fold_range fh : ∀ a,
  minInt64 ≤ acc_sum a ≤ maxInt64 → minInt64 ≤ acc_count a ≤ maxInt64 →
  minInt64 ≤ acc_sum (foldl latencyStep a fh) ≤ maxInt64 ∧
  minInt64 ≤ acc_count (foldl latencyStep a fh) ≤ maxInt64.
Proof.
  induction fh as [|dp fh IH]; intros a Hs Hc; [done|]. simpl. apply IH.
  - unfold latencyStep. destruct (_ && _); [apply wrap64_range|done].
  - unfold latencyStep. destruct (_ && _); [apply wrap64_range|done].
Qed.

(** For the lengths that a history can have, the index computed in floating
    point is the integer part of 0.95 n, and the clamp is not needed. *)
Lemma p95Index_floor n :
  (1 ≤ n ≤ 1000)%nat →
  p95Index n = 19 * Z.of_nat n / 20 ∧ 0 ≤ p95Index n < Z.of_nat n.
Proof.
  intros Hn.
  assert (H : forallb (λ k, Z.eqb (p95Index k) (19 * Z.of_nat k / 20)) (seq 1 1000) = true)
    by (vm_compute; reflexivity).
  rewrite forallb_forall in H. specialize (H n).
  rewrite Z.eqb_eq in H. rewrite H by (apply in_seq; lia).
  split; [done|]. split.
  - apply Z.div_pos; lia.
  - apply Z.div_lt_upper_bound; lia.
Qed.

(** What [latencyStats] computes on a history of at most 1000 samples: the
    average and the 95th percentile over the successful samples of positive
    latency, and the extremes over those samples together with the latency of
    the first sample of the history, whatever its outcome. *)
Lemma latencyStats_spec first rest :
  let fh := first :: rest in
  let oks := okLatencies fh in
  let sorted := merge_sort Z.le oks in
  let n := length oks in
  (length fh ≤ 1000)%nat →
  ls_Min (latencyStats fh) = foldl Z.min (dp_LatencyMS first) oks ∧
  ls_Max (latencyStats fh) = foldl Z.max (dp_LatencyMS first) oks ∧
  Sorted Z.le sorted ∧ sorted ≡ₚ oks ∧
  (oks ≠ [] →
   ls_P95 (latencyStats fh) = default 0 (sorted !! Z.to_nat (19 * Z.of_nat n / 20)) ∧
   (Z.to_nat (19 * Z.of_nat n / 20) < n)%nat ∧
   ls_Avg (latencyStats fh)
   = f64_div (f64_of_int (wrap64 (foldl Z.add 0 oks))) (f64_of_int (Z.of_nat n))) ∧
  (oks = [] → ls_P95 (latencyStats fh) = 0 ∧ ls_Avg (latencyStats fh) = f64_zero).
Proof.
  intros fh oks sorted n Hlen.
  pose (a0 := mkLatencyAcc 0 0 (dp_LatencyMS first) (dp_LatencyMS first) []).
  destruct (latencyStep_fold fh a0) as (Hl & Hmin & Hmax & Hsum & Hcnt).
  destruct (latencyStep_fold_range fh a0) as [Hsr Hcr]; [by compute..|].
  cbn [a0 acc_latencies acc_min acc_max acc_sum acc_count app] in Hl, Hmin, Hmax, Hsum, Hcnt.
  rewrite Z.add_0_l in Hcnt.
  fold oks in Hl, Hmin, Hmax, Hsum, Hcnt.
  assert (Hn : (n ≤ 1000)%nat).
  { subst n oks. unfold okLatencies. rewrite length_fmap.
    etrans; [apply length_filter|done]. }
  rewrite (wrap64_id (acc_sum _)) in Hsum by done.
  rewrite (wrap64_id (acc_count _)) in Hcnt by done.
  rewrite wrap64_id in Hcnt by (unfold minInt64, maxInt64; fold n; lia).
  fold n in Hcnt.
  unfold latencyStats. subst a0 fh. cbv beta iota zeta. rewrite Hcnt, Hl, Hmin, Hmax, Hsum.
  rewrite (Permutation_length (merge_sort_Permutation Z.le oks)). fold sorted. fold n.
  split_and!.
  - by case_bool_decide.
  - by case_bool_decide.
  - apply (Sorted_merge_sort Z.le).
  - apply merge_sort_Permutation.
  - intros Hne. assert (1 ≤ n)%nat by (subst n; destruct oks; simpl; [done|lia]).
    rewrite bool_decide_true by lia. simpl.
    destruct (p95Index_floor n) as [-> Hidx]; [lia|]. split_and!; [done| |done].
    apply Nat2Z.inj_lt. rewrite Z2Nat.id by (apply Z.div_pos; lia).
    apply Z.div_lt_upper_bound; lia.
  - intros Hnil. assert (n = 0%nat) as -> by (subst n; by rewrite Hnil).
    by rewrite bool_decide_false by lia.
Qed.

(** C7 fails on the code: the extremes are seeded with the first sample of the
    history before any filtering.  An HTTP check that answered 500 after 300ms
    and then 200 after 50ms is reported with [MaxLatency = 300], although its
    only successful sample took 50ms; a ping answered in less than a
    millisecond and then in 5ms is reported with [MinLatency = 0], although
    the only sample that counts has latency 5. *)
Theorem latency_extremes_include_first_sample :
  (∃ ca, apiAnalytics = Some [ca] ∧
         ca_History ca = [mkCheckDataPoint 1000 false 300; mkCheckDataPoint 2000 true 50] ∧
         okLatencies (ca_History ca) = [50] ∧
         ca_MaxLatency ca = 300 ∧ ca_MinLatency ca = 50 ∧ ca_P95Latency ca = 50) ∧
  (∃ ca, lanAnalytics = Some [ca] ∧
         ca_History ca = [mkCheckDataPoint 1000 true 0; mkCheckDataPoint 2000 true 5] ∧
         okLatencies (ca_History ca) = [5] ∧
         ca_MinLatency ca = 0 ∧ ca_MaxLatency ca = 5 ∧ ca_P95Latency ca = 5).
Proof.
  split; eexists; (split; [vm_compute; reflexivity|]); vm_compute; by split_and!.
Qed.

(** * Further properties *)

(** ** The event log *)

Lemma GetEvents_take limit eventLog :
  GetEvents limit eventLog
  = take (if bool_decide (limit ≤ 0) || bool_decide (Z.of_nat (length eventLog) < limit)
          then length eventLog else Z.to_nat limit) (reverse eventLog).
Proof.
  unfold GetEvents.
  set (k := if (bool_decide (limit ≤ 0) || bool_decide (Z.of_nat (length eventLog) < limit))
            then Z.of_nat (length eventLog) else limit).
  assert (Hk : (if bool_decide (limit ≤ 0) || bool_decide (Z.of_nat (length eventLog) < limit)
                then length eventLog else Z.to_nat limit) = Z.to_nat k).
  { subst k. destruct (_ || _); [by rewrite Nat2Z.id|done]. }
  rewrite Hk.
  assert (Hle : (Z.to_nat k ≤ length eventLog)%nat).
  { subst k. repeat case_bool_decide; simpl; lia. }
  clear Hk. generalize dependent (Z.to_nat k). intros n Hle.
  apply list_eq. intros i. rewrite list_lookup_fmap.
  destruct (decide (i < n)%nat) as [Hi|Hi].
  - rewrite lookup_seq_lt by done. simpl. rewrite lookup_take_lt by done.
    rewrite reverse_lookup by lia.
    replace (Z.to_nat (Z.of_nat (length eventLog) - 1 - Z.of_nat i))
      with (length eventLog - S i)%nat by lia.
    destruct (lookup_lt_is_Some_2 eventLog (length eventLog - S i)) as [e ->]; [lia|done].
  - rewrite lookup_seq_ge by lia. simpl. rewrite lookup_take_ge by lia. done.
Qed.

Lemma logEvent_lastN e eventLog :
  (length eventLog ≤ maxEvents)%nat →
  logEvent e eventLog = lastN maxEvents (eventLog ++ [e]).
Proof.
  intros H. unfold logEvent, lastN. rewrite length_app. simpl.
  case_bool_decide.
  - by replace (length eventLog + 1 - maxEvents)%nat with 1%nat by lia.
  - by replace (length eventLog + 1 - maxEvents)%nat with 0%nat by lia.
Qed.

Lemma logEvent_run es : ∀ eventLog,
  (length eventLog ≤ maxEvents)%nat →
  foldl (λ l e, logEvent e l) eventLog es = lastN maxEvents (eventLog ++ es).
Proof.
  induction es as [|e es IH]; intros eventLog H; simpl.
  - rewrite app_nil_r. by rewrite lastN_short.
  - rewrite IH.
    + rewrite logEvent_lastN by done. rewrite lastN_app_lastN.
      by rewrite <- app_assoc.
    + rewrite logEvent_lastN by done. rewrite lastN_length. lia.
Qed.

(** X1. [GetEvents] returns the events newest first: the whole log reversed
    when [limit] is not positive or exceeds the length of the log, the first
    [limit] entries of the reversed log otherwise; no index leaves the log. *)
Theorem GetEvents_newest_first (limit : Z) (eventLog : list Event) :
  GetEvents limit eventLog
  = take (if bool_decide (limit ≤ 0) || bool_decide (Z.of_nat (length eventLog) < limit)
          then length eventLog else Z.to_nat limit) (reverse eventLog) ∧
  Forall (λ e, e ∈ eventLog) (GetEvents limit eventLog) ∧
  length (GetEvents limit eventLog)
  = (if bool_decide (limit ≤ 0) || bool_decide (Z.of_nat (length eventLog) < limit)
     then length eventLog else Z.to_nat limit).
Proof.
  rewrite GetEvents_take. split_and!; [done| |].
  - apply Forall_forall. intros e He. apply elem_of_take in He as (i & He & _).
    apply elem_of_reverse. by eapply list_elem_of_lookup_2.
  - rewrite length_take, length_reverse.
    repeat case_bool_decide; simpl; lia.
Qed.

(** X2. The event log never holds more than 500 events: after any run of
    [logEvent] from a log within the cap it holds the 500 most recent events,
    oldest first, so that [GetEvents limit] with [0 < limit ≤ 500] returns the
    [limit] most recent events of the whole run (all of them when there are
    fewer), newest first. *)
Theorem eventLog_keeps_latest (eventLog es : list Event) (limit : Z) :
  (length eventLog ≤ maxEvents)%nat →
  let eventLog' := foldl (λ l e, logEvent e l) eventLog es in
  eventLog' = lastN maxEvents (eventLog ++ es) ∧
  (length eventLog' ≤ maxEvents)%nat ∧
  (0 < limit ≤ Z.of_nat maxEvents →
   GetEvents limit eventLog' = take (Z.to_nat limit) (reverse (eventLog ++ es))).
Proof.
  intros H eventLog'. subst eventLog'. rewrite logEvent_run by done.
  split_and!; [done|rewrite lastN_length; lia|].
  intros Hl. rewrite GetEvents_take, lastN_length.
  unfold lastN. rewrite reverse_drop, take_take.
  set (l := eventLog ++ es) in *.
  destruct (decide (length l ≤ Z.to_nat limit)%nat) as [Hlen|Hlen].
  - rewrite (take_ge (reverse l) (Z.to_nat limit)) by (rewrite length_reverse; lia).
    apply take_ge. rewrite length_reverse.
    repeat case_bool_decide; simpl; lia.
  - f_equal. repeat case_bool_decide; simpl; lia.
Qed.

Lemma eventLog_keeps_latest_witness :
  GetEvents 1 (foldl (λ l e, logEvent e l) [] [zeroEvent; mkEvent 7 "web" 0 CheckPing "down" "no reply" 0])
  = [mkEvent 7 "web" 0 CheckPing "down" "no reply" 0].
Proof.
  apply (eventLog_keeps_latest [] [zeroEvent; mkEvent 7 "web" 0 CheckPing "down" "no reply" 0] 1).
  - simpl. unfold maxEvents. lia.
  - unfold maxEvents. lia.
Defined.

(** ** Dependency cycles *)

Lemma IsParentOK_cycle s Q fuel : ∀ c,
  closedCycle s Q → dependsInto s Q c → IsParentOK fuel s c = None.
Proof.
  induction fuel as [|fuel IH]; intros c HQ (Hdep & p' & Hp' & Hq); [done|].
  simpl. rewrite bool_decide_false by done. rewrite Hp'.
  destruct (HQ p' Hq) as (parent & p'' & Hl & Hen & Hz & Hdep' & Hp'' & Hq'').
  rewrite Hl. simpl. rewrite Hen, Hz. simpl.
  rewrite IH; [done|done|]. split; [done|]. eauto.
Qed.

(** X3. A dependency cycle makes the resolver recurse without end: for a
    check that depends on a check of a set of enabled, evaluated checks that
    is closed under "parent of", [IsParentOK] returns for no call depth. *)
Theorem IsParentOK_diverges_on_cycle (s : State) (Q : Ptr → Prop) (c : CheckStatus) :
  closedCycle s Q → dependsInto s Q c → ∀ fuel, IsParentOK fuel s c = None.
Proof. intros HQ Hc fuel. by apply (IsParentOK_cycle s Q). Qed.

Lemma IsParentOK_diverges_on_cycle_witness :
  IsParentOK 1000 (w_state loopWorld) (statusAt loopWorld (mkPtr 0 0)) = None.
Proof.
  apply (IsParentOK_diverges_on_cycle (w_state loopWorld) (λ p, p = mkPtr 0 0)).
  - intros p ->. eexists _, (mkPtr 0 0). split; [vm_compute; reflexivity|].
    split_and!; done.
  - split; [done|]. exists (mkPtr 0 0). split; [by vm_compute|done].
Defined.

(** ** What a pass leaves alone *)

Lemma foldl_option_None {A B} (f : A → B → option A) (l : list B) :
  foldl (λ oa b, oa ≫= λ a, f a b) None l = None.
Proof. induction l; simpl; auto. Qed.

Lemma foldl_option_inv {A B} (f : A → B → option A) (P : A → Prop) (l : list B) : ∀ a,
  P a → (∀ a b a', b ∈ l → P a → f a b = Some a' → P a') →
  ∀ a', foldl (λ oa b, oa ≫= λ a, f a b) (Some a) l = Some a' → P a'.
Proof.
  induction l as [|b l IH]; intros a Ha Hstep a' Hfold; simpl in *.
  - by simplify_eq.
  - destruct (f a b) as [a1|] eqn:Hf.
    + eapply (IH a1); [|intros; eapply Hstep; eauto; by right|done].
      eapply Hstep; eauto. by left.
    + by rewrite foldl_option_None in Hfold.
Qed.

Lemma foldl_option_total {A B} (f : A → B → option A) (P : A → Prop) (l : list B) : ∀ a,
  P a → (∀ a b, b ∈ l → P a → ∃ a', f a b = Some a' ∧ P a') →
  ∃ a', foldl (λ oa b, oa ≫= λ a, f a b) (Some a) l = Some a' ∧ P a'.
Proof.
  induction l as [|b l IH]; intros a Ha Hstep; simpl.
  - eauto.
  - destruct (Hstep a b) as (a1 & -> & Ha1); [by left|done|].
    apply IH; [done|]. intros; apply Hstep; [by right|done].
Qed.

Lemma foldl_option_stuck {A B} (f : A → B → option A) (P : A → Prop) (l : list B) b0 : ∀ a,
  P a → (∀ a b a', P a → f a b = Some a' → P a') →
  (∀ a, P a → f a b0 = None) → b0 ∈ l →
  foldl (λ oa b, oa ≫= λ a, f a b) (Some a) l = None.
Proof.
  induction l as [|b l IH]; intros a Ha Hstep Hstuck Hin; simpl.
  - by apply elem_of_nil in Hin.
  - apply elem_of_cons in Hin as [<-|Hin].
    + rewrite Hstuck by done. apply foldl_option_None.
    + destruct (f a b) as [a1|] eqn:Hf; [|apply foldl_option_None].
      apply IH; eauto.
Qed.

Lemma declared_with_OK v c : declared (with_OK v c) = declared c.
Proof. by destruct c. Qed.
Lemma declared_with_ParentFailed v c : declared (with_ParentFailed v c) = declared c.
Proof. by destruct c. Qed.
Lemma declared_with_ParentID v c : declared (with_ParentID v c) = declared c.
Proof. by destruct c. Qed.
Lemma declared_with_Message v c : declared (with_Message v c) = declared c.
Proof. by destruct c. Qed.
Lemma declared_with_LatencyMS v c : declared (with_LatencyMS v c) = declared c.
Proof. by destruct c. Qed.
Lemma declared_with_LatencyHistory v c : declared (with_LatencyHistory v c) = declared c.
Proof. by destruct c. Qed.
Lemma declared_with_FullHistory v c : declared (with_FullHistory v c) = declared c.
Proof. by destruct c. Qed.
Lemma declared_with_CheckedAt v c : declared (with_CheckedAt v c) = declared c.
Proof. by destruct c. Qed.
Lemma declared_with_TotalChecks v c : declared (with_TotalChecks v c) = declared c.
Proof. by destruct c. Qed.
Lemma declared_with_SuccessChecks v c : declared (with_SuccessChecks v c) = declared c.
Proof. by destruct c. Qed.
Lemma declared_with_LastDownAt v c : declared (with_LastDownAt v c) = declared c.
Proof. by destruct c. Qed.
Lemma declared_with_LastUpAt v c : declared (with_LastUpAt v c) = declared c.
Proof. by destruct c. Qed.

Ltac declared_rw :=
  repeat first [rewrite declared_with_OK
                |rewrite declared_with_ParentFailed
                |rewrite declared_with_ParentID
                |rewrite declared_with_Message
                |rewrite declared_with_LatencyMS
                |rewrite declared_with_LatencyHistory
                |rewrite declared_with_FullHistory
                |rewrite declared_with_CheckedAt
                |rewrite declared_with_TotalChecks
                |rewrite declared_with_SuccessChecks
                |rewrite declared_with_LastDownAt
                |rewrite declared_with_LastUpAt].

Lemma declared_recordDataPoint ts ok lat c :
  declared (recordDataPoint ts ok lat c) = declared c.
Proof. unfold recordDataPoint. destruct ok; cbv beta iota zeta; by declared_rw. Qed.

Lemma probeDone_declared now hs net parentOK c :
  declared (probeDone now hs net parentOK c).1 = declared c.
Proof.
  unfold probeDone, pingDone, probeHTTP, probeTCP.
  repeat match goal with
         | |- context [if ?b then _ else _] => destruct b
         | |- context [match ?x with Some _ => _ | None => _ end] => destruct x
         end; cbn [fst]; rewrite ?declared_recordDataPoint; by declared_rw.
Qed.

Lemma trackStateChange_declared rs now hs i mqtt wasOK wasChecked wasParentFailed c eventLog :
  declared (trackStateChange rs now hs i mqtt wasOK wasChecked wasParentFailed c
              eventLog).1.1 = declared c.
Proof.
  unfold trackStateChange.
  repeat match goal with
         | |- context [if ?b then _ else _] => destruct b
         end; cbn [fst]; by declared_rw.
Qed.

Lemma evalDone_declared rs now hs i net mqtt parentOK c eventLog :
  declared (evalDone rs now hs i net mqtt parentOK c eventLog).1.1 = declared c.
Proof.
  unfold evalDone. cbv zeta.
  set (c1 := if bool_decide (cs_DependsOn c ≠ "") then _ else c).
  assert (H1 : declared c1 = declared c).
  { subst c1. case_bool_decide; [by declared_rw|done]. }
  pose proof (probeDone_declared now hs net parentOK c1) as H2.
  destruct (probeDone now hs net parentOK c1) as [c2 out1]. simpl in H2.
  pose proof (trackStateChange_declared rs now hs i mqtt (cs_OK c)
                (negb (IsZero (cs_CheckedAt c))) (cs_ParentFailed c) c2 eventLog) as H3.
  destruct (trackStateChange _ _ _ _ _ _ _ _ _ _) as [[c3 log] out2]. simpl in *.
  congruence.
Qed.

Lemma sameDeclared_refl s : sameDeclared s s.
Proof.
  unfold sameDeclared. split_and!; try done.
  intros a. destruct (arrays s !! a) as [l|]; constructor.
  apply Forall2_same_length_lookup. split; [done|]. intros i x y Hx Hy. congruence.
Qed.

Lemma sameDeclared_trans s1 s2 s3 :
  sameDeclared s1 s2 → sameDeclared s2 s3 → sameDeclared s1 s3.
Proof.
  intros (?&?&?&?&?&H12) (?&?&?&?&?&H23). unfold sameDeclared.
  split_and!; try congruence.
  intros a. specialize (H12 a). specialize (H23 a).
  destruct (arrays s1 !! a) as [l1|], (arrays s2 !! a) as [l2|], (arrays s3 !! a) as [l3|];
    inversion H12; inversion H23; subst; constructor.
  match goal with
  | Ha : Forall2 _ l1 l2, Hb : Forall2 _ l2 l3 |- _ =>
    apply Forall2_same_length_lookup; split;
      [by rewrite (Forall2_length _ _ _ Ha), (Forall2_length _ _ _ Hb)|];
    intros i x z Hx Hz;
    destruct (Forall2_lookup_l _ _ _ _ _ Ha Hx) as (y & Hy & Hxy);
    pose proof (Forall2_lookup_lr _ _ _ _ _ _ Hb Hy Hz); congruence
  end.
Qed.

Lemma store_sameDeclared s p c c' :
  load (arrays s) p = Some c → declared c' = declared c →
  sameDeclared s (s |> with_arrays (store (arrays s) p c')).
Proof.
  unfold load, store. intros Hl Hd. unfold sameDeclared. simpl. split_and!; try done.
  intros a. destruct (decide (a = p_arr p)) as [->|Hne].
  - rewrite lookup_alter_eq. destruct (arrays s !! p_arr p) as [l|]; simpl in *; [|constructor].
    constructor. rewrite <- (list_insert_id l (p_idx p) c) at 1 by done.
    apply Forall2_insert; [|done].
    apply Forall2_same_length_lookup. split; [done|]. intros i x y Hx Hy. congruence.
  - rewrite lookup_alter_ne by done.
    destruct (arrays s !! a) as [l|]; constructor.
    apply Forall2_same_length_lookup. split; [done|]. intros i x y Hx Hy. congruence.
Qed.

Lemma runCheck_sameDeclared rs parseURL fuel now net hs i w w' :
  runCheck rs parseURL fuel now net hs i w = Some w' → sameDeclared (w_state w) (w_state w').
Proof.
  unfold runCheck. intros H.
  destruct (addr (hs_Checks hs) i) as [p|]; [|done]. simpl in H.
  destruct (load (arrays (w_state w)) p) as [c|] eqn:Hl; [|done]. simpl in H.
  destruct (negb (cs_Enabled c)); [simplify_eq; apply sameDeclared_refl|].
  destruct (IsParentOK fuel (w_state w) c) as [parentOK|]; [|done]. simpl in H.
  rewrite evalCheck_done in H. destruct (notifierPanics _ _ _ _ _); [done|]. simpl in H.
  pose proof (evalDone_declared rs now hs i (net (hs_Name hs) i) (mqttClient (w_state w))
                parentOK c (w_eventLog w)) as Hd.
  destruct (evalDone _ _ _ _ _ _ _ _ _) as [[c' log] out]. simpl in *.
  simplify_eq. simpl. apply (store_sameDeclared _ _ c); [done|unfold declared; congruence].
Qed.

Lemma runHost_sameDeclared rs parseURL fuel now net hs w w' :
  runHost rs parseURL fuel now net hs w = Some w' → sameDeclared (w_state w) (w_state w').
Proof.
  unfold runHost. intros H.
  eapply (foldl_option_inv (λ w i, runCheck rs parseURL fuel now net hs i w)
            (λ w', sameDeclared (w_state w) (w_state w'))); [| |exact H].
  - apply sameDeclared_refl.
  - intros w1 i w2 _ H1 H2. eapply sameDeclared_trans; [done|].
    by eapply runCheck_sameDeclared.
Qed.

Lemma runOnce_sameDeclared rs parseURL fuel now net order w w' :
  runOnce rs parseURL fuel now net order w = Some w' → sameDeclared (w_state w) (w_state w').
Proof.
  unfold runOnce. intros H.
  eapply (foldl_option_inv
            (λ w name, match hosts (w_state w) !! name with
                       | Some hs => runHost rs parseURL fuel now net hs w
                       | None => Some w
                       end)
            (λ w', sameDeclared (w_state w) (w_state w'))); [| |exact H].
  - apply sameDeclared_refl.
  - intros w1 name w2 _ H1 H2. eapply sameDeclared_trans; [done|].
    destruct (hosts (w_state w1) !! name) as [hs|].
    + by eapply runHost_sameDeclared.
    + simplify_eq. apply sameDeclared_refl.
Qed.

Lemma sameDeclared_elems s s' sl :
  sameDeclared s s' →
  Forall2 (λ c c', declared c' = declared c) (elems (arrays s) sl) (elems (arrays s') sl).
Proof.
  intros (_&_&_&_&_&H). unfold elems, backing. apply Forall2_take.
  destruct (sl_arr sl) as [a|]; [|constructor].
  specialize (H a). destruct H; simpl; [done|constructor].
Qed.

Lemma sameDeclared_sliceOK s s' sl :
  sameDeclared s s' → sliceOK (arrays s) sl → sliceOK (arrays s') sl.
Proof.
  intros (_&_&_&_&_&H). unfold sliceOK. destruct (sl_arr sl) as [a|]; [|done].
  intros (l & Hl & Hlen). specialize (H a). rewrite Hl in H.
  inversion H as [l1 l2 HF E1 E2|]; subst. exists l2. split; [done|].
  by rewrite <- (Forall2_length _ _ _ HF).
Qed.

Lemma sameDeclared_wfStore s s' : sameDeclared s s' → wfStore s → wfStore s'.
Proof.
  intros H [H1 H2]. pose proof H as (_&Hh&_). split.
  - intros name hs Hn. rewrite Hh in Hn. eapply sameDeclared_sliceOK; eauto.
  - intros n1 n2 hs1 hs2 a. rewrite Hh. apply H2.
Qed.

Lemma sameDeclared_load s s' p :
  sameDeclared s s' →
  option_Forall2 (λ c c', declared c' = declared c) (load (arrays s) p) (load (arrays s') p).
Proof.
  intros (_&_&_&_&_&H). unfold load. specialize (H (p_arr p)).
  destruct H as [l l' HF|]; simpl; [|constructor].
  destruct (l !! p_idx p) as [c|] eqn:Hc.
  - destruct (Forall2_lookup_l _ _ _ _ _ HF Hc) as (c' & -> & Hcc'). by constructor.
  - apply lookup_ge_None in Hc. rewrite (Forall2_length _ _ _ HF) in Hc.
    apply lookup_ge_None in Hc. rewrite Hc. constructor.
Qed.

Lemma checkAgrees_declared b c c' d :
  declared c' = declared c → checkAgrees b c d → checkAgrees b c' d.
Proof.
  unfold declared, checkAgrees. intros H. simplify_eq.
  repeat match goal with H : _ = _ |- _ => rewrite H; clear H end. done.
Qed.

Lemma sameDeclared_consistent b s s' :
  sameDeclared s s' → consistent b s → consistent b s'.
Proof.
  intros H [Hwf (Hnd & Hdecl & Hall)]. pose proof H as (Hc & Hh & _).
  split; [by eapply sameDeclared_wfStore|]. rewrite Hc. split_and!; [done| |].
  - intros name Hn. apply Hdecl. rewrite view_lookup in *. rewrite Hh in Hn.
    apply fmap_is_Some in Hn. by apply fmap_is_Some.
  - eapply Forall_impl; [exact Hall|]. intros h (cs & Hcs & HF). simpl.
    rewrite view_lookup in Hcs. rewrite view_lookup, Hh.
    destruct (hosts s !! config.Name h) as [hs|]; [|done]. simpl in *. simplify_eq.
    eexists. split; [done|].
    pose proof (sameDeclared_elems s s' (hs_Checks hs) H) as HE.
    apply Forall2_same_length_lookup. split.
    + apply Forall2_length in HE, HF. unfold checksOf in *. congruence.
    + intros i c' d Hc' Hd. unfold checksOf in *.
      destruct (Forall2_lookup_r _ _ _ _ _ HE Hc') as (c0 & Hc0 & Hcc).
      pose proof (Forall2_lookup_lr _ _ _ _ _ _ HF Hc0 Hd).
      by eapply checkAgrees_declared.
Qed.

(** X4. An evaluation pass leaves the declared side alone: when [runOnce]
    returns, the config, the set of hosts, the ID index and the bound path are
    as before, every check keeps the fields that mirror its declaration (type,
    enabled, URL, expected status, port, ID, dependency, MQTT flag), and a
    store that agreed with its config still does. *)
Theorem runOnce_keeps_declared_side (rs : Duration → string)
    (parseURL : string → bool) (fuel : nat) (now : Time)
    (net : string → nat → Probes) (order : list string) (w w' : World) :
  runOnce rs parseURL fuel now net order w = Some w' →
  cfg (w_state w') = cfg (w_state w) ∧
  hosts (w_state w') = hosts (w_state w) ∧
  checksByID (w_state w') = checksByID (w_state w) ∧
  configPath (w_state w') = configPath (w_state w) ∧
  (∀ name hs, hosts (w_state w) !! name = Some hs →
     Forall2 (λ c c', declared c' = declared c)
       (checksOf (w_state w) hs) (checksOf (w_state w') hs)) ∧
  (∀ b, consistent b (w_state w) → consistent b (w_state w')).
Proof.
  intros H. apply runOnce_sameDeclared in H. pose proof H as (?&?&?&?&?&?).
  split_and!; try done.
  - intros name hs _. by apply sameDeclared_elems.
  - intros b. by apply sameDeclared_consistent.
Qed.

Lemma runOnce_keeps_declared_side_witness :
  consistent true (w_state exampleWorldDown).
Proof.
  refine (proj2 (proj2 (proj2 (proj2 (proj2
    (runOnce_keeps_declared_side noRounding anyURL 3 100 allDown exampleOrder exampleWorld
       exampleWorldDown _))))) true _).
  - vm_compute. reflexivity.
  - apply exampleState_consistent.
Defined.

(** ** Termination of a pass *)

Lemma chainWithin_returns s n : ∀ c,
  chainWithin n s c = true → is_Some (IsParentOK (S n) s c).
Proof.
  induction n as [|n IH]; intros c H; simpl in *.
  - case_bool_decide; [eauto|]. simpl in H.
    destruct (checksByID s !! cs_DependsOn c); [done|eauto].
  - case_bool_decide; [eauto|]. simpl in H.
    destruct (checksByID s !! cs_DependsOn c) as [p|]; [|eauto].
    destruct (load (arrays s) p) as [parent|]; [|done]. simpl.
    destruct (negb (cs_Enabled parent)); [eauto|].
    destruct (IsZero (cs_CheckedAt parent)); [eauto|].
    destruct (IH parent H) as [up Hup]. simpl in Hup. rewrite Hup. simpl.
    destruct (negb up); eauto.
Qed.

Lemma sameDeclared_chainWithin s s' n : ∀ c c',
  sameDeclared s s' → declared c' = declared c →
  chainWithin n s c = true → chainWithin n s' c' = true.
Proof.
  induction n as [|n IH]; intros c c' Hs Hd; pose proof Hs as (_&_&Hidx&_);
    assert (Hdep : cs_DependsOn c' = cs_DependsOn c)
      by (unfold declared in Hd; congruence);
    simpl; rewrite Hdep, Hidx.
  - destruct (bool_decide _); [done|]. simpl.
    by destruct (checksByID s !! cs_DependsOn c).
  - destruct (bool_decide _); [done|]. simpl.
    destruct (checksByID s !! cs_DependsOn c) as [p|]; [|done].
    pose proof (sameDeclared_load s s' p Hs) as Hl.
    destruct Hl as [parent parent' Hp|]; [|done]. by apply IH.
Qed.

Lemma urlsParse_safe parseURL hs net parentOK c :
  urlsParse parseURL hs = true → notifierPanics parseURL hs net parentOK c = false.
Proof.
  unfold urlsParse, notifierPanics. intros H.
  destruct (bool_decide (cs_Type c = CheckPing)); [|done]. cbn [andb].
  destruct (decide (hs_HCURL hs = "")) as [E|Hne].
  - rewrite (bool_decide_false (hs_HCURL hs ≠ "")) by (by intros ?). done.
  - rewrite (bool_decide_false (hs_HCURL hs = "")) in H by done. cbn [orb] in H.
    apply andb_true_iff in H as [-> ->]. rewrite andb_false_r.
    by destruct (bool_decide _), (ping_OK _).
Qed.

Lemma runCheck_returns rs parseURL fuel now net hs i w n :
  sliceOK (arrays (w_state w)) (hs_Checks hs) →
  (i < sl_len (hs_Checks hs))%nat →
  Forall (λ c, chainWithin n (w_state w) c = true) (checksOf (w_state w) hs) →
  urlsParse parseURL hs = true →
  (n < fuel)%nat →
  is_Some (runCheck rs parseURL fuel now net hs i w).
Proof.
  intros Hok Hi Hch Hurl Hfuel. unfold runCheck.
  assert (∃ p, addr (hs_Checks hs) i = Some p) as [p Hp].
  { unfold addr. rewrite bool_decide_true by done. unfold sliceOK in Hok.
    destruct (sl_arr (hs_Checks hs)); [eauto|lia]. }
  rewrite Hp. simpl. rewrite (load_elems _ _ _ _ Hp).
  destruct (lookup_lt_is_Some_2 (elems (arrays (w_state w)) (hs_Checks hs)) i) as [c Hc].
  { by rewrite elems_length. }
  rewrite Hc. simpl. destruct (negb (cs_Enabled c)); [eauto|].
  assert (chainWithin n (w_state w) c = true) as Hn.
  { eapply Forall_lookup_1 in Hch; eauto. }
  apply chainWithin_returns in Hn as [up Hup].
  rewrite (IsParentOK_mono _ _ fuel _ _ Hup) by lia. simpl.
  rewrite evalCheck_done, (urlsParse_safe parseURL hs _ _ _ Hurl). simpl.
  destruct (evalDone _ _ _ _ _ _ _ _ _) as [[c' log] out]. eauto.
Qed.

Lemma sameDeclared_chainsWithin s s' n hs :
  sameDeclared s s' →
  Forall (λ c, chainWithin n s c = true) (checksOf s hs) →
  Forall (λ c, chainWithin n s' c = true) (checksOf s' hs).
Proof.
  intros Hs H. pose proof (sameDeclared_elems s s' (hs_Checks hs) Hs) as HE.
  apply Forall_lookup. intros i c' Hc'. unfold checksOf in *.
  destruct (Forall2_lookup_r _ _ _ _ _ HE Hc') as (c & Hc & Hcc).
  eapply sameDeclared_chainWithin; eauto.
  eapply Forall_lookup_1 in H; eauto.
Qed.

Lemma runHost_returns rs parseURL fuel now net hs w n :
  sliceOK (arrays (w_state w)) (hs_Checks hs) →
  Forall (λ c, chainWithin n (w_state w) c = true) (checksOf (w_state w) hs) →
  urlsParse parseURL hs = true →
  (n < fuel)%nat →
  ∃ w', runHost rs parseURL fuel now net hs w = Some w' ∧
        sameDeclared (w_state w) (w_state w').
Proof.
  intros Hok Hch Hurl Hfuel. unfold runHost.
  apply (foldl_option_total (λ w i, runCheck rs parseURL fuel now net hs i w)
           (λ w', sameDeclared (w_state w) (w_state w'))).
  - apply sameDeclared_refl.
  - intros w1 i Hi H1. apply elem_of_seq in Hi.
    destruct (runCheck_returns rs parseURL fuel now net hs i w1 n) as [w2 H2]; try done.
    + by eapply sameDeclared_sliceOK.
    + lia.
    + by eapply sameDeclared_chainsWithin.
    + exists w2. split; [done|]. eapply sameDeclared_trans; [done|].
      by eapply runCheck_sameDeclared.
Qed.

(** X5. Without dependency cycles and with healthchecks URLs that parse a
    pass returns: in a well-formed store in which every chain of [DependsOn]
    links ends within [n] links and no host has a healthchecks URL that
    [url.Parse] turns down, by itself or with the suffix of the failure
    report, [runOnce] returns a world as soon as the call depth allowed
    exceeds [n]. *)
Theorem runOnce_returns_without_cycles (rs : Duration → string)
    (parseURL : string → bool) (fuel : nat) (now : Time)
    (net : string → nat → Probes) (order : list string) (w : World) (n : nat) :
  wfStore (w_state w) → chainsWithin n (w_state w) → reportsParse parseURL (w_state w) →
  (n < fuel)%nat →
  ∃ w', runOnce rs parseURL fuel now net order w = Some w'.
Proof.
  intros Hwf Hch Hurls Hfuel. unfold runOnce.
  destruct (foldl_option_total
              (λ w name, match hosts (w_state w) !! name with
                         | Some hs => runHost rs parseURL fuel now net hs w
                         | None => Some w
                         end)
              (λ w', sameDeclared (w_state w) (w_state w')) order w) as (w' & Hw' & _);
    [apply sameDeclared_refl| |by exists w'].
  intros w1 name _ H1. pose proof H1 as (_&Hh&_).
  destruct (hosts (w_state w1) !! name) as [hs|] eqn:Hhs; [|eauto].
  rewrite Hh in Hhs.
  destruct (runHost_returns rs parseURL fuel now net hs w1 n) as (w2 & H2 & H12); try done.
  - eapply sameDeclared_sliceOK; [done|]. by eapply wfStore_sliceOK.
  - eapply sameDeclared_chainsWithin; [done|]. by apply (Hch name hs).
  - by apply (Hurls name hs).
  - exists w2. split; [done|]. by eapply sameDeclared_trans.
Qed.

Lemma runOnce_returns_without_cycles_witness :
  ∃ w', runOnce noRounding anyURL 2 200 allUp exampleOrder exampleWorldDown = Some w'.
Proof.
  apply (runOnce_returns_without_cycles noRounding anyURL 2 200 allUp exampleOrder
           exampleWorldDown 1).
  - apply (sameDeclared_wfStore exampleState); [|apply exampleState_consistent].
    apply (runOnce_sameDeclared noRounding anyURL 3 100 allDown exampleOrder exampleWorld).
    vm_compute. reflexivity.
  - refine (bool_decide_unpack _ _). vm_compute. exact I.
  - refine (bool_decide_unpack _ _). vm_compute. exact I.
  - lia.
Defined.

(** ** A pass on a dependency cycle *)

Lemma Ptr_eq_or_ne (p q : Ptr) : p = q ∨ p ≠ q.
Proof.
  destruct p as [a i], q as [b j].
  destruct (decide (a = b)) as [->|?], (decide (i = j)) as [->|?];
    [by left|right; congruence..].
Qed.

Lemma load_store_ne m p q c : p ≠ q → load (store m p c) q = load m q.
Proof.
  unfold load, store. intros Hne. destruct (decide (p_arr q = p_arr p)) as [E|E].
  - rewrite E, lookup_alter_eq. destruct (m !! p_arr p) as [l|]; [|done]. simpl.
    apply list_lookup_insert_ne. intros E'. apply Hne. destruct p, q; simpl in *; congruence.
  - by rewrite lookup_alter_ne.
Qed.

Lemma runCheck_cycle rs parseURL fuel now net hs i w w' Q :
  closedCycle (w_state w) Q →
  runCheck rs parseURL fuel now net hs i w = Some w' →
  closedCycle (w_state w') Q ∧ hosts (w_state w') = hosts (w_state w).
Proof.
  intros HQ H. unfold runCheck in H.
  destruct (addr (hs_Checks hs) i) as [p|]; [|done]. simpl in H.
  destruct (load (arrays (w_state w)) p) as [c|] eqn:Hl; [|done]. simpl in H.
  destruct (cs_Enabled c) eqn:Hen; simpl in H; [|by simplify_eq].
  destruct (IsParentOK fuel (w_state w) c) as [parentOK|] eqn:Hp; [|done]. simpl in H.
  destruct (evalCheck _ _ _ _ _ _ _ _ _ _) as [[[c' log] out]|]; [|done].
  simpl in H. simplify_eq. simpl. split; [|done].
  assert (¬ Q p) as Hnq.
  { intros Hq. destruct (HQ p Hq) as (c0 & p' & Hl0 & _ & _ & Hdep & Hp' & Hq').
    rewrite (IsParentOK_cycle (w_state w) Q fuel c) in Hp; [done|done|].
    simplify_eq. split; eauto. }
  intros q Hq. destruct (HQ q Hq) as (c0 & p' & Hl0 & Hen0 & Hz0 & Hdep & Hp' & Hq').
  exists c0, p'. simpl. rewrite load_store_ne by (intros ->; done). done.
Qed.

Lemma runCheck_stuck rs parseURL fuel now net hs i w p Q :
  closedCycle (w_state w) Q → addr (hs_Checks hs) i = Some p → Q p →
  runCheck rs parseURL fuel now net hs i w = None.
Proof.
  intros HQ Hp Hq. unfold runCheck. rewrite Hp. simpl.
  destruct (HQ p Hq) as (c & p' & Hl & Hen & _ & Hdep & Hp' & Hq').
  rewrite Hl. simpl. rewrite Hen. simpl.
  rewrite (IsParentOK_cycle (w_state w) Q fuel c); [done|done|]. split; eauto.
Qed.

(** X6. A dependency cycle stops the evaluation: when a host that the pass
    visits has a check on a set of enabled, evaluated checks that is closed
    under "parent of", [runOnce] returns for no call depth. *)
Theorem runOnce_diverges_on_cycle (rs : Duration → string)
    (parseURL : string → bool) (now : Time)
    (net : string → nat → Probes) (order : list string) (w : World) (Q : Ptr → Prop)
    (name : string) (hs : HostStatus) (i : nat) (p : Ptr) :
  closedCycle (w_state w) Q →
  name ∈ order → hosts (w_state w) !! name = Some hs →
  addr (hs_Checks hs) i = Some p → Q p →
  ∀ fuel, runOnce rs parseURL fuel now net order w = None.
Proof.
  intros HQ Hin Hhs Hp Hq fuel. unfold runOnce.
  apply (foldl_option_stuck
           (λ w name, match hosts (w_state w) !! name with
                      | Some hs => runHost rs parseURL fuel now net hs w
                      | None => Some w
                      end)
           (λ w', closedCycle (w_state w') Q ∧ hosts (w_state w') = hosts (w_state w))
           order name); [done| | |done].
  - intros w1 name' w2 [HQ1 Hh1] H.
    destruct (hosts (w_state w1) !! name') as [hs'|]; [|by simplify_eq].
    unfold runHost in H.
    apply (foldl_option_inv (λ w i, runCheck rs parseURL fuel now net hs' i w)
             (λ w', closedCycle (w_state w') Q ∧ hosts (w_state w') = hosts (w_state w))
             _ w1 (conj HQ1 Hh1)) in H; [done|].
    intros w3 j w4 _ [HQ3 Hh3] H34.
    destruct (runCheck_cycle _ _ _ _ _ _ _ _ _ _ HQ3 H34) as [? ?]. split; [done|congruence].
  - intros w1 [HQ1 Hh1]. rewrite Hh1, Hhs. unfold runHost.
    apply (foldl_option_stuck (λ w i, runCheck rs parseURL fuel now net hs i w)
             (λ w', closedCycle (w_state w') Q) _ i); [done| | |].
    + intros w3 j w4 HQ3 H34. by destruct (runCheck_cycle _ _ _ _ _ _ _ _ _ _ HQ3 H34).
    + intros w3 HQ3. by eapply runCheck_stuck.
    + apply elem_of_seq. unfold addr in Hp. case_bool_decide; [lia|done].
Qed.

Lemma runOnce_diverges_on_cycle_witness :
  runOnce noRounding anyURL 1000 200 allUp ["web"] loopWorld = None.
Proof.
  apply (runOnce_diverges_on_cycle noRounding anyURL 200 allUp ["web"] loopWorld
           (λ p, p = mkPtr 0 0) "web" (mkHostStatus "web" "10.0.0.5" (mkSlice (Some 0%nat) 1) "")
           0 (mkPtr 0 0)).
  - intros p ->. eexists _, (mkPtr 0 0). split; [vm_compute; reflexivity|].
    split_and!; done.
  - set_solver.
  - vm_compute. reflexivity.
  - reflexivity.
  - reflexivity.
Defined.

(** ** Switching checks on and off *)

Lemma setEnabledAt_keeps e hs i m q :
  (∀ c, load m q = Some c → cs_Enabled c = e) →
  ∀ c, load (setEnabledAt e hs i m) q = Some c → cs_Enabled c = e.
Proof.
  intros H c. unfold setEnabledAt.
  destruct (addr (hs_Checks hs) i) as [p|]; [|apply H]. simpl.
  destruct (load m p) as [c0|] eqn:Hc0; [|apply H]. simpl.
  destruct (Ptr_eq_or_ne p q) as [->|Hne].
  - rewrite (load_store _ _ _ _ Hc0). intros [= <-]. by destruct c0.
  - rewrite load_store_ne by done. apply H.
Qed.

Lemma setEnabledAt_done e hs i m p :
  addr (hs_Checks hs) i = Some p →
  ∀ c, load (setEnabledAt e hs i m) p = Some c → cs_Enabled c = e.
Proof.
  intros Hp c. unfold setEnabledAt. rewrite Hp. simpl.
  destruct (load m p) as [c0|] eqn:Hc0; simpl.
  - rewrite (load_store _ _ _ _ Hc0). intros [= <-]. by destruct c0.
  - by rewrite Hc0.
Qed.

Lemma setEnabledAt_run e hs (l : list nat) : ∀ m,
  let m' := foldl (λ m i, setEnabledAt e hs i m) m l in
  (∀ q, (∀ c, load m q = Some c → cs_Enabled c = e) →
        ∀ c, load m' q = Some c → cs_Enabled c = e) ∧
  (∀ i p, i ∈ l → addr (hs_Checks hs) i = Some p →
          ∀ c, load m' p = Some c → cs_Enabled c = e).
Proof.
  induction l as [|i l IH]; intros m; simpl.
  - split; [done|]. intros i p Hi. by apply elem_of_nil in Hi.
  - destruct (IH (setEnabledAt e hs i m)) as [IH1 IH2]. split.
    + intros q Hq. apply IH1. by apply setEnabledAt_keeps.
    + intros j p Hj Hp. apply elem_of_cons in Hj as [->|Hj]; [|by eapply IH2].
      apply IH1. by apply setEnabledAt_done.
Qed.

Lemma SetAllEnabled_sets order e s name hs i p c :
  name ∈ order → hosts s !! name = Some hs → addr (hs_Checks hs) i = Some p →
  load (arrays (SetAllEnabled order e s)) p = Some c → cs_Enabled c = e.
Proof.
  unfold SetAllEnabled. simpl. generalize (arrays s) at 1. revert c.
  induction order as [|name' order IH]; intros c m Hin Hhs Hp; simpl.
  - by apply elem_of_nil in Hin.
  - apply elem_of_cons in Hin as [<-|Hin]; [|by apply IH].
    rewrite Hhs. clear IH.
    set (m1 := foldl (λ m i, setEnabledAt e hs i m) m (seq 0 (sl_len (hs_Checks hs)))).
    assert (H1 : ∀ c, load m1 p = Some c → cs_Enabled c = e).
    { eapply (proj2 (setEnabledAt_run e hs _ m)); [|done].
      apply elem_of_seq. unfold addr in Hp. case_bool_decide; [lia|done]. }
    clearbody m1. revert m1 H1 c. clear. induction order as [|name' order IH];
      intros m1 H1 c; simpl; [apply H1|].
    apply IH. destruct (hosts s !! name') as [hs'|]; [|done].
    by apply (proj1 (setEnabledAt_run e hs' _ m1)).
Qed.

Lemma runOnce_idle rs parseURL fuel now net order w :
  wfStore (w_state w) →
  (∀ name hs c, hosts (w_state w) !! name = Some hs → c ∈ checksOf (w_state w) hs →
                cs_Enabled c = false) →
  runOnce rs parseURL fuel now net order w = Some w.
Proof.
  intros Hwf Hoff. unfold runOnce.
  destruct (foldl_option_total
              (λ w name, match hosts (w_state w) !! name with
                         | Some hs => runHost rs parseURL fuel now net hs w
                         | None => Some w
                         end) (λ w', w' = w) order w) as (w' & Hw' & ->); [done| |done].
  intros w1 name _ ->. destruct (hosts (w_state w) !! name) as [hs|] eqn:Hhs; [|eauto].
  unfold runHost.
  apply (foldl_option_total (λ w i, runCheck rs parseURL fuel now net hs i w) (λ w', w' = w));
    [done|].
  intros w1 i Hi ->. apply elem_of_seq in Hi. exists w. split; [|done].
  pose proof (wfStore_sliceOK _ _ _ Hwf Hhs) as Hok.
  unfold runCheck.
  assert (∃ p, addr (hs_Checks hs) i = Some p) as [p Hp].
  { unfold addr. rewrite bool_decide_true by lia. unfold sliceOK in Hok.
    destruct (sl_arr (hs_Checks hs)); [eauto|lia]. }
  rewrite Hp. simpl. rewrite (load_elems _ _ _ _ Hp).
  destruct (lookup_lt_is_Some_2 (elems (arrays (w_state w)) (hs_Checks hs)) i) as [c Hc].
  { rewrite elems_length by done. lia. }
  rewrite Hc. simpl. rewrite (Hoff name hs c Hhs); [done|].
  by eapply list_elem_of_lookup_2.
Qed.

(** X7. After [SetAllEnabled(enabled)] every check of every host carries the
    flag, whatever it was before; after [SetAllEnabled(false)] an evaluation
    pass returns at once and changes nothing: no probe is sent, no data point
    is recorded, no event is logged and no notification goes out. *)
Theorem SetAllEnabled_reaches_every_check (rs : Duration → string)
    (parseURL : string → bool) (fuel : nat) (now : Time)
    (net : string → nat → Probes) (order order' : list string)
    (enabled : bool) (s : State) (eventLog : list Event) (out : list Output) :
  consistent false s →
  (∀ name, is_Some (hosts s !! name) → name ∈ order) →
  let s' := SetAllEnabled order enabled s in
  (∀ name hs c, hosts s' !! name = Some hs → c ∈ checksOf s' hs →
                cs_Enabled c = enabled) ∧
  (enabled = false →
   runOnce rs parseURL fuel now net order' (mkWorld s' eventLog out)
   = Some (mkWorld s' eventLog out)).
Proof.
  intros Hs Hcover s'.
  assert (Hall : ∀ name hs c, hosts s' !! name = Some hs → c ∈ checksOf s' hs →
                              cs_Enabled c = enabled).
  { intros name hs c Hhs Hc. apply list_elem_of_lookup in Hc as [i Hc].
    assert (Hh : hosts s' = hosts s) by done. rewrite Hh in Hhs.
    pose proof (lookup_lt_Some _ _ _ Hc) as Hi.
    pose proof (SetAllEnabled_consistent order enabled s Hs) as [Hwf' _].
    assert (Hok : sliceOK (arrays s') (hs_Checks hs)).
    { apply (wfStore_sliceOK s' name hs Hwf'). by rewrite Hh. }
    unfold checksOf in Hi. rewrite elems_length in Hi by done.
    assert (∃ p, addr (hs_Checks hs) i = Some p) as [p Hp].
    { unfold addr. rewrite bool_decide_true by lia. unfold sliceOK in Hok.
      destruct (sl_arr (hs_Checks hs)); [eauto|lia]. }
    eapply (SetAllEnabled_sets order enabled s name hs i p); eauto.
    by rewrite (load_elems _ _ _ _ Hp). }
  split; [done|]. intros ->. apply runOnce_idle; [|done].
  apply (SetAllEnabled_consistent order false s Hs).
Qed.

Lemma SetAllEnabled_reaches_every_check_witness :
  runOnce noRounding anyURL 0 300 allDown exampleOrder
    (mkWorld (SetAllEnabled exampleOrder false exampleState) [] [])
  = Some (mkWorld (SetAllEnabled exampleOrder false exampleState) [] []).
Proof.
  refine (proj2 (SetAllEnabled_reaches_every_check noRounding anyURL 0 300 allDown exampleOrder
                   exampleOrder false exampleState [] [] _ _) eq_refl).
  - apply consistent_weaken, exampleState_consistent.
  - intros name [hs Hhs].
    assert (hosts exampleState
            = <["Google" := exampleGoogle]> (<["Internet" := exampleInternet]> ∅)) as E
      by (vm_compute; reflexivity).
    rewrite E in Hhs.
    apply lookup_insert_Some in Hhs as [[<- _]|[_ Hhs]]; [set_solver|].
    apply lookup_insert_Some in Hhs as [[<- _]|[_ Hhs]]; [set_solver|done].
Defined.

(** ** Requests to healthchecks.io *)

Lemma healthchecksURLs_app out1 out2 :
  healthchecksURLs (out1 ++ out2) = healthchecksURLs out1 ++ healthchecksURLs out2.
Proof. unfold healthchecksURLs. apply omap_app. Qed.

Lemma trackStateChange_no_ping rs now hs i mqtt wasOK wasChecked wasParentFailed c eventLog :
  healthchecksURLs
    (trackStateChange rs now hs i mqtt wasOK wasChecked wasParentFailed c eventLog).2 = [].
Proof.
  unfold trackStateChange, notifyMQTT, publishMQTTStateChange.
  repeat match goal with
         | |- context [if ?b then _ else _] => destruct b
         end; reflexivity.
Qed.

Lemma probeDone_pings now hs net parentOK c :
  healthchecksURLs (probeDone now hs net parentOK c).2
  = if bool_decide (cs_Type c = CheckPing) && bool_decide (hs_HCURL hs ≠ "") then
      if ping_OK (PingOnce net (hs_Address hs)) then [hs_HCURL hs]
      else if parentOK then [failURL (hs_HCURL hs)]
      else []
    else [].
Proof.
  unfold probeDone, pingDone, probeHTTP, probeTCP.
  destruct (bool_decide (cs_Type c = CheckPing)); cbn [andb].
  - destruct (ping_OK _), parentOK, (bool_decide (hs_HCURL hs ≠ "")); reflexivity.
  - repeat match goal with
           | |- context [if ?b then _ else _] => destruct b
           end; reflexivity.
Qed.

Lemma evalDone_pings rs now hs i net mqtt parentOK c eventLog :
  healthchecksURLs (evalDone rs now hs i net mqtt parentOK c eventLog).2
  = if bool_decide (cs_Type c = CheckPing) && bool_decide (hs_HCURL hs ≠ "") then
      if ping_OK (PingOnce net (hs_Address hs)) then [hs_HCURL hs]
      else if parentOK then [failURL (hs_HCURL hs)]
      else []
    else [].
Proof.
  unfold evalDone. cbv zeta.
  set (c1 := if bool_decide (cs_DependsOn c ≠ "") then _ else c).
  assert (H1 : cs_Type c1 = cs_Type c).
  { subst c1. case_bool_decide; [by destruct c|done]. }
  pose proof (probeDone_pings now hs net parentOK c1) as H2. rewrite H1 in H2.
  destruct (probeDone now hs net parentOK c1) as [c2 out1]. simpl in H2.
  pose proof (trackStateChange_no_ping rs now hs i mqtt (cs_OK c)
                (negb (IsZero (cs_CheckedAt c))) (cs_ParentFailed c) c2 eventLog) as H3.
  destruct (trackStateChange _ _ _ _ _ _ _ _ _ _) as [[c3 log] out2]. simpl in *.
  by rewrite healthchecksURLs_app, H2, H3, app_nil_r.
Qed.

(** X8. Only ping checks report to healthchecks.io, and only for a host with
    a healthchecks URL: the evaluation of such a check reports to the URL
    itself when the ping answered, to the URL of the failure report (the URL
    without a slash at its end, followed by ["/fail"]) when it did not and the
    parent is healthy, and to nothing when the check is blocked by its parent.
    When [url.Parse] accepts the URL of the report, the evaluation completes
    and that one request is all it asks of healthchecks.io; when it does not,
    the notifier panics and the evaluation does not complete.  HTTP and TCP
    checks and the transition detector send no such request. *)
Theorem healthchecks_requests_of_an_evaluation (rs : Duration → string)
    (parseURL : string → bool) (now : Time) (hs : HostStatus) (i : nat) (net : Probes)
    (mqtt parentOK : bool) (c : CheckStatus) (eventLog : list Event) :
  let reports :=
    if bool_decide (cs_Type c = CheckPing) && bool_decide (hs_HCURL hs ≠ "") then
      if ping_OK (PingOnce net (hs_Address hs)) then [hs_HCURL hs]
      else if parentOK then [failURL (hs_HCURL hs)]
      else []
    else [] in
  match evalCheck rs parseURL now hs i net mqtt parentOK c eventLog with
  | Some r => healthchecksURLs r.2 = reports ∧ Forall (λ url, parseURL url = true) reports
  | None => ∃ url, reports = [url] ∧ parseURL url = false
  end.
Proof.
  intros reports. rewrite evalCheck_done.
  pose proof (evalDone_pings rs now hs i net mqtt parentOK c eventLog) as Hdone.
  fold reports in Hdone. unfold notifierPanics. subst reports.
  destruct (bool_decide (cs_Type c = CheckPing) && bool_decide (hs_HCURL hs ≠ ""));
    cbn [andb]; [|by split].
  destruct (ping_OK (PingOnce net (hs_Address hs))).
  - destruct (parseURL (hs_HCURL hs)) eqn:Hurl; cbn [negb].
    + split; [done|]. by repeat constructor.
    + by exists (hs_HCURL hs).
  - destruct parentOK; cbn [andb]; [|by split].
    destruct (parseURL (failURL (hs_HCURL hs))) eqn:Hurl; cbn [negb].
    + split; [done|]. by repeat constructor.
    + by exists (failURL (hs_HCURL hs)).
Qed.

Lemma string_snoc_last (s : string) (ch : ascii) :
  lastByte s = Some ch → ∃ pre, s = pre +:+ String ch "".
Proof.
  unfold lastByte. induction s as [|a s IH]; simpl; [done|].
  destruct s as [|b s].
  - simpl. intros [= ->]. by exists "".
  - intros H. destruct IH as [pre Hpre].
    { simpl in *. exact H. }
    exists (String a pre).
    change (String a (String b s) = String a (pre +:+ String ch "")). by rewrite <- Hpre.
Qed.

(** X9. For a healthchecks URL that is not empty, the failure report goes to
    the URL followed by "/fail", where a slash that already ends the URL is
    not doubled: with the URL [pre] or [pre/], [notifyHealthchecksFail] makes
    one request, for [pre/fail], when [url.Parse] accepts [pre/fail], and
    panics without a request when it does not. *)
Theorem notifyHealthchecksFail_url (parseURL : string → bool) (base : string) :
  base ≠ "" →
  ∃ pre, (base = pre ∧ lastByte base ≠ Some "/"%char ∨ base = pre +:+ "/") ∧
         notifyHealthchecksFail parseURL base
         = if parseURL (pre +:+ "/fail") then Some [HealthchecksGet (pre +:+ "/fail")]
           else None.
Proof.
  intros Hne. unfold notifyHealthchecksFail.
  rewrite bool_decide_true by done. cbn [andb].
  case_bool_decide as Hl; cbn [negb].
  - destruct (string_snoc_last base "/" Hl) as [pre ->]. exists pre.
    split; [by right|]. by rewrite string_app_assoc.
  - exists base. split; [by left|done].
Qed.

Lemma notifyHealthchecksFail_url_witness :
  (∃ pre, ("https://hc-ping.com/abc/" = pre ∧
           lastByte "https://hc-ping.com/abc/" ≠ Some "/"%char ∨
           "https://hc-ping.com/abc/" = pre +:+ "/") ∧
          notifyHealthchecksFail schemeURL "https://hc-ping.com/abc/"
          = if schemeURL (pre +:+ "/fail") then Some [HealthchecksGet (pre +:+ "/fail")]
            else None) ∧
  notifyHealthchecksFail schemeURL "https://hc-ping.com/abc/"
  = Some [HealthchecksGet "https://hc-ping.com/abc/fail"] ∧
  notifyHealthchecksFail schemeURL ":" = None.
Proof.
  split; [|by vm_compute].
  apply (notifyHealthchecksFail_url schemeURL "https://hc-ping.com/abc/"). discriminate.
Defined.

(** ** MQTT notifications *)





(** ** Aggregate statistics *)

Lemma visited_cons name order s :
  visited (name :: order) s
  = match hosts s !! name with Some hs => checksOf s hs | None => [] end ++ visited order s.
Proof. unfold visited. simpl. by destruct (hosts s !! name). Qed.

Lemma aggregate_visited s order : ∀ a,
  foldl (λ a name,
           match hosts s !! name with
           | Some hs => foldl aggregateStep a (checksOf s hs)
           | None => a
           end) a order
  = foldl aggregateStep a (visited order s).
Proof.
  induction order as [|name order IH]; intros a; [done|].
  rewrite visited_cons, foldl_app. simpl. rewrite IH.
  by destruct (hosts s !! name).
Qed.

Lemma countIf_cons P c l :
  countIf P (c :: l) = (if P c then 1 else 0) + countIf P l.
Proof.
  unfold countIf. rewrite filter_cons. destruct (P c) eqn:E.
  - rewrite decide_True by done. simpl. lia.
  - rewrite decide_False by (by intros ?). lia.
Qed.

Lemma countIf_nonneg P l : 0 ≤ countIf P l.
Proof. unfold countIf. lia. Qed.

Lemma countIf_le P l : countIf P l ≤ Z.of_nat (length l).
Proof. unfold countIf. pose proof (length_filter (λ c, P c = true) l). lia. Qed.

Lemma aggregateStep_run cs : ∀ a,
  0 ≤ agg_ChecksUp a ≤ agg_TotalChecks a → 0 ≤ agg_ChecksDown a ≤ agg_TotalChecks a →
  0 ≤ agg_ChecksParentFailed a ≤ agg_TotalChecks a →
  0 ≤ agg_ChecksDisabled a ≤ agg_TotalChecks a →
  0 ≤ agg_ChecksUnknown a ≤ agg_TotalChecks a →
  agg_TotalChecks a + Z.of_nat (length cs) ≤ maxInt64 →
  let r := foldl aggregateStep a cs in
  agg_TotalChecks r = agg_TotalChecks a + Z.of_nat (length cs) ∧
  agg_ChecksUp r = agg_ChecksUp a + countIf isUp cs ∧
  agg_ChecksDown r = agg_ChecksDown a + countIf isDown cs ∧
  agg_ChecksParentFailed r = agg_ChecksParentFailed a + countIf isBlocked cs ∧
  agg_ChecksDisabled r = agg_ChecksDisabled a + countIf isDisabled cs ∧
  agg_ChecksUnknown r = agg_ChecksUnknown a + countIf isUnknown cs.
Proof.
  induction cs as [|c cs IH]; intros a Hup Hdown Hpf Hdis Hunk Htot.
  - unfold countIf. simpl. lia.
  - cbn [foldl length] in *. rewrite !countIf_cons.
    assert (Hw : ∀ z, 0 ≤ z ≤ agg_TotalChecks a → wrap64 (z + 1) = z + 1).
    { intros z Hz. apply wrap64_id. unfold minInt64, maxInt64 in *. lia. }
    destruct (IH (aggregateStep a c)) as (H1 & H2 & H3 & H4 & H5 & H6);
      destruct a as [total up down blocked disabled unknown sum count];
      unfold aggregateStep, isUp, isDown, isBlocked, isDisabled, isUnknown, isEvaluated in *;
      simpl in *;
      destruct (cs_Enabled c), (IsZero (cs_CheckedAt c)), (cs_OK c), (cs_ParentFailed c);
      simpl in *; try case_bool_decide; simpl in *;
      rewrite ?Hw in * by lia; try lia.
Qed.

Lemma countIf_partition l :
  Z.of_nat (length l)
  = countIf isUp l + countIf isDown l + countIf isBlocked l + countIf isDisabled l
    + countIf isUnknown l.
Proof.
  induction l as [|c l IH]; [done|]. rewrite !countIf_cons. cbn [length].
  rewrite Nat2Z.inj_succ, IH.
  generalize (countIf isUp l) (countIf isDown l) (countIf isBlocked l)
    (countIf isDisabled l) (countIf isUnknown l). intros.
  unfold isUp, isDown, isBlocked, isDisabled, isUnknown, isEvaluated.
  destruct (cs_Enabled c), (IsZero (cs_CheckedAt c)), (cs_OK c), (cs_ParentFailed c);
    simpl; lia.
Qed.

Lemma countIf_Permutation P l l' : l ≡ₚ l' → countIf P l = countIf P l'.
Proof. intros H. unfold countIf. by rewrite H. Qed.

Lemma visited_Permutation order order' s :
  order' ≡ₚ order → visited order' s ≡ₚ visited order s.
Proof. intros H. unfold visited. by rewrite H. Qed.

Lemma GetAggregateStats_counters order s :
  Z.of_nat (length (visited order s)) ≤ maxInt64 →
  let cs := visited order s in
  counters (GetAggregateStats order s)
  = [Z.of_nat (size (hosts s)); Z.of_nat (length cs); countIf isUp cs; countIf isDown cs;
     countIf isBlocked cs; countIf isDisabled cs; countIf isUnknown cs].
Proof.
  intros Hlen cs. unfold GetAggregateStats. rewrite aggregate_visited. fold cs.
  destruct (aggregateStep_run cs (mkAggregateAcc 0 0 0 0 0 0 f64_zero 0))
    as (H1 & H2 & H3 & H4 & H5 & H6); simpl; try lia.
  { subst cs. lia. }
  destruct (foldl aggregateStep _ cs) as [total up down blocked disabled unknown sum count].
  simpl in *. unfold counters. simpl. by subst.
Qed.

(** X11. The aggregate counters classify every check once: each check of
    each host visited is counted in [TotalChecks] and in exactly one of
    disabled, unknown (enabled, never evaluated), up, blocked by its parent
    and down, so that the five add up to [TotalChecks]; [TotalHosts] is the
    number of hosts; and none of the counters depends on the order in which
    the map yields the hosts.  (Stated for fewer than 2^63 checks.) *)
Theorem GetAggregateStats_counts (order : list string) (s : State) :
  Z.of_nat (length (visited order s)) ≤ maxInt64 →
  let cs := visited order s in
  let st := GetAggregateStats order s in
  as_TotalHosts st = Z.of_nat (size (hosts s)) ∧
  as_TotalChecks st = Z.of_nat (length cs) ∧
  as_ChecksDisabled st = countIf isDisabled cs ∧
  as_ChecksUnknown st = countIf isUnknown cs ∧
  as_ChecksUp st = countIf isUp cs ∧
  as_ChecksParentFailed st = countIf isBlocked cs ∧
  as_ChecksDown st = countIf isDown cs ∧
  as_TotalChecks st
  = as_ChecksUp st + as_ChecksDown st + as_ChecksParentFailed st
    + as_ChecksDisabled st + as_ChecksUnknown st ∧
  (∀ order', order' ≡ₚ order →
             counters (GetAggregateStats order' s) = counters st).
Proof.
  intros Hlen cs st.
  pose proof (GetAggregateStats_counters order s Hlen) as H. fold cs st in H.
  unfold counters in H. injection H as H1 H2 H3 H4 H5 H6 H7.
  split_and!; try done.
  - rewrite H2, H3, H4, H5, H6, H7. apply countIf_partition.
  - intros order' Hp. pose proof (visited_Permutation order order' s Hp) as Hv.
    rewrite GetAggregateStats_counters by (by rewrite Hv).
    unfold counters. rewrite H1, H2, H3, H4, H5, H6, H7. subst cs.
    by rewrite !(countIf_Permutation _ _ _ Hv), Hv.
Qed.

Lemma GetAggregateStats_counts_witness :
  counters (GetAggregateStats exampleOrder (w_state exampleWorldDown)) = [2; 2; 0; 1; 1; 0; 0].
Proof.
  pose proof (GetAggregateStats_counts exampleOrder (w_state exampleWorldDown)) as H.
  destruct H as (H1 & H2 & H3 & H4 & H5 & H6 & H7 & _).
  - vm_compute. discriminate.
  - unfold counters. rewrite H1, H2, H3, H4, H5, H6, H7. vm_compute. reflexivity.
Defined.

(** ** Hosts in declared order *)

Lemma hostOrder_snoc decl h :
  hostOrder (decl ++ [h]) = <[config.Name h := Z.of_nat (length decl)]> (hostOrder decl).
Proof.
  unfold hostOrder. rewrite imap_app, foldl_app. simpl.
  by rewrite Nat.add_0_r.
Qed.

Lemma hostOrder_lookup decl : ∀ i h,
  NoDup (config.Name <$> decl) → decl !! i = Some h →
  orderAt (hostOrder decl) (config.Name h) = Z.of_nat i.
Proof.
  induction decl as [|h' decl IH] using rev_ind; intros i h Hnd Hi; [done|].
  rewrite hostOrder_snoc. unfold orderAt.
  rewrite fmap_app in Hnd. apply NoDup_app in Hnd as (Hnd & Hnot & _).
  destruct (decide (i < length decl)%nat) as [Hlt|Hge].
  - rewrite lookup_app_l in Hi by done.
    rewrite lookup_insert_ne.
    + by apply IH.
    + intros E. apply (Hnot (config.Name h)).
      * apply list_elem_of_fmap. exists h. split; [done|]. by eapply list_elem_of_lookup_2.
      * rewrite <- E. simpl. set_solver.
  - pose proof (lookup_lt_Some _ _ _ Hi) as Hlen. rewrite length_app in Hlen. simpl in Hlen.
    assert (i = length decl) as -> by lia.
    rewrite lookup_app_r, Nat.sub_diag in Hi by lia. simpl in Hi. injection Hi as ->.
    by rewrite lookup_insert_eq.
Qed.

Lemma insertStable_Permutation {A} (less : A → A → bool) x l :
  insertStable less x l ≡ₚ x :: l.
Proof.
  induction l as [|y l IH]; simpl; [done|].
  destruct (less y x); [|done]. rewrite IH. apply Permutation_swap.
Qed.

Lemma SliceStable_Permutation {A} (less : A → A → bool) l : SliceStable less l ≡ₚ l.
Proof.
  unfold SliceStable. induction l as [|x l IH]; simpl; [done|].
  by rewrite insertStable_Permutation, IH.
Qed.

Lemma insertStable_sorted {A} (k : A → Z) x l :
  StronglySorted (λ a b, k a ≤ k b) l →
  StronglySorted (λ a b, k a ≤ k b) (insertStable (λ a b, bool_decide (k a < k b)) x l).
Proof.
  induction 1 as [|y l Hl IH Hy]; simpl; [repeat constructor|].
  case_bool_decide as Hlt.
  - constructor; [done|]. rewrite insertStable_Permutation. constructor; [lia|done].
  - constructor; [by constructor|]. constructor; [lia|].
    eapply Forall_impl; [exact Hy|]. simpl. intros z Hz. lia.
Qed.

Lemma SliceStable_sorted {A} (k : A → Z) l :
  StronglySorted (λ a b, k a ≤ k b) (SliceStable (λ a b, bool_decide (k a < k b)) l).
Proof.
  unfold SliceStable. induction l as [|x l IH]; simpl; [constructor|].
  by apply insertStable_sorted.
Qed.

Lemma SliceStable_sortsByKey : sortsByKey (@SliceStable).
Proof.
  intros A k l. split; [apply SliceStable_Permutation|apply SliceStable_sorted].
Qed.

(** A list sorted by the positions of its names in the declaration is the
    list in declared order. *)
Lemma sorted_is_declared_order {A} (nm : A → string) (decl : list config.Host)
    (R T : list A) :
  NoDup (config.Name <$> decl) → nm <$> T = config.Name <$> decl → R ≡ₚ T →
  StronglySorted (λ a b, orderAt (hostOrder decl) (nm a) ≤ orderAt (hostOrder decl) (nm b)) R →
  R = T.
Proof.
  intros Hnd HT Hperm HR.
  assert (Hkey : ∀ i a, T !! i = Some a → orderAt (hostOrder decl) (nm a) = Z.of_nat i).
  { intros i a Ha.
    assert ((config.Name <$> decl) !! i = Some (nm a)) as Hn.
    { rewrite <- HT, list_lookup_fmap, Ha. done. }
    rewrite list_lookup_fmap in Hn.
    destruct (decl !! i) as [h|] eqn:Hh; [|done]. simpl in Hn. injection Hn as <-.
    by apply hostOrder_lookup. }
  apply (StronglySorted_unique_strong
           (λ a b, orderAt (hostOrder decl) (nm a) ≤ orderAt (hostOrder decl) (nm b)));
    [|done| |done].
  - intros x1 x2 H1 H2 Hle Hge. rewrite Hperm in H1.
    apply list_elem_of_lookup in H1 as [i Hi]. apply list_elem_of_lookup in H2 as [j Hj].
    rewrite (Hkey i x1 Hi), (Hkey j x2 Hj) in *.
    assert (i = j) as -> by lia. congruence.
  - clear Hperm HR HT. revert Hkey. generalize (orderAt (hostOrder decl)). intros k.
    induction T as [|a T IH] using rev_ind; intros Hkey; [constructor|].
    assert (Hpre : StronglySorted (λ a b, k (nm a) ≤ k (nm b)) T).
    { apply IH. intros i b Hb. apply Hkey. rewrite lookup_app_l; [done|].
      by eapply lookup_lt_Some. }
    clear IH. assert (Hlast : Forall (λ b, k (nm b) ≤ k (nm a)) T).
    { apply Forall_lookup. intros i b Hb.
      rewrite (Hkey i b), (Hkey (length T) a).
      - apply lookup_lt_Some in Hb. lia.
      - rewrite lookup_app_r, Nat.sub_diag by lia. done.
      - rewrite lookup_app_l; [done|]. by eapply lookup_lt_Some. }
    clear Hkey. induction Hpre as [|b T Hpre IH Hb]; simpl.
    + repeat constructor.
    + apply Forall_cons in Hlast as [Hba Hlast]. constructor; [by apply IH|].
      apply Forall_app. split; [done|]. by constructor.
Qed.

Lemma enumerates_declared order s :
  consistent false s → enumerates order s →
  order ≡ₚ config.Name <$> config.Hosts (cfg s).
Proof.
  intros [_ (Hnd & Hdecl & Hall)] [Hnd' Hkeys].
  apply NoDup_Permutation; [done|done|]. intros name. rewrite Hkeys. split.
  - intros H. apply Hdecl. rewrite view_lookup. by apply fmap_is_Some.
  - intros H. apply list_elem_of_fmap in H as (h & -> & Hh).
    rewrite Forall_forall in Hall. destruct (Hall h Hh) as (cs & Hcs & _).
    rewrite view_lookup in Hcs. by destruct (hosts s !! config.Name h); [eauto|].
Qed.

Lemma declared_hosts_found {A} (mk : HostStatus → A) (nm : A → string) s :
  consistent false s → keyedByName s →
  (∀ hs, nm (mk hs) = hs_Name hs) →
  nm <$> omap (λ name, mk <$> hosts s !! name) (config.Name <$> config.Hosts (cfg s))
  = config.Name <$> config.Hosts (cfg s).
Proof.
  intros [_ (_ & _ & Hall)] Hkey Hnm.
  induction Hall as [|h decl (cs & Hcs & _) Hall IH]; [done|].
  rewrite view_lookup in Hcs. simpl in *.
  destruct (hosts s !! config.Name h) as [hs|] eqn:Hhs; [|done]. simpl in *.
  f_equal; [|exact IH]. rewrite Hnm. by apply (Hkey _ _ Hhs).
Qed.

(** X12. In a store that agrees with its config, [Snapshot] returns the
    hosts in the order of their declaration, one copy per declared host with
    the host's checks, whatever the order in which the map yields them. *)
Theorem Snapshot_in_declared_order (order : list string) (s : State) :
  consistent false s → keyedByName s → enumerates order s →
  Snapshot order s = omap (λ h, GetHost s (config.Name h)) (config.Hosts (cfg s)) ∧
  hc_Name <$> Snapshot order s = config.Name <$> config.Hosts (cfg s).
Proof.
  intros Hs Hkey Hord.
  pose proof (declared_hosts_found (copyHost s) hc_Name s Hs Hkey (λ _, eq_refl)) as HT.
  assert (E : Snapshot order s
              = omap (λ name, copyHost s <$> hosts s !! name)
                  (config.Name <$> config.Hosts (cfg s))).
  { unfold Snapshot. apply (sorted_is_declared_order hc_Name (config.Hosts (cfg s))).
    - apply Hs.
    - exact HT.
    - rewrite SliceStable_Permutation. apply omap_Permutation.
      by apply enumerates_declared.
    - apply (SliceStable_sorted (λ a, orderAt (hostOrder (config.Hosts (cfg s))) (hc_Name a))). }
  split; [|by rewrite E].
  rewrite E. unfold GetHost. generalize (config.Hosts (cfg s)). intros decl.
  induction decl as [|h decl IH]; [done|]. simpl.
  destruct (hosts s !! config.Name h); simpl; [f_equal|]; exact IH.
Qed.

Lemma GetHostAnalytics_lookup s :
  ∃ mk : HostStatus → HostAnalytics,
    (∀ name, GetHostAnalytics s name = mk <$> hosts s !! name) ∧
    (∀ hs, ha_Name (mk hs) = hs_Name hs).
Proof.
  eexists (λ hs, _). split.
  - intros name. unfold GetHostAnalytics. destruct (hosts s !! name) as [hs|]; simpl; [|done].
    reflexivity.
  - done.
Qed.

(** X13. With a [sort.Slice] that returns a sorted rearrangement,
    [GetAllHostAnalytics] returns the analytics of the hosts in the order of
    their declaration when the store agrees with its config, whatever the
    order in which the map yields the hosts and whatever [sort.Slice] does
    with elements that compare equal. *)
Theorem GetAllHostAnalytics_in_declared_order
    (sortSlice : ∀ A : Type, (A → A → bool) → list A → list A)
    (order : list string) (s : State) :
  sortsByKey sortSlice →
  consistent false s → keyedByName s → enumerates order s →
  GetAllHostAnalytics sortSlice order s
  = omap (λ h, GetHostAnalytics s (config.Name h)) (config.Hosts (cfg s)) ∧
  ha_Name <$> GetAllHostAnalytics sortSlice order s
  = config.Name <$> config.Hosts (cfg s).
Proof.
  intros Hsort Hs Hkey Hord.
  destruct (GetHostAnalytics_lookup s) as (mk & Hmk & Hnm).
  pose proof (declared_hosts_found mk ha_Name s Hs Hkey Hnm) as HT.
  assert (Homap : ∀ l : list string,
            omap (GetHostAnalytics s) l = omap (λ name, mk <$> hosts s !! name) l).
  { intros l. induction l as [|x l IH]; [done|]. simpl. rewrite Hmk.
    destruct (hosts s !! x); simpl; [f_equal|]; exact IH. }
  assert (E : GetAllHostAnalytics sortSlice order s
              = omap (λ name, mk <$> hosts s !! name)
                  (config.Name <$> config.Hosts (cfg s))).
  { unfold GetAllHostAnalytics.
    destruct (Hsort HostAnalytics
                (λ a, orderAt (hostOrder (config.Hosts (cfg s))) (ha_Name a))
                (omap (GetHostAnalytics s) order)) as [Hperm Hsorted].
    apply (sorted_is_declared_order ha_Name (config.Hosts (cfg s))).
    - apply Hs.
    - exact HT.
    - rewrite Hperm, Homap. apply omap_Permutation. by apply enumerates_declared.
    - exact Hsorted. }
  split; [|by rewrite E].
  rewrite E. generalize (config.Hosts (cfg s)). intros decl.
  induction decl as [|h decl IH]; [done|]. simpl. rewrite Hmk.
  destruct (hosts s !! config.Name h); simpl; [f_equal|]; exact IH.
Qed.

Lemma Snapshot_in_declared_order_witness :
  hc_Name <$> Snapshot ["Google"; "Internet"] exampleState = ["Internet"; "Google"].
Proof.
  refine (proj2 (Snapshot_in_declared_order ["Google"; "Internet"] exampleState _ _ _)).
  - apply consistent_weaken, exampleState_consistent.
  - refine (bool_decide_unpack _ _). vm_compute. exact I.
  - split; [refine (bool_decide_unpack _ _); vm_compute; exact I|].
    intros name.
    assert (hosts exampleState
            = <["Google" := exampleGoogle]> (<["Internet" := exampleInternet]> ∅)) as ->
      by (vm_compute; reflexivity).
    rewrite !lookup_insert_is_Some, lookup_empty, !elem_of_cons, elem_of_nil.
    unfold is_Some.
    destruct (decide (name = "Google")) as [->|H1]; [split; auto|].
    destruct (decide (name = "Internet")) as [->|H2];
      [split; intros _; [right; split; [done|by left]|auto]|].
    split; [intros [?|[?|[]]]; done|intros [?|[_ [?|[_ [x Hx]]]]]; done].
Defined.

Lemma GetAllHostAnalytics_in_declared_order_witness :
  ha_Name <$> GetAllHostAnalytics (@SliceStable) ["Google"; "Internet"] exampleState
  = ["Internet"; "Google"].
Proof.
  refine (proj2 (GetAllHostAnalytics_in_declared_order (@SliceStable)
                   ["Google"; "Internet"] exampleState _ _ _ _)).
  - apply SliceStable_sortsByKey.
  - apply consistent_weaken, exampleState_consistent.
  - refine (bool_decide_unpack _ _). vm_compute. exact I.
  - split; [refine (bool_decide_unpack _ _); vm_compute; exact I|].
    intros name.
    assert (hosts exampleState
            = <["Google" := exampleGoogle]> (<["Internet" := exampleInternet]> ∅)) as ->
      by (vm_compute; reflexivity).
    rewrite !lookup_insert_is_Some, lookup_empty, !elem_of_cons, elem_of_nil.
    unfold is_Some.
    destruct (decide (name = "Google")) as [->|H1]; [split; auto|].
    destruct (decide (name = "Internet")) as [->|H2];
      [split; intros _; [right; split; [done|by left]|auto]|].
    split; [intros [?|[?|[]]]; done|intros [?|[_ [?|[_ [x Hx]]]]]; done].
Defined.

(** ** Hosts are filed under their names *)

Lemma saveConfigLocked_keyed fs s files :
  keyedByName s → keyedByName (saveConfigLocked fs s files).1.2.
Proof.
  unfold keyedByName. by rewrite (proj1 (saveConfigLocked_frame fs s files)).
Qed.

Lemma addCheck_keyed growslice fs order hostName rt decl s files :
  keyedByName s → keyedByName (addCheck growslice fs order hostName rt decl s files).1.2.
Proof.
  intros H. unfold addCheck. destruct (hosts s !! hostName) as [hs|] eqn:Hhs; [|done].
  destruct (append1 _ _ _ _) as [m sl]. apply saveConfigLocked_keyed.
  unfold keyedByName, rebuildCheckIndex. simpl.
  apply map_Forall_insert_2; [|done]. simpl. by apply (H _ _ Hhs).
Qed.

Lemma updateCheck_keyed fs order hostName idx required mismatch frt fdecl s files :
  keyedByName s →
  keyedByName (updateCheck fs order hostName idx required mismatch frt fdecl s files).1.2.
Proof.
  intros H. unfold updateCheck. destruct (hosts s !! hostName) as [hs|]; [|done].
  destruct (badIndex _ _); [done|].
  destruct (_ ≫= _) as [[p c]|]; [|done].
  destruct (match required with Some _ => _ | None => _ end); [done|].
  by apply saveConfigLocked_keyed.
Qed.

Lemma applyMutation_keyed growslice fs order mu s files :
  keyedByName s → keyedByName (applyMutation growslice fs order mu s files).1.2.
Proof.
  intros H. destruct mu; simpl.
  - unfold AddHost. destruct (hosts s !! name); [done|].
    destruct (append1 _ _ _ _) as [m sl]. apply saveConfigLocked_keyed.
    unfold keyedByName. simpl. by apply map_Forall_insert_2.
  - unfold AddHostWithoutDefaultCheck. destruct (hosts s !! name); [done|].
    apply saveConfigLocked_keyed. unfold keyedByName. simpl. by apply map_Forall_insert_2.
  - unfold UpdateHost. destruct (hosts s !! oldName) as [hs|]; [|done].
    destruct (_ && _); [done|]. apply saveConfigLocked_keyed.
    unfold keyedByName. simpl. apply map_Forall_insert_2; [done|].
    by apply map_Forall_delete.
  - unfold DeleteHost. destruct (hosts s !! name); [|done].
    apply saveConfigLocked_keyed. unfold keyedByName. simpl. by apply map_Forall_delete.
  - by apply addCheck_keyed.
  - by apply addCheck_keyed.
  - by apply addCheck_keyed.
  - unfold RemoveCheck. destruct (hosts s !! hostName) as [hs|] eqn:Hhs; [|done].
    destruct (badIndex _ _); [done|]. destruct (removeAt _ _ _) as [m sl].
    apply saveConfigLocked_keyed. unfold keyedByName. simpl.
    apply map_Forall_insert_2; [|done]. simpl. by apply (H _ _ Hhs).
  - by apply updateCheck_keyed.
  - by apply updateCheck_keyed.
  - by apply updateCheck_keyed.
  - unfold Toggle. destruct (hosts s !! hostName); [|done]. by destruct (negb _).
  - done.
Qed.

Lemma New_keyed growslice order c : keyedByName (New growslice order c).
Proof.
  unfold New, rebuildCheckIndex, keyedByName. simpl.
  assert (H0 : map_Forall (λ name hs, hs_Name hs = name) (hosts (mkState c ∅ ∅ "" true ∅)))
    by apply map_Forall_empty.
  revert H0. generalize (mkState c ∅ ∅ "" true ∅).
  induction (config.Hosts c) as [|h l IH]; intros st0 H0; [done|].
  simpl. apply IH. destruct (appendAll _ _ _ _) as [m sl]. simpl.
  by apply map_Forall_insert_2.
Qed.

(** X14. Every host is filed under its own name: in the store that [New]
    builds and in every store reached from it by any run of mutating
    operations, the key of a host in the map is the [Name] of its status. *)
Theorem hosts_are_keyed_by_name (growslice : nat → nat) (order : list string)
    (c : config.Config) (steps : list (FsErr * list string * Mutation)) :
  keyedByName (applyAll growslice steps (New growslice order c, ∅)).1.
Proof.
  unfold applyAll.
  assert (H0 : keyedByName (New growslice order c, ∅ : gmap string FileData).1)
    by apply New_keyed.
  revert H0. generalize (New growslice order c, ∅ : gmap string FileData).
  induction steps as [|[[fs ord] mu] steps IH]; intros [s files] H0; [done|].
  simpl. apply IH. simpl. by apply applyMutation_keyed.
Qed.

(** ** Mutations and the file system *)

Lemma saveConfigLocked_state fs fs' s files files' :
  (saveConfigLocked fs s files).1.2 = (saveConfigLocked fs' s files').1.2.
Proof.
  unfold saveConfigLocked. case_bool_decide; [done|].
  destruct (_ || _); [|destruct (bool_decide _)];
    repeat match goal with
           | |- context [writeConfig ?a ?b ?c ?d] => destruct (writeConfig a b c d)
           end; done.
Qed.

Lemma addCheck_state growslice fs fs' order hostName rt decl s files files' :
  (addCheck growslice fs order hostName rt decl s files).1.2
  = (addCheck growslice fs' order hostName rt decl s files').1.2.
Proof.
  unfold addCheck. destruct (hosts s !! hostName); [|done].
  destruct (append1 _ _ _ _). apply saveConfigLocked_state.
Qed.

Lemma updateCheck_state fs fs' order hostName idx required mismatch frt fdecl s files files' :
  (updateCheck fs order hostName idx required mismatch frt fdecl s files).1.2
  = (updateCheck fs' order hostName idx required mismatch frt fdecl s files').1.2.
Proof.
  unfold updateCheck. destruct (hosts s !! hostName); [|done].
  destruct (badIndex _ _); [done|]. destruct (_ ≫= _) as [[p c]|]; [|done].
  destruct (match required with Some _ => _ | None => _ end); [done|].
  apply saveConfigLocked_state.
Qed.

(** X15. A failed save is reported, not rolled back: the store that a
    mutating operation leaves in memory is the same whatever the file
    operations of [saveConfigLocked] answer and whatever the files held, so
    that after an error from the file system the hosts, the checks and the
    config in memory have changed all the same. *)
Theorem mutation_in_memory_whatever_the_save (growslice : nat → nat) (fs fs' : FsErr)
    (order : list string) (mu : Mutation) (s : State) (files files' : gmap string FileData) :
  (applyMutation growslice fs order mu s files).1.2
  = (applyMutation growslice fs' order mu s files').1.2.
Proof.
  destruct mu; simpl; try apply addCheck_state; try apply updateCheck_state; try done.
  - unfold AddHost. destruct (hosts s !! name); [done|].
    destruct (append1 _ _ _ _). apply saveConfigLocked_state.
  - unfold AddHostWithoutDefaultCheck. destruct (hosts s !! name); [done|].
    apply saveConfigLocked_state.
  - unfold UpdateHost. destruct (hosts s !! oldName); [|done].
    destruct (_ && _); [done|]. apply saveConfigLocked_state.
  - unfold DeleteHost. destruct (hosts s !! name); [|done]. apply saveConfigLocked_state.
  - unfold RemoveCheck. destruct (hosts s !! hostName); [|done].
    destruct (badIndex _ _); [done|]. destruct (removeAt _ _ _).
    apply saveConfigLocked_state.
Qed.

(** A disk on which nothing can be written. *)
Lemma failed_save_keeps_the_host :
  let r := AddHost doubling (λ _, Some "read-only file system") "db" "10.0.0.9" ""
             exampleStateAt ∅ in
  r.1.1 = Some "read-only file system" ∧ r.2 = ∅ ∧
  hc_Address <$> GetHost r.1.2 "db" = Some "10.0.0.9" ∧
  config.Name <$> config.Hosts (cfg r.1.2) = ["Internet"; "Google"; "db"].
Proof. vm_compute. done. Qed.

(** ** What the check operations do to the checks *)

Lemma view_frame s s' : hosts s' = hosts s → arrays s' = arrays s → view s' = view s.
Proof. intros Hh Ha. unfold view, checksOf. by rewrite Hh, Ha. Qed.

Lemma RemoveCheck_view fs hostName idx s files hs :
  wfStore s → hosts s !! hostName = Some hs →
  badIndex idx (sl_len (hs_Checks hs)) = false →
  view (RemoveCheck fs hostName idx s files).1.2
  = <[hostName := delete (Z.to_nat idx) (checksOf s hs)]> (view s).
Proof.
  intros Hwf Hhs Hidx.
  destruct (RemoveCheck_frame fs hostName idx s files hs Hhs Hidx) as (_ & Ha & Hh).
  apply badIndex_false in Hidx as [_ Hlt].
  pose proof (removeAt_updates (arrays s) (hs_Checks hs) (Z.to_nat idx)
                (wfStore_sliceOK s hostName hs Hwf Hhs) Hlt) as [(Hok & Hnew & Hframe) Hel].
  destruct (setChecks_spec s hostName hs _ _ Hwf Hhs Hok Hnew Hframe) as [_ Hview].
  unfold checksOf. rewrite <- Hel, <- Hview. by apply view_frame.
Qed.

Lemma updateCheck_view fs order hostName idx required mismatch frt fdecl s files hs c :
  wfStore s → hosts s !! hostName = Some hs → 0 ≤ idx →
  checksOf s hs !! Z.to_nat idx = Some c →
  match required with Some ty => cs_Type c = ty | None => True end →
  view (updateCheck fs order hostName idx required mismatch frt fdecl s files).1.2
  = <[hostName := <[Z.to_nat idx := frt c]> (checksOf s hs)]> (view s).
Proof.
  intros Hwf Hhs Hidx Hc Hty. unfold updateCheck. rewrite Hhs.
  pose proof (wfStore_sliceOK s hostName hs Hwf Hhs) as Hok.
  pose proof (lookup_lt_Some _ _ _ Hc) as Hlt. unfold checksOf in Hlt.
  rewrite elems_length in Hlt by done.
  rewrite (proj2 (badIndex_false idx _)) by done.
  assert (∃ p, addr (hs_Checks hs) (Z.to_nat idx) = Some p) as [p Hp].
  { unfold addr. rewrite bool_decide_true by done. unfold sliceOK in Hok.
    destruct (sl_arr (hs_Checks hs)); [eauto|lia]. }
  rewrite Hp. simpl. rewrite (load_elems _ _ _ _ Hp). unfold checksOf in Hc. rewrite Hc. simpl.
  replace (match required with Some ty => bool_decide (cs_Type c ≠ ty) | None => false end)
    with false by (destruct required; [by rewrite bool_decide_false by (by intros ?)|done]).
  pose proof (store_updates (arrays s) (hs_Checks hs) (Z.to_nat idx) p (frt c) Hok Hp)
    as [(Hok' & Hnew & Hframe) Hel].
  destruct (setChecks_spec s hostName hs _ _ Hwf Hhs Hok' Hnew Hframe) as [_ Hview].
  unfold checksOf. rewrite <- Hel, <- Hview.
  match goal with |- context [saveConfigLocked fs ?s1 files] =>
    destruct (saveConfigLocked_frame fs s1 files) as (Hh & Ha & _) end.
  rewrite (setChecks_same s hostName hs _ Hhs).
  by apply view_frame.
Qed.

(** X16. An added check goes to the end of the host's checks: after
    [AddPingCheck], [AddHTTPCheck] and [AddTCPCheck] on an existing host the
    host has its former checks, with their statuses, followed by an enabled
    check with the given fields that was never evaluated, and the checks of
    the other hosts are as before, whether or not the append moved the slice
    to a new array. *)
Theorem added_check_is_appended (growslice : nat → nat) (fs : FsErr) (order : list string)
    (hostName url id dependsOn : string) (expect port : Z) (mqttNotify : bool)
    (s : State) (files : gmap string FileData) (hs : HostStatus) :
  wfStore s → hosts s !! hostName = Some hs →
  view (AddPingCheck growslice fs order hostName id dependsOn mqttNotify s files).1.2
  = <[hostName := checksOf s hs ++
        [mkCheckStatus CheckPing true false false "" "" 0 [] [] 0 "" 0 0 id dependsOn
           mqttNotify 0 0 0 0]]> (view s) ∧
  view (AddHTTPCheck growslice fs order hostName url expect id dependsOn mqttNotify
          s files).1.2
  = <[hostName := checksOf s hs ++
        [mkCheckStatus CheckHTTP true false false "" "" 0 [] [] 0 url expect 0 id dependsOn
           mqttNotify 0 0 0 0]]> (view s) ∧
  view (AddTCPCheck growslice fs order hostName port id dependsOn mqttNotify s files).1.2
  = <[hostName := checksOf s hs ++
        [mkCheckStatus CheckTCP true false false "" "" 0 [] [] 0 "" 0 port id dependsOn
           mqttNotify 0 0 0 0]]> (view s).
Proof.
  intros Hwf Hhs. unfold AddPingCheck, AddHTTPCheck, AddTCPCheck.
  split_and!;
    match goal with |- context [addCheck growslice fs order hostName ?rt ?decl s files] =>
      apply (addCheck_result growslice fs order hostName rt decl s files hs Hwf Hhs) end.
Qed.

Lemma added_check_is_appended_witness :
  (λ cs : list CheckStatus, cs_Type <$> cs) <$> view (AddTCPCheck doubling fsOK ["web"] "web" 8080 "c" "a" false
                            webState ∅).1.2 !! "web"
  = Some [CheckPing; CheckTCP; CheckTCP].
Proof.
  destruct (added_check_is_appended doubling fsOK ["web"] "web" "" "c" "a" 0 8080 false
              webState ∅ (mkHostStatus "web" "10.0.0.5" (mkSlice (Some 1%nat) 2) ""))
    as (_ & _ & H).
  - apply (New_consistent doubling ["web"] webConfig).
    refine (bool_decide_unpack _ _). vm_compute. exact I.
  - vm_compute. reflexivity.
  - rewrite H. vm_compute. reflexivity.
Defined.

(** X17. [RemoveCheck] with an index inside the host's checks removes the
    check at that index and no other: the host keeps its other checks in
    order with their whole status, and the checks of the other hosts are as
    before. *)
Theorem RemoveCheck_removes_one (fs : FsErr) (hostName : string) (idx : Z) (s : State)
    (files : gmap string FileData) (hs : HostStatus) :
  wfStore s → hosts s !! hostName = Some hs →
  0 ≤ idx < Z.of_nat (length (checksOf s hs)) →
  view (RemoveCheck fs hostName idx s files).1.2
  = <[hostName := delete (Z.to_nat idx) (checksOf s hs)]> (view s).
Proof.
  intros Hwf Hhs Hidx. apply RemoveCheck_view; [done..|].
  apply badIndex_false. unfold checksOf in Hidx.
  rewrite elems_length in Hidx by by eapply wfStore_sliceOK. lia.
Qed.

Lemma RemoveCheck_removes_one_witness :
  (λ cs : list CheckStatus, cs_ID <$> cs) <$> view (RemoveCheck fsOK "web" 0 webState ∅).1.2 !! "web" = Some ["b"].
Proof.
  rewrite (RemoveCheck_removes_one fsOK "web" 0 webState ∅
             (mkHostStatus "web" "10.0.0.5" (mkSlice (Some 1%nat) 2) "")).
  - vm_compute. reflexivity.
  - apply (New_consistent doubling ["web"] webConfig).
    refine (bool_decide_unpack _ _). vm_compute. exact I.
  - vm_compute. reflexivity.
  - vm_compute. split; [discriminate|reflexivity].
Defined.

(** X18. The three update operations change the addressed check and no
    other, and of that check only the fields they are given: the URL,
    expected status, ID, dependency and MQTT flag for [UpdateHTTPCheck], the
    port, ID, dependency and MQTT flag for [UpdateTCPCheck], the ID,
    dependency and MQTT flag for [UpdateCheckDependencies] (on a check of any
    type).  The status, history and counters of the check stay. *)
Theorem update_changes_given_fields (fs : FsErr) (order : list string) (hostName : string)
    (idx : Z) (url id dependsOn : string) (expect port : Z) (mqttNotify : bool) (s : State)
    (files : gmap string FileData) (hs : HostStatus) (c : CheckStatus) :
  wfStore s → hosts s !! hostName = Some hs → 0 ≤ idx →
  checksOf s hs !! Z.to_nat idx = Some c →
  (cs_Type c = CheckHTTP →
   view (UpdateHTTPCheck fs order hostName idx url expect id dependsOn mqttNotify
           s files).1.2
   = <[hostName := <[Z.to_nat idx :=
         mkCheckStatus (cs_Type c) (cs_Enabled c) (cs_OK c) (cs_ParentFailed c)
           (cs_ParentID c) (cs_Message c) (cs_LatencyMS c) (cs_LatencyHistory c)
           (cs_FullHistory c) (cs_CheckedAt c) url expect (cs_Port c) id dependsOn
           mqttNotify (cs_TotalChecks c) (cs_SuccessChecks c) (cs_LastDownAt c)
           (cs_LastUpAt c)]> (checksOf s hs)]> (view s)) ∧
  (cs_Type c = CheckTCP →
   view (UpdateTCPCheck fs order hostName idx port id dependsOn mqttNotify s files).1.2
   = <[hostName := <[Z.to_nat idx :=
         mkCheckStatus (cs_Type c) (cs_Enabled c) (cs_OK c) (cs_ParentFailed c)
           (cs_ParentID c) (cs_Message c) (cs_LatencyMS c) (cs_LatencyHistory c)
           (cs_FullHistory c) (cs_CheckedAt c) (cs_URL c) (cs_Expect c) port id dependsOn
           mqttNotify (cs_TotalChecks c) (cs_SuccessChecks c) (cs_LastDownAt c)
           (cs_LastUpAt c)]> (checksOf s hs)]> (view s)) ∧
  view (UpdateCheckDependencies fs order hostName idx id dependsOn mqttNotify s files).1.2
  = <[hostName := <[Z.to_nat idx :=
        mkCheckStatus (cs_Type c) (cs_Enabled c) (cs_OK c) (cs_ParentFailed c)
          (cs_ParentID c) (cs_Message c) (cs_LatencyMS c) (cs_LatencyHistory c)
          (cs_FullHistory c) (cs_CheckedAt c) (cs_URL c) (cs_Expect c) (cs_Port c) id
          dependsOn mqttNotify (cs_TotalChecks c) (cs_SuccessChecks c) (cs_LastDownAt c)
          (cs_LastUpAt c)]> (checksOf s hs)]> (view s).
Proof.
  intros Hwf Hhs Hidx Hc. unfold UpdateHTTPCheck, UpdateTCPCheck, UpdateCheckDependencies.
  split_and!.
  - intros Hty.
    rewrite (updateCheck_view _ _ _ _ (Some CheckHTTP) _ _ _ _ _ hs c) by done.
    by destruct c.
  - intros Hty.
    rewrite (updateCheck_view _ _ _ _ (Some CheckTCP) _ _ _ _ _ hs c) by done.
    by destruct c.
  - rewrite (updateCheck_view _ _ _ _ None _ _ _ _ _ hs c) by done.
    by destruct c.
Qed.

Lemma update_changes_given_fields_witness :
  (λ cs : list CheckStatus, (λ c, (cs_ID c, cs_DependsOn c, cs_Port c)) <$> cs)
    <$> view (UpdateCheckDependencies fsOK ["web"] "web" 1 "db" "a" false webState ∅).1.2
        !! "web"
  = Some [("a", "", 0); ("db", "a", 443)].
Proof.
  destruct (update_changes_given_fields fsOK ["web"] "web" 1 "" "db" "a" 0 0 false
              webState ∅ (mkHostStatus "web" "10.0.0.5" (mkSlice (Some 1%nat) 2) "")
              (mkCheckStatus CheckTCP true false false "" "" 0 [] [] 0 "" 0 443 "b" ""
                 false 0 0 0 0))
    as (_ & _ & H).
  - apply (New_consistent doubling ["web"] webConfig).
    refine (bool_decide_unpack _ _). vm_compute. exact I.
  - vm_compute. reflexivity.
  - lia.
  - vm_compute. reflexivity.
  - rewrite H. vm_compute. reflexivity.
Defined.

Lemma list_alter_ge {A} (f : A → A) (l : list A) (i : nat) :
  (length l ≤ i)%nat → alter f i l = l.
Proof.
  intros H. apply list_eq. intros j. destruct (decide (i = j)) as [<-|Hne].
  - rewrite list_lookup_alter_eq. by rewrite (lookup_ge_None_2 l i H).
  - by rewrite list_lookup_alter_ne.
Qed.

Lemma Toggle_view (hostName : string) (idx : Z) (enabled : bool) (s : State) :
  wfStore s →
  let s' := Toggle hostName idx enabled s in
  view s'
  = (if bool_decide (0 ≤ idx)
     then alter (alter (with_Enabled enabled) (Z.to_nat idx)) hostName (view s)
     else view s) ∧
  cfg s' = cfg s ∧ hosts s' = hosts s ∧ checksByID s' = checksByID s.
Proof.
  intros Hwf s'. subst s'. unfold Toggle.
  assert (Hmissing : ∀ f, hosts s !! hostName = None → alter f hostName (view s) = view s).
  { intros f Hn. apply map_eq. intros k. destruct (decide (hostName = k)) as [<-|Hne].
    - rewrite lookup_alter_eq, view_lookup, Hn. done.
    - by rewrite lookup_alter_ne. }
  destruct (hosts s !! hostName) as [hs|] eqn:Hhs.
  2:{ split; [|done]. case_bool_decide; [|done]. by rewrite Hmissing. }
  pose proof (wfStore_sliceOK s hostName hs Hwf Hhs) as Hok.
  assert (Hsame : ∀ cs, cs = checksOf s hs → <[hostName := cs]> (view s) = view s).
  { intros cs ->. apply insert_id. by rewrite view_lookup, Hhs. }
  assert (Halter : ∀ f, alter f hostName (view s) = <[hostName := f (checksOf s hs)]> (view s)).
  { intros f. apply map_eq. intros k. destruct (decide (hostName = k)) as [<-|Hne].
    - by rewrite lookup_alter_eq, lookup_insert_eq, view_lookup, Hhs.
    - by rewrite lookup_alter_ne, lookup_insert_ne. }
  destruct (badIndex idx (sl_len (hs_Checks hs))) eqn:Hbad; simpl.
  - split; [|done]. case_bool_decide as H0; [|done].
    rewrite Halter, list_alter_ge; [by rewrite Hsame|].
    unfold checksOf. rewrite elems_length by done.
    unfold badIndex in Hbad. apply orb_true_iff in Hbad as [Hb|Hb];
      [rewrite bool_decide_eq_true in Hb|rewrite bool_decide_eq_true in Hb]; lia.
  - apply badIndex_false in Hbad as [H0 Hlt]. rewrite bool_decide_true by done.
    split; [|by destruct s]. unfold setEnabledAt.
    assert (∃ p, addr (hs_Checks hs) (Z.to_nat idx) = Some p) as [p Hp].
    { unfold addr. rewrite bool_decide_true by done. unfold sliceOK in Hok.
      destruct (sl_arr (hs_Checks hs)); [eauto|lia]. }
    rewrite Hp. simpl. rewrite (load_elems _ _ _ _ Hp).
    destruct (lookup_lt_is_Some_2 (elems (arrays s) (hs_Checks hs)) (Z.to_nat idx))
      as [c Hc]; [by rewrite elems_length|].
    rewrite Hc. simpl.
    pose proof (store_updates (arrays s) (hs_Checks hs) (Z.to_nat idx) p
                  (with_Enabled enabled c) Hok Hp) as [(Hok' & Hnew & Hframe) Hel].
    destruct (setChecks_spec s hostName hs _ _ Hwf Hhs Hok' Hnew Hframe) as [_ Hview].
    rewrite (setChecks_same s hostName hs _ Hhs) in Hview.
    rewrite Hview, Hel, Halter. f_equal. unfold checksOf.
    apply list_eq. intros j. destruct (decide (Z.to_nat idx = j)) as [<-|Hne].
    + rewrite list_lookup_alter_eq, Hc. simpl.
      rewrite list_lookup_insert_eq; [done|]. rewrite elems_length by done. lia.
    + by rewrite list_lookup_alter_ne, list_lookup_insert_ne.
Qed.

(** X19. [Toggle] sets the [Enabled] flag of the addressed check and does
    nothing else: the check keeps the rest of its status, the other checks
    and hosts are as before, the config and the ID index are untouched; a
    host that does not exist and an index outside the host's checks are
    ignored without an error. *)
Theorem Toggle_sets_one_flag (hostName : string) (idx : Z) (enabled : bool) (s : State) :
  wfStore s →
  let s' := Toggle hostName idx enabled s in
  view s'
  = (if bool_decide (0 ≤ idx)
     then alter (alter (with_Enabled enabled) (Z.to_nat idx)) hostName (view s)
     else view s) ∧
  cfg s' = cfg s ∧ hosts s' = hosts s ∧ checksByID s' = checksByID s.
Proof.
  apply Toggle_view.
Qed.

Lemma Toggle_sets_one_flag_witness :
  (λ cs : list CheckStatus, cs_Enabled <$> cs) <$> view (Toggle "web" 1 false webState) !! "web"
  = Some [true; false].
Proof.
  destruct (Toggle_sets_one_flag "web" 1 false webState) as [H _].
  - apply (New_consistent doubling ["web"] webConfig).
    refine (bool_decide_unpack _ _). vm_compute. exact I.
  - rewrite H. vm_compute. reflexivity.
Defined.

(** ** Operations that are turned down *)

Lemma updateCheck_rejects fs order hostName idx required mismatch frt fdecl s files :
  (hosts s !! hostName = None →
   updateCheck fs order hostName idx required mismatch frt fdecl s files
   = (Some "host not found", s, files)) ∧
  (∀ hs, hosts s !! hostName = Some hs →
         idx < 0 ∨ Z.of_nat (sl_len (hs_Checks hs)) ≤ idx →
         updateCheck fs order hostName idx required mismatch frt fdecl s files
         = (Some "bad index", s, files)) ∧
  (∀ hs c ty, wfStore s → hosts s !! hostName = Some hs → 0 ≤ idx →
              checksOf s hs !! Z.to_nat idx = Some c →
              required = Some ty → cs_Type c ≠ ty →
              updateCheck fs order hostName idx required mismatch frt fdecl s files
              = (Some mismatch, s, files)).
Proof.
  unfold updateCheck. split_and!.
  - by intros ->.
  - intros hs -> Hidx. unfold badIndex.
    destruct Hidx; [rewrite bool_decide_true by done; done|].
    rewrite (bool_decide_true (_ ≤ idx)) by done. by rewrite orb_true_r.
  - intros hs c ty Hwf Hhs Hidx Hc -> Hty. rewrite Hhs.
    pose proof (wfStore_sliceOK s hostName hs Hwf Hhs) as Hok.
    pose proof (lookup_lt_Some _ _ _ Hc) as Hlt. unfold checksOf in Hlt.
    rewrite elems_length in Hlt by done.
    rewrite (proj2 (badIndex_false idx _)) by done.
    assert (∃ p, addr (hs_Checks hs) (Z.to_nat idx) = Some p) as [p Hp].
    { unfold addr. rewrite bool_decide_true by done. unfold sliceOK in Hok.
      destruct (sl_arr (hs_Checks hs)); [eauto|lia]. }
    rewrite Hp. simpl. rewrite (load_elems _ _ _ _ Hp). unfold checksOf in Hc.
    rewrite Hc. simpl. by rewrite bool_decide_true.
Qed.

(** X20. An operation that is turned down changes nothing: adding a host
    under a name in use ("host exists"), renaming a host to a name in use
    ("host name already exists"), addressing a host that does not exist
    ("host not found"), an index outside the host's checks ("bad index") and
    an HTTP or TCP update of a check of another type ("not http check", "not
    tcp check") return the error and leave the store, the config and the files
    as they were. *)
Theorem rejected_operations_change_nothing (growslice : nat → nat) (fs : FsErr)
    (order : list string) (name newName address hcurl url id dependsOn : string)
    (idx expect port : Z) (mqttNotify : bool) (s : State) (files : gmap string FileData) :
  wfStore s →
  (is_Some (hosts s !! name) →
   AddHost growslice fs name address hcurl s files = (Some "host exists", s, files) ∧
   AddHostWithoutDefaultCheck fs name address hcurl s files
   = (Some "host exists", s, files) ∧
   (newName ≠ name → is_Some (hosts s !! newName) →
    UpdateHost fs name newName address hcurl s files
    = (Some "host name already exists", s, files))) ∧
  (hosts s !! name = None →
   Forall (λ r, r = (Some "host not found", s, files))
     [UpdateHost fs name newName address hcurl s files;
      DeleteHost fs name s files;
      AddPingCheck growslice fs order name id dependsOn mqttNotify s files;
      AddHTTPCheck growslice fs order name url expect id dependsOn mqttNotify s files;
      AddTCPCheck growslice fs order name port id dependsOn mqttNotify s files;
      RemoveCheck fs name idx s files;
      UpdateHTTPCheck fs order name idx url expect id dependsOn mqttNotify s files;
      UpdateTCPCheck fs order name idx port id dependsOn mqttNotify s files;
      UpdateCheckDependencies fs order name idx id dependsOn mqttNotify s files]) ∧
  (∀ hs, hosts s !! name = Some hs →
   (idx < 0 ∨ Z.of_nat (length (checksOf s hs)) ≤ idx →
    Forall (λ r, r = (Some "bad index", s, files))
      [RemoveCheck fs name idx s files;
       UpdateHTTPCheck fs order name idx url expect id dependsOn mqttNotify s files;
       UpdateTCPCheck fs order name idx port id dependsOn mqttNotify s files;
       UpdateCheckDependencies fs order name idx id dependsOn mqttNotify s files]) ∧
   (∀ c, 0 ≤ idx → checksOf s hs !! Z.to_nat idx = Some c →
         (cs_Type c ≠ CheckHTTP →
          UpdateHTTPCheck fs order name idx url expect id dependsOn mqttNotify s files
          = (Some "not http check", s, files)) ∧
         (cs_Type c ≠ CheckTCP →
          UpdateTCPCheck fs order name idx port id dependsOn mqttNotify s files
          = (Some "not tcp check", s, files)))).
Proof.
  intros Hwf. split_and!.
  - intros [hs Hhs]. unfold AddHost, AddHostWithoutDefaultCheck, UpdateHost. rewrite Hhs.
    split_and!; [done|done|]. intros Hne [hs' Hhs']. rewrite Hhs'.
    rewrite bool_decide_true by done. by rewrite bool_decide_true by eauto.
  - intros Hn. unfold UpdateHost, DeleteHost, AddPingCheck, AddHTTPCheck, AddTCPCheck,
      addCheck, RemoveCheck, UpdateHTTPCheck, UpdateTCPCheck, UpdateCheckDependencies,
      updateCheck. rewrite Hn. repeat constructor.
  - intros hs Hhs.
    assert (Hlen : length (checksOf s hs) = sl_len (hs_Checks hs)).
    { unfold checksOf. apply elems_length. by eapply wfStore_sliceOK. }
    split.
    + intros Hidx. rewrite Hlen in Hidx. repeat constructor.
      * unfold RemoveCheck. rewrite Hhs. unfold badIndex.
        destruct Hidx; [rewrite bool_decide_true by done; done|].
        rewrite (bool_decide_true (_ ≤ idx)) by done. by rewrite orb_true_r.
      * by eapply (proj1 (proj2 (updateCheck_rejects _ _ _ _ _ _ _ _ _ _))).
      * by eapply (proj1 (proj2 (updateCheck_rejects _ _ _ _ _ _ _ _ _ _))).
      * by eapply (proj1 (proj2 (updateCheck_rejects _ _ _ _ _ _ _ _ _ _))).
    + intros c Hidx Hc. split; intros Hty;
        by eapply (proj2 (proj2 (updateCheck_rejects _ _ _ _ _ _ _ _ _ _))).
Qed.

Lemma rejected_operations_change_nothing_witness :
  RemoveCheck fsOK "web" 2 webState ∅ = (Some "bad index", webState, ∅).
Proof.
  destruct (rejected_operations_change_nothing doubling fsOK ["web"] "web" "web" "" "" "" "" ""
              2 0 0 false webState ∅) as (_ & _ & H).
  - apply (New_consistent doubling ["web"] webConfig).
    refine (bool_decide_unpack _ _). vm_compute. exact I.
  - destruct (H (mkHostStatus "web" "10.0.0.5" (mkSlice (Some 1%nat) 2) "")) as [H1 _];
      [vm_compute; reflexivity|].
    apply Forall_cons in H1 as [H1 _]; [exact H1|]. right. vm_compute. discriminate.
Defined.

(** ** Hosts, looked up again *)

Lemma GetHost_frame s s' k :
  hosts s' !! k = hosts s !! k → view s' !! k = view s !! k → GetHost s' k = GetHost s k.
Proof.
  unfold GetHost. rewrite !view_lookup. intros ->.
  destruct (hosts s !! k) as [hs|]; [|done]. simpl. intros [= E].
  unfold copyHost. by rewrite E.
Qed.

Lemma GetHost_saved fs s files k :
  GetHost (saveConfigLocked fs s files).1.2 k = GetHost s k.
Proof.
  destruct (saveConfigLocked_frame fs s files) as (Hh & Ha & _).
  apply GetHost_frame; [by rewrite Hh|]. by rewrite (view_frame _ _ Hh Ha).
Qed.

Lemma AddHost_GetHost growslice fs name address hcurl s files :
  wfStore s → hosts s !! name = None →
  let r := AddHost growslice fs name address hcurl s files in
  GetHost r.1.2 name
  = Some (mkHostStatusCopy name address
            [mkCheckStatus CheckPing true false false "" "" 0 [] [] 0 "" 0 0 "" "" false
               0 0 0 0] hcurl) ∧
  ∀ other, other ≠ name → GetHost r.1.2 other = GetHost s other.
Proof.
  intros Hwf Hn. unfold AddHost. rewrite Hn.
  pose proof (append1_updates growslice (arrays s) nilSlice
                (zeroCheckStatus |> with_Type CheckPing |> with_Enabled true) eq_refl)
    as [(Hok & Hnew & Hframe) Hel].
  destruct (append1 _ _ _ _) as [m sl]. simpl in *.
  destruct (addHost_spec s name address hcurl m sl Hwf Hn Hok) as [_ Hview].
  { intros a Ha. by destruct (Hnew a Ha). }
  { intros a l Hl. apply Hframe; [done|done|]. intros Ha.
    destruct (Hnew a Ha) as [?|Hnone]; [done|]. by rewrite Hnone in Hl. }
  split.
  - rewrite GetHost_saved. unfold GetHost. simpl. rewrite lookup_insert_eq. simpl.
    unfold copyHost, checksOf. simpl. by rewrite Hel.
  - intros other Hne. rewrite GetHost_saved. apply GetHost_frame.
    + simpl. by rewrite lookup_insert_ne.
    + match goal with |- view ?s1 !! _ = _ =>
        assert (E : view s1 = <[name := elems m sl]> (view s))
          by (rewrite <- Hview; by apply view_frame);
        rewrite E end.
      by rewrite lookup_insert_ne.
Qed.

Lemma AddHostWithoutDefaultCheck_GetHost fs name address hcurl s files :
  wfStore s → hosts s !! name = None →
  let r := AddHostWithoutDefaultCheck fs name address hcurl s files in
  GetHost r.1.2 name = Some (mkHostStatusCopy name address [] hcurl) ∧
  ∀ other, other ≠ name → GetHost r.1.2 other = GetHost s other.
Proof.
  intros Hwf Hn. unfold AddHostWithoutDefaultCheck. rewrite Hn. split.
  - rewrite GetHost_saved. unfold GetHost. simpl. by rewrite lookup_insert_eq.
  - intros other Hne. rewrite GetHost_saved. unfold GetHost. simpl.
    by rewrite lookup_insert_ne.
Qed.

Lemma UpdateHost_GetHost fs name newName address hcurl s files hs :
  hosts s !! name = Some hs → newName = name ∨ hosts s !! newName = None →
  let r := UpdateHost fs name newName address hcurl s files in
  GetHost r.1.2 newName = Some (mkHostStatusCopy newName address (checksOf s hs) hcurl) ∧
  (newName ≠ name → GetHost r.1.2 name = None) ∧
  ∀ other, other ≠ name → other ≠ newName → GetHost r.1.2 other = GetHost s other.
Proof.
  intros Hhs Hnew. unfold UpdateHost. rewrite Hhs.
  replace (bool_decide (newName ≠ name) && bool_decide (is_Some (hosts s !! newName)))
    with false.
  2:{ destruct Hnew as [->|Hn].
      - by rewrite bool_decide_false by (by intros ?).
      - rewrite Hn. rewrite (bool_decide_false (is_Some None)) by (by intros [? ?]).
        by rewrite andb_false_r. }
  split_and!.
  - rewrite GetHost_saved. unfold GetHost. simpl. by rewrite lookup_insert_eq.
  - intros Hne. rewrite GetHost_saved. unfold GetHost. simpl.
    by rewrite lookup_insert_ne, lookup_delete_eq.
  - intros other H1 H2. rewrite GetHost_saved. unfold GetHost. simpl.
    by rewrite lookup_insert_ne, lookup_delete_ne.
Qed.

Lemma DeleteHost_GetHost fs name s files :
  is_Some (hosts s !! name) →
  let r := DeleteHost fs name s files in
  GetHost r.1.2 name = None ∧
  ∀ other, other ≠ name → GetHost r.1.2 other = GetHost s other.
Proof.
  intros [hs Hhs]. unfold DeleteHost. rewrite Hhs. split.
  - rewrite GetHost_saved. unfold GetHost. simpl. by rewrite lookup_delete_eq.
  - intros other Hne. rewrite GetHost_saved. unfold GetHost. simpl.
    by rewrite lookup_delete_ne.
Qed.

(** X21. What the host operations store is what [GetHost] returns.  After
    [AddHost] of a new name the host has the given address and URL and one
    enabled ping check that was never evaluated (no check after
    [AddHostWithoutDefaultCheck]); after [UpdateHost] the host is found under
    its new name with the new address and URL and its checks with their
    statuses, and no longer under the old name; after [DeleteHost] it is not
    found.  Each time the other hosts are returned as before. *)
Theorem host_operations_round_trip (growslice : nat → nat) (fs : FsErr)
    (name newName address hcurl : string) (s : State) (files : gmap string FileData) :
  wfStore s →
  (hosts s !! name = None →
   GetHost (AddHost growslice fs name address hcurl s files).1.2 name
   = Some (mkHostStatusCopy name address
             [mkCheckStatus CheckPing true false false "" "" 0 [] [] 0 "" 0 0 "" "" false
                0 0 0 0] hcurl) ∧
   GetHost (AddHostWithoutDefaultCheck fs name address hcurl s files).1.2 name
   = Some (mkHostStatusCopy name address [] hcurl) ∧
   ∀ other, other ≠ name →
     GetHost (AddHost growslice fs name address hcurl s files).1.2 other = GetHost s other ∧
     GetHost (AddHostWithoutDefaultCheck fs name address hcurl s files).1.2 other
     = GetHost s other) ∧
  (∀ hs, hosts s !! name = Some hs →
   (newName = name ∨ hosts s !! newName = None →
    GetHost (UpdateHost fs name newName address hcurl s files).1.2 newName
    = Some (mkHostStatusCopy newName address (checksOf s hs) hcurl) ∧
    (newName ≠ name →
     GetHost (UpdateHost fs name newName address hcurl s files).1.2 name = None) ∧
    ∀ other, other ≠ name → other ≠ newName →
      GetHost (UpdateHost fs name newName address hcurl s files).1.2 other
      = GetHost s other) ∧
   GetHost (DeleteHost fs name s files).1.2 name = None ∧
   ∀ other, other ≠ name → GetHost (DeleteHost fs name s files).1.2 other = GetHost s other).
Proof.
  intros Hwf. split.
  - intros Hn.
    destruct (AddHost_GetHost growslice fs name address hcurl s files Hwf Hn) as [H1 H2].
    destruct (AddHostWithoutDefaultCheck_GetHost fs name address hcurl s files Hwf Hn)
      as [H3 H4].
    split_and!; [done|done|]. intros other Hne. split; eauto.
  - intros hs Hhs. split.
    + intros Hnew. by apply UpdateHost_GetHost.
    + apply DeleteHost_GetHost. eauto.
Qed.

Lemma host_operations_round_trip_witness :
  hc_Address <$> GetHost (AddHost doubling fsOK "db" "10.0.0.9" "" exampleState ∅).1.2 "db"
  = Some "10.0.0.9".
Proof.
  destruct (host_operations_round_trip doubling fsOK "db" "db" "10.0.0.9" "" exampleState ∅)
    as [H _].
  - apply exampleState_consistent.
  - destruct H as [H _]; [vm_compute; reflexivity|]. by rewrite H.
Defined.

(** ** The healthchecks URL of a host *)

Lemma wfStore_same_slices s s' :
  arrays s' = arrays s →
  (∀ name, hs_Checks <$> hosts s' !! name = hs_Checks <$> hosts s !! name) →
  wfStore s → wfStore s' ∧ view s' = view s.
Proof.
  intros Ha Hh [Hok Hinj]. split; [split|].
  - intros name hs' Hhs'. specialize (Hh name). rewrite Hhs' in Hh. simpl in Hh.
    destruct (hosts s !! name) as [hs|] eqn:Hhs; [|done]. simpl in Hh. injection Hh as ->.
    rewrite Ha. by eapply Hok.
  - intros n1 n2 hs1' hs2' a H1 H2.
    pose proof (Hh n1) as E1. pose proof (Hh n2) as E2. rewrite H1 in E1. rewrite H2 in E2.
    destruct (hosts s !! n1) as [hs1|] eqn:Hhs1; [|done].
    destruct (hosts s !! n2) as [hs2|] eqn:Hhs2; [|done].
    simpl in *. injection E1 as ->. injection E2 as ->. by eapply Hinj.
  - apply map_eq. intros name. rewrite !view_lookup. specialize (Hh name).
    destruct (hosts s' !! name) as [hs'|], (hosts s !! name) as [hs|]; simpl in *; try done.
    injection Hh as Hh. unfold checksOf. by rewrite Ha, Hh.
Qed.

Lemma SetHCURL_consistent b fs hostName url s files :
  consistent b s → consistent b (SetHCURL fs hostName url s files).1.
Proof.
  intros Hs. unfold SetHCURL. destruct (hosts s !! hostName) as [hs|] eqn:Hhs; [|done].
  simpl. apply saveConfigLocked_settled.
  set (s1 := s |> with_hosts (<[hostName := mkHostStatus (hs_Name hs) (hs_Address hs)
                                              (hs_Checks hs) url]> (hosts s))).
  destruct Hs as [Hwf Hag].
  destruct (wfStore_same_slices s s1) as [Hwf1 Hview1]; [done| |done|].
  { intros name. subst s1. simpl. destruct (decide (name = hostName)) as [->|Hne].
    - by rewrite lookup_insert_eq, Hhs.
    - by rewrite lookup_insert_ne. }
  split; [exact Hwf1|].
  change (agreesWith b (view s1)
            (updateHostNamed hostName
               (λ h, config.mkHost (config.Name h) (config.Address h) (config.Checks h) url)
               (config.Hosts (cfg s)))).
  rewrite Hview1.
  rewrite <- (insert_id (view s) hostName (checksOf s hs)) at 1
    by (by rewrite view_lookup, Hhs).
  eapply agrees_update_checks; try done.
  by rewrite view_lookup, Hhs.
Qed.

(** X22. [SetHCURL] sets the healthchecks URL of a host on both sides: the
    status that [GetHost] returns and the host's declaration in the config
    carry the new URL afterwards, the host keeps its name, address and checks,
    the other hosts are as before and the store still agrees with its config;
    for a host that does not exist nothing changes and nothing is written. *)
Theorem SetHCURL_sets_both_sides (b : bool) (fs : FsErr) (hostName url : string)
    (s : State) (files : gmap string FileData) :
  consistent b s →
  let r := SetHCURL fs hostName url s files in
  consistent b r.1 ∧
  (hosts s !! hostName = None → r = (s, files)) ∧
  (∀ hs, hosts s !! hostName = Some hs →
     GetHost r.1 hostName
     = Some (mkHostStatusCopy (hs_Name hs) (hs_Address hs) (checksOf s hs) url) ∧
     ∃ h, h ∈ config.Hosts (cfg r.1) ∧ config.Name h = hostName ∧
          config.HealthchecksPingURL h = url) ∧
  (∀ other, other ≠ hostName → GetHost r.1 other = GetHost s other).
Proof.
  intros Hs r. split; [by apply SetHCURL_consistent|]. subst r. unfold SetHCURL.
  destruct (hosts s !! hostName) as [hs|] eqn:Hhs; [|by split_and!].
  simpl. split_and!; [done| |].
  - intros hs' [= <-]. split.
    + rewrite GetHost_saved. unfold GetHost. simpl. by rewrite lookup_insert_eq.
    + destruct Hs as [_ Hag].
      destruct (agreesWith_declared b (view s) (config.Hosts (cfg s)) hostName Hag)
        as (h0 & Hh0 & Hname0); [by rewrite view_lookup, Hhs|].
      destruct (updateHostNamed_first hostName
                  (λ h, config.mkHost (config.Name h) (config.Address h)
                          (config.Checks h) url) (config.Hosts (cfg s)))
        as (h1 & _ & Hname1 & Hin1).
      { apply list_elem_of_fmap. eauto. }
      unfold saveConfigLocked. simpl. case_bool_decide.
      * simpl. eexists. split; [exact Hin1|]. done.
      * exists (syncHost
                  (s |> with_hosts (<[hostName := mkHostStatus (hs_Name hs) (hs_Address hs)
                                                    (hs_Checks hs) url]> (hosts s))
                     |> with_cfg (with_Hosts
                                    (updateHostNamed hostName
                                       (λ h, config.mkHost (config.Name h) (config.Address h)
                                               (config.Checks h) url)
                                       (config.Hosts (cfg s))) (cfg s)))
                  (config.mkHost (config.Name h1) (config.Address h1) (config.Checks h1) url)).
        assert (Hsync : ∀ h, config.Name h = hostName →
                  config.Name (syncHost
                     (s |> with_hosts (<[hostName := mkHostStatus (hs_Name hs) (hs_Address hs)
                                                       (hs_Checks hs) url]> (hosts s))
                        |> with_cfg (with_Hosts
                                       (updateHostNamed hostName
                                          (λ h, config.mkHost (config.Name h)
                                                  (config.Address h) (config.Checks h) url)
                                          (config.Hosts (cfg s))) (cfg s))) h) = hostName ∧
                  config.HealthchecksPingURL (syncHost
                     (s |> with_hosts (<[hostName := mkHostStatus (hs_Name hs) (hs_Address hs)
                                                       (hs_Checks hs) url]> (hosts s))
                        |> with_cfg (with_Hosts
                                       (updateHostNamed hostName
                                          (λ h, config.mkHost (config.Name h)
                                                  (config.Address h) (config.Checks h) url)
                                          (config.Hosts (cfg s))) (cfg s))) h) = url).
        { intros h Hh. unfold syncHost. simpl. rewrite Hh, lookup_insert_eq. done. }
        destruct (Hsync (config.mkHost (config.Name h1) (config.Address h1)
                           (config.Checks h1) url) Hname1) as [Hn Hu].
        split_and!; [|exact Hn|exact Hu].
        destruct (_ || _); [|destruct (bool_decide _)];
          repeat match goal with
                 | |- context [writeConfig ?a ?b ?c ?d] => destruct (writeConfig a b c d)
                 end; simpl; apply list_elem_of_fmap; eexists; (split; [reflexivity|exact Hin1]).
  - intros other Hne. rewrite GetHost_saved. unfold GetHost. simpl.
    by rewrite lookup_insert_ne.
Qed.

Lemma SetHCURL_sets_both_sides_witness :
  hc_HCURL <$> GetHost (SetHCURL fsOK "Internet" "https://hc-ping.com/abc" exampleState ∅).1
                 "Internet"
  = Some "https://hc-ping.com/abc".
Proof.
  destruct (SetHCURL_sets_both_sides true fsOK "Internet" "https://hc-ping.com/abc"
              exampleState ∅) as (_ & _ & H & _).
  - apply exampleState_consistent.
  - destruct (H exampleInternet) as [H1 _]; [vm_compute; reflexivity|]. by rewrite H1.
Defined.

(** ** The ID index after a rebuild *)

Lemma indexHost_keeps s hs (idx : gmap string Ptr) k :
  is_Some (idx !! k) → is_Some (indexHost s hs idx !! k).
Proof.
  unfold indexHost. generalize (seq 0 (sl_len (hs_Checks hs))).
  intros l. revert idx. induction l as [|i l IH]; intros idx Hk; [done|].
  simpl. apply IH.
  destruct (addr (hs_Checks hs) i) as [q|]; [|done]. simpl.
  destruct (load (arrays s) q) as [c|]; [|done]. simpl.
  case_bool_decide; [|done]. rewrite lookup_insert_is_Some.
  destruct (decide (cs_ID c = k)); [by left|by right].
Qed.

Lemma indexHost_adds s hs (idx : gmap string Ptr) i p c :
  addr (hs_Checks hs) i = Some p → load (arrays s) p = Some c → cs_ID c ≠ "" →
  is_Some (indexHost s hs idx !! cs_ID c).
Proof.
  intros Hp Hc Hid.
  assert (Hi : i ∈ seq 0 (sl_len (hs_Checks hs))).
  { apply elem_of_seq. unfold addr in Hp. case_bool_decide; [lia|done]. }
  unfold indexHost. revert Hi. generalize (seq 0 (sl_len (hs_Checks hs))).
  intros l. revert idx. induction l as [|j l IH]; intros idx Hi;
    [by apply elem_of_nil in Hi|].
  simpl. apply elem_of_cons in Hi as [<-|Hi]; [|by apply IH].
  rewrite Hp. simpl. rewrite Hc. simpl. rewrite bool_decide_true by done.
  assert (Hk : is_Some (<[cs_ID c := p]> idx !! cs_ID c))
    by (rewrite lookup_insert_eq; eauto).
  revert Hk. generalize (<[cs_ID c := p]> idx). clear IH. induction l as [|j l IH];
    intros idx' Hk; [done|].
  simpl. apply IH.
  destruct (addr (hs_Checks hs) j) as [q|]; [|done]. simpl.
  destruct (load (arrays s) q) as [c'|]; [|done]. simpl.
  case_bool_decide; [|done]. rewrite lookup_insert_is_Some.
  destruct (decide (cs_ID c' = cs_ID c)); [by left|by right].
Qed.

Lemma rebuildCheckIndex_complete order s name hs i p c :
  name ∈ order → hosts s !! name = Some hs →
  addr (hs_Checks hs) i = Some p → load (arrays s) p = Some c → cs_ID c ≠ "" →
  is_Some (GetCheckByID (rebuildCheckIndex order s) (cs_ID c)).
Proof.
  intros Hin Hhs Hp Hc Hid. unfold GetCheckByID, rebuildCheckIndex. simpl.
  generalize (∅ : gmap string Ptr). revert Hin.
  induction order as [|name' order IH]; intros Hin idx; [by apply elem_of_nil in Hin|].
  simpl. apply elem_of_cons in Hin as [<-|Hin]; [|by apply IH].
  rewrite Hhs.
  pose proof (indexHost_adds s hs idx i p c Hp Hc Hid) as Hk.
  revert Hk. generalize (indexHost s hs idx). clear IH.
  induction order as [|name' order IH]; intros idx' Hk; [done|].
  simpl. apply IH. destruct (hosts s !! name') as [hs'|]; [|done].
  by apply indexHost_keeps.
Qed.

(** X23. After a rebuild of the index an ID that one check carries resolves
    to that check: when a check of a host that the rebuild visits carries a
    non-empty ID and no other check of any host carries the same ID,
    [GetCheckByID] returns the pointer to that check.  (With an ID that
    several checks carry the entry is one of them, the one visited last.) *)
Theorem GetCheckByID_finds_unique_id (order : list string) (s : State) (name : string)
    (hs : HostStatus) (i : nat) (p : Ptr) (c : CheckStatus) :
  name ∈ order → hosts s !! name = Some hs →
  addr (hs_Checks hs) i = Some p → load (arrays s) p = Some c → cs_ID c ≠ "" →
  (∀ q, liveEntry s (cs_ID c) q → q = p) →
  GetCheckByID (rebuildCheckIndex order s) (cs_ID c) = Some p ∧
  (GetCheckByID (rebuildCheckIndex order s) (cs_ID c)
     ≫= load (arrays (rebuildCheckIndex order s))) = Some c.
Proof.
  intros Hin Hhs Hp Hc Hid Huniq.
  destruct (rebuildCheckIndex_complete order s name hs i p c Hin Hhs Hp Hc Hid) as [q Hq].
  pose proof (rebuildCheckIndex_live order s _ _ Hq) as Hlive.
  rewrite (Huniq q Hlive) in Hq. rewrite Hq. split; [done|]. simpl. exact Hc.
Qed.

Lemma GetCheckByID_finds_unique_id_witness :
  GetCheckByID (rebuildCheckIndex ["web"] webState) "b" = Some (mkPtr 1 1).
Proof.
  refine (proj1 (GetCheckByID_finds_unique_id ["web"] webState "web"
                   (mkHostStatus "web" "10.0.0.5" (mkSlice (Some 1%nat) 2) "") 1 (mkPtr 1 1)
                   (mkCheckStatus CheckTCP true false false "" "" 0 [] [] 0 "" 0 443 "b" ""
                      false 0 0 0 0) _ _ _ _ _ _)).
  - by left.
  - vm_compute. reflexivity.
  - reflexivity.
  - vm_compute. reflexivity.
  - discriminate.
  - intros q (name & hs & i & c & Hhs & Hq & Hc & Hid).
    assert (hosts webState
            = <["web" := mkHostStatus "web" "10.0.0.5" (mkSlice (Some 1%nat) 2) ""]> ∅) as E
      by (vm_compute; reflexivity).
    rewrite E in Hhs. apply lookup_insert_Some in Hhs as [[<- <-]|[_ Hhs]]; [|done].
    unfold addr in Hq. simpl in Hq. case_bool_decide as Hi; [|done]. simpl in Hq.
    injection Hq as <-. destruct i as [|[|i]]; [|done|lia].
    vm_compute in Hc. injection Hc as <-. done.
Defined.

(** ** Analytics of a recorded run, and the dashboard beside them *)

Lemma lastN_lastN {A} (n m : nat) (l : list A) :
  (n ≤ m)%nat → lastN n (lastN m l) = lastN n l.
Proof.
  intros H. unfold lastN. rewrite drop_drop, length_drop. f_equal. lia.
Qed.

Lemma lastN_fmap {A B} (f : A → B) (n : nat) (l : list A) :
  lastN n (f <$> l) = f <$> lastN n l.
Proof. unfold lastN. by rewrite fmap_drop, length_fmap. Qed.

(** X24. The analytics of a check report what was recorded: after any run
    of evaluations from a status without history, [GetHostAnalytics] shows per
    check the number of evaluations, of successes and (as [FailedChecks]) of
    failures of the whole run, the last 1000 data points as [History] and the
    outcomes of the last 60 evaluations as [HeatmapData]. *)
Theorem analytics_of_a_recorded_run (c0 : CheckStatus) (pts : list CheckDataPoint) :
  unevaluated c0 →
  Z.of_nat (length pts) ≤ maxInt64 →
  let ca := checkAnalytics (recordAll pts c0) in
  ca_TotalChecks ca = Z.of_nat (length pts) ∧
  ca_SuccessChecks ca = Z.of_nat (successes pts) ∧
  ca_FailedChecks ca = Z.of_nat (length pts - successes pts) ∧
  ca_History ca = lastN 1000 pts ∧
  ca_HeatmapData ca = dp_OK <$> lastN 60 pts.
Proof.
  intros (HLH & HFH & HTC & HSC) Hlen ca.
  destruct (recordAll_counters pts c0) as [Htot Hsucc]; [lia|lia|].
  pose proof (recordAll_FullHistory pts c0) as Hfull.
  rewrite HFH in Hfull. simpl in Hfull. specialize (Hfull ltac:(lia)).
  rewrite HTC in Htot. rewrite HSC in Hsucc. simpl in Htot, Hsucc.
  pose proof (successes_le pts) as Hle.
  subst ca. unfold checkAnalytics. simpl. rewrite Htot, Hsucc, Hfull.
  split_and!; try done.
  - rewrite wrap64_id by (unfold minInt64, maxInt64 in *; lia). lia.
  - fold (lastN 60 (lastN maxFullHistory pts)). rewrite lastN_lastN; [done|].
    unfold maxFullHistory. lia.
Qed.

Lemma analytics_of_a_recorded_run_witness :
  ca_FailedChecks
    (checkAnalytics (recordAll [mkCheckDataPoint 100 true 12; mkCheckDataPoint 200 false 0]
                       zeroCheckStatus)) = 1.
Proof.
  refine (proj1 (proj2 (proj2 (analytics_of_a_recorded_run zeroCheckStatus
            [mkCheckDataPoint 100 true 12; mkCheckDataPoint 200 false 0] _ _)))).
  - by split_and!.
  - vm_compute. discriminate.
Defined.

(** X25. The dashboard and the analytics page read the same status
    differently in one case only: [extractHeatmapData] shows the last 30 of the
    60 outcomes that the analytics hold, [calculateCheckUptime] is the uptime
    of the analytics for a check that was evaluated, and for a check that was
    never evaluated the dashboard shows an uptime of 100 where the analytics
    report 0. *)
Theorem dashboard_beside_analytics (c : CheckStatus) :
  extractHeatmapData (cs_FullHistory c) = lastN 30 (ca_HeatmapData (checkAnalytics c)) ∧
  (0 < cs_TotalChecks c → calculateCheckUptime c = ca_Uptime (checkAnalytics c)) ∧
  (cs_TotalChecks c = 0 →
   calculateCheckUptime c = f64_100 ∧ ca_Uptime (checkAnalytics c) = f64_zero).
Proof.
  split; [|split].
  - unfold extractHeatmapData, checkAnalytics. simpl.
    fold (lastN 30 (cs_FullHistory c)). fold (lastN 60 (cs_FullHistory c)).
    rewrite lastN_fmap, lastN_lastN by lia. done.
  - intros Hpos. unfold calculateCheckUptime, checkAnalytics, uptimeOf. simpl.
    rewrite (bool_decide_true (0 < _)) by done.
    rewrite (bool_decide_false (_ = 0)) by lia. done.
  - intros H0. unfold calculateCheckUptime, checkAnalytics, uptimeOf. simpl.
    rewrite (bool_decide_false (0 < _)) by lia.
    rewrite (bool_decide_true (_ = 0)) by done. done.
Qed.

Lemma dashboard_beside_analytics_witness :
  calculateCheckUptime (statusOfCheck pingCheck) = f64_100 ∧
  ca_Uptime (checkAnalytics (statusOfCheck pingCheck)) = f64_zero ∧
  let c := statusOfCheck pingCheck |> with_TotalChecks 4 |> with_SuccessChecks 3 in
  calculateCheckUptime c = ca_Uptime (checkAnalytics c).
Proof.
  split; [|split].
  - apply (dashboard_beside_analytics (statusOfCheck pingCheck)). reflexivity.
  - apply (dashboard_beside_analytics (statusOfCheck pingCheck)). reflexivity.
  - apply (dashboard_beside_analytics
             (statusOfCheck pingCheck |> with_TotalChecks 4 |> with_SuccessChecks 3)).
    vm_compute. reflexivity.
Defined.

(** ** The statements at work on the concrete deployment *)

Lemma history_caps_and_lifetime_counters_witness :
  unevaluated zeroCheckStatus ∧
  cs_FullHistory (recordAll [mkCheckDataPoint 100 true 12] zeroCheckStatus)
  = [mkCheckDataPoint 100 true 12].
Proof.
  split; [by repeat split|].
  destruct (history_caps_and_lifetime_counters zeroCheckStatus
              [mkCheckDataPoint 100 true 12]) as (_ & _ & _ & H & _).
  - repeat split; reflexivity.
  - exact H.
Defined.

Lemma counters_invariant_witness :
  cs_TotalChecks (recordDataPoint 200 false 0
                    (recordAll [mkCheckDataPoint 100 true 12] zeroCheckStatus)) = 2.
Proof.
  destruct (counters_invariant zeroCheckStatus [mkCheckDataPoint 100 true 12] 200 false 0)
    as (_ & H & _).
  - repeat split; reflexivity.
  - vm_compute. reflexivity.
  - rewrite H. vm_compute. reflexivity.
Defined.

(** ** A healthchecks URL that does not parse *)

(** An enabled check stays out of [runOnce] only by the depth of
    [IsParentOK]: with a parent chain that ends, what is left is the panic of
    a notifier. *)
Lemma runCheck_panics rs parseURL fuel now net hs i w p c parentOK :
  addr (hs_Checks hs) i = Some p →
  load (arrays (w_state w)) p = Some c →
  cs_Enabled c = true →
  IsParentOK fuel (w_state w) c = Some parentOK →
  runCheck rs parseURL fuel now net hs i w = None
  ↔ notifierPanics parseURL hs (net (hs_Name hs) i) parentOK c = true.
Proof.
  intros Hp Hc Hen Hpar.
  destruct (runCheck_enabled rs parseURL fuel now net hs i w p c parentOK Hp Hc Hen Hpar)
    as [-> _].
  by destruct (notifierPanics _ _ _ _ _).
Qed.

(** C1 fails on the code.  A ping check of a host whose healthchecks URL
    [url.Parse] turns down, such as [":"], takes the whole pass with it when
    its probe fails under a healthy parent: [notifyHealthchecksFail] panics
    before the transition is looked at, so that no ["down"] event is appended,
    coming from BLOCKED ("Google" in the third pass) as well as coming from UP
    ("Internet" in the second pass).  With a URL that parses the same passes
    append the one event. *)
Theorem unparsable_url_loses_down_event :
  let third := runOnce noRounding schemeURL 3 200 (answeringHosts true false) exampleOrder in
  let second := runOnce noRounding schemeURL 3 100 (answeringHosts false false)
                  exampleOrder in
  (eventSummary <$> scenarioWorldDown) = Some [(100, "Internet", "down")] ∧
  (scenarioWorldDown ≫= λ w, statusSummary w (mkPtr 1 0)) = Some (false, true) ∧
  (eventSummary <$> ((withHCURL "Google" "https://hc-ping.com/g" <$> scenarioWorldDown)
                       ≫= third))
  = Some [(100, "Internet", "down"); (200, "Internet", "recovered");
          (200, "Google", "down")] ∧
  is_Some (withHCURL "Google" ":" <$> scenarioWorldDown) ∧
  (∀ fuel, (withHCURL "Google" ":" <$> scenarioWorldDown)
             ≫= runOnce noRounding schemeURL fuel 200 (answeringHosts true false)
                  exampleOrder = None) ∧
  (scenarioWorldUp ≫= λ w, statusSummary w (mkPtr 0 0)) = Some (true, false) ∧
  (eventSummary <$> ((withHCURL "Internet" "https://hc-ping.com/i" <$> scenarioWorldUp)
                       ≫= second))
  = Some [(100, "Internet", "down")] ∧
  (∀ fuel, (withHCURL "Internet" ":" <$> scenarioWorldUp)
             ≫= runOnce noRounding schemeURL fuel 100 (answeringHosts false false)
                  exampleOrder = None).
Proof.
  split_and!.
  - vm_compute. reflexivity.
  - vm_compute. reflexivity.
  - vm_compute. reflexivity.
  - vm_compute. eauto.
  - intros [|[|fuel]]; vm_compute; reflexivity.
  - vm_compute. reflexivity.
  - vm_compute. reflexivity.
  - intros [|fuel]; vm_compute; reflexivity.
Qed.

(** C2 fails on the code.  "Internet" was genuinely DOWN and answers again in
    the third pass: with a healthchecks URL that parses the pass appends the
    ["recovered"] event with the duration since [LastDownAt]; with the URL
    [":"], [notifyHealthchecksOK] panics before the transition is looked at
    and the pass appends nothing. *)
Theorem unparsable_url_loses_recovered_event :
  let third := runOnce noRounding schemeURL 3 200 (answeringHosts true false) exampleOrder in
  (scenarioWorldDown ≫= λ w, statusSummary w (mkPtr 0 0)) = Some (false, false) ∧
  (eventDurations <$> ((withHCURL "Internet" "https://hc-ping.com/i" <$> scenarioWorldDown)
                         ≫= third))
  = Some [(100, "Internet", "down", 0); (200, "Internet", "recovered", 100);
          (200, "Google", "down", 0)] ∧
  is_Some (withHCURL "Internet" ":" <$> scenarioWorldDown) ∧
  (∀ fuel, (withHCURL "Internet" ":" <$> scenarioWorldDown)
             ≫= runOnce noRounding schemeURL fuel 200 (answeringHosts true false)
                  exampleOrder = None) ∧
  notifyHealthchecksOK schemeURL ":" = None.
Proof.
  split_and!.
  - vm_compute. reflexivity.
  - vm_compute. reflexivity.
  - vm_compute. eauto.
  - intros [|fuel]; vm_compute; reflexivity.
  - vm_compute. reflexivity.
Qed.

(** C6 fails on the code.  "Google", a ping check with the healthchecks URL
    [":"], does not answer.  Evaluated while "Internet" is down it is blocked
    and its data point is recorded; evaluated while "Internet" is up,
    [notifyHealthchecksFail] panics before [recordDataPoint] and nothing is
    recorded.  With a URL that parses both evaluations record the same. *)
Theorem unparsable_url_loses_data_point :
  let blocked := withHCURL "Google" ":" exampleWorldDown in
  let healthy := withHCURL "Google" ":" exampleWorldInternetUp in
  load (arrays (w_state blocked)) (mkPtr 1 0) = load (arrays (w_state healthy)) (mkPtr 1 0) ∧
  recorded blocked (mkPtr 1 0) = Some (1, 0, [false]) ∧
  IsParentOK 3 (w_state blocked) (statusAt blocked (mkPtr 1 0)) = Some false ∧
  IsParentOK 3 (w_state healthy) (statusAt healthy (mkPtr 1 0)) = Some true ∧
  (runCheck noRounding schemeURL 3 200 allDown colonGoogle 0 blocked
     ≫= λ w, recorded w (mkPtr 1 0)) = Some (2, 0, [false; false]) ∧
  (∀ fuel, runCheck noRounding schemeURL fuel 200 allDown colonGoogle 0 healthy = None) ∧
  (runCheck noRounding anyURL 3 200 allDown colonGoogle 0 healthy
     ≫= λ w, recorded w (mkPtr 1 0)) = Some (2, 0, [false; false]).
Proof.
  split_and!.
  - vm_compute. reflexivity.
  - vm_compute. reflexivity.
  - vm_compute. reflexivity.
  - vm_compute. reflexivity.
  - vm_compute. reflexivity.
  - intros [|[|fuel]]; vm_compute; reflexivity.
  - vm_compute. reflexivity.
Qed.

(** The scenario of the README, pass by pass: when the gateway fails, only the
    gateway raises an event and the dependent check is blocked; when the
    gateway is back and the dependent check still fails, the dependent check
    raises its own, single ["down"] event. *)
Lemma readme_scenario :
  (eventSummary <$> scenarioWorldDown) = Some [(100, "Internet", "down")] ∧
  (scenarioWorldDown ≫= λ w, statusSummary w (mkPtr 0 0)) = Some (false, false) ∧
  (scenarioWorldDown ≫= λ w, statusSummary w (mkPtr 1 0)) = Some (false, true) ∧
  (eventSummary <$> scenarioWorld)
  = Some [(100, "Internet", "down"); (200, "Internet", "recovered");
          (200, "Google", "down")] ∧
  (scenarioWorld ≫= λ w, statusSummary w (mkPtr 0 0)) = Some (true, false) ∧
  (scenarioWorld ≫= λ w, statusSummary w (mkPtr 1 0)) = Some (false, false).
Proof. vm_compute. by split_and!. Qed.

(** ** The MQTT settings *)

Lemma saveConfigLocked_Settings fs s files :
  config.Settings (cfg (saveConfigLocked fs s files).1.2) = config.Settings (cfg s).
Proof.
  unfold saveConfigLocked. case_bool_decide; [done|].
  destruct (_ || _); [|destruct (bool_decide _)];
    repeat match goal with
           | |- context [writeConfig ?a ?b ?c ?d] => destruct (writeConfig a b c d)
           end; done.
Qed.

(** X26. [UpdateMQTTSettings] puts the new settings into the config in
    memory and into the client before it reconnects, and saves the config only
    when the client reports no error: when the new settings ask for a
    connection to another broker, with other credentials or for the first
    time, and the broker does not answer, the error is returned, no file is
    written, and the store and the client hold the new settings all the same.
    When nothing that matters to the connection changed, or the client is
    switched off, the config is saved. *)
Theorem UpdateMQTTSettings_before_reconnect (fs : FsErr)
    (dial : config.MQTTSettings → mqtt.Answer) (new : config.MQTTSettings) (s : State)
    (c : mqtt.Client) (files : gmap string FileData) :
  mqttClient s = true →
  ∃ err s' c' files',
    UpdateMQTTSettings fs dial new s c files = Some (err, s', c', files') ∧
    GetMQTTSettings s' = new ∧ mqtt.GetSettings c' = new ∧
    hosts s' = hosts s ∧ arrays s' = arrays s ∧
    (reconnects (mqtt.settings c) new → config.mqtt_Enabled new = true →
     config.Broker new ≠ "" → dial new ≠ mqtt.Done →
     is_Some err ∧ files' = files) ∧
    (¬ reconnects (mqtt.settings c) new ∨ config.mqtt_Enabled new = false →
     (err, s', files')
     = saveConfigLocked fs (s |> with_cfg (config.mkConfig (config.Hosts (cfg s)) new))
         files).
Proof.
  intros Hclient. unfold UpdateMQTTSettings. simpl. rewrite Hclient. simpl.
  set (s1 := s |> with_cfg (config.mkConfig (config.Hosts (cfg s)) new)).
  assert (Hsaved : ∀ c',
            mqtt.GetSettings c' = new →
            ∃ err s' c'' files',
              Some ((saveConfigLocked fs s1 files).1.1, (saveConfigLocked fs s1 files).1.2,
                    c', (saveConfigLocked fs s1 files).2)
              = Some (err, s', c'', files') ∧
              GetMQTTSettings s' = new ∧ mqtt.GetSettings c'' = new ∧
              hosts s' = hosts s ∧ arrays s' = arrays s ∧
              (err, s', files') = saveConfigLocked fs s1 files).
  { intros c' Hc'. eexists _, _, _, _. split; [reflexivity|].
    destruct (saveConfigLocked_frame fs s1 files) as (Hh & Ha & _).
    split_and!; [apply saveConfigLocked_Settings|done|done|done|].
    by destruct (saveConfigLocked fs s1 files) as [[? ?] ?]. }
  assert (Hfailed : ∀ (e : string) c',
            mqtt.GetSettings c' = new →
            ∃ (err : option string) s' c'' (files' : gmap string FileData),
              Some (Some e, s1, c', files) = Some (err, s', c'', files') ∧
              GetMQTTSettings s' = new ∧ mqtt.GetSettings c'' = new ∧
              hosts s' = hosts s ∧ arrays s' = arrays s ∧
              is_Some err ∧ files' = files).
  { intros e c' Hc'. eexists _, _, _, _. split; [reflexivity|]. split_and!; eauto. }
  unfold mqtt.UpdateSettings.
  destruct (bool_decide (config.Broker (mqtt.settings c) ≠ config.Broker new)
            || bool_decide (config.Username (mqtt.settings c) ≠ config.Username new)
            || bool_decide (config.Password (mqtt.settings c) ≠ config.Password new)
            || bool_decide (config.mqtt_Enabled (mqtt.settings c) ≠ config.mqtt_Enabled new))
    eqn:Hchanged.
  - assert (Hrec : reconnects (mqtt.settings c) new).
    { unfold reconnects. repeat (apply orb_true_iff in Hchanged as [Hchanged|Hchanged]);
        apply bool_decide_eq_true in Hchanged; tauto. }
    assert (Hset : mqtt.settings (mqtt.Disconnect (mqtt.mkClient new (mqtt.client c)
                                                      (mqtt.connected c))) = new).
    { unfold mqtt.Disconnect. by destruct (_ && _). }
    destruct (config.mqtt_Enabled new) eqn:Hen.
    + unfold mqtt.Connect. rewrite Hset, Hen. simpl.
      destruct (bool_decide (config.Broker new = "")) eqn:Hbroker;
        [apply bool_decide_eq_true in Hbroker|clear Hbroker].
      * destruct (Hsaved (mqtt.Disconnect (mqtt.mkClient new (mqtt.client c)
                                             (mqtt.connected c))) Hset)
          as (err & s' & c' & files' & E & ? & ? & ? & ? & Hsave).
        exists err, s', c', files'. split_and!; [done..| |].
        -- intros _ _ Hb _. by destruct Hb.
        -- intros [Hno|Hoff]; [by destruct Hno|done].
      * destruct (dial new) as [| |e] eqn:Hdial.
        -- destruct (Hsaved (mqtt.mkClient new true true) eq_refl)
             as (err & s' & c' & files' & E & ? & ? & ? & ? & Hsave).
           exists err, s', c', files'. split_and!; [done..| |].
           ++ intros _ _ _ Hd. by destruct Hd.
           ++ intros [Hno|Hoff]; [by destruct Hno|done].
        -- destruct (Hfailed "MQTT connect timeout after 10s"
                       (mqtt.mkClient new true
                          (mqtt.connected (mqtt.Disconnect
                             (mqtt.mkClient new (mqtt.client c) (mqtt.connected c)))))
                       eq_refl)
             as (err & s' & c' & files' & E & ? & ? & ? & ? & Herr & Hfiles).
           exists err, s', c', files'. split_and!; [done..| |].
           ++ done.
           ++ intros [Hno|Hoff]; [by destruct Hno|done].
        -- destruct (Hfailed ("MQTT connect failed: " +:+ e)
                       (mqtt.mkClient new true
                          (mqtt.connected (mqtt.Disconnect
                             (mqtt.mkClient new (mqtt.client c) (mqtt.connected c)))))
                       eq_refl)
             as (err & s' & c' & files' & E & ? & ? & ? & ? & Herr & Hfiles).
           exists err, s', c', files'. split_and!; [done..| |].
           ++ done.
           ++ intros [Hno|Hoff]; [by destruct Hno|done].
    + destruct (Hsaved (mqtt.Disconnect (mqtt.mkClient new (mqtt.client c)
                                           (mqtt.connected c))) Hset)
        as (err & s' & c' & files' & E & ? & ? & ? & ? & Hsave).
      exists err, s', c', files'. split_and!; [done..| |]; [done|done].
  - assert (Hnot : ¬ reconnects (mqtt.settings c) new).
    { unfold reconnects. repeat (apply orb_false_iff in Hchanged as [Hchanged ?]).
      repeat match goal with H : bool_decide _ = false |- _ =>
               apply bool_decide_eq_false in H end. tauto. }
    destruct (Hsaved (mqtt.mkClient new (mqtt.client c) (mqtt.connected c)) eq_refl)
      as (err & s' & c' & files' & E & ? & ? & ? & ? & Hsave).
    exists err, s', c', files'. split_and!; [done..| |]; [done|done].
Qed.

Lemma UpdateMQTTSettings_before_reconnect_witness :
  ∃ err s' c' files',
    UpdateMQTTSettings fsOK unreachable
      (config.mkMQTTSettings true "tcp://broker:1883" "" "" "" "")
      exampleStateAt (mqtt.NewClient (config.mkMQTTSettings false "" "" "" "" "")) ∅
    = Some (err, s', c', files') ∧
    GetMQTTSettings s' = config.mkMQTTSettings true "tcp://broker:1883" "" "" "" "" ∧
    is_Some err ∧ files' = ∅.
Proof.
  destruct (UpdateMQTTSettings_before_reconnect fsOK unreachable
              (config.mkMQTTSettings true "tcp://broker:1883" "" "" "" "")
              exampleStateAt (mqtt.NewClient (config.mkMQTTSettings false "" "" "" "" "")) ∅)
    as (err & s' & c' & files' & E & H1 & _ & _ & _ & H2 & _); [reflexivity|].
  destruct H2 as [He Hf]; [left; discriminate|reflexivity|discriminate|discriminate|].
  exists err, s', c', files'. by split_and!.
Defined.

(** * Loading, escaping and requests *)

(** ** [escapeMarkdown] *)

Lemma replaceFrom_byte (x : ascii) (new : string) (ch : ascii) (rest : string) :
  replaceFrom (String x "") new 0 (String ch rest)
  = (if Ascii.eqb x ch then new else String ch "") +:+ replaceFrom (String x "") new 0 rest.
Proof.
  cbn [replaceFrom String.prefix String.length].
  destruct (ascii_dec x ch) as [->|Hne].
  - rewrite Ascii.eqb_refl. by destruct rest.
  - rewrite (proj2 (Ascii.eqb_neq x ch) Hne). done.
Qed.

Lemma ReplaceAll_byte_app (x : ascii) (new a b : string) :
  ReplaceAll (a +:+ b) (String x "") new
  = ReplaceAll a (String x "") new +:+ ReplaceAll b (String x "") new.
Proof.
  unfold ReplaceAll. induction a as [|ch a IH].
  - done.
  - change (String ch a +:+ b) with (String ch (a +:+ b)).
    rewrite !replaceFrom_byte, IH. by rewrite string_app_assoc.
Qed.

Lemma escapeMarkdown_app (a b : string) :
  escapeMarkdown (a +:+ b) = escapeMarkdown a +:+ escapeMarkdown b.
Proof.
  unfold escapeMarkdown, special. cbn [foldl]. by rewrite !ReplaceAll_byte_app.
Qed.

Lemma escapeMarkdown_byte (ch : ascii) :
  escapeMarkdown (String ch "")
  = if isSpecial ch then backslash +:+ String ch "" else String ch "".
Proof.
  destruct ch as [[] [] [] [] [] [] [] []]; vm_compute; reflexivity.
Qed.

(** X27. The eighteen replacement passes of [escapeMarkdown] amount to one
    pass over the bytes of the text: each of the eighteen special bytes gets
    one backslash before it and every other byte is kept, a backslash of the
    text included; no pass escapes what an earlier pass wrote. *)
Theorem escapeMarkdown_escapes_each_byte (s : string) :
  escapeMarkdown s = escapeEach s.
Proof.
  induction s as [|ch s IH]; [done|].
  change (String ch s) with (String ch "" +:+ s) at 1.
  rewrite escapeMarkdown_app, escapeMarkdown_byte, IH.
  cbn [escapeEach]. by destruct (isSpecial ch).
Qed.

(** ** [Load] *)

Lemma rebuildCheckIndex_cfg order s : cfg (rebuildCheckIndex order s) = cfg s.
Proof. done. Qed.

Lemma New_cfg growslice order c : cfg (New growslice order c) = c.
Proof.
  unfold New. rewrite rebuildCheckIndex_cfg.
  match goal with |- cfg (foldl ?f ?st ?l) = _ =>
    assert (H : ∀ hs st0, cfg (foldl f st0 hs) = cfg st0); [|by rewrite H] end.
  induction hs as [|h hs IH]; intros st0; [done|].
  simpl. rewrite IH. by destruct (appendAll _ _ _ _).
Qed.

(** X28. [Load] turns down a path whose extension is none of [.yaml],
    [.yml] and [.toml] without reading it, and a config that it returns
    declares no host without checks: a host that the file lists without
    checks has been given one enabled ping check.  So the store that [New]
    builds from a loaded config with distinct host names has no host
    without checks. *)
Theorem Load_gives_every_host_a_check (growslice : nat → nat) (order : list string)
    (read : string → Parser → string + config.Config) (path : string) :
  (Ext path ∉ [".yaml"; ".yml"; ".toml"] →
   Load read path = inl ("unsupported config extension: " +:+ Ext path)) ∧
  (∀ c, Load read path = inr c →
     (∃ parser parsed, read path parser = inr parsed ∧
        config.Settings c = config.Settings parsed ∧
        Forall2 (λ h h', (config.Checks h' ≠ [] → h = h') ∧
                         (config.Checks h' = [] → h = with_Checks [pingCheck] h'))
          (config.Hosts c) (config.Hosts parsed)) ∧
     Forall (λ h, config.Checks h ≠ []) (config.Hosts c) ∧
     (NoDup (config.Name <$> config.Hosts c) →
      ∀ name cs, view (New growslice order c) !! name = Some cs → cs ≠ [])).
Proof.
  split.
  - intros Hext. unfold Load.
    rewrite !bool_decide_false; [done|..]; intros E; apply Hext; rewrite E; set_solver.
  - intros c Hload. unfold Load in Hload.
    destruct (if bool_decide (Ext path = ".yaml") || bool_decide (Ext path = ".yml")
              then inr ParserYAML
              else if bool_decide (Ext path = ".toml") then inr ParserTOML
                   else inl ("unsupported config extension: " +:+ Ext path))
      as [err|parser]; [done|].
    destruct (read path parser) as [err|parsed] eqn:Hread; [done|].
    injection Hload as <-.
    assert (Hall : Forall (λ h, config.Checks h ≠ [])
                     (config.Hosts
                        (with_Hosts
                           ((λ h, if bool_decide (length (config.Checks h) = 0%nat)
                                  then with_Checks [pingCheck] h else h)
                              <$> config.Hosts parsed) parsed))).
    { simpl. apply Forall_fmap, Forall_forall. intros h _. simpl.
      case_bool_decide as Hlen; [done|]. intros E. by rewrite E in Hlen. }
    split; [|split; [exact Hall|]].
    + exists parser, parsed. split; [done|]. split; [done|]. simpl.
      apply Forall2_fmap_l, Forall_Forall2_diag, Forall_forall. intros h _.
      unfold compose.
      destruct (bool_decide (length (config.Checks h) = 0%nat)) eqn:Hlen.
      * apply bool_decide_eq_true in Hlen. split; [|done].
        intros Hne. by destruct (config.Checks h).
      * apply bool_decide_eq_false in Hlen. split; [done|].
        intros E. by rewrite E in Hlen.
    + intros Hnd name cs Hcs.
      destruct (New_consistent growslice order _ Hnd) as [_ (_ & Hdecl & Hag)].
      rewrite New_cfg in Hdecl, Hag.
      specialize (Hdecl name (mk_is_Some _ _ Hcs)).
      apply list_elem_of_fmap in Hdecl as (h & -> & Hin).
      rewrite Forall_forall in Hag. destruct (Hag h Hin) as (cs' & Hcs' & Hf2).
      rewrite Forall_forall in Hall. specialize (Hall h Hin).
      rewrite Hcs in Hcs'. injection Hcs' as <-.
      intros ->. apply Forall2_nil_inv_l in Hf2. done.
Qed.

Lemma Load_gives_every_host_a_check_witness :
  Load (λ _ _, inr bareConfig) "/etc/poke443/config.toml.bak"
  = inl "unsupported config extension: .bak" ∧
  ∀ name cs,
    view (New doubling ["db"]
            (config.mkConfig [config.mkHost "db" "10.0.0.9" [pingCheck] ""]
               (config.mkMQTTSettings false "" "" "" "" ""))) !! name = Some cs →
    cs ≠ [].
Proof.
  split.
  - apply (Load_gives_every_host_a_check doubling [] (λ _ _, inr bareConfig)
             "/etc/poke443/config.toml.bak").
    vm_compute. intros H. repeat (apply elem_of_cons in H as [H|H]; [discriminate|]).
    by apply elem_of_nil in H.
  - apply (Load_gives_every_host_a_check doubling ["db"] (λ _ _, inr bareConfig)
             "/etc/poke443/config.yaml").
    + vm_compute. reflexivity.
    + refine (bool_decide_unpack _ _). vm_compute. exact I.
Defined.

(** ** Requests *)

Lemma saveConfigLocked_ok fs s files :
  (∀ op, fs op = None) → (saveConfigLocked fs s files).1.1 = None.
Proof.
  intros Hfs. unfold saveConfigLocked, writeConfig. rewrite !Hfs.
  repeat (destruct (bool_decide _); simpl; try done).
Qed.

Lemma AddHostWithoutDefaultCheck_view fs name address hcurl s files :
  hosts s !! name = None →
  view (AddHostWithoutDefaultCheck fs name address hcurl s files).1.2
  = <[name := []]> (view s).
Proof.
  intros Hnone. unfold AddHostWithoutDefaultCheck. rewrite Hnone.
  match goal with |- context [saveConfigLocked fs ?s1 files] =>
    destruct (saveConfigLocked_frame fs s1 files) as (Hh & Ha & _) end.
  unfold view, checksOf. rewrite Hh, Ha. simpl. by rewrite fmap_insert.
Qed.

Lemma view_checksOf s name cs :
  view s !! name = Some cs → ∃ hs, hosts s !! name = Some hs ∧ checksOf s hs = cs.
Proof.
  rewrite view_lookup. destruct (hosts s !! name) as [hs|]; [|done].
  intros [= <-]. by exists hs.
Qed.

Lemma addCheck_appends growslice fs order name rt decl s files cs b :
  checkAgrees b rt decl → consistent b s → view s !! name = Some cs →
  let r := addCheck growslice fs order name rt decl s files in
  consistent b r.1.2 ∧ view r.1.2 = <[name := cs ++ [rt]]> (view s).
Proof.
  intros Hag Hs Hcs. destruct (view_checksOf s name cs Hcs) as (hs & Hhs & <-).
  split.
  - by apply (addCheck_settled growslice b fs order name rt decl s files).
  - by apply (addCheck_result growslice fs order name rt decl s files hs (proj1 Hs)).
Qed.

Lemma newCheck_agrees b ty url expect port id dependsOn mqttNotify :
  checkAgrees b
    (zeroCheckStatus |> with_Type ty |> with_Enabled true |> with_URL url
       |> with_Expect expect |> with_Port port |> with_ID id |> with_DependsOn dependsOn
       |> with_MQTTNotify mqttNotify)
    (config.mkCheck ty true url expect port id dependsOn mqttNotify).
Proof. unfold checkAgrees. simpl. by destruct b. Qed.

Lemma AddCheck_appends growslice fs order name url expect port id dependsOn mqttNotify
    s files cs b :
  consistent b s → view s !! name = Some cs →
  (∃ c, cs_Type c = CheckPing ∧
     let r := AddPingCheck growslice fs order name id dependsOn mqttNotify s files in
     consistent b r.1.2 ∧ view r.1.2 = <[name := cs ++ [c]]> (view s)) ∧
  (∃ c, cs_Type c = CheckHTTP ∧
     let r := AddHTTPCheck growslice fs order name url expect id dependsOn mqttNotify
                s files in
     consistent b r.1.2 ∧ view r.1.2 = <[name := cs ++ [c]]> (view s)) ∧
  (∃ c, cs_Type c = CheckTCP ∧
     let r := AddTCPCheck growslice fs order name port id dependsOn mqttNotify s files in
     consistent b r.1.2 ∧ view r.1.2 = <[name := cs ++ [c]]> (view s)).
Proof.
  intros Hs Hcs. unfold AddPingCheck, AddHTTPCheck, AddTCPCheck.
  split_and!; (eexists; split; [|apply addCheck_appends; [|done..]]; [done|]);
    unfold checkAgrees; simpl; by destruct b.
Qed.

Lemma addListedCheck_appends growslice fs order r name s files it cs b :
  consistent b s → view s !! name = Some cs →
  let acc := addListedCheck growslice fs order r name (s, files) it in
  consistent b acc.1 ∧
  ∃ new, view acc.1 = <[name := cs ++ new]> (view s) ∧
         cs_Type <$> new = option_list (typeNamed it.2).
Proof.
  intros Hs Hcs. destruct it as [i typ]. unfold addListedCheck, typeNamed. simpl.
  match goal with |- context [AddPingCheck _ _ _ _ ?id ?dep ?mq _ _] =>
    set (id0 := id); set (dep0 := dep); set (mq0 := mq) end.
  destruct (bool_decide (typ = "ping")).
  { destruct (AddCheck_appends growslice fs order name "" 0 0 id0 dep0 mq0 s files cs b
                Hs Hcs) as ((c & Hty & Hc & Hv) & _).
    split; [done|]. exists [c]. split; [done|]. simpl. by rewrite Hty. }
  destruct (bool_decide (typ = "http")).
  { match goal with |- context [AddHTTPCheck _ _ _ _ ?u ?e _ _ _ _ _] =>
      destruct (AddCheck_appends growslice fs order name u e 0 id0 dep0 mq0 s files cs b
                  Hs Hcs) as (_ & (c & Hty & Hc & Hv) & _) end.
    split; [done|]. exists [c]. split; [done|]. simpl. by rewrite Hty. }
  destruct (bool_decide (typ = "tcp")).
  { match goal with |- context [AddTCPCheck _ _ _ _ ?p _ _ _ _ _] =>
      destruct (AddCheck_appends growslice fs order name "" 0 p id0 dep0 mq0 s files cs b
                  Hs Hcs) as (_ & _ & (c & Hty & Hc & Hv)) end.
    split; [done|]. exists [c]. split; [done|]. simpl. by rewrite Hty. }
  split; [done|]. exists []. split; [|done].
  rewrite app_nil_r. symmetry. by apply insert_id.
Qed.

Lemma addListedChecks_append growslice fs order r name b its : ∀ s files cs,
  consistent b s → view s !! name = Some cs →
  let acc := foldl (addListedCheck growslice fs order r name) (s, files) its in
  consistent b acc.1 ∧
  ∃ new, view acc.1 = <[name := cs ++ new]> (view s) ∧
         cs_Type <$> new = omap typeNamed its.*2.
Proof.
  induction its as [|it its IH]; intros s files cs Hs Hcs.
  - simpl. split; [done|]. exists []. split; [|done].
    rewrite app_nil_r. symmetry. by apply insert_id.
  - cbn [foldl].
    destruct (addListedCheck_appends growslice fs order r name s files it cs b Hs Hcs)
      as (Hs1 & new1 & Hv1 & Hty1).
    destruct (addListedCheck growslice fs order r name (s, files) it) as [s1 files1].
    simpl in Hs1, Hv1.
    destruct (IH s1 files1 (cs ++ new1) Hs1) as (Hs2 & new2 & Hv2 & Hty2).
    { by rewrite Hv1, lookup_insert_eq. }
    split; [done|]. exists (new1 ++ new2). split.
    + rewrite Hv2, Hv1, insert_insert_eq. by rewrite app_assoc.
    + rewrite fmap_app, Hty1, Hty2. destruct it as [i typ]. simpl.
      by destruct (typeNamed typ).
Qed.

Lemma imap_pair_snd {A} (l : list A) : (imap pair l).*2 = l.
Proof.
  rewrite fmap_imap. rewrite <- (list_fmap_id l) at 2.
  rewrite <- (imap_const id l). done.
Qed.

(** X29. [handleAddHost] on a POST with a name and an address of a host
    that does not exist yet: when the first save fails it answers 409 and
    the host stays in the store without any check; otherwise it answers 200
    and the host has one check per entry of [checks_type] that names a type,
    in the order of the form, entries with another type being skipped, or,
    when the form lists none, the one check of the type selector.  The checks
    of the other hosts are as before, the config agrees with the store, and
    with a file system that gives no error the answer is 200. *)
Theorem handleAddHost_adds_listed_checks (growslice : nat → nat) (fs : FsErr)
    (order : list string) (b : bool) (r : Request) (s : State)
    (files : gmap string FileData) :
  consistent b s → Method r = "POST" →
  FormValue r "name" ≠ "" → FormValue r "address" ≠ "" →
  hosts s !! FormValue r "name" = None →
  let res := handleAddHost growslice fs order r s files in
  consistent b res.1.2 ∧
  ((∀ op, fs op = None) → res.1.1 = 200) ∧
  (res.1.1 = 409 ∧ view res.1.2 = <[FormValue r "name" := []]> (view s) ∨
   res.1.1 = 200 ∧
   ∃ cs, view res.1.2 = <[FormValue r "name" := cs]> (view s) ∧
         cs_Type <$> cs = listedTypes r).
Proof.
  intros Hs Hpost Hname Haddr Hnone. unfold handleAddHost.
  rewrite (bool_decide_false (Method r ≠ "POST")) by (by intros H; apply H).
  rewrite (bool_decide_false (FormValue r "name" = "")) by done.
  rewrite (bool_decide_false (FormValue r "address" = "")) by done.
  cbn [orb].
  set (name := FormValue r "name") in *.
  pose proof (AddHostWithoutDefaultCheck_settled b fs name (FormValue r "address")
                (FormValue r "hcurl") s files Hs) as [Hs1 _].
  pose proof (AddHostWithoutDefaultCheck_view fs name (FormValue r "address")
                (FormValue r "hcurl") s files Hnone) as Hv1.
  assert (Hok : (∀ op, fs op = None) →
                (AddHostWithoutDefaultCheck fs name (FormValue r "address")
                   (FormValue r "hcurl") s files).1.1 = None).
  { intros Hfs. unfold AddHostWithoutDefaultCheck. rewrite Hnone.
    by apply saveConfigLocked_ok. }
  destruct (AddHostWithoutDefaultCheck fs name (FormValue r "address")
              (FormValue r "hcurl") s files) as [[[err|] s1] files1]; simpl in *.
  { split; [done|]. split; [|by left]. intros Hfs. by specialize (Hok Hfs). }
  assert (Hcs : view s1 !! name = Some []) by (by rewrite Hv1, lookup_insert_eq).
  unfold listedTypes.
  destruct (Form r "checks_type") as [|typ types] eqn:Htypes.
  - rewrite bool_decide_true by done. unfold typeNamed.
    match goal with |- context [AddPingCheck _ _ _ _ ?id ?dep ?mq _ _] =>
      set (id0 := id); set (dep0 := dep); set (mq0 := mq) end.
    set (T := FormValue r "type").
    assert (Hdone : ∀ (res : Result) c ty,
              cs_Type c = ty → consistent b res.1.2 →
              view res.1.2 = <[name := [] ++ [c]]> (view s1) →
              consistent b res.1.2 ∧
              ((∀ op, fs op = None) → (200 : Status) = 200) ∧
              ((200 : Status) = 409 ∧ view res.1.2 = <[name := []]> (view s) ∨
               (200 : Status) = 200 ∧
               ∃ cs, view res.1.2 = <[name := cs]> (view s) ∧ cs_Type <$> cs = [ty])).
    { intros res c ty Hty Hc Hv. split; [done|]. split; [done|]. right. split; [done|].
      exists [c]. split; [by rewrite Hv, Hv1, insert_insert_eq|]. simpl. by rewrite Hty. }
    destruct (decide (T = "http")) as [Eh|Nh].
    { rewrite (bool_decide_true (T = "http")) by done.
      rewrite (bool_decide_false (T = "ping")) by (by rewrite Eh).
      match goal with |- context [AddHTTPCheck _ _ _ _ ?u ?e _ _ _ _ _] =>
        destruct (AddCheck_appends growslice fs order name u e 0 id0 dep0 mq0 s1 files1 []
                    b Hs1 Hcs) as (_ & (c & Hty & Hc & Hv) & _) end.
      by apply (Hdone _ c). }
    rewrite (bool_decide_false (T = "http")) by done.
    destruct (decide (T = "tcp")) as [Et|Nt].
    { rewrite (bool_decide_true (T = "tcp")) by done.
      rewrite (bool_decide_false (T = "ping")) by (by rewrite Et).
      match goal with |- context [AddTCPCheck _ _ _ _ ?p _ _ _ _ _] =>
        destruct (AddCheck_appends growslice fs order name "" 0 p id0 dep0 mq0 s1 files1 []
                    b Hs1 Hcs) as (_ & _ & (c & Hty & Hc & Hv)) end.
      by apply (Hdone _ c). }
    rewrite (bool_decide_false (T = "tcp")) by done.
    destruct (AddCheck_appends growslice fs order name "" 0 0 id0 dep0 mq0 s1 files1 []
                b Hs1 Hcs) as ((c & Hty & Hc & Hv) & _).
    replace (match (if bool_decide (T = "ping") then Some CheckPing else None) with
             | Some t => t
             | None => CheckPing
             end) with CheckPing by (by destruct (bool_decide (T = "ping"))).
    by apply (Hdone _ c).
  - rewrite bool_decide_false by done.
    destruct (addListedChecks_append growslice fs order r name b (imap pair (typ :: types))
                s1 files1 [] Hs1 Hcs) as (Hs2 & new & Hv2 & Hty2).
    destruct (foldl (addListedCheck growslice fs order r name) (s1, files1)
                (imap pair (typ :: types))) as [s2 files2].
    simpl in Hs2, Hv2. cbv zeta. cbn [fst snd].
    split; [done|]. split; [done|]. right. split; [done|].
    exists new. split; [by rewrite Hv2, Hv1, insert_insert_eq|].
    by rewrite Hty2, imap_pair_snd.
Qed.

Lemma handleAddHost_adds_listed_checks_witness :
  let res := handleAddHost doubling fsOK exampleOrder exampleForm exampleStateAt ∅ in
  res.1.1 = 200 ∧
  ∃ cs, view res.1.2 = <["db" := cs]> (view exampleStateAt) ∧
        cs_Type <$> cs = [CheckPing; CheckTCP].
Proof.
  destruct (handleAddHost_adds_listed_checks doubling fsOK exampleOrder true exampleForm
              exampleStateAt ∅) as (_ & H200 & [[H409 _]|[_ Hcs]]).
  - exact exampleStateAt_consistent.
  - reflexivity.
  - vm_compute. discriminate.
  - vm_compute. discriminate.
  - vm_compute. reflexivity.
  - rewrite H200 in H409 by done. discriminate.
  - split; [by apply H200|]. exact Hcs.
Defined.

Lemma alter_present {A} (f : A → A) (m : gmap string A) (k : string) (x : A) :
  m !! k = Some x → alter f k m = <[k := f x]> m.
Proof.
  intros Hx. apply map_eq. intros j. destruct (decide (k = j)) as [<-|Hne].
  - by rewrite lookup_alter_eq, lookup_insert_eq, Hx.
  - by rewrite lookup_alter_ne, lookup_insert_ne.
Qed.

(** X30. A POST that names a host with at least one check and carries no
    [idx] field acts on the host's first check, since the handlers drop the
    error of [strconv.Atoi] and go on with its 0: [handleToggle] sets the
    [Enabled] flag of the first check, and [handleEditDelCheck] removes the
    first check, also when it answers 409 because the save failed. *)
Theorem requests_without_index_reach_first_check (fs : FsErr) (r : Request) (s : State)
    (files : gmap string FileData) (hs : HostStatus) (c : CheckStatus)
    (cs : list CheckStatus) :
  wfStore s → Method r = "POST" → Form r "idx" = [] →
  hosts s !! FormValue r "host" = Some hs → checksOf s hs = c :: cs →
  (handleToggle r s).1 = 200 ∧
  view (handleToggle r s).2
  = <[FormValue r "host" :=
        with_Enabled (bool_decide (FormValue r "enabled" = "true")) c :: cs]> (view s) ∧
  let res := handleEditDelCheck fs r s files in
  view res.1.2 = <[FormValue r "host" := cs]> (view s) ∧
  (res.1.1 = 200 ∨ res.1.1 = 409) ∧
  ((∀ op, fs op = None) → res.1.1 = 200).
Proof.
  intros Hwf Hpost Hidx Hhs Hcs. unfold handleToggle, handleEditDelCheck.
  rewrite !(bool_decide_false (Method r ≠ "POST")) by (by intros H; apply H).
  assert (Hzero : (Atoi (FormValue r "idx")).1 = 0).
  { unfold FormValue. by rewrite Hidx. }
  rewrite !Hzero. set (host := FormValue r "host") in *.
  assert (Hview : view s !! host = Some (c :: cs)).
  { by rewrite view_lookup, Hhs, <- Hcs. }
  assert (Hbad : badIndex 0 (sl_len (hs_Checks hs)) = false).
  { apply badIndex_false. split; [done|].
    rewrite <- (elems_length (arrays s)) by by eapply wfStore_sliceOK.
    fold (checksOf s hs). rewrite Hcs. simpl. lia. }
  split; [done|]. split.
  - destruct (Toggle_view host 0 (bool_decide (FormValue r "enabled" = "true")) s Hwf)
      as [Hv _].
    cbn [snd]. rewrite Hv, bool_decide_true by done.
    by rewrite (alter_present _ _ _ _ Hview).
  - pose proof (RemoveCheck_view fs host 0 s files hs Hwf Hhs Hbad) as Hv.
    rewrite Hcs in Hv. change (delete (Z.to_nat 0) (c :: cs)) with cs in Hv.
    assert (Hok : (∀ op, fs op = None) → (RemoveCheck fs host 0 s files).1.1 = None).
    { intros Hfs. unfold RemoveCheck. rewrite Hhs, Hbad.
      destruct (removeAt _ _ _). by apply saveConfigLocked_ok. }
    destruct (RemoveCheck fs host 0 s files) as [[[err|] s1] files1]; simpl in *.
    + split; [done|]. split; [by right|]. intros Hfs. by specialize (Hok Hfs).
    + split; [done|]. split; [by left|]. done.
Qed.

Lemma requests_without_index_reach_first_check_witness :
  (λ cs : list CheckStatus, cs_ID <$> cs)
    <$> view (handleEditDelCheck (λ _, Some "read-only file system") (hostOnly "web")
                webState ∅).1.2 !! "web"
  = Some ["b"].
Proof.
  destruct (requests_without_index_reach_first_check (λ _, Some "read-only file system")
              (hostOnly "web") webState ∅
              (mkHostStatus "web" "10.0.0.5" (mkSlice (Some 1%nat) 2) "")
              (statusOfCheck (config.mkCheck CheckPing true "" 0 0 "a" "" false))
              [statusOfCheck (config.mkCheck CheckTCP true "" 0 443 "b" "" false)])
    as (_ & _ & H & _).
  - apply (New_consistent doubling ["web"] webConfig).
    refine (bool_decide_unpack _ _). vm_compute. exact I.
  - reflexivity.
  - reflexivity.
  - vm_compute. reflexivity.
  - vm_compute. reflexivity.
  - rewrite H. vm_compute. reflexivity.
Defined.
